(* ===== verification/_CoqProject ===== *)
-Q . S2P
Prelude.v
GoStd.v
Glob.v
GlobFacts.v
Strconv.v
Bytes.v
Json.v
Containers.v
Heap.v
Bing.v
Spinlock.v
Sstring.v
Field.v
FieldList.v
FieldBinary.v
Geo.v
Object.v
Collection.v
CollectionScan.v
Group.v
World.v
Hooks.v
Crud.v
CrudFacts.v
JsonCmd.v
Keys.v
Command.v
Dataset.v
Aof.v
Replay.v
Shrink.v
Token.v
Scanner.v
Search.v
SetHook.v
Fence.v
Notify.v
Delivery.v
PackedRTree.v
PackedBuild.v
PackedSearch.v
PackedStream.v
Hilbert.v
Fgb.v
FgbWriter.v
FgbReader.v
FgbSafe.v
FgbFile.v
PropCodec.v
Effects.v
Enumer.v
Job.v
JobFacts.v
JobStore.v
JobSync.v
JobSave.v
JobEvents.v
JobExamples.v
