(* ===== verification/Prelude.v ===== *)
(** * SpatialDB Engine: a verification development

    ** The program

    The engine is a spatial database server with a set of geometry libraries next to it.

    - The server, [src/internal/legacy], keeps collections of objects (a geometry or a
      string, fields, an expiration time) under keys. Clients read and change them with
      commands ([server/crud.go], [json.go], [keys.go], [scan.go], [search.go]); [server.go]
      dispatches a command and guards it with a spinning read-write lock. A command that
      changes something is appended to a log ([aof.go]), from which the server starts again,
      and which is rewritten from time to time ([aofshrink.go]). Objects expire in the
      background ([expire.go]). Hooks and channels ([hooks.go]) watch a collection through a
      geofence ([fence.go]); what a change makes of them is queued and delivered by a
      goroutine that each hook has.
    - [src/internal/formats/flatgeobuf] reads and writes FlatGeobuf files: a header, a packed
      Hilbert R-tree and the features.
    - [src/internal/raster] keeps rasters in a catalog and rewrites them in jobs. A job moves
      through states on events, its tasks are done by workers that report with events, and
      the processes that handle events share a database, in which each job has a version.

    ** Files and what they model

    Foundations:
    - [Prelude]: results with errors, notations, tactics, hint databases and general lemmas.
    - [GoStd], [Strconv], [Bytes], [Heap]: what the sources use of Go and its standard
      library: strings and UTF-8, varints, 64-bit integers with wrap-around, IEEE-754 floats
      with the parsing and printing of [strconv], byte orders, [container/heap].
    - [Containers], [Geo], [World]: third-party packages (hash map, B-trees, R-tree, geojson,
      gjson, geohash) as classes with their documented laws, with instances over lists.

    The server ([src/internal/legacy]):
    - [Glob], [GlobFacts]: [glob/match.go], [glob/glob.go].
    - [Sstring], [Field], [FieldList], [FieldBinary]: [sstring], [field] (both list builds).
    - [Object], [Collection], [CollectionScan], [Group]: [object] (both builds),
      [collection/collection.go], [server/group.go].
    - [Json], [JsonCmd], [Crud], [CrudFacts], [Keys]: the commands of [server/json.go],
      [crud.go], [keys.go] and the background task of [expire.go], one definition each.
    - [Token], [Scanner], [Search], [Bing]: [server/token.go], [scanner.go], [scan.go],
      [search.go] and the tile arithmetic of [bing].
    - [Hooks], [SetHook], [Fence], [Notify], [Delivery]: [server/hooks.go], [fence.go] and
      the notification part of [aof.go].
    - [Command], [Dataset], [Aof], [Replay], [Shrink]: the dispatch of [server/server.go],
      the abstract data set, the log of [aof.go] and its rewriting in [aofshrink.go].
    - [Spinlock]: [rwspinlock] of [server/server.go].

    FlatGeobuf ([src/internal/formats/flatgeobuf]):
    - [PackedRTree], [PackedBuild], [PackedSearch], [PackedStream], [Hilbert]: the package
      [packedrtree].
    - [Fgb], [FgbWriter], [FgbReader], [FgbSafe], [FgbFile], [PropCodec]: the package
      [flatgeobuf] ([stateful.go], [errors.go], [spec.go], [flatbuffers.go], [file_writer.go],
      [file_reader.go], [prop_writer.go], [prop_reader.go], [schema.go]).

    The raster service ([src/internal/raster]):
    - [Effects]: computations with a state, errors and panics, and triples about them.
    - [Enumer]: the generated methods of nine enumerations ([geocube/*_enumer.go],
      [utils/bitmap/dtype_enumer.go]).
    - [Job], [JobFacts]: [geocube/job.go], [task.go], [state.go], [geocubeerrors.go], the
      events of [consolidation_event.go]; the diagram of states.
    - [JobStore]: [pg/pg_jobs.go], [saveJob] of [svc/persister.go], [unitOfWork] and [GetJob]
      of [svc/service.go]. The tables are finite maps; every call can fail, and between two
      calls outside of a transaction other processes change the tables, but not during a
      transaction, which the default level of the database would allow.
    - [JobSync], [JobSave], [JobEvents], [JobExamples]: the job in memory and its rows, how it
      is saved, and the handlers of events of [svc/operations.go] among other processes.

    ** Conventions

    A Go struct is a record, its methods are functions that return the new value; pure
    functions are functions. A function with an error returns a [result]; where a method
    goes through many errors and panics ([Fgb]) it is a computation in a monad with the
    receiver as state. A string is a [string] of bytes, a byte slice a [list ascii]; integers
    are [Z] and wrap where the source can overflow; a float is a [SpecFloat] value, or its 64
    bits where it is only stored. Goroutines are transition systems whose steps are the
    critical sections ([Spinlock], [Delivery], [Shrink], [Replay]).

    ** What is proved

    Each theorem states its conditions; the ones that matter most are named here.

    - The log: as long as no hook is set, run on the abstract data set (geometries and fields
      of objects) it gives the data set of the server at every moment, for all modelled
      commands but JDEL, which the code changes data with and does not log; loading it gives
      the data set back after a crash up to the commands that had not reached the file
      ([Replay], [Aof], [Dataset]). Rewriting it while the server does not change ends with
      one command for every object and hook, and rebuilds the data set if the objects can be
      read back from their text; a change between the batches can lose data, which an example
      shows ([Shrink]). The two results are not joined: the first is about a log that was not
      rewritten.
    - Indexes: those of a collection, of the hooks and of the groups describe the same things
      after every operation; packed field lists and objects refine the plain ones
      ([Collection], [Hooks], [Group], [FieldBinary], [Object]).
    - Commands: the effect, reply and errors of the commands that change objects, bounds of
      accepted options, which arguments can panic, and paging through cursors, which visits
      every object once if the patterns are of a form whose key range is sound, which that of
      some patterns is not ([CrudFacts], [Token], [Scanner], [Search], [GlobFacts]).
    - Hooks and fences: the searches of the hook indexes find every hook with an area that a
      change other than DEL and DROP makes speak; messages are the ones of the transition
      that happened. One manager of a hook delivers in order and nothing twice, and, when
      its endpoints accept, all that is queued; messages that are refused for half a minute
      are dropped, and the time in which a replaced hook has two managers is not covered
      ([Fence], [Notify], [Delivery], [SetHook]).
    - Concurrency: the lock excludes writers from readers, and a goroutine that spins for it
      while it is free gets it ([Spinlock]).
    - FlatGeobuf: an index finds exactly the references that meet the query, in memory and on
      a stream; the search of a file finds exactly the features, except on a stream that can
      seek and whose index was not read before, where an example shows wrong ones; sizes do
      not overflow; the curve is a Hilbert curve; files come back as they were
      written, and properties if every column has a value; on any bytes and in any order of
      calls the reader does not end in a panic its authors marked as a logic error, unless a
      call has returned the error of a panic of the FlatBuffers code, after which it can
      ([PackedStream], [PackedSearch], [PackedBuild], [Hilbert], [FgbFile], [FgbSafe],
      [PropCodec]).
    - Raster jobs: the values of enumerations survive text and database ([Enumer]); whatever
      events come, a consolidation or deletion job follows its diagram and can always be ended
      ([JobFacts]); saving a job changes all tables or none, and an update is refused when the
      row of the job has changed since it was read ([JobSave]); with any number of processes
      that handle events, an event is at most one commit, which changes its task, the row of
      its job and logs and nothing else, the counters of a job that is not being rolled back stay those of its
      tasks, and the end of the tasks is published when no task is active, unless the job is
      being closed ([JobEvents]).

    Lemmas named in modules [...Example] run the definitions on concrete inputs; some of them
    show behaviour that contradicts a comment or loses data.

    ** Fuel and bounds

    Loops that are not structural take fuel computed from their input, and a theorem shows
    that it is enough: the glob matcher (length of pattern and name), [loadAOF] (length of
    the file), the batches of [aofshrink] (number of objects left), the search of a packed
    tree (number of nodes, as a ticket only leads to later nodes, or the search reports a
    damaged index), [discard] and [DataRem] (bytes left in the stream). There running out of
    fuel is a distinct outcome, which the theorems exclude. The loops over the arguments of a
    command have the number of arguments as fuel, and each round takes at least one.
    The handlers of events need no fuel: what they publish is returned to the caller.

    ** Not modelled

    - Network input and output, the Redis and HTTP protocols, TLS, configuration, metrics and
      statistics, scripts (Lua), followers and leaders, live connections, the endpoints of
      hooks: they are made of calls to other packages and of sockets.
    - JSON replies beyond the texts of fences and the lists of objects; the vector tile of a
      search.
    - [Nearby] and [Bounds] of a collection, which only call the R-tree; failures of the file
      system.
    - Generated code: the accessors of package [flat] (parameters of [Fgb]), protocol buffers,
      the command table.
    - The commands a raster job runs when it enters a state, which compute with grids, GDAL
      and cloud storage; the catalog, and the services around it; the JSON methods of
      enumerations.
    - The geometry libraries [geom] and [geometry] and shapefiles, which the server does not
      call: floating-point geometry and C libraries. *)

From Stdlib Require Import Ascii String ZArith Lia Bool.
From stdpp Require Import base list strings option sets sorting.

Declare Scope go_scope.
Delimit Scope go_scope with go.

(** ** Results of fallible operations *)

Inductive result (E A : Type) : Type :=
| Ok (a : A)
| Err (e : E).
Arguments Ok {E A} a.
Arguments Err {E A} e.

Definition rbind {E A B} (m : result E A) (k : A -> result E B) : result E B :=
  match m with Ok a => k a | Err e => Err e end.

Notation "'let?' x ':=' m 'in' k" := (rbind m (fun x => k))
  (at level 10, x pattern, m at level 100, k at level 200) : go_scope.

#[global] Instance result_eq_dec {E A} `{EqDecision E, EqDecision A} :
  EqDecision (result E A).
Proof. solve_decision. Defined.

Lemma rbind_Ok {E A B} (m : result E A) (k : A -> result E B) b :
  rbind m k = Ok b <-> exists a, m = Ok a /\ k a = Ok b.
Proof. destruct m; naive_solver. Qed.
Lemma rbind_Err {E A B} (m : result E A) (k : A -> result E B) e :
  rbind m k = Err e <-> m = Err e \/ exists a, m = Ok a /\ k a = Err e.
Proof. destruct m; naive_solver. Qed.

(** ** Tactics *)

(** Take apart a hypothesis that says what a fallible computation returned. *)
Ltac ok_inv :=
  repeat match goal with
    | H : rbind _ _ = Ok _ |- _ => apply rbind_Ok in H as (? & ? & H)
    | H : (let '(_, _) := ?x in _) = _ |- _ => destruct x eqn:?
    | H : (if ?b then _ else _) = _ |- _ => destruct b eqn:?
    | H : Ok _ = Ok _ |- _ => injection H as H
    | H : Some _ = Some _ |- _ => injection H as H
    | H : Err _ = Ok _ |- _ => discriminate H
    | H : Ok _ = Err _ |- _ => discriminate H
    | H : None = Some _ |- _ => discriminate H
    | H : (_, _) = (_, _) |- _ => injection H as ??
    end; subst.

(** Split every [if] and [match] of the goal, keeping the equations, and close
    what becomes contradictory. *)
Ltac split_matches :=
  repeat (case_match; simplify_eq/=; try done).

(** Turn boolean tests in the context and the goal into propositions. *)
Ltac boolify :=
  rewrite ?andb_true_iff, ?andb_false_iff, ?orb_true_iff, ?orb_false_iff,
    ?negb_true_iff, ?negb_false_iff,
    ?Z.eqb_eq, ?Z.eqb_neq, ?Z.ltb_lt, ?Z.ltb_ge, ?Z.leb_le, ?Z.leb_gt,
    ?Nat.eqb_eq, ?Nat.eqb_neq, ?Nat.ltb_lt, ?Nat.ltb_ge, ?Nat.leb_le, ?Nat.leb_gt,
    ?String.eqb_eq, ?String.eqb_neq, ?Ascii.eqb_eq, ?Ascii.eqb_neq in *.

Create HintDb spatial discriminated.
Create Rewrite HintDb str.
Create Rewrite HintDb smap.

(** ** Bytes

    A Go [byte] is an [ascii]: eight bits, so every value is in range. [code] is
    its unsigned value and [chr] the conversion [byte(x)], which wraps. *)

Definition code (c : ascii) : Z := Z.of_N (N_of_ascii c).
Definition chr (z : Z) : ascii := ascii_of_N (Z.to_N (z mod 256)).

Lemma code_bounds c : (0 <= code c < 256)%Z.
Proof. unfold code. pose proof (N_ascii_bounded c). lia. Qed.

Lemma chr_code c : chr (code c) = c.
Proof.
  unfold chr. rewrite Z.mod_small by apply code_bounds.
  unfold code. by rewrite N2Z.id, ascii_N_embedding.
Qed.

Lemma code_chr z : code (chr z) = (z mod 256)%Z.
Proof.
  unfold code, chr. pose proof (Z.mod_pos_bound z 256).
  rewrite N_ascii_embedding by lia. lia.
Qed.

Lemma code_chr_small z : (0 <= z < 256)%Z -> code (chr z) = z.
Proof. intros. rewrite code_chr. by apply Z.mod_small. Qed.

Lemma code_inj c d : code c = code d -> c = d.
Proof. intros H. by rewrite <- (chr_code c), <- (chr_code d), H. Qed.

(** ** Go strings

    A Go [string] is a byte sequence, hence a Rocq [string]; Go's [<] on strings
    is the byte-wise lexicographic order [str_ltb]. *)

Definition str_ltb (s t : string) : bool := String.ltb s t.
Definition str_leb (s t : string) : bool := String.leb s t.

Notation "s <s t" := (str_ltb s t) (at level 70, no associativity) : go_scope.
Notation "s <=s t" := (str_leb s t) (at level 70, no associativity) : go_scope.
Notation "s =s t" := (String.eqb s t) (at level 70, no associativity) : go_scope.
Open Scope go_scope.

Fixpoint str_drop (n : nat) (s : string) : string :=
  match n, s with
  | O, _ => s
  | S n, String _ s => str_drop n s
  | S _, EmptyString => EmptyString
  end.

Fixpoint str_take (n : nat) (s : string) : string :=
  match n, s with
  | S n, String c s => String c (str_take n s)
  | _, _ => EmptyString
  end.

(** [s] starts with [p]: [strings.HasPrefix(s, p)]. *)
Definition has_prefix (s p : string) : bool := String.prefix p s.

Lemma str_app_cons c s t : (String c s +:+ t) = String c (s +:+ t).
Proof. reflexivity. Qed.
Lemma str_app_nil_l t : ("" +:+ t) = t.
Proof. reflexivity. Qed.
Lemma str_app_nil_r s : (s +:+ "") = s.
Proof. induction s as [|c s IH]; [done|]. by rewrite str_app_cons, IH. Qed.
Lemma str_app_assoc s t u : ((s +:+ t) +:+ u) = (s +:+ (t +:+ u)).
Proof. induction s as [|c s IH]; [done|]. by rewrite !str_app_cons, IH. Qed.
Lemma str_length_app s t : String.length (s +:+ t) = String.length s + String.length t.
Proof. induction s as [|c s IH]; [done|]. rewrite str_app_cons; simpl. lia. Qed.

Lemma str_take_drop n s : (str_take n s +:+ str_drop n s) = s.
Proof.
  revert s; induction n as [|n IH]; intros [|c s]; simpl; [done..|].
  by rewrite str_app_cons, IH.
Qed.
Lemma str_length_drop n s : String.length (str_drop n s) = String.length s - n.
Proof. revert s; induction n as [|n IH]; intros [|c s]; simpl; [lia..|]. by rewrite IH. Qed.
Lemma str_length_take n s : String.length (str_take n s) = n `min` String.length s.
Proof. revert s; induction n as [|n IH]; intros [|c s]; simpl; [lia..|]. rewrite IH. lia. Qed.
Lemma str_drop_app s t : str_drop (String.length s) (s +:+ t) = t.
Proof. induction s as [|c s IH]; [done|]. by rewrite str_app_cons. Qed.
Lemma str_take_app s t : str_take (String.length s) (s +:+ t) = s.
Proof.
  induction s as [|c s IH]; [done|].
  rewrite str_app_cons; simpl. by rewrite IH.
Qed.
#[global] Hint Rewrite str_app_cons str_app_nil_l str_app_nil_r str_app_assoc : str.

(** *** The order on strings *)

Lemma str_ltb_cmp s t : (s <s t) = true <-> String.compare s t = Lt.
Proof. unfold str_ltb, String.ltb. by destruct (String.compare s t). Qed.

Lemma str_leb_ltb s t : (s <=s t) = negb (t <s s).
Proof.
  unfold str_leb, str_ltb, String.leb, String.ltb.
  rewrite (String.compare_antisym t s). by destruct (String.compare s t).
Qed.

Lemma str_ltb_cons c d s t :
  (String c s <s String d t) =
  if (code c <? code d)%Z then true else if (code d <? code c)%Z then false else s <s t.
Proof.
  unfold str_ltb, String.ltb; simpl. unfold Ascii.compare, code.
  destruct (N.compare_spec (N_of_ascii c) (N_of_ascii d)) as [E|E|E].
  - apply (f_equal ascii_of_N) in E. rewrite !ascii_N_embedding in E. subst d.
    by rewrite Z.ltb_irrefl.
  - destruct (Z.ltb_spec (Z.of_N (N_of_ascii c)) (Z.of_N (N_of_ascii d))); [done|lia].
  - destruct (Z.ltb_spec (Z.of_N (N_of_ascii c)) (Z.of_N (N_of_ascii d))); [lia|].
    by destruct (Z.ltb_spec (Z.of_N (N_of_ascii d)) (Z.of_N (N_of_ascii c))); [|lia].
Qed.

Lemma str_ltb_irrefl s : (s <s s) = false.
Proof.
  induction s as [|c s IH]; [done|]. rewrite str_ltb_cons.
  by rewrite Z.ltb_irrefl.
Qed.

Lemma str_ltb_trans s t u : (s <s t) = true -> (t <s u) = true -> (s <s u) = true.
Proof.
  revert t u; induction s as [|c s IH]; intros [|d t] [|e u]; try done.
  rewrite !str_ltb_cons.
  destruct (Z.ltb_spec (code c) (code d)), (Z.ltb_spec (code d) (code e)),
    (Z.ltb_spec (code d) (code c)), (Z.ltb_spec (code e) (code d)),
    (Z.ltb_spec (code c) (code e)), (Z.ltb_spec (code e) (code c)); try done; try lia.
  apply IH.
Qed.

Lemma str_ltb_total s t : (s <s t) = true \/ s = t \/ (t <s s) = true.
Proof.
  revert t; induction s as [|c s IH]; intros [|d t]; auto.
  rewrite !str_ltb_cons.
  destruct (Z.ltb_spec (code c) (code d)); [auto|].
  destruct (Z.ltb_spec (code d) (code c)); [auto|].
  assert (c = d) as -> by (apply code_inj; lia).
  destruct (IH t) as [->|[->| ->]]; auto.
Qed.

Lemma str_ltb_asym s t : (s <s t) = true -> (t <s s) = false.
Proof.
  intros H. destruct (t <s s) eqn:E; [|done].
  pose proof (str_ltb_trans _ _ _ H E) as HH. by rewrite str_ltb_irrefl in HH.
Qed.

Lemma str_ltb_neq s t : (s <s t) = true -> s <> t.
Proof. intros H ->. by rewrite str_ltb_irrefl in H. Qed.

Lemma str_ltb_ge_trans s t u : (t <s s) = false -> (t <s u) = true -> (s <s u) = true.
Proof.
  intros H1 H2. destruct (str_ltb_total s t) as [H|[->|H]]; [|done|congruence].
  by eapply str_ltb_trans.
Qed.
Lemma str_ltb_false_trans s t u : (t <s s) = false -> (u <s t) = false -> (u <s s) = false.
Proof.
  intros H1 H2. destruct (u <s s) eqn:E; [|done].
  destruct (str_ltb_total s t) as [H|[->|H]]; [|congruence..].
  by rewrite (str_ltb_trans _ _ _ E H) in H2.
Qed.

Lemma str_ltb_lt_ge_trans s t u : (s <s t) = true -> (u <s t) = false -> (s <s u) = true.
Proof.
  intros H1 H2. destruct (str_ltb_total t u) as [H|[->|H]]; [|done|congruence].
  by eapply str_ltb_trans.
Qed.

Lemma str_ltb_false_antisym s t : (s <s t) = false -> (t <s s) = false -> s = t.
Proof. intros. destruct (str_ltb_total s t) as [?|[?|?]]; congruence. Qed.

Lemma str_ltb_app_r s t : t <> "" -> (s <s (s +:+ t)) = true.
Proof.
  intros H. induction s as [|c s IH]; [by destruct t|].
  rewrite str_app_cons, str_ltb_cons, Z.ltb_irrefl. done.
Qed.

Lemma str_ltb_prefix s t : ((s +:+ t) <s s) = false.
Proof.
  induction s as [|c s IH]; [by destruct t|].
  rewrite str_app_cons, str_ltb_cons, Z.ltb_irrefl. done.
Qed.

Lemma str_ltb_app_l s t u : ((s +:+ t) <s (s +:+ u)) = (t <s u).
Proof.
  induction s as [|c s IH]; [done|].
  rewrite !str_app_cons, str_ltb_cons, Z.ltb_irrefl. done.
Qed.

Lemma has_prefix_iff s p : has_prefix s p = true <-> exists t, s = (p +:+ t).
Proof.
  unfold has_prefix. revert s; induction p as [|c p IH]; intros s; simpl.
  - split; [eauto|by destruct s].
  - destruct s as [|d s]; simpl.
    + split; [done|]. by intros [t ?].
    + destruct (ascii_dec c d) as [->|Hne].
      * rewrite IH. split; intros [t Ht]; exists t; rewrite str_app_cons in *; congruence.
      * split; [done|]. intros [t Ht]. rewrite str_app_cons in Ht. congruence.
Qed.

#[export] Hint Resolve str_ltb_irrefl str_ltb_trans str_ltb_asym : spatial.

(** A byte slice is a list of bytes; the conversions [[]byte(s)] and [string(b)]. *)
Definition bytes_of (s : string) : list ascii := String.list_ascii_of_string s.
Definition string_of (l : list ascii) : string := String.string_of_list_ascii l.

Lemma bytes_of_app s t : bytes_of (s +:+ t) = bytes_of s ++ bytes_of t.
Proof. induction s as [|c s IH]; [done|]. rewrite str_app_cons.
  unfold bytes_of in *. cbn [String.list_ascii_of_string]. by rewrite IH. Qed.
Lemma string_of_app l k : string_of (l ++ k) = (string_of l +:+ string_of k).
Proof.
  unfold string_of in *. induction l as [|c l IH]; [done|].
  cbn [app String.string_of_list_ascii]. by rewrite IH.
Qed.
Lemma string_of_bytes s : string_of (bytes_of s) = s.
Proof. apply String.string_of_list_ascii_of_string. Qed.
Lemma bytes_of_string l : bytes_of (string_of l) = l.
Proof. apply String.list_ascii_of_string_of_list_ascii. Qed.

Lemma length_bytes_of s : length (bytes_of s) = String.length s.
Proof. induction s as [|c s IH]; [done|]. simpl. by rewrite <- IH. Qed.
Lemma length_string_of l : String.length (string_of l) = length l.
Proof. rewrite <- (bytes_of_string l) at 2. by rewrite length_bytes_of. Qed.
#[global] Hint Rewrite string_of_bytes bytes_of_string bytes_of_app string_of_app : str.

(** The double quote, and a text between double quotes. *)
Definition dquote : ascii := chr 0x22.
Definition quoted (s : string) : string := String dquote (s +:+ String dquote "").

(** The test [x != nil] on a value that may be absent. *)
Definition is_some {A} (x : option A) : bool := match x with Some _ => true | None => false end.

(** ** Callback iteration

    The libraries iterate by calling a function on each item until it returns
    [false]; the function updates captured variables, here the state [S]. *)

Fixpoint iter_while {S A} (f : S -> A -> S * bool) (s : S) (l : list A) : S :=
  match l with
  | [] => s
  | x :: l => let '(s', keep) := f s x in if keep then iter_while f s' l else s'
  end.

Lemma iter_while_app {S A} (f : S -> A -> S * bool) s l1 l2 :
  (forall s x, x ∈ l1 -> (f s x).2 = true) ->
  iter_while f s (l1 ++ l2) = iter_while f (foldl (fun s x => (f s x).1) s l1) l2.
Proof.
  revert s; induction l1 as [|x l1 IH]; intros s H; simpl; [done|].
  destruct (f s x) as [s' k] eqn:E. pose proof (H s x ltac:(set_solver)) as Hk.
  rewrite E in Hk; simpl in Hk. subst k. rewrite IH by set_solver. done.
Qed.

Lemma iter_while_all {S A} (f : S -> A -> S * bool) s l :
  (forall s x, x ∈ l -> (f s x).2 = true) ->
  iter_while f s l = foldl (fun s x => (f s x).1) s l.
Proof.
  intros H. rewrite <- (app_nil_r l) at 1. by rewrite iter_while_app.
Qed.

(** A callback that ignores items works on the rest. *)
Lemma iter_while_filter {S A} (P : A -> bool) (f : S -> A -> S * bool) s l :
  iter_while (fun s x => if P x then f s x else (s, true)) s l =
  iter_while f s (filter (fun x => P x = true) l).
Proof.
  revert s. induction l as [|x l IH]; intros s; [done|]. rewrite filter_cons. simpl.
  destruct (P x); simpl; [|done]. by destruct (f s x) as [s' []].
Qed.

Lemma iter_while_ext {S A} (f g : S -> A -> S * bool) s l :
  (forall s x, f s x = g s x) -> iter_while f s l = iter_while g s l.
Proof.
  intros E. revert s. induction l as [|x l IH]; intros s; [done|]. simpl. rewrite E.
  by destruct (g s x) as [s' []].
Qed.

(** ** Sums over lists *)

Definition zsum {A} (f : A -> Z) (l : list A) : Z := foldr (fun x a => (f x + a)%Z) 0%Z l.

Lemma zsum_cons {A} (f : A -> Z) x l : zsum f (x :: l) = (f x + zsum f l)%Z.
Proof. done. Qed.
Lemma zsum_app {A} (f : A -> Z) l k : zsum f (l ++ k) = (zsum f l + zsum f k)%Z.
Proof. induction l as [|x l IH]; [done|]. rewrite <- app_comm_cons, !zsum_cons, IH. lia. Qed.
#[global] Instance zsum_perm {A} (f : A -> Z) : Proper ((≡ₚ) ==> (=)) (zsum f).
Proof. induction 1; rewrite ?zsum_cons; lia. Qed.
Lemma zsum_nonneg {A} (f : A -> Z) l : (forall x, x ∈ l -> 0 <= f x)%Z -> (0 <= zsum f l)%Z.
Proof.
  induction l as [|x l IH]; intros Hf; [done|]. rewrite zsum_cons.
  pose proof (Hf x ltac:(set_solver)). pose proof (IH ltac:(set_solver)). lia.
Qed.

(** ** Sorted lists and filters *)

Lemma filter_none {A} (P : A -> Prop) `{!forall x, Decision (P x)} l :
  Forall (fun x => ~ P x) l -> filter P l = [].
Proof. induction 1 as [|x l Hx _ IH]; [done|]. by rewrite filter_cons_False. Qed.

Lemma filter_all {A} (P : A -> Prop) `{!forall x, Decision (P x)} l :
  Forall P l -> filter P l = l.
Proof. induction 1 as [|x l Hx _ IH]; [done|]. by rewrite filter_cons_True, IH. Qed.

Lemma sorted_filter {A} (R : relation A) (P : A -> Prop) `{!forall x, Decision (P x)} l :
  StronglySorted R l -> StronglySorted R (filter P l).
Proof.
  induction 1 as [|x l Hs IH F]; [constructor|]. rewrite filter_cons.
  case_decide; [|done]. constructor; [done|]. rewrite Forall_forall in *.
  intros y [_ Hy]%list_elem_of_filter. auto.
Qed.

Lemma sorted_impl {A} (R R' : relation A) l :
  (forall x y, R x y -> R' x y) -> StronglySorted R l -> StronglySorted R' l.
Proof.
  intros Hi. induction 1 as [|x l Hs IH F]; constructor; [done|].
  eapply Forall_impl; [done|]. auto.
Qed.

Lemma sorted_reverse {A} (R : relation A) l :
  StronglySorted R l -> StronglySorted (flip R) (reverse l).
Proof.
  induction 1 as [|x l Hs IH F]; [constructor|]. rewrite reverse_cons.
  apply StronglySorted_app_2; [|done|repeat constructor].
  intros a b Ha ->%list_elem_of_singleton. rewrite Forall_forall in F. apply F.
  by apply elem_of_reverse.
Qed.

Lemma sorted_drop {A} (R : relation A) n l : StronglySorted R l -> StronglySorted R (drop n l).
Proof.
  intros Hs. revert n. induction Hs as [|x l Hs IH F]; intros [|n]; simpl; auto; by constructor.
Qed.

Lemma list_filter_iff' {A} (P Q : A -> Prop) `{!forall x, Decision (P x)}
    `{!forall x, Decision (Q x)} (l : list A) :
  (forall x, x ∈ l -> P x <-> Q x) -> filter P l = filter Q l.
Proof.
  induction l as [|x l IH]; intros Hi; [done|].
  rewrite !filter_cons, IH by set_solver. pose proof (Hi x ltac:(set_solver)) as Hx.
  destruct (decide (P x)), (decide (Q x)); tauto.
Qed.

Lemma list_filter_bool {A} (P : A -> bool) l : List.filter P l = filter (fun x => P x = true) l.
Proof. induction l as [|x l IH]; [done|]. cbn [List.filter]. rewrite filter_cons, IH. by destruct (P x). Qed.

Lemma NoDup_fmap_filter {A B} (P : A -> Prop) `{!forall x, Decision (P x)} (g : A -> B) l :
  NoDup (g <$> l) -> NoDup (g <$> filter P l).
Proof. intros Hn. eapply sublist_NoDup; [apply Hn|]. apply fmap_sublist, sublist_filter. Qed.
