(* ===== verification/GoStd.v ===== *)
(** * The parts of Go and its standard library the engine uses

    Byte strings decoded as UTF-8 ([unicode/utf8]), white space and case mapping
    ([strings]), variable-length integers ([encoding/binary]), machine integers and
    IEEE-754 floating point with the conversions of [strconv]. *)

From Stdlib Require Import Ascii String ZArith Lia Bool SpecFloat.
From stdpp Require Import base list strings option sets.
From S2P Require Import Prelude.

Local Open Scope Z_scope.

(** ** UTF-8

    [utf8.DecodeRuneInString]: the first rune of a string and its width; an
    ill-formed sequence gives [RuneError] with width 1, the empty string
    [RuneError] with width 0. *)

Definition RuneError : Z := 0xFFFD.

Definition in_range (lo hi : Z) (c : ascii) : bool := (lo <=? code c) && (code c <=? hi).
Definition is_cont (c : ascii) : bool := in_range 0x80 0xBF c.
Definition low6 (c : ascii) : Z := Z.land (code c) 0x3F.

(** The range of the second byte after a three-byte or four-byte leader. *)
Definition second3 (b0 : Z) (c : ascii) : bool :=
  if b0 =? 0xE0 then in_range 0xA0 0xBF c
  else if b0 =? 0xED then in_range 0x80 0x9F c
  else is_cont c.
Definition second4 (b0 : Z) (c : ascii) : bool :=
  if b0 =? 0xF0 then in_range 0x90 0xBF c
  else if b0 =? 0xF4 then in_range 0x80 0x8F c
  else is_cont c.

Definition DecodeRuneInString (s : string) : Z * nat :=
  match s with
  | EmptyString => (RuneError, 0%nat)
  | String c0 s1 =>
    let b0 := code c0 in
    if b0 <? 0x80 then (b0, 1%nat)
    else if b0 <? 0xC2 then (RuneError, 1%nat)
    else if b0 <? 0xE0 then
      match s1 with
      | String c1 _ =>
        if is_cont c1
        then (Z.lor (Z.shiftl (Z.land b0 0x1F) 6) (low6 c1), 2%nat)
        else (RuneError, 1%nat)
      | _ => (RuneError, 1%nat)
      end
    else if b0 <? 0xF0 then
      match s1 with
      | String c1 (String c2 _) =>
        if second3 b0 c1 && is_cont c2
        then (Z.lor (Z.lor (Z.shiftl (Z.land b0 0x0F) 12) (Z.shiftl (low6 c1) 6))
                (low6 c2), 3%nat)
        else (RuneError, 1%nat)
      | _ => (RuneError, 1%nat)
      end
    else if b0 <? 0xF5 then
      match s1 with
      | String c1 (String c2 (String c3 _)) =>
        if second4 b0 c1 && is_cont c2 && is_cont c3
        then (Z.lor (Z.lor (Z.shiftl (Z.land b0 0x07) 18) (Z.shiftl (low6 c1) 12))
                (Z.lor (Z.shiftl (low6 c2) 6) (low6 c3)), 4%nat)
        else (RuneError, 1%nat)
      | _ => (RuneError, 1%nat)
      end
    else (RuneError, 1%nat)
  end.

Lemma decode_width c s :
  (1 <= (DecodeRuneInString (String c s)).2 <= String.length (String c s))%nat.
Proof.
  unfold DecodeRuneInString.
  repeat (case_match; simpl; try lia).
Qed.

Lemma decode_ascii c s : code c < 0x80 -> DecodeRuneInString (String c s) = (code c, 1%nat).
Proof. intros H. simpl. apply Z.ltb_lt in H. by rewrite H. Qed.

Example decode_euro : DecodeRuneInString "€!" = (0x20AC, 3%nat).
Proof. reflexivity. Qed.

(** ** White space and case ([strings]) *)

(** [unicode.IsSpace]. *)
Definition IsSpace (r : Z) : bool :=
  ((0x09 <=? r) && (r <=? 0x0D)) || (r =? 0x20) || (r =? 0x85) || (r =? 0xA0)
  || (r =? 0x1680) || ((0x2000 <=? r) && (r <=? 0x200A)) || (r =? 0x2028) || (r =? 0x2029)
  || (r =? 0x202F) || (r =? 0x205F) || (r =? 0x3000).

Fixpoint trimLeftF (fuel : nat) (s : string) : string :=
  match fuel with
  | O => s
  | S fuel =>
    match s with
    | EmptyString => s
    | _ => let '(r, n) := DecodeRuneInString s in
           if IsSpace r then trimLeftF fuel (str_drop n s) else s
    end
  end.

(** [utf8.RuneStart]. *)
Definition RuneStart (c : ascii) : bool := negb (is_cont c).

(** [utf8.DecodeLastRuneInString] on the reversed bytes: step back at most four bytes to
    a byte that can start a rune and decode from there. *)
Fixpoint lastStart (fuel : nat) (acc rs : list ascii) : list ascii :=
  match fuel, rs with
  | S fuel, c :: rs => if RuneStart c then c :: acc else lastStart fuel (c :: acc) rs
  | _, _ => acc
  end.

Definition decodeLast (rs : list ascii) : Z * nat :=
  match rs with
  | [] => (RuneError, 0%nat)
  | c :: rest =>
    if code c <? 0x80 then (code c, 1%nat)
    else
      let tail := lastStart 3 [c] rest in
      let '(r, n) := DecodeRuneInString (string_of tail) in
      if (n =? length tail)%nat then (r, n) else (RuneError, 1%nat)
  end.

Fixpoint trimRightF (fuel : nat) (rs : list ascii) : list ascii :=
  match fuel with
  | O => rs
  | S fuel =>
    match rs with
    | [] => []
    | _ => let '(r, n) := decodeLast rs in
           if IsSpace r then trimRightF fuel (drop n rs) else rs
    end
  end.

(** [strings.TrimSpace]. *)
Definition TrimSpace (s : string) : string :=
  let l := trimLeftF (String.length s) s in
  string_of (reverse (trimRightF (String.length l) (reverse (bytes_of l)))).

Example trim_ex : TrimSpace "  speed 　" = "speed".
Proof. reflexivity. Qed.

Definition lower_byte (c : ascii) : ascii :=
  if (0x41 <=? code c) && (code c <=? 0x5A) then chr (code c + 32) else c.

(** [strings.ToLower(s)] where the result is ASCII, and [None] where it is not: the code
    only compares it with ASCII words. Two characters outside ASCII have an ASCII lower
    case, U+0130 (i) and U+212A (k); ill-formed bytes become U+FFFD. *)
Fixpoint ToLowerF (fuel : nat) (s : string) : option string :=
  match fuel, s with
  | S fuel, String c s1 =>
    let '(r, n) := DecodeRuneInString s in
    let head := if r <? 0x80 then Some (lower_byte c)
                else if r =? 0x130 then Some "i"%char
                else if r =? 0x212A then Some "k"%char else None in
    match head, ToLowerF fuel (str_drop n s) with
    | Some h, Some t => Some (String h t)
    | _, _ => None
    end
  | _, _ => Some ""
  end.
Definition ToLower (s : string) : option string := ToLowerF (String.length s) s.

Example lower_ex : ToLower "WithFields" = Some "withfields".
Proof. reflexivity. Qed.

(** ** Machine integers *)

Definition wrap64 (x : Z) : Z := x mod 2 ^ 64.
(** [int64(x)] of a 64-bit pattern, also Go's [int] on the 64-bit targets. *)
Definition int64 (x : Z) : Z :=
  let u := wrap64 x in if u <? 2 ^ 63 then u else u - 2 ^ 64.
Definition is_int64 (x : Z) : Prop := - 2 ^ 63 <= x < 2 ^ 63.
Definition is_uint64 (x : Z) : Prop := 0 <= x < 2 ^ 64.

Lemma int64_id x : is_int64 x -> int64 x = x.
Proof.
  unfold is_int64, int64, wrap64. intros H.
  destruct (Z.leb_spec 0 x).
  - rewrite Z.mod_small by lia. by rewrite (proj2 (Z.ltb_lt _ _)) by lia.
  - replace (x mod 2 ^ 64) with (x + 2 ^ 64).
    + rewrite (proj2 (Z.ltb_ge _ _)) by lia. lia.
    + rewrite <- (Z.mod_add x 1) by lia. rewrite Z.mod_small; lia.
Qed.
Lemma int64_range x : is_int64 (int64 x).
Proof.
  unfold is_int64, int64, wrap64. pose proof (Z.mod_pos_bound x (2 ^ 64)).
  case_match; boolify; lia.
Qed.

(** ** Variable-length integers ([encoding/binary]) *)

(** [binary.PutUvarint]: ten bytes are enough for 64 bits. *)
Fixpoint PutUvarintF (fuel : nat) (x : Z) : list ascii :=
  match fuel with
  | O => []
  | S fuel => if x <? 0x80 then [chr x]
              else chr (Z.lor x 0x80) :: PutUvarintF fuel (Z.shiftr x 7)
  end.
Definition PutUvarint (x : Z) : list ascii := PutUvarintF 10 x.

(** [binary.PutVarint]: zig-zag. *)
Definition PutVarint (x : Z) : list ascii :=
  let ux := wrap64 (Z.shiftl x 1) in
  PutUvarint (if x <? 0 then Z.lxor ux (2 ^ 64 - 1) else ux).

(** The engine's own decoders, [uvarint] of [field/list_binary.go] and of
    [object/object_binary.go], share this loop: the value so far, the byte index, the
    buffer; [(0, 0)] when the buffer ends first. *)
Fixpoint uvarint_loop (x i : Z) (buf : list ascii) : Z * Z :=
  match buf with
  | [] => (0, 0)
  | b :: buf =>
    if code b <? 0x80 then (Z.lor x (wrap64 (Z.shiftl (code b) (i * 7))), i + 1)
    else uvarint_loop (Z.lor x (wrap64 (Z.shiftl (Z.land (code b) 0x7F) (i * 7)))) (i + 1) buf
  end.

Example putuvarint_ex : PutUvarint 624485 = map chr [0xE5; 0x8E; 0x26].
Proof. reflexivity. Qed.

Lemma lor_add_shift a b k : 0 <= k -> 0 <= a < 2 ^ k -> Z.lor a (b * 2 ^ k) = a + b * 2 ^ k.
Proof.
  intros Hk Ha. rewrite <- Z.shiftl_mul_pow2 by done.
  assert (Z.land a (Z.shiftl b k) = 0) as Hd.
  { apply Z.bits_inj'. intros n Hn. rewrite Z.land_spec, Z.bits_0.
    destruct (Z.ltb_spec n k).
    - by rewrite Z.shiftl_spec_low, andb_false_r by lia.
    - replace (Z.testbit a n) with false; [done|]. symmetry.
      apply Z.testbit_false; [done|]. rewrite Z.div_small; [done|]. split; [lia|].
      eapply Z.lt_le_trans; [apply Ha|]. apply Z.pow_le_mono_r; lia. }
  by rewrite Z.add_nocarry_lxor, Z.lxor_lor by done.
Qed.

Lemma byte_cases (P : Z -> bool) :
  forallb P (Z.of_nat <$> seq 0 256) = true -> forall z, 0 <= z < 256 -> P z = true.
Proof.
  intros H z Hz. rewrite forallb_forall in H. apply H, list_elem_of_In.
  apply list_elem_of_fmap. exists (Z.to_nat z). split; [lia|]. apply elem_of_seq. lia.
Qed.

Lemma cont_byte x :
  0 <= x -> code (chr (Z.lor x 0x80)) = x mod 128 + 128.
Proof.
  intros Hx. rewrite code_chr. change 256 with (2 ^ 8). rewrite <- Z.land_ones by lia.
  rewrite Z.land_lor_distr_l, Z.land_ones by lia. change (2 ^ 8) with 256.
  assert (x mod 128 = (x mod 256) mod 128) as ->.
  { rewrite <- (Znumtheory.Zmod_div_mod 128 256 x); [done|lia|lia|]. by exists 2. }
  pose proof (Z.mod_pos_bound x 256) as Hm.
  apply Z.eqb_eq. generalize (x mod 256), (Hm ltac:(lia)). clear.
  apply (byte_cases (fun z => Z.lor z (Z.land 0x80 (Z.ones 8)) =? z mod 128 + 128)).
  by vm_compute.
Qed.

Lemma low7_cont y : 0 <= y < 128 -> Z.land (y + 128) 0x7F = y.
Proof.
  intros Hy. change 0x7F with (Z.ones 7). rewrite Z.land_ones by lia.
  change (2 ^ 7) with 128. replace (y + 128) with (y + 1 * 128) by lia.
  rewrite Z.mod_add by lia. by apply Z.mod_small.
Qed.

Lemma PutUvarintF_S fuel x :
  PutUvarintF (S fuel) x =
  if x <? 0x80 then [chr x] else chr (Z.lor x 0x80) :: PutUvarintF fuel (Z.shiftr x 7).
Proof. reflexivity. Qed.

Lemma uvarint_loop_put fuel x acc i rest :
  0 <= x < 2 ^ (7 * Z.of_nat (S fuel)) -> 0 <= i -> 0 <= acc < 2 ^ (i * 7) ->
  x * 2 ^ (i * 7) < 2 ^ 64 ->
  uvarint_loop acc i (PutUvarintF (S fuel) x ++ rest) =
    (acc + x * 2 ^ (i * 7), i + Z.of_nat (length (PutUvarintF (S fuel) x))).
Proof.
  revert x acc i. induction fuel as [|fuel IH]; intros x acc i Hx Hi Ha Hb;
    rewrite PutUvarintF_S;
    pose proof (Z.pow_pos_nonneg 2 (i * 7) ltac:(lia) ltac:(lia)) as Hp;
    destruct (Z.ltb_spec x 0x80) as [Hs|Hs].
  1,3: cbn [app uvarint_loop length]; rewrite code_chr_small by lia;
    rewrite (proj2 (Z.ltb_lt _ _) Hs); rewrite Z.shiftl_mul_pow2 by lia;
    unfold wrap64; rewrite Z.mod_small by nia; by rewrite lor_add_shift by lia.
  - change (7 * Z.of_nat 1) with 7 in Hx. lia.
  - cbn [app uvarint_loop length]. rewrite cont_byte by lia.
    pose proof (Z.mod_pos_bound x 128 ltac:(lia)) as Hm.
    rewrite (proj2 (Z.ltb_ge _ _)) by lia. rewrite low7_cont by lia.
    rewrite Z.shiftl_mul_pow2 by lia. unfold wrap64.
    pose proof (Z.div_mod x 128 ltac:(lia)) as Hdm.
    rewrite (Z.mod_small (x mod 128 * 2 ^ (i * 7))) by nia.
    rewrite lor_add_shift by lia.
    assert (2 ^ ((i + 1) * 7) = 128 * 2 ^ (i * 7)) as Hpow.
    { replace ((i + 1) * 7) with (7 + i * 7) by lia. by rewrite Z.pow_add_r by lia. }
    rewrite Z.shiftr_div_pow2 by lia. change (2 ^ 7) with 128.
    rewrite IH; rewrite ?Hpow; [f_equal; [nia|lia]| |lia|nia|nia].
    split; [apply Z.div_pos; lia|]. apply Z.div_lt_upper_bound; [lia|].
    replace (7 * Z.of_nat (S (S fuel))) with (7 + 7 * Z.of_nat (S fuel)) in Hx by lia.
    rewrite Z.pow_add_r in Hx by lia. lia.
Qed.

(** Decoding what [PutUvarint] wrote gives the value and the number of bytes. *)
Lemma uvarint_put x rest :
  is_uint64 x -> uvarint_loop 0 0 (PutUvarint x ++ rest) = (x, Z.of_nat (length (PutUvarint x))).
Proof.
  intros [H1 H2]. unfold PutUvarint. rewrite uvarint_loop_put; simpl Z.mul; simpl Z.pow; try lia.
  f_equal; lia.
Qed.

Lemma PutUvarint_nonempty x : PutUvarint x <> [].
Proof. unfold PutUvarint. rewrite PutUvarintF_S. by case_match. Qed.

Lemma PutUvarintF_length fuel x : (length (PutUvarintF fuel x) <= fuel)%nat.
Proof.
  revert x. induction fuel as [|fuel IH]; intros x; [done|]. rewrite PutUvarintF_S.
  case_match; simpl; [lia|]. specialize (IH (Z.shiftr x 7)). lia.
Qed.
