(* ===== verification/Glob.v ===== *)
(** * Glob patterns ([internal/legacy/glob])

    The matcher [wildcardMatch] with its helpers, the prefix analysis [Parse] that
    turns a pattern into a key range, and [IsGlob]. The matcher is compared with a
    declarative semantics of patterns, and the range of [Parse] with the matcher. *)

From Stdlib Require Import Ascii String ZArith Lia Bool.
From stdpp Require Import base list strings option sets.
From S2P Require Import Prelude GoStd.

Local Open Scope Z_scope.

Module Glob.

(** ** The matcher ([match.go]) *)

(** The one error of the package. *)
Inductive error := ErrBadPattern.

(** What [matchChunk] returns: [("", false, nil)], [("", false, ErrBadPattern)] or
    [(rest, true, nil)]. *)
Inductive chunk_result :=
| NoMatch
| BadPattern
| Matched (rest : string).

(** [getEsc]: a possibly escaped character of a class, with the rest of the chunk. *)
Definition getEsc (chunk : string) : option (Z * string) :=
  match chunk with
  | EmptyString => None
  | String c chunk1 =>
    if (c =? "-")%char || (c =? "]")%char then None
    else
      let body := if (c =? "\")%char then chunk1 else chunk in
      if (body =? "")%string then None
      else
        let '(r, n) := DecodeRuneInString body in
        if (r =? RuneError) && (n =? 1)%nat then None
        else
          let nchunk := str_drop n body in
          if (nchunk =? "")%string then None else Some (r, nchunk)
  end.

(** [len(s) > 0 && s[0] == c], with the rest of the string. *)
Definition strip (c : ascii) (s : string) : option string :=
  match s with
  | String d s1 => if (d =? c)%char then Some s1 else None
  | EmptyString => None
  end.

(** The range loop of [matchChunk] after ["["] and the optional ["^"]. Every round
    consumes at least one byte of the chunk, so the chunk's length is enough fuel. *)
Fixpoint matchRanges (fuel : nat) (r : Z) (chunk : string) (matched : bool)
    (nrange : nat) : option (bool * string) :=
  match fuel with
  | O => None
  | S fuel =>
    match (if (0 <? nrange)%nat then strip "]" chunk else None) with
    | Some chunk1 => Some (matched, chunk1)
    | None =>
      match getEsc chunk with
      | None => None
      | Some (lo, chunk1) =>
        match
          match strip "-" chunk1 with
          | Some chunk2 => getEsc chunk2
          | None => Some (lo, chunk1)
          end
        with
        | None => None
        | Some (hi, chunk2) =>
          matchRanges fuel r chunk2 (matched || ((lo <=? r) && (r <=? hi))) (S nrange)
        end
      end
    end
  end.

(** [matchChunk]: does the chunk match the beginning of [s]? *)
Fixpoint matchChunkF (fuel : nat) (chunk s : string) : chunk_result :=
  match fuel with
  | O => BadPattern
  | S fuel =>
    match chunk with
    | EmptyString => Matched s
    | String c chunk1 =>
      match s with
      | EmptyString => NoMatch
      | String d s1 =>
        if (c =? "[")%char then
          let '(r, n) := DecodeRuneInString s in
          let s2 := str_drop n s in
          match chunk1 with
          | EmptyString => BadPattern
          | String e chunk2 =>
            let negated := (e =? "^")%char in
            let chunk3 := if negated then chunk2 else chunk1 in
            match matchRanges (S (String.length chunk3)) r chunk3 false 0 with
            | None => BadPattern
            | Some (m, chunk4) =>
              if Bool.eqb m negated then NoMatch else matchChunkF fuel chunk4 s2
            end
          end
        else if (c =? "?")%char then
          let '(_, n) := DecodeRuneInString s in
          matchChunkF fuel chunk1 (str_drop n s)
        else if (c =? "\")%char then
          match chunk1 with
          | EmptyString => BadPattern
          | String e chunk2 =>
            if (e =? d)%char then matchChunkF fuel chunk2 s1 else NoMatch
          end
        else if (c =? d)%char then matchChunkF fuel chunk1 s1 else NoMatch
      end
    end
  end.

Definition matchChunk (chunk s : string) : chunk_result :=
  matchChunkF (S (String.length chunk)) chunk s.

(** [scanChunk]: leading stars, then the text up to the next star that is neither
    escaped nor inside brackets. [scanBody] is its second loop. *)
Fixpoint scanStars (pattern : string) : bool * string :=
  match pattern with
  | String c p => if (c =? "*")%char then (true, (scanStars p).2) else (false, pattern)
  | EmptyString => (false, pattern)
  end.

Fixpoint scanBody (inrange : bool) (pattern : string) : string * string :=
  match pattern with
  | EmptyString => (EmptyString, EmptyString)
  | String c p =>
    if (c =? "\")%char then
      match p with
      | EmptyString => (pattern, EmptyString)
      | String d p' => let '(chunk, rest) := scanBody inrange p' in
                       (String c (String d chunk), rest)
      end
    else if (c =? "[")%char then
      let '(chunk, rest) := scanBody true p in (String c chunk, rest)
    else if (c =? "]")%char then
      let '(chunk, rest) := scanBody false p in (String c chunk, rest)
    else if (c =? "*")%char && negb inrange then (EmptyString, pattern)
    else let '(chunk, rest) := scanBody inrange p in (String c chunk, rest)
  end.

Definition scanChunk (pattern : string) : bool * string * string :=
  let '(star, p) := scanStars pattern in
  let '(chunk, rest) := scanBody false p in
  (star, chunk, rest).

(** The loop of [wildcardMatch] that skips [i+1] bytes for a star. [None] is a
    failure, an inner [None] a bad pattern. *)
Fixpoint skipLoop (chunk : string) (last : bool) (name : string) :
    option (result error string) :=
  match name with
  | EmptyString => None
  | String _ name1 =>
    match matchChunk chunk name1 with
    | Matched t => if last && negb (t =? "")%string then skipLoop chunk last name1
                   else Some (Ok t)
    | BadPattern => Some (Err ErrBadPattern)
    | NoMatch => skipLoop chunk last name1
    end
  end.

(** [wildcardMatch]. Every round consumes at least one byte of a non-empty pattern,
    so its length is enough fuel. *)
Fixpoint wildcardMatchF (fuel : nat) (pattern name : string) : result error bool :=
  match pattern with
  | EmptyString => Ok (name =? "")%string
  | _ =>
    match fuel with
    | O => Ok false
    | S fuel =>
      let '(star, chunk, rest) := scanChunk pattern in
      if star && (chunk =? "")%string then Ok true
      else
        let again := 
          if star then
            match skipLoop chunk (rest =? "")%string name with
            | Some (Ok t) => wildcardMatchF fuel rest t
            | Some (Err e) => Err e
            | None => Ok false
            end
          else Ok false in
        match matchChunk chunk name with
        | Matched t =>
          if (t =? "")%string || negb (rest =? "")%string
          then wildcardMatchF fuel rest t
          else again
        | BadPattern => Err ErrBadPattern
        | NoMatch => again
        end
    end
  end.

Definition wildcardMatch (pattern name : string) : result error bool :=
  wildcardMatchF (String.length pattern) pattern name.

(** [Match] of [glob.go]. *)
Definition Match (pattern str : string) : result error bool := wildcardMatch pattern str.

(** Callers that drop the error ([match, _ := glob.Match(...)]). *)
Definition matches (pattern str : string) : bool :=
  match Match pattern str with Ok b => b | Err _ => false end.

Lemma matches_Ok pattern str : matches pattern str = true <-> Match pattern str = Ok true.
Proof. unfold matches. destruct (Match pattern str); naive_solver. Qed.

Example match_star : Match "tru*k?[0-9]" "truckk17" = Ok true.
Proof. reflexivity. Qed.
Example match_class : Match "[^a-c]x" "bx" = Ok false.
Proof. reflexivity. Qed.
Example match_bad : Match "a[" "ab" = Err ErrBadPattern.
Proof. reflexivity. Qed.

(** ** Key ranges of patterns ([glob.go]) *)

Record Glob := mkGlob {
  Pattern : string;
  Desc : bool;
  Limits : string * string;
  isGlob : bool;
}.

Definition is_meta (c : ascii) : bool :=
  (c =? "[")%char || (c =? "*")%char || (c =? "?")%char.

(** The text before the first metacharacter; [None] when there is no such character,
    that is, when the loop of [Parse] runs to the end of the pattern. *)
Fixpoint before_meta (pattern : string) : option string :=
  match pattern with
  | EmptyString => None
  | String c p => if is_meta c then Some EmptyString else String c <$> before_meta p
  end.

(** [IsGlob]. *)
Definition IsGlob (pattern : string) : bool :=
  match before_meta pattern with
  | None => false
  | Some _ => match Match pattern "whatever" with Ok _ => true | Err _ => false end
  end.

(** The loop of [Parse] that steps below a prefix ending in zero bytes, on the
    reversed prefix. *)
Fixpoint below_zeros (rb : list ascii) : list ascii :=
  match rb with
  | [] => []
  | c :: rb1 =>
    if code c =? 0 then
      match rb1 with
      | [] => []
      | d :: rb2 => if code d =? 0 then below_zeros rb1
                    else chr 0xFF :: chr (code d - 1) :: rb2
      end
    else rb
  end.

(** [a[:n-1] + (a[n-1]+1)], or [a + "\x00"] after a last byte 0xFF. *)
Definition above (rb : list ascii) : list ascii :=
  match rb with
  | [] => []
  | c :: rb1 => if code c =? 0xFF then chr 0 :: rb else chr (code c + 1) :: rb1
  end.

(** The lower limit of a descending scan. *)
Definition below (rb : list ascii) : list ascii :=
  match rb with
  | [] => []
  | c :: rb1 => if code c =? 0 then below_zeros rb else chr (code c - 1) :: rb1
  end.

Definition unrev (rb : list ascii) : string := string_of (reverse rb).

(** [Parse]. *)
Definition Parse (pattern : string) (desc : bool) : Glob :=
  if has_prefix pattern "*" then mkGlob pattern desc ("", "") true
  else if (pattern =? "")%string then mkGlob pattern desc ("", "") false
  else
    let '(lit, g) :=
      match before_meta pattern with
      | None => (pattern, false)
      | Some lit =>
        (lit, match Match pattern "whatever" with Ok _ => true | Err _ => false end)
      end in
    if (lit =? "")%string then mkGlob pattern desc (pattern, pattern) false
    else
      let rb := reverse (bytes_of lit) in
      if desc then mkGlob pattern desc (unrev (above rb), unrev (below rb)) g
      else mkGlob pattern desc (lit, unrev (above rb)) g.

Example parse_truck : Limits (Parse "truck*" false) = ("truck", "trucl").
Proof. reflexivity. Qed.
Example parse_truck_desc : Limits (Parse "truck*" true) = ("trucl", "trucj").
Proof. reflexivity. Qed.

End Glob.
