(* ===== verification/GlobFacts.v ===== *)
(** * The glob matcher against a declarative semantics, and the soundness of ranges

    [gmatch p s] gives the meaning the comment of [wildcardMatch] describes, one
    rule per term of the grammar. The matcher only accepts what [gmatch] accepts,
    accepts all of it when the name is ASCII, and the limits [Parse] computes
    enclose every match. *)

From Stdlib Require Import Ascii String ZArith Lia Bool.
From stdpp Require Import base list strings option sets.
From S2P Require Import Prelude GoStd Glob.
Import Glob.

Local Open Scope Z_scope.

(** ** The declarative semantics *)

(** A decoded character that [getEsc] takes: not an encoding error. *)
Definition decodes (body : string) (r : Z) (rest : string) : Prop :=
  body <> "" /\
  exists n, DecodeRuneInString body = (r, n) /\ ~ (r = RuneError /\ n = 1%nat) /\
            rest = str_drop n body.

Inductive esc_char : string -> Z -> string -> Prop :=
| ec_plain c p r rest :
    c <> "-"%char -> c <> "]"%char -> c <> "\"%char ->
    decodes (String c p) r rest -> esc_char (String c p) r rest
| ec_escaped body r rest :
    decodes body r rest -> esc_char (String "\" body) r rest.

(** [{ character-range } ']'], at least one range. *)
Inductive class_body : string -> list (Z * Z) -> string -> Prop :=
| cb_last p it q : range_item p it (String "]" q) -> class_body p [it] q
| cb_more p it p' its q :
    range_item p it p' -> class_body p' its q -> class_body p (it :: its) q
with range_item : string -> Z * Z -> string -> Prop :=
| ri_one p r c q : esc_char p r (String c q) -> c <> "-"%char -> range_item p (r, r) (String c q)
| ri_span p lo p1 hi c q :
    esc_char p lo (String "-" p1) -> esc_char p1 hi (String c q) ->
    range_item p (lo, hi) (String c q).

Definition in_item (r : Z) (it : Z * Z) : bool := (it.1 <=? r) && (r <=? it.2).
Definition in_class (r : Z) (its : list (Z * Z)) : bool := existsb (in_item r) its.

Inductive gmatch : string -> string -> Prop :=
| gm_nil : gmatch "" ""
| gm_star p u s : gmatch p s -> gmatch (String "*" p) (u +:+ s)
| gm_any p c s :
    gmatch p (str_drop (DecodeRuneInString (String c s)).2 (String c s)) ->
    gmatch (String "?" p) (String c s)
| gm_lit p c s :
    is_meta c = false -> c <> "\"%char -> gmatch p s -> gmatch (String c p) (String c s)
| gm_esc p c s : gmatch p s -> gmatch (String "\" (String c p)) (String c s)
| gm_class p its q c s :
    (forall p', p <> String "^" p') ->
    class_body p its q ->
    in_class (DecodeRuneInString (String c s)).1 its = true ->
    gmatch q (str_drop (DecodeRuneInString (String c s)).2 (String c s)) ->
    gmatch (String "[" p) (String c s)
| gm_nclass p its q c s :
    class_body p its q ->
    in_class (DecodeRuneInString (String c s)).1 its = false ->
    gmatch q (str_drop (DecodeRuneInString (String c s)).2 (String c s)) ->
    gmatch (String "[" (String "^" p)) (String c s).

(** ** Decoding *)

Lemma is_cont_high c : is_cont c = true -> 0x80 <= code c.
Proof. unfold is_cont, in_range. boolify. lia. Qed.
Lemma second3_high b c : second3 b c = true -> 0x80 <= code c.
Proof. unfold second3, is_cont, in_range. repeat case_match; boolify; lia. Qed.
Lemma second4_high b c : second4 b c = true -> 0x80 <= code c.
Proof. unfold second4, is_cont, in_range. repeat case_match; boolify; lia. Qed.

(** A decoded character does not depend on what follows it, and its bytes after the
    first are no metacharacters. *)
Lemma decodes_high c p r rest :
  decodes (String c p) r rest ->
  exists mid, p = (mid +:+ rest) /\ Forall (fun d => 0x80 <= code d) (bytes_of mid) /\
    forall q, decodes (String c (mid +:+ q)) r q.
Proof.
  intros (_ & n & Hd & Hne & ->).
  assert (n = 1 \/ 2 <= n)%nat as [->|Hn].
  { pose proof (decode_width c p) as Hw. rewrite Hd in Hw. simpl in Hw. lia. }
  { exists "". split; [done|]. split; [constructor|]. intros q. split; [done|].
    exists 1%nat. split; [|done]. revert Hd Hne. clear.
    unfold DecodeRuneInString. repeat case_match; simplify_eq/=; try done; naive_solver. }
  unfold DecodeRuneInString in Hd.
  repeat match type of Hd with
         | (if ?b then _ else _) = _ => destruct b eqn:?; simplify_eq/=; try lia
         | match ?p with EmptyString => _ | _ => _ end = _ => destruct p; simplify_eq/=; try lia
         end; simpl.
  - exists (String a ""). split; [done|]. split; [repeat constructor; by apply is_cont_high|].
    intros q. split; [done|]. exists 2%nat. split_and!; [|lia|done]. rewrite !str_app_cons; simpl.
    by rewrite Heqb, Heqb0, Heqb1, Heqb2.
  - pose proof Heqb3 as [H3 H4]%andb_true_iff.
    exists (String a (String a0 "")). split; [done|].
    split; [repeat constructor; eauto using is_cont_high, second3_high|].
    intros q. split; [done|]. exists 3%nat. split_and!; [|lia|done]. rewrite !str_app_cons; simpl.
    by rewrite Heqb, Heqb0, Heqb1, Heqb2, Heqb3.
  - pose proof Heqb4 as [[H3 H4]%andb_true_iff H5]%andb_true_iff.
    exists (String a (String a0 (String a1 ""))). split; [done|].
    split; [repeat constructor; eauto using is_cont_high, second4_high|].
    intros q. split; [done|]. exists 4%nat. split_and!; [|lia|done]. rewrite !str_app_cons; simpl.
    by rewrite Heqb, Heqb0, Heqb1, Heqb2, Heqb3, Heqb4.
Qed.

(** ** The scanner of chunks *)

(** No star of [chunk] is outside brackets and unescaped. *)
Fixpoint star_free (inrange : bool) (chunk : string) : bool :=
  match chunk with
  | EmptyString => true
  | String c p =>
    if (c =? "\")%char then match p with EmptyString => true | String _ p' => star_free inrange p' end
    else if (c =? "[")%char then star_free true p
    else if (c =? "]")%char then star_free false p
    else if (c =? "*")%char && negb inrange then false
    else star_free inrange p
  end.

Definition ends_chunk (rest : string) : Prop := rest = "" \/ exists q, rest = String "*" q.

Lemma str_ind2 (P : string -> Prop) :
  P "" -> (forall c, P (String c "")) ->
  (forall c d s, P s -> P (String d s) -> P (String c (String d s))) -> forall s, P s.
Proof.
  intros H0 H1 H2 s. enough (P s /\ forall c, P (String c s)) by naive_solver.
  induction s as [|d s [IH1 IH2]]; naive_solver.
Qed.

Lemma scanBody_spec b p chunk rest :
  scanBody b p = (chunk, rest) ->
  p = (chunk +:+ rest) /\ ends_chunk rest /\ star_free b chunk = true.
Proof.
  revert b chunk rest. induction p as [|c|c d p IH1 IH2] using str_ind2; intros b chunk rest.
  - simpl. intros [= <- <-]. unfold ends_chunk; auto.
  - simpl. repeat case_match; intros; simplify_eq/=; unfold ends_chunk; 
      repeat match goal with H : _ = true |- _ => rewrite H | H : _ = false |- _ => rewrite H end; auto.
    boolify. destruct_and?. subst. eauto.
  - remember (String d p) as p'. simpl. subst p'.
    destruct (c =? "\")%char eqn:E1.
    { destruct (scanBody b p) as [ch rs] eqn:E. intros [= <- <-].
      destruct (IH1 _ _ _ E) as (-> & ? & ?). rewrite !str_app_cons. simpl. rewrite E1. auto. }
    destruct (c =? "[")%char eqn:E2.
    { destruct (scanBody true _) as [ch rs] eqn:E. intros [= <- <-].
      destruct (IH2 _ _ _ E) as (-> & ? & ?). rewrite !str_app_cons. simpl. rewrite E1, E2. auto. }
    destruct (c =? "]")%char eqn:E3.
    { destruct (scanBody false _) as [ch rs] eqn:E. intros [= <- <-].
      destruct (IH2 _ _ _ E) as (-> & ? & ?). rewrite !str_app_cons. simpl. rewrite E1, E2, E3. auto. }
    destruct ((c =? "*")%char && negb b) eqn:E4.
    { intros [= <- <-]. boolify. destruct_and?. subst. unfold ends_chunk. eauto. }
    destruct (scanBody b _) as [ch rs] eqn:E. intros [= <- <-].
    destruct (IH2 _ _ _ E) as (-> & ? & ?). rewrite !str_app_cons. simpl.
    rewrite E1, E2, E3, E4. auto.
Qed.

Lemma gmatch_star_inv p s :
  gmatch (String "*" p) s -> exists u v, s = (u +:+ v) /\ gmatch p v.
Proof. inversion 1; simplify_eq/=; eauto. Qed.

Lemma scanStars_false p q : scanStars p = (false, q) -> p = q.
Proof. destruct p; simpl; repeat case_match; intros; simplify_eq/=; done. Qed.

Lemma scanStars_true p q s :
  scanStars p = (true, q) ->
  gmatch p s <-> exists u v, s = (u +:+ v) /\ gmatch q v.
Proof.
  revert q s. induction p as [|c p IH]; intros q s; simpl; [done|].
  destruct (Ascii.eqb_spec c "*") as [->|Hne]; [|by split_matches].
  destruct (scanStars p) as [[] q'] eqn:E; intros [= <-]; simpl.
  - split.
    + intros (u & v & -> & Hv)%gmatch_star_inv. apply (IH q') in Hv as (u' & v' & -> & Hv); [|done].
      exists (u +:+ u'), v'. by rewrite str_app_assoc.
    + intros (u & v & -> & Hv). constructor. apply (IH q'); [done|]. by exists "", v.
  - apply scanStars_false in E as ->. split; [apply gmatch_star_inv|].
    intros (u & v & -> & Hv). by constructor.
Qed.

(** What follows the stars does not start with one. *)
Lemma scanStars_rest p star q q' : scanStars p = (star, q) -> q <> String "*" q'.
Proof.
  revert star q. induction p as [|c p IH]; intros star q; simpl; [by intros [= <- <-]|].
  destruct (Ascii.eqb_spec c "*") as [->|Hne].
  - destruct (scanStars p) as [st q''] eqn:E; intros [= <- <-]; simpl. eauto.
  - intros [= <- <-] [= ->]. done.
Qed.

(** ** Classes *)

Lemma star_free_high b u q :
  Forall (fun d => 0x80 <= code d) (bytes_of u) ->
  star_free b (u +:+ q) = star_free b q.
Proof.
  induction u as [|c u IH]; [done|]. intros [Hc Hu]%Forall_cons.
  rewrite str_app_cons. cbn [star_free].
  repeat match goal with |- context [(c =? ?d)%char] =>
    replace (c =? d)%char with false
      by (symmetry; apply Ascii.eqb_neq; intros ->; vm_compute in Hc; done) end.
  auto.
Qed.

Lemma esc_char_star_free p r rest :
  esc_char p r rest -> star_free true p = star_free true rest.
Proof.
  destruct 1 as [c p r rest H1 H2 H3 (mid & -> & Hm & _)%decodes_high
                |body r rest [Hb Hd]]; simpl.
  - apply Ascii.eqb_neq in H2, H3. rewrite H3, H2.
    rewrite <- (star_free_high true mid rest) by done.
    destruct (c =? "[")%char; [done|]. by rewrite andb_false_r.
  - destruct body as [|c p]; [done|].
    pose proof (conj Hb Hd : decodes _ _ _) as (mid & -> & Hm & _)%decodes_high.
    by apply star_free_high.
Qed.

Lemma getEsc_sound p r rest :
  getEsc p = Some (r, rest) -> esc_char p r rest /\ rest <> "".
Proof.
  unfold getEsc. destruct p as [|c p]; [done|].
  destruct ((c =? "-")%char || (c =? "]")%char) eqn:E1; [done|].
  apply orb_false_iff in E1 as [E1 E2]. boolify.
  destruct (c =? "\")%char eqn:E3; boolify.
  - subst c. destruct (p =? "")%string eqn:E4; [done|]. boolify.
    destruct (DecodeRuneInString p) as [r' n] eqn:Ed.
    destruct ((r' =? RuneError) && (n =? 1)%nat) eqn:E5; [done|].
    destruct (str_drop n p =? "")%string eqn:E6; [done|]. intros [= -> <-]. boolify.
    split; [|done]. apply ec_escaped. split; [done|]. exists n. split_and!; [done| |done].
    intros [-> ->]. naive_solver.
  - destruct (DecodeRuneInString (String c p)) as [r' n] eqn:Ed.
    destruct ((r' =? RuneError) && (n =? 1)%nat) eqn:E5; [done|]. simpl.
    destruct (str_drop n (String c p) =? "")%string eqn:E6; [done|]. intros [= -> <-]. boolify.
    split; [|done]. constructor; try done. split; [done|]. exists n. split_and!; [done| |done].
    intros [-> ->]. naive_solver.
Qed.

Lemma getEsc_complete p r rest : esc_char p r rest -> rest <> "" -> getEsc p = Some (r, rest).
Proof.
  intros He Hr. destruct He as [c p r rest H1 H2 H3 (_ & n & Hd & Hne & ->)
                |body r rest (Hb & n & Hd & Hne & ->)]; unfold getEsc.
  - apply Ascii.eqb_neq in H1, H2, H3. rewrite H1, H2, H3. simpl orb. cbv iota.
    replace (String c p =? "")%string with false by done. rewrite Hd.
    destruct ((r =? RuneError) && (n =? 1)%nat) eqn:E5; boolify; [naive_solver|].
    apply String.eqb_neq in Hr. by rewrite Hr.
  - simpl. apply String.eqb_neq in Hb. rewrite Hb, Hd.
    destruct ((r =? RuneError) && (n =? 1)%nat) eqn:E5; boolify; [naive_solver|].
    apply String.eqb_neq in Hr. by rewrite Hr.
Qed.

Lemma esc_char_split p r rest :
  esc_char p r rest ->
  exists pre, p = (pre +:+ rest) /\ pre <> "" /\ forall q, esc_char (pre +:+ q) r q.
Proof.
  destruct 1 as [c p r rest H1 H2 H3 (mid & -> & Hm & Hq)%decodes_high
                |body r rest [Hb Hd]].
  - exists (String c mid). split; [done|]. split; [done|]. intros q. by constructor.
  - destruct body as [|c p]; [done|].
    pose proof (conj Hb Hd : decodes _ _ _) as (mid & -> & Hm & Hq)%decodes_high.
    exists (String "\" (String c mid)). split; [done|]. split; [done|]. intros q.
    rewrite !str_app_cons. by apply ec_escaped.
Qed.

Lemma range_item_split p it rest :
  range_item p it rest ->
  exists pre c q, rest = String c q /\ p = (pre +:+ rest) /\ pre <> "" /\
    star_free true p = star_free true rest /\
    forall q', range_item (pre +:+ String c q') it (String c q').
Proof.
  destruct 1 as [p r c q He Hc|p lo p1 hi c q H1 H2].
  - pose proof (esc_char_star_free _ _ _ He).
    destruct (esc_char_split _ _ _ He) as (pre & -> & ? & Hq).
    exists pre, c, q. split_and!; try done. intros q'. by constructor.
  - pose proof (esc_char_star_free _ _ _ H1) as S1.
    pose proof (esc_char_star_free _ _ _ H2) as S2.
    destruct (esc_char_split _ _ _ H1) as (pre1 & -> & ? & Hq1).
    destruct (esc_char_split _ _ _ H2) as (pre2 & -> & ? & Hq2).
    exists (pre1 +:+ String "-" pre2), c, q.
    rewrite !str_app_assoc, !str_app_cons. split_and!; try done.
    + by destruct pre1.
    + rewrite S1. simpl. by rewrite S2.
    + intros q'. rewrite !str_app_assoc, !str_app_cons. econstructor; done.
Qed.

Lemma range_item_head p it rest p' : range_item p it rest -> p <> String "]" p'.
Proof.
  intros H ->. inversion H as [???? He|?????? He]; subst; by inversion He; simplify_eq/=.
Qed.

Lemma class_body_split p its q :
  class_body p its q ->
  (forall p', p <> String "]" p') /\
  star_free true p = star_free false q /\
  exists pre, p = (pre +:+ q) /\ pre <> "" /\ forall q', class_body (pre +:+ q') its q'.
Proof.
  induction 1 as [p it q Hi|p it p' its q Hi Hb (_ & IH & pre' & -> & ? & Hq)].
  - pose proof (fun p' => range_item_head _ _ _ p' Hi).
    destruct (range_item_split _ _ _ Hi) as (pre & c & q0 & [= <- <-] & -> & ? & Hs & Hq).
    split; [done|]. split; [by rewrite Hs|].
    exists (pre +:+ "]"). rewrite str_app_assoc. split; [done|]. split; [by destruct pre|].
    intros q'. rewrite str_app_assoc. apply cb_last, Hq.
  - pose proof (fun p' => range_item_head _ _ _ p' Hi).
    destruct (range_item_split _ _ _ Hi) as (pre & c & q0 & Hc & -> & ? & Hs & Hq0).
    split; [done|]. split; [by rewrite Hs|].
    exists (pre +:+ pre'). rewrite str_app_assoc. split; [done|]. split; [by destruct pre|].
    intros q'. rewrite str_app_assoc. destruct pre' as [|c' pre']; [done|].
    rewrite str_app_cons in Hc. injection Hc as -> <-.
    eapply cb_more; [|apply Hq]. rewrite str_app_cons. apply Hq0.
Qed.

Lemma strip_Some c p q : strip c p = Some q <-> p = String c q.
Proof.
  unfold strip. destruct p as [|d p]; [naive_solver|].
  destruct (Ascii.eqb_spec d c) as [->|]; naive_solver.
Qed.
Lemma strip_None c p : strip c p = None <-> forall q, p <> String c q.
Proof.
  split.
  - intros H q Hq. by rewrite (proj2 (strip_Some c p q) Hq) in H.
  - intros H. destruct (strip c p) as [q|] eqn:E; [|done].
    apply strip_Some in E. by destruct (H q).
Qed.

Lemma matchRanges_sound fuel r p m k m' q :
  matchRanges fuel r p m k = Some (m', q) ->
  ((0 < k)%nat /\ p = String "]" q /\ m' = m) \/
  exists its, class_body p its q /\ m' = m || in_class r its.
Proof.
  revert p m k. induction fuel as [|fuel IH]; intros p m k; [done|].
  cbn [matchRanges].
  destruct (if (0 <? k)%nat then strip "]" p else None) as [p'|] eqn:E0.
  { destruct (Nat.ltb_spec 0 k); [|done]. apply strip_Some in E0 as ->.
    intros [= <- <-]. auto. }
  destruct (getEsc p) as [[lo chunk1]|] eqn:E1; [|done].
  apply getEsc_sound in E1 as [E1 Hne]. intros H. right.
  assert (exists it rest, range_item p it rest /\
    matchRanges fuel r rest (m || in_item r it) (S k) = Some (m', q))
    as (it & rest & Hi & H').
  { destruct (strip "-" chunk1) as [chunk2|] eqn:E2.
    - apply strip_Some in E2 as ->.
      destruct (getEsc chunk2) as [[hi chunk3]|] eqn:E2; [|done].
      apply getEsc_sound in E2 as [E2 Hne2]. destruct chunk3 as [|c' q']; [done|].
      exists (lo, hi), (String c' q'). split; [by eapply ri_span|done].
    - destruct chunk1 as [|c chunk1]; [done|]. rewrite strip_None in E2.
      exists (lo, lo), (String c chunk1). split; [|done]. apply ri_one; [done|].
      intros ->. by eapply E2. }
  clear H. apply IH in H' as [(_ & -> & ->)|(its & Hb & ->)].
  - exists [it]. split; [by apply cb_last|]. cbn [in_class existsb]. by rewrite orb_false_r.
  - exists (it :: its). split; [by eapply cb_more|]. cbn [in_class existsb]. by rewrite orb_assoc.
Qed.

Lemma matchRanges_complete fuel r p m k its q :
  class_body p its q -> (String.length p < fuel)%nat ->
  matchRanges fuel r p m k = Some (m || in_class r its, q).
Proof.
  intros Hb. revert fuel m k.
  assert (forall p it rest fuel m k, range_item p it rest -> (String.length p < S fuel)%nat ->
    matchRanges (S fuel) r p m k = matchRanges fuel r rest (m || in_item r it) (S k)) as Hstep.
  { clear. intros p it rest fuel m k Hi _. cbn [matchRanges].
    replace (if (0 <? k)%nat then strip "]" p else None) with (@None string).
    2: { destruct (0 <? k)%nat; [|done]. symmetry. apply strip_None. intros p'.
         by eapply range_item_head. }
    destruct Hi as [p r' c q He Hc|p lo p1 hi c q H1 H2].
    - apply getEsc_complete in He; [|done]. rewrite He.
      rewrite (proj2 (strip_None "-" (String c q))) by naive_solver. done.
    - apply getEsc_complete in H1, H2; [|done..]. rewrite H1.
      rewrite (proj2 (strip_Some "-" _ p1)) by done. by rewrite H2. }
  induction Hb as [p it q Hi|p it p' its q Hi Hb IH]; intros fuel m k Hf;
    (destruct fuel as [|fuel]; [lia|]); rewrite (Hstep _ _ _ _ _ _ Hi) by done;
    destruct (range_item_split _ _ _ Hi) as (pre & c & q0 & Hc & -> & Hpre & _);
    clear Hi; simplify_eq; rewrite str_length_app in Hf; destruct pre as [|c0 pre]; try done; simpl in Hf.
  - destruct fuel as [|fuel]; [lia|]. cbn [matchRanges Nat.ltb Nat.leb in_class existsb].
    by rewrite orb_false_r.
  - rewrite IH by (simpl; lia). cbn [in_class existsb]. by rewrite orb_assoc.
Qed.

(** ** Soundness of the matcher *)

Lemma matchChunkF_sound fuel chunk s t p' :
  matchChunkF fuel chunk s = Matched t -> star_free false chunk = true ->
  gmatch p' t -> gmatch (chunk +:+ p') s.
Proof.
  revert chunk s. induction fuel as [|fuel IH]; intros chunk s; [done|]. cbn [matchChunkF].
  destruct chunk as [|c chunk1]; [by intros [= ->]|].
  destruct s as [|d s1]; [done|]. intros H Hs Hg. rewrite str_app_cons.
  cbn [star_free] in Hs.
  destruct (Ascii.eqb_spec c "[") as [->|Hc1].
  { destruct (DecodeRuneInString (String d s1)) as [r n] eqn:Ed.
    destruct chunk1 as [|e chunk2]; [done|].
    destruct (Ascii.eqb_spec e "^") as [->|He].
    - destruct (matchRanges _ r chunk2 false 0) as [[m chunk4]|] eqn:Em; [|done].
      apply matchRanges_sound in Em as [[? _]|(its & Hb & ->)]; [lia|].
      destruct (in_class r its) eqn:Ei; [done|].
      pose proof (class_body_split _ _ _ Hb) as (_ & Hst & pre & -> & _ & Hq).
      rewrite str_app_cons, str_app_assoc. eapply gm_nclass; rewrite ?Ed; [apply Hq|done|].
      apply IH; [done| |done]. rewrite <- Hst. exact Hs.
    - destruct (matchRanges _ r _ false 0) as [[m chunk4]|] eqn:Em; [|done].
      apply matchRanges_sound in Em as [[? _]|(its & Hb & ->)]; [lia|].
      destruct (in_class r its) eqn:Ei; [|done].
      pose proof (class_body_split _ _ _ Hb) as (_ & Hst & pre & Hp & Hpre & Hq).
      rewrite Hp, str_app_assoc. eapply gm_class; rewrite ?Ed; [|apply Hq|done|].
      + destruct pre as [|e' pre]; [done|]. rewrite str_app_cons in Hp |- *. naive_solver.
      + apply IH; [done| |done]. rewrite <- Hst. exact Hs. }
  destruct (Ascii.eqb_spec c "?") as [->|Hc2].
  { destruct (DecodeRuneInString (String d s1)) as [r n] eqn:Ed.
    apply gm_any. rewrite Ed. by apply IH. }
  destruct (Ascii.eqb_spec c "\") as [->|Hc3].
  { destruct chunk1 as [|e chunk2]; [done|]. rewrite str_app_cons.
    destruct (Ascii.eqb_spec e d) as [->|]; [|done]. apply gm_esc. by apply IH. }
  destruct (Ascii.eqb_spec c d) as [->|]; [|done].
  assert (d <> "*"%char) as Hstar.
  { intros ->. by rewrite (proj2 (Ascii.eqb_neq "*" "]")) in Hs by done. }
  apply gm_lit; [|done|].
  - unfold is_meta. by rewrite !(proj2 (Ascii.eqb_neq _ _)) by done.
  - apply IH; [done| |done].
    destruct (d =? "]")%char; [done|]. by rewrite (proj2 (Ascii.eqb_neq _ "*")) in Hs by done.
Qed.

Lemma skipLoop_sound chunk last name t :
  skipLoop chunk last name = Some (Ok t) ->
  exists u v, name = (u +:+ v) /\ matchChunk chunk v = Matched t /\ (last = true -> t = "").
Proof.
  induction name as [|c name IH]; cbn [skipLoop]; [done|].
  assert (skipLoop chunk last name = Some (Ok t) ->
    exists u v, String c name = (u +:+ v) /\ matchChunk chunk v = Matched t /\
      (last = true -> t = "")) as Hrec.
  { intros (u & v & -> & ?)%IH. by exists (String c u), v. }
  destruct (matchChunk chunk name) as [| |t'] eqn:E; [done..|].
  destruct (last && negb (t' =? "")%string) eqn:E2; [done|].
  intros [= ->]. exists (String c ""), name. split_and!; [done..|].
  intros ->. simpl in E2. boolify. done.
Qed.

Lemma wildcardMatchF_sound fuel p s : wildcardMatchF fuel p s = Ok true -> gmatch p s.
Proof.
  revert p s. induction fuel as [|fuel IH]; intros p s.
  { destruct p; simpl; [|done]. intros [= ->%String.eqb_eq]. constructor. }
  destruct p as [|c0 p0]; cbn [wildcardMatchF].
  { intros [= ->%String.eqb_eq]. constructor. }
  remember (String c0 p0) as p. clear Heqp c0 p0.
  unfold scanChunk. destruct (scanStars p) as [star p1] eqn:Est.
  destruct (scanBody false p1) as [chunk rest] eqn:Esc.
  apply scanBody_spec in Esc as (-> & Hend & Hsf).
  destruct (star && (chunk =? "")%string) eqn:E1.
  { apply andb_true_iff in E1 as [-> ->%String.eqb_eq]. intros _.
    apply (scanStars_true _ _ s Est). exists s, "". rewrite str_app_nil_r. split; [done|].
    destruct Hend as [->|[q ->]]; [constructor|].
    exfalso. by eapply scanStars_rest. }
  set (again := if star then _ else _).
  assert (again = Ok true -> gmatch p s) as Hagain.
  { subst again. destruct star; [|done].
    destruct (skipLoop _ _ _) as [[t|]|] eqn:Esk; [|done..].
    apply skipLoop_sound in Esk as (u & v & -> & Hm & _). intros Hw%IH.
    apply (scanStars_true _ _ _ Est). exists u, v. split; [done|].
    by eapply matchChunkF_sound. }
  destruct (matchChunk chunk s) as [| |t] eqn:Em; [done..|].
  destruct ((t =? "")%string || negb (rest =? "")%string); [|done]. intros Hw%IH.
  pose proof (matchChunkF_sound _ _ _ _ _ Em Hsf Hw) as Hg.
  destruct star.
  - apply (scanStars_true _ _ _ Est). by exists "", s.
  - by apply scanStars_false in Est as ->.
Qed.

(** A name that [Match] accepts has the shape the pattern describes. *)
Lemma Match_sound p s : Match p s = Ok true -> gmatch p s.
Proof. apply wildcardMatchF_sound. Qed.

(** ** Completeness on ASCII names *)

Definition ascii_only (s : string) : Prop := Forall (fun c => code c < 0x80) (bytes_of s).

Lemma ascii_only_cons c s : ascii_only (String c s) <-> code c < 0x80 /\ ascii_only s.
Proof. unfold ascii_only; simpl. by rewrite Forall_cons. Qed.
Lemma ascii_only_app s t : ascii_only (s +:+ t) <-> ascii_only s /\ ascii_only t.
Proof.
  induction s as [|c s IH]; [by split; [split; [constructor|]|intros [_ ?]]|].
  rewrite str_app_cons, !ascii_only_cons, IH. tauto.
Qed.

(** The scanner passes over [p] up to [q], from one bracket state to another. *)
Definition advances (b : bool) (p : string) (b' : bool) (q : string) : Prop :=
  exists pre, p = (pre +:+ q) /\
    scanBody b p = (pre +:+ (scanBody b' q).1, (scanBody b' q).2).

Lemma advances_trans b p b' q b'' r :
  advances b p b' q -> advances b' q b'' r -> advances b p b'' r.
Proof.
  intros (pre & -> & H1) (pre' & -> & H2). exists (pre +:+ pre').
  rewrite str_app_assoc. split; [done|]. rewrite H1, H2; simpl. by rewrite str_app_assoc.
Qed.

(** One ordinary byte. *)
Lemma advances_byte b c q :
  c <> "\"%char -> c <> "["%char -> c <> "]"%char -> (c = "*"%char -> b = true) ->
  advances b (String c q) b q.
Proof.
  intros H1 H2 H3 H4. exists (String c ""). split; [done|]. cbn [scanBody].
  rewrite !(proj2 (Ascii.eqb_neq _ _)) by done.
  replace ((c =? "*")%char && negb b) with false.
  - by destruct (scanBody b q).
  - destruct (Ascii.eqb_spec c "*"); [by rewrite H4|done].
Qed.

Lemma advances_high b u q :
  Forall (fun d => 0x80 <= code d) (bytes_of u) -> advances b (u +:+ q) b q.
Proof.
  induction u as [|c u IH]; intros H.
  - exists "". split; [done|]. rewrite !str_app_nil_l. by destruct (scanBody b q).
  - apply Forall_cons in H as [Hc Hu]. rewrite str_app_cons.
    eapply advances_trans; [|by apply IH].
    apply advances_byte; intros ->; exfalso; revert Hc; vm_compute; auto.
Qed.

Lemma advances_bracket b q : advances b (String "[" q) true q.
Proof. exists "[". split; [done|]. simpl. by destruct (scanBody true q). Qed.
Lemma advances_close b q : advances b (String "]" q) false q.
Proof. exists "]". split; [done|]. simpl. by destruct (scanBody false q). Qed.
Lemma advances_escape b c q : advances b (String "\" (String c q)) b q.
Proof. exists (String "\" (String c "")). split; [done|]. simpl. by destruct (scanBody b q). Qed.

Lemma esc_char_advances p r rest : esc_char p r rest -> advances true p true rest.
Proof.
  destruct 1 as [c p r rest H1 H2 H3 (mid & -> & Hm & _)%decodes_high
                |body r rest [Hb Hd]].
  - destruct (decide (c = "["%char)) as [->|].
    + eapply advances_trans; [apply advances_bracket|by apply advances_high].
    + eapply advances_trans; [by apply advances_byte|by apply advances_high].
  - destruct body as [|c p]; [done|].
    pose proof (conj Hb Hd : decodes _ _ _) as (mid & -> & Hm & _)%decodes_high.
    eapply advances_trans; [apply advances_escape|by apply advances_high].
Qed.

Lemma class_body_advances p its q : class_body p its q -> advances true p false q.
Proof.
  assert (forall p it rest, range_item p it rest -> advances true p true rest) as Hi.
  { clear. intros ???. destruct 1 as [p r c q He Hc|p lo p1 hi c q H1 H2].
    - by eapply esc_char_advances.
    - eapply advances_trans; [by eapply esc_char_advances|].
      eapply advances_trans; [by apply advances_byte|]. by eapply esc_char_advances. }
  induction 1 as [p it q H|p it p' its q H Hb IH].
  - eapply advances_trans; [by eapply Hi|apply advances_close].
  - eapply advances_trans; [by eapply Hi|done].
Qed.

Lemma str_app_inv_r u v s : (u +:+ s) = (v +:+ s) -> u = v.
Proof.
  intros H. pose proof (f_equal String.length H) as Hl. rewrite !str_length_app in Hl.
  rewrite <- (str_take_app u s), <- (str_take_app v s), H. f_equal. lia.
Qed.

(** A class of the pattern lies within one chunk and is a class of that chunk. *)
Lemma class_body_chunk p its q :
  class_body p its q -> exists pre, p = (pre +:+ q) /\ pre <> "" /\
    scanBody true p = (pre +:+ (scanBody false q).1, (scanBody false q).2) /\
    class_body (pre +:+ (scanBody false q).1) its (scanBody false q).1.
Proof.
  intros Hb. destruct (class_body_advances _ _ _ Hb) as (pre & Hp & Hs).
  destruct (class_body_split _ _ _ Hb) as (_ & _ & pre' & Hp' & Hne & Hq).
  assert (pre' = pre) as -> by (apply (str_app_inv_r _ _ q); congruence).
  exists pre. auto.
Qed.

Lemma matchRanges_any fuel r r' p m m1 k x q :
  matchRanges fuel r p m k = Some (x, q) ->
  exists y, matchRanges fuel r' p m1 k = Some (y, q).
Proof.
  revert p m m1 k. induction fuel as [|fuel IH]; intros p m m1 k; [done|].
  cbn [matchRanges]. destruct (if (0 <? k)%nat then strip "]" p else None).
  { intros [= _ <-]. eauto. }
  destruct (getEsc p) as [[lo c1]|]; [|done].
  destruct (match strip "-" c1 with Some c2 => getEsc c2 | None => Some (lo, c1) end)
    as [[hi c2]|]; [|done]. apply IH.
Qed.

(** Whether a chunk is malformed does not depend on the name once it has matched. *)
Lemma matchChunkF_not_bad fuel chunk s t s' :
  matchChunkF fuel chunk s = Matched t -> matchChunkF fuel chunk s' <> BadPattern.
Proof.
  revert chunk s s'. induction fuel as [|fuel IH]; intros chunk s s'; [done|].
  cbn [matchChunkF]. destruct chunk as [|c chunk1]; [done|].
  destruct s as [|d s1]; [done|]. destruct s' as [|d' s1']; [done|].
  destruct (DecodeRuneInString (String d s1)) as [r n].
  destruct (DecodeRuneInString (String d' s1')) as [r' n'].
  destruct (c =? "[")%char.
  { destruct chunk1 as [|e chunk2]; [done|].
    destruct (matchRanges _ r _ false 0) as [[m chunk4]|] eqn:Em; [|done].
    destruct (matchRanges_any _ _ r' _ _ false _ _ _ Em) as [y ->].
    destruct (Bool.eqb m _); [done|]. intros H. destruct (Bool.eqb y _); [done|]. by eapply IH. }
  destruct (c =? "?")%char; [apply IH|].
  destruct (c =? "\")%char.
  { destruct chunk1 as [|e chunk2]; [done|]. destruct (e =? d)%char; [|done].
    intros H. destruct (e =? d')%char; [by eapply IH|done]. }
  destruct (c =? d)%char; [|done]. intros H. destruct (c =? d')%char; [by eapply IH|done].
Qed.

(** On ASCII names a chunk consumes a fixed number of bytes. *)
Lemma matchChunkF_width fuel chunk s t :
  matchChunkF fuel chunk s = Matched t -> ascii_only s ->
  exists u, s = (u +:+ t) /\ forall s' t', matchChunkF fuel chunk s' = Matched t' -> ascii_only s' ->
    exists u', s' = (u' +:+ t') /\ String.length u' = String.length u.
Proof.
  revert chunk s. induction fuel as [|fuel IH]; intros chunk s; [done|].
  cbn [matchChunkF]. destruct chunk as [|c chunk1].
  { intros [= ->] _. exists "". split; [done|]. intros s' t' [= ->] _. by exists "". }
  destruct s as [|d s1]; [done|]. intros H [Hd Ha]%ascii_only_cons.
  rewrite decode_ascii in H by done. cbn [str_drop] in H.
  assert (exists fuel' chunk', matchChunkF fuel' chunk' s1 = Matched t /\ fuel' = fuel /\
    forall d' s1' t', code d' < 0x80 ->
      matchChunkF (S fuel) (String c chunk1) (String d' s1') = Matched t' ->
      matchChunkF fuel chunk' s1' = Matched t') as (? & chunk' & H1 & -> & H2).
  { cbn [matchChunkF]. destruct (c =? "[")%char.
    { destruct chunk1 as [|e chunk2]; [done|].
      destruct (matchRanges _ _ _ false 0) as [[m chunk4]|] eqn:Em; [|done].
      destruct (Bool.eqb m _); [done|]. exists fuel, chunk4. split_and!; [done..|].
      intros d' s1' t' Hd' H'. rewrite decode_ascii in H' by done. cbn [str_drop] in H'.
      destruct (matchRanges_any _ _ (code d') _ _ false _ _ _ Em) as [y Hy]. rewrite Hy in H'.
      by destruct (Bool.eqb y _). }
    destruct (c =? "?")%char.
    { exists fuel, chunk1. split_and!; [done..|]. intros d' s1' t' Hd' H'.
      by rewrite decode_ascii in H' by done. }
    destruct (c =? "\")%char.
    { destruct chunk1 as [|e chunk2]; [done|]. destruct (e =? d)%char; [|done].
      exists fuel, chunk2. split_and!; [done..|]. intros d' s1' t' _ H'.
      by destruct (DecodeRuneInString (String d' s1')); destruct (e =? d')%char. }
    destruct (c =? d)%char; [|done]. exists fuel, chunk1. split_and!; [done..|].
    intros d' s1' t' _ H'. by destruct (c =? d')%char. }
  destruct (IH _ _ H1 Ha) as (u & -> & Hu). exists (String d u). split; [done|].
  intros s' t' H' Ha'. destruct s' as [|d' s1']; [done|].
  apply ascii_only_cons in Ha' as [Hd' Ha']. apply H2 in H'; [|done].
  destruct (Hu _ _ H' Ha') as (u' & -> & Hl). exists (String d' u'). simpl. by rewrite Hl.
Qed.

Lemma gmatch_chunk p s fuel :
  gmatch p s -> (String.length (scanBody false p).1 < fuel)%nat ->
  exists t, matchChunkF fuel (scanBody false p).1 s = Matched t /\
    gmatch (scanBody false p).2 t.
Proof.
  intros Hg. revert fuel.
  induction Hg as [|p u s Hg IH|p c s Hg IH|p c s H1 H2 Hg IH|p c s Hg IH
    |p its q c s Hp Hb Hi Hg IH|p its q c s Hb Hi Hg IH]; intros [|fuel] Hf; try lia.
  - exists "". split; [done|constructor].
  - exists (u +:+ s). split; [done|]. simpl. by constructor.
  - destruct (advances_byte false "?" p) as (pre & Hpre & Hs); [done..|].
    assert (pre = "?") as -> by (by apply (str_app_inv_r _ _ p)).
    rewrite Hs in *. cbn [fst snd] in *. rewrite str_app_cons, str_app_nil_l in *.
    destruct (IH fuel) as (t & Ht & Hgt); [simpl in Hf; lia|].
    exists t. split; [|done]. cbn [matchChunkF].
    destruct (DecodeRuneInString (String c s)) as [r n]. exact Ht.
  - assert (c <> "["%char /\ c <> "*"%char /\ c <> "?"%char) as (N1 & N2 & N3).
    { unfold is_meta in H1. boolify. naive_solver. }
    assert (scanBody false (String c p) = (String c (scanBody false p).1, (scanBody false p).2)) as Hs.
    { cbn [scanBody]. rewrite (proj2 (Ascii.eqb_neq c "\")), (proj2 (Ascii.eqb_neq c "[")),
        (proj2 (Ascii.eqb_neq c "*")) by done.
      destruct (c =? "]")%char; by destruct (scanBody false p). }
    rewrite Hs in *. cbn [fst snd] in *.
    destruct (IH fuel) as (t & Ht & Hgt); [simpl in Hf; lia|].
    exists t. split; [|done]. cbn [matchChunkF].
    rewrite !(proj2 (Ascii.eqb_neq _ _)), Ascii.eqb_refl by done. exact Ht.
  - destruct (advances_escape false c p) as (pre & Hpre & Hs).
    assert (pre = String "\" (String c "")) as -> by (by apply (str_app_inv_r _ _ p)).
    rewrite Hs in *. cbn [fst snd] in *. rewrite !str_app_cons, str_app_nil_l in *.
    destruct (IH fuel) as (t & Ht & Hgt); [simpl in Hf; lia|].
    exists t. split; [|done]. cbn [matchChunkF]. simpl. by rewrite Ascii.eqb_refl.
  - destruct (class_body_chunk _ _ _ Hb) as (pre & -> & Hne & Hs & Hc).
    assert (scanBody false (String "[" (pre +:+ q)) =
      (String "[" (pre +:+ (scanBody false q).1), (scanBody false q).2)) as Hs'.
    { cbn [scanBody]. simpl. by rewrite Hs. }
    rewrite Hs' in *. cbn [fst snd] in *.
    destruct (IH fuel) as (t & Ht & Hgt); [simpl in Hf; rewrite str_length_app in Hf; lia|].
    exists t. split; [|done]. destruct pre as [|e pre]; [done|].
    rewrite !str_app_cons in *. cbn [matchChunkF]. simpl Ascii.eqb. cbv iota.
    destruct (DecodeRuneInString (String c s)) as [r n]. cbn [fst snd] in *.
    rewrite (proj2 (Ascii.eqb_neq e "^")) by naive_solver.
    rewrite (matchRanges_complete _ _ _ _ _ _ _ Hc) by lia. by rewrite Hi.
  - destruct (class_body_chunk _ _ _ Hb) as (pre & -> & Hne & Hs & Hc).
    assert (scanBody false (String "[" (String "^" (pre +:+ q))) =
      (String "[" (String "^" (pre +:+ (scanBody false q).1)), (scanBody false q).2)) as Hs'.
    { cbn [scanBody]. simpl. by rewrite Hs. }
    rewrite Hs' in *. cbn [fst snd] in *.
    destruct (IH fuel) as (t & Ht & Hgt); [simpl in Hf; rewrite str_length_app in Hf; lia|].
    exists t. split; [|done]. cbn [matchChunkF]. simpl Ascii.eqb. cbv iota.
    destruct (DecodeRuneInString (String c s)) as [r n]. cbn [fst snd] in *.
    rewrite (matchRanges_complete _ _ _ _ _ _ _ Hc) by lia. by rewrite Hi.
Qed.

Lemma skipLoop_complete chunk last name u v t :
  name = (u +:+ v) -> u <> "" -> matchChunk chunk v = Matched t -> (last = true -> t = "") ->
  exists u' v' t', skipLoop chunk last name = Some (Ok t') /\ name = (u' +:+ v') /\
    (String.length u' <= String.length u)%nat /\ matchChunk chunk v' = Matched t' /\
    (last = true -> t' = "").
Proof.
  intros -> Hu Hm Ht. destruct u as [|c u]; [done|]. clear Hu. revert c.
  induction u as [|c' u IH]; intros c.
  - exists (String c ""), v, t. split_and!; try done. rewrite str_app_cons. cbn [skipLoop].
    rewrite str_app_nil_l, Hm. destruct last; simpl; [by rewrite Ht|done].
  - rewrite str_app_cons. cbn [skipLoop].
    destruct (IH c') as (u' & v' & t' & E & Hu' & Hl & Hm' & Ht').
    destruct (matchChunk chunk (String c' u +:+ v)) as [| |t0] eqn:E0.
    + exists (String c u'), v', t'. split_and!; try done; [by rewrite Hu'|simpl in *; lia].
    + exfalso. by eapply matchChunkF_not_bad.
    + destruct (last && negb (t0 =? "")%string) eqn:E1.
      * exists (String c u'), v', t'. split_and!; try done; [by rewrite Hu'|simpl in *; lia].
      * exists (String c ""), (String c' u +:+ v), t0. split_and!; try done; simpl; [lia|].
        intros ->. simpl in E1. boolify. done.
Qed.

Lemma gmatch_star_extend q w t : gmatch (String "*" q) t -> gmatch (String "*" q) (w +:+ t).
Proof.
  intros (u & v & -> & Hv)%gmatch_star_inv. rewrite <- str_app_assoc. by constructor.
Qed.

Lemma str_suffix_le s u t u' t' :
  s = (u +:+ t) -> s = (u' +:+ t') -> (String.length u <= String.length u')%nat ->
  exists w, t = (w +:+ t').
Proof.
  revert u u'. induction s as [|c s IH]; intros u u' Hu Hu' Hl.
  - destruct u, u'; simplify_eq/=; [|lia..]. rewrite str_app_nil_l in *. subst.
    by exists "".
  - destruct u as [|d u]; [rewrite str_app_nil_l in Hu; subst; eauto|].
    destruct u' as [|d' u']; [simpl in Hl; lia|].
    rewrite str_app_cons in Hu, Hu'. simplify_eq. simpl in Hl.
    eapply (IH u u'); [done|done|lia].
Qed.

(** Where a chunk matches at two positions of an ASCII name, what is left at the
    earlier one extends what is left at the later one. *)
Lemma chunk_suffix chunk s u v t u' v' t' :
  ascii_only s -> s = (u +:+ v) -> s = (u' +:+ v') ->
  matchChunk chunk v = Matched t -> matchChunk chunk v' = Matched t' ->
  (String.length u <= String.length u')%nat -> exists w, t = (w +:+ t').
Proof.
  intros Ha -> Hs Hm Hm' Hl. pose proof Ha as Ha'. rewrite Hs in Ha'.
  apply ascii_only_app in Ha as [_ Ha], Ha' as [_ Ha'].
  destruct (matchChunkF_width _ _ _ _ Hm Ha) as (x & -> & Hx).
  destruct (Hx _ _ Hm' Ha') as (x' & -> & Hlx).
  eapply (str_suffix_le _ (u +:+ x) t (u' +:+ x') t'); [reflexivity| |].
  - rewrite !str_app_assoc. exact Hs.
  - rewrite !str_length_app. lia.
Qed.

Lemma ascii_only_suffix chunk v t :
  ascii_only v -> matchChunk chunk v = Matched t -> ascii_only t.
Proof.
  intros Ha Hm. destruct (matchChunkF_width _ _ _ _ Hm Ha) as (x & -> & _).
  by apply ascii_only_app in Ha as [_ ?].
Qed.

Lemma scanStars_length p star q :
  scanStars p = (star, q) ->
  (String.length q + (if star then 1 else 0) <= String.length p)%nat.
Proof.
  revert star q. induction p as [|c p IH]; intros star q; simpl; [by intros [= <- <-]|].
  destruct (c =? "*")%char; [|intros [= <- <-]; simpl; lia].
  destruct (scanStars p) as [st q'] eqn:E. intros [= <- <-]. simpl.
  specialize (IH _ _ eq_refl). destruct st; lia.
Qed.

Lemma scanChunk_shrinks p star p1 chunk rest :
  p <> "" -> scanStars p = (star, p1) -> p1 = (chunk +:+ rest) -> ends_chunk rest ->
  (String.length rest < String.length p)%nat.
Proof.
  intros Hp Est -> Hend. pose proof (scanStars_length _ _ _ Est) as Hl.
  rewrite str_length_app in Hl. destruct star; [lia|].
  destruct chunk as [|c chunk]; simpl in Hl; [|lia].
  rewrite str_app_nil_l in Est. pose proof (scanStars_false _ _ Est) as ->.
  destruct Hend as [->|[q ->]]; [done|]. by destruct (scanStars_rest _ _ _ q Est).
Qed.

(** The matcher finds every match in an ASCII name. *)
Lemma wildcardMatchF_complete fuel p s :
  ascii_only s -> gmatch p s -> (String.length p <= fuel)%nat -> wildcardMatchF fuel p s = Ok true.
Proof.
  revert p s. induction fuel as [|fuel IH]; intros p s Ha Hg Hf.
  { destruct p; simpl in Hf; [|lia]. by inversion Hg. }
  destruct p as [|c0 p0]; [by inversion Hg|]. cbn [wildcardMatchF].
  remember (String c0 p0) as p. assert (p <> "") as Hp by congruence. clear Heqp c0 p0.
  unfold scanChunk. destruct (scanStars p) as [star p1] eqn:Est.
  destruct (scanBody false p1) as [chunk rest] eqn:Esc.
  pose proof (scanBody_spec _ _ _ _ Esc) as (Hp1 & Hend & _).
  destruct (star && (chunk =? "")%string) eqn:E1; [done|].
  assert (exists u v t, s = (u +:+ v) /\ (star = false -> u = "") /\
    matchChunk chunk v = Matched t /\ gmatch rest t) as (u & v & t & Hs & Hu & Hm & Hgt).
  { assert (exists u v, s = (u +:+ v) /\ (star = false -> u = "") /\ gmatch p1 v)
      as (u & v & Hs & Hu & Hv).
    { destruct star.
      - apply (scanStars_true _ _ _ Est) in Hg as (u & v & ? & ?). by exists u, v.
      - apply scanStars_false in Est as ->. by exists "", s. }
    pose proof (gmatch_chunk _ _ (S (String.length chunk)) Hv) as Hc.
    rewrite Esc in Hc. destruct Hc as (t & Ht & Hgt); [simpl; lia|]. by exists u, v, t. }
  pose proof (scanChunk_shrinks _ _ _ _ _ Hp Est Hp1 Hend) as Hr.
  assert (forall x y z, s = (x +:+ y) -> (String.length x <= String.length u)%nat ->
    matchChunk chunk y = Matched z -> (rest = "" -> z = "") ->
    wildcardMatchF fuel rest z = Ok true) as Hgo.
  { intros x y z Hxy Hx Hyz Hz. apply IH; [| |lia].
    - eapply ascii_only_suffix; [|done]. rewrite Hxy in Ha. by apply ascii_only_app in Ha as [_ ?].
    - destruct Hend as [->|[q ->]]; [rewrite Hz by done; constructor|].
      destruct (chunk_suffix _ _ _ _ _ _ _ _ Ha Hxy Hs Hyz Hm Hx) as [w ->].
      by apply gmatch_star_extend. }
  assert (rest = "" -> t = "") as Ht by (intros ->; by inversion Hgt).
  set (again := if star then _ else _).
  assert (u <> "" -> again = Ok true) as Hagain.
  { intros Hne. subst again. destruct star; [|by rewrite Hu in Hne].
    destruct (skipLoop_complete chunk (rest =? "")%string _ _ _ _ Hs Hne Hm)
      as (u' & v' & t' & -> & Hs' & Hl & Hm' & Ht'); [by intros ?%String.eqb_eq; auto|].
    eapply Hgo; [done..|]. intros ?%String.eqb_eq. auto. }
  destruct (matchChunk chunk s) as [| |t0] eqn:E0.
  - apply Hagain. intros ->. rewrite str_app_nil_l in Hs. congruence.
  - exfalso. by eapply matchChunkF_not_bad.
  - destruct ((t0 =? "")%string || negb (rest =? "")%string) eqn:E2.
    + apply (Hgo "" s t0); [done|simpl; lia|done|]. intros ->. rewrite orb_false_r in E2. by boolify.
    + apply orb_false_iff in E2 as [E2 E3%negb_false_iff]. boolify.
      apply Hagain. intros ->. rewrite str_app_nil_l in Hs. naive_solver congruence.
Qed.

(** A separator is a character like the others. *)
Lemma Match_slash : Match "a*" "a/b" = Ok true /\ Match "a?b" "a/b" = Ok true.
Proof. by vm_compute. Qed.



(** ** The key range of a pattern *)

(** The literal prefix [Parse] takes its limits from. *)
Definition literal (p : string) : string := default p (before_meta p).

(** What makes the limits enclose the matches: the literal prefix is not empty, has no
    escape and does not end in 0xFF; or the pattern is scanned without limits. *)
Definition rangeable (p : string) : Prop :=
  has_prefix p "*" = true \/ p = "" \/
  (literal p <> "" /\ Forall (fun c => c <> "\"%char) (bytes_of (literal p)) /\
   last (bytes_of (literal p)) <> Some (chr 0xFF)).

#[global] Instance rangeable_dec p : Decision (rangeable p).
Proof. apply _. Defined.

Lemma unrev_cons c rb : unrev (c :: rb) = (unrev rb +:+ String c "").
Proof. unfold unrev. rewrite reverse_cons. apply string_of_app. Qed.
Lemma unrev_bytes s : unrev (reverse (bytes_of s)) = s.
Proof. unfold unrev. by rewrite reverse_involutive, string_of_bytes. Qed.

Lemma str_ltb_snoc x c d t u : code c < code d -> ((x +:+ String c t) <s (x +:+ String d u)) = true.
Proof. intros H. rewrite str_ltb_app_l, str_ltb_cons. by rewrite (proj2 (Z.ltb_lt _ _) H). Qed.

Lemma above_gt rb t :
  rb <> [] -> head rb <> Some (chr 0xFF) -> ((unrev rb +:+ t) <s unrev (above rb)) = true.
Proof.
  destruct rb as [|c rb]; [done|]. intros _ Hc. unfold above.
  destruct (Z.eqb_spec (code c) 0xFF) as [E|E].
  { destruct Hc. simpl. f_equal. by rewrite <- E, chr_code. }
  rewrite !unrev_cons, str_app_assoc. apply str_ltb_snoc.
  pose proof (code_bounds c). rewrite code_chr_small; lia.
Qed.

Lemma below_lt rb t : rb <> [] -> (unrev (below rb) <s (unrev rb +:+ t)) = true.
Proof.
  destruct rb as [|c rb]; [done|]. intros _. unfold below.
  destruct (Z.eqb_spec (code c) 0) as [E|E].
  2: { rewrite !unrev_cons, str_app_assoc. apply str_ltb_snoc.
       pose proof (code_bounds c). rewrite code_chr_small; lia. }
  revert c t E. induction rb as [|d rb IH]; intros c t E; cbn [below_zeros];
    rewrite (proj2 (Z.eqb_eq _ _) E); [done|].
  rewrite (unrev_cons c), str_app_assoc.
  destruct (Z.eqb_spec (code d) 0) as [Ed|Ed].
  { specialize (IH d (String c "" +:+ t) Ed). cbn [below_zeros] in IH.
    by rewrite (proj2 (Z.eqb_eq _ _) Ed) in IH. }
  rewrite !unrev_cons, !str_app_assoc. apply str_ltb_snoc.
  pose proof (code_bounds d). rewrite code_chr_small; lia.
Qed.

Lemma gmatch_literal p s :
  gmatch p s -> Forall (fun c => c <> "\"%char) (bytes_of (literal p)) ->
  exists t, s = (literal p +:+ t).
Proof.
  unfold literal. induction 1 as [|p u s Hg IH|p c s Hg IH|p c s H1 H2 Hg IH|p c s Hg IH
    |p its q c s Hp Hb Hi Hg IH|p its q c s Hb Hi Hg IH]; cbn [before_meta];
    try (intros _; by eexists).
  - rewrite H1. destruct (before_meta p) as [l|]; simpl in *;
      intros [_ Hl]%Forall_cons; destruct (IH Hl) as [t ->]; by exists t.
  - cbn [is_meta]. destruct (if is_meta c then _ else _) as [l|]; simpl;
      intros [Hne _]%Forall_cons; done.
Qed.

Lemma literal_last p :
  literal p <> "" -> last (bytes_of (literal p)) <> Some (chr 0xFF) ->
  reverse (bytes_of (literal p)) <> [] /\ head (reverse (bytes_of (literal p))) <> Some (chr 0xFF).
Proof.
  intros H1 H2. split.
  - intros H%(f_equal reverse). rewrite reverse_involutive in H.
    destruct (literal p); [done|]. by rewrite reverse_nil in H.
  - by rewrite head_reverse.
Qed.

Lemma Parse_unlimited p desc :
  has_prefix p "*" = true \/ p = "" -> Limits (Parse p desc) = ("", "").
Proof. unfold Parse. intros [->| ->]; [done|]. done. Qed.

Lemma Parse_limits p desc :
  has_prefix p "*" = false -> literal p <> "" ->
  Limits (Parse p desc) =
    let rb := reverse (bytes_of (literal p)) in
    if desc then (unrev (above rb), unrev (below rb)) else (literal p, unrev (above rb)).
Proof.
  unfold Parse, literal. intros -> Hl.
  destruct (String.eqb_spec p "") as [->|Hp]; [done|].
  destruct (before_meta p) as [l|]; simpl in *;
    rewrite (proj2 (String.eqb_neq _ "")) by done; by destruct desc.
Qed.

Lemma limits_asc p s :
  rangeable p -> Match p s = Ok true ->
  let '(lo, hi) := Limits (Parse p false) in
  (lo = "" /\ hi = "") \/ ((s <s lo) = false /\ (s <s hi) = true).
Proof.
  intros Hr Hm%Match_sound.
  destruct (has_prefix p "*") eqn:Hp; [by rewrite Parse_unlimited; auto|].
  destruct Hr as [?|[->|(H1 & H2 & H3)]]; [congruence|by rewrite Parse_unlimited; auto|].
  rewrite Parse_limits by done. cbv zeta iota.
  destruct (gmatch_literal _ _ Hm H2) as [t ->]. right.
  destruct (literal_last _ H1 H3) as [H4 H5]. split; [apply str_ltb_prefix|].
  rewrite <- (unrev_bytes (literal p)) at 1. by apply above_gt.
Qed.

Lemma limits_desc p s :
  rangeable p -> Match p s = Ok true ->
  let '(hi, lo) := Limits (Parse p true) in
  (hi = "" /\ lo = "") \/ ((s <s hi) = true /\ (lo <s s) = true).
Proof.
  intros Hr Hm%Match_sound.
  destruct (has_prefix p "*") eqn:Hp; [by rewrite Parse_unlimited; auto|].
  destruct Hr as [?|[->|(H1 & H2 & H3)]]; [congruence|by rewrite Parse_unlimited; auto|].
  rewrite Parse_limits by done. cbv zeta iota.
  destruct (gmatch_literal _ _ Hm H2) as [t ->]. right.
  destruct (literal_last _ H1 H3) as [H4 H5].
  split.
  - rewrite <- (unrev_bytes (literal p)) at 1. by apply above_gt.
  - rewrite <- (unrev_bytes (literal p)) at 2. by apply below_lt.
Qed.

(** C39. The limits of [Parse] enclose every match, for a rangeable pattern, one that starts
    with a star or whose text in front of the first wildcard is not empty, has no escape and
    does not end in 0xFF: either the limits are empty (a full scan) or a name [Match]
    accepts lies between them: ascending, at least the first and below the second;
    descending, below the first and above the second. For other patterns matches are left
    out ([Parse_limits_question], [Parse_limits_escape], [Parse_limits_ff]). *)
Theorem Parse_limits_sound p desc s :
  rangeable p -> Match p s = Ok true ->
  let '(l0, l1) := Limits (Parse p desc) in
  (l0 = "" /\ l1 = "") \/
  (if desc then (s <s l0) = true /\ (l1 <s s) = true
   else (s <s l0) = false /\ (s <s l1) = true).
Proof. destruct desc; [apply limits_desc|apply limits_asc]. Qed.

Lemma Parse_limits_sound_witness :
  Match "truck:[0-9]*" "truck:7b" = Ok true /\
  Limits (Parse "truck:[0-9]*" false) = ("truck:", "truck;") /\
  (("truck:7b" <s "truck:") = false /\ ("truck:7b" <s "truck;") = true).
Proof.
  split_and!; [by vm_compute..| |];
    (destruct (Parse_limits_sound "truck:[0-9]*" false "truck:7b") as [[H _]|[H1 H2]];
     [apply (bool_decide_unpack _); by vm_compute|by vm_compute|done|done]).
Defined.

(** Why [rangeable] is needed: patterns whose range excludes a name they match. *)
Lemma Parse_limits_question :
  Match "?ruck" "truck" = Ok true /\ Limits (Parse "?ruck" false) = ("?ruck", "?ruck").
Proof. by vm_compute. Qed.
Lemma Parse_limits_escape :
  Match "a\*b" "a*b" = Ok true /\ Limits (Parse "a\*b" false) = ("a\", "a]") /\
  ("a*b" <s "a\") = true.
Proof. by vm_compute. Qed.
Lemma Parse_limits_ff :
  let p := String (chr 0xFF) "*" in let s := String (chr 0xFF) "a" in
  Match p s = Ok true /\ (s <s (Limits (Parse p false)).2) = false.
Proof. by vm_compute. Qed.

(** The star loop skips bytes, the question mark takes runes: one three-byte character
    is accepted as two. *)
Lemma Match_splits_rune : Match "*??" "€" = Ok true /\ Match "??" "€" = Ok false.
Proof. by vm_compute. Qed.

