(* ===== verification/Strconv.v ===== *)
(** * Numbers and their text ([strconv], [float64], [int64])

    A [float64] is an IEEE-754 binary64 value of [SpecFloat]; decimal and hexadecimal
    literals are read by the grammar of [strconv.ParseFloat] and rounded once, to
    nearest even, from their exact value. Integers are read and printed in base ten. *)

From Stdlib Require Import Ascii String ZArith Lia Bool SpecFloat.
From stdpp Require Import base list strings option sets.
From S2P Require Import Prelude GoStd.

Local Open Scope Z_scope.

(** ** Floating point *)

Abbreviation float64 := spec_float.

Definition f64_prec : Z := 53.
Definition f64_emax : Z := 1024.

Definition f64_add : float64 -> float64 -> float64 := SFadd f64_prec f64_emax.
Definition f64_sub : float64 -> float64 -> float64 := SFsub f64_prec f64_emax.
Definition f64_mul : float64 -> float64 -> float64 := SFmul f64_prec f64_emax.
Definition f64_div : float64 -> float64 -> float64 := SFdiv f64_prec f64_emax.
(** [float64(z)] of an integer. *)
Definition f64_of_Z (z : Z) : float64 := binary_normalize f64_prec f64_emax z 0 false.

(** Go's [<], [>], [<=], [==] on floats: false on a NaN. *)
Definition f64_lt (x y : float64) : bool := SFltb x y.
Definition f64_gt (x y : float64) : bool := SFltb y x.
Definition f64_le (x y : float64) : bool := SFleb x y.
Definition f64_eq (x y : float64) : bool := SFeqb x y.

Definition f64_zero : float64 := S754_zero false.
Definition f64_pinf : float64 := S754_infinity false.
Definition f64_ninf : float64 := S754_infinity true.
Definition IsNaN (x : float64) : bool := match x with S754_nan => true | _ => false end.
(** [math.IsInf(x, sign)] for sign 0, +1 and -1. *)
Definition IsInf (x : float64) (sign : Z) : bool :=
  match x with
  | S754_infinity neg => (sign =? 0) || Bool.eqb neg (sign <? 0)
  | _ => false
  end.

(** [int64(x)]: truncation toward zero; out of range the result is the one of the
    amd64 instruction, the least integer. *)
Definition f64_trunc (x : float64) : option Z :=
  match x with
  | S754_zero _ => Some 0
  | S754_finite s m e =>
    let a := if 0 <=? e then Z.pos m * 2 ^ e else Z.pos m / 2 ^ (- e) in
    Some (if s then - a else a)
  | _ => None
  end.
Definition int64_of_f64 (x : float64) : Z :=
  match f64_trunc x with
  | Some z => if (- 2 ^ 63 <=? z) && (z <? 2 ^ 63) then z else - 2 ^ 63
  | None => - 2 ^ 63
  end.

#[global] Instance spec_float_eq_dec : EqDecision spec_float.
Proof. solve_decision. Defined.

(** *** Comparison

    [SFcompare] is a total order on everything but NaN, with the two zeros equal. *)

(** [math.Floor]. *)
Definition f64_floor (x : float64) : float64 :=
  match x with
  | S754_finite s m e =>
    if 0 <=? e then x else f64_of_Z ((if s then Z.neg m else Z.pos m) / 2 ^ (- e))
  | _ => x
  end.

Lemma f64_lt_irrefl x : f64_lt x x = false.
Proof.
  unfold f64_lt, SFltb, SFcompare. destruct x as [[]|[]| |[] m e]; try done.
  all: by rewrite Z.compare_refl, Pos.compare_cont_refl.
Qed.

(** The key of a non-NaN float: sign class, exponent, mantissa. *)
Definition f64_key (x : float64) : option (Z * Z * Z) :=
  match x with
  | S754_nan => None
  | S754_zero _ => Some (0, 0, 0)
  | S754_infinity s => Some (if s then (-2, 0, 0) else (2, 0, 0))
  | S754_finite s m e => Some (if s then (-1, - e, - Z.pos m) else (1, e, Z.pos m))
  end.

Definition lex3 (a b : Z * Z * Z) : Prop :=
  let '(a1, a2, a3) := a in let '(b1, b2, b3) := b in
  a1 < b1 \/ (a1 = b1 /\ (a2 < b2 \/ (a2 = b2 /\ a3 < b3))).

(** [f64_lt] as a relation on keys. *)
Definition key_lt (kx ky : option (Z * Z * Z)) : Prop :=
  match kx, ky with Some a, Some b => lex3 a b | _, _ => False end.

Lemma f64_lt_key x y : f64_lt x y = true <-> key_lt (f64_key x) (f64_key y).
Proof.
  unfold f64_lt, SFltb, SFcompare.
  destruct x as [[]|[]| |[] m e], y as [[]|[]| |[] m' e']; simpl;
    try (split; [discriminate || (intros _; lia)|lia || done]);
    try change (Pos.compare_cont Eq m m') with (Pos.compare m m').
  all: destruct (Z.compare_spec e e'), (Pos.compare_spec m m'); simpl;
    (split; [discriminate || (intros _; lia)|lia || done]).
Qed.

Lemma f64_lt_trans x y z : f64_lt x y = true -> f64_lt y z = true -> f64_lt x z = true.
Proof.
  rewrite !f64_lt_key.
  destruct (f64_key x) as [[[]]|], (f64_key y) as [[[]]|], (f64_key z) as [[[]]|];
    simpl; try done. lia.
Qed.

Lemma f64_lt_asym x y : f64_lt x y = true -> f64_lt y x = false.
Proof.
  intros H. destruct (f64_lt y x) eqn:E; [|done].
  pose proof (f64_lt_trans _ _ _ H E) as Hx. by rewrite f64_lt_irrefl in Hx.
Qed.

(** Incomparable means equal keys, away from NaN. *)
Lemma f64_incomparable x y :
  IsNaN x = false -> IsNaN y = false ->
  f64_lt x y = false -> f64_lt y x = false -> f64_key x = f64_key y.
Proof.
  intros Nx Ny H1%not_true_iff_false H2%not_true_iff_false.
  rewrite f64_lt_key in H1, H2.
  destruct (f64_key x) as [[[a1 a2] a3]|] eqn:Ex; [|by destruct x].
  destruct (f64_key y) as [[[b1 b2] b3]|] eqn:Ey; [|by destruct y].
  simpl in *. repeat f_equal; lia.
Qed.

Lemma f64_key_lt x x' y y' :
  f64_key x = f64_key x' -> f64_key y = f64_key y' -> f64_lt x y = f64_lt x' y'.
Proof.
  intros Hx Hy. apply eq_true_iff_eq. rewrite !f64_lt_key. by rewrite Hx, Hy.
Qed.

(** [<=] on everything but NaN: a total preorder. *)
Lemma f64_le_lt x y : f64_le x y = negb (IsNaN x) && negb (IsNaN y) && negb (f64_lt y x).
Proof.
  unfold f64_le, f64_lt, SFleb, SFltb, SFcompare.
  destruct x as [[]|[]| |[] m e], y as [[]|[]| |[] m' e']; simpl; try done;
    try change (Pos.compare_cont Eq m m') with (Pos.compare m m');
    try change (Pos.compare_cont Eq m' m) with (Pos.compare m' m).
  all: rewrite (Z.compare_antisym e e'), (Pos.compare_antisym m m');
    by destruct (e ?= e')%Z, (m ?= m')%positive.
Qed.
Lemma f64_le_total x y :
  IsNaN x = false -> IsNaN y = false -> f64_le x y = false -> f64_le y x = true.
Proof.
  intros Nx Ny. rewrite !f64_le_lt, Nx, Ny; simpl. intros H%negb_false_iff.
  by rewrite (f64_lt_asym _ _ H).
Qed.
Lemma f64_le_trans x y z : f64_le x y = true -> f64_le y z = true -> f64_le x z = true.
Proof.
  rewrite !f64_le_lt. boolify. intros [[Nx Ny] Hyx] [[_ Nz] Hzy]. split_and!; [done..|].
  apply not_true_iff_false. intros Hzx. apply not_true_iff_false in Hyx, Hzy.
  rewrite f64_lt_key in Hzx, Hyx, Hzy.
  destruct (f64_key x) as [[[]]|], (f64_key y) as [[[]]|] eqn:Ey, (f64_key z) as [[[]]|]; simpl in *; try done; [lia|].
  by destruct y.
Qed.

(** ** Reading floats: [strconv.ParseFloat] *)

Definition is_digit (c : ascii) : bool := in_range 0x30 0x39 c.
(** [lower(c)] of [strconv]: [c | ('x' - 'X')]. *)
Definition lower (c : ascii) : Z := Z.lor (code c) 0x20.
Definition hex_letter (c : ascii) : bool := (0x61 <=? lower c) && (lower c <=? 0x66).
Definition digit_val (c : ascii) : Z :=
  if is_digit c then code c - 0x30 else lower c - 0x61 + 10.

(** [special]: infinities and NaN, in any case, consuming the whole string. *)
Definition special (s : string) : option float64 :=
  let low := String.string_of_list_ascii (map lower_byte (String.list_ascii_of_string s)) in
  if (low =? "inf")%string || (low =? "infinity")%string || (low =? "+inf")%string
     || (low =? "+infinity")%string then Some f64_pinf
  else if (low =? "-inf")%string || (low =? "-infinity")%string then Some f64_ninf
  else if (low =? "nan")%string then Some S754_nan
  else None.

(** The digit loop of [readFloat]: mantissa, digits after the point, flags, the rest. *)
Record mant := mkMant {
  m_val : Z; m_frac : Z; m_dot : bool; m_digits : bool; m_under : bool; m_rest : string }.

Fixpoint readMant (hex : bool) (v frac : Z) (dot digits under : bool) (s : string) : mant :=
  match s with
  | EmptyString => mkMant v frac dot digits under s
  | String c s1 =>
    if (c =? "_")%char then readMant hex v frac dot digits true s1
    else if (c =? ".")%char then
      if dot then mkMant v frac dot digits under s
      else readMant hex v frac true digits under s1
    else if is_digit c || (hex && hex_letter c) then
      readMant hex (v * (if hex then 16 else 10) + digit_val c)
        (if dot then frac + 1 else frac) dot true under s1
    else mkMant v frac dot digits under s
  end.

(** The exponent digits: saturating at [10000], underscores skipped. *)
Fixpoint readExp (e : Z) (under : bool) (s : string) : Z * bool * string :=
  match s with
  | String c s1 =>
    if (c =? "_")%char then readExp e true s1
    else if is_digit c then readExp (if e <? 10000 then e * 10 + digit_val c else e) under s1
    else (e, under, s)
  | EmptyString => (e, under, s)
  end.

(** [underscoreOK]: underscores only between digits, or between a base prefix and a
    digit. [saw] is the last kind of byte: 0 a digit, 1 an underscore, 2 another, 3 none. *)
Fixpoint underscoreLoop (hex : bool) (saw : Z) (s : string) : bool :=
  match s with
  | EmptyString => negb (saw =? 1)
  | String c s1 =>
    if is_digit c || (hex && hex_letter c) then underscoreLoop hex 0 s1
    else if (c =? "_")%char then (saw =? 0) && underscoreLoop hex 1 s1
    else if saw =? 1 then false
    else underscoreLoop hex 2 s1
  end.

Definition strip_sign (s : string) : bool * string :=
  match s with
  | String c s1 =>
    if (c =? "-")%char then (true, s1) else if (c =? "+")%char then (false, s1) else (false, s)
  | EmptyString => (false, s)
  end.

Definition underscoreOK (s : string) : bool :=
  let s := snd (strip_sign s) in
  match s with
  | String z (String c s1) =>
    if (z =? "0")%char && ((lower c =? 0x62) || (lower c =? 0x6F) || (lower c =? 0x78))
    then underscoreLoop (lower c =? 0x78) 0 s1 else underscoreLoop false 3 s
  | _ => underscoreLoop false 3 s
  end.

(** [i+2 < len(s) && s[i] == '0' && lower(s[i+1]) == 'x']. *)
Definition hex_prefix (s : string) : option string :=
  match s with
  | String z (String c s1) =>
    if (z =? "0")%char && (lower c =? 0x78) && negb (s1 =? "")%string then Some s1 else None
  | _ => None
  end.

(** The value [v * base^e], rounded once. *)
Definition f64_round (neg : bool) (hex : bool) (v e : Z) : float64 :=
  match v with
  | Z.pos m =>
    if hex then binary_round f64_prec f64_emax neg m e
    else if 0 <=? e then
      match v * 10 ^ e with
      | Z.pos m' => binary_round f64_prec f64_emax neg m' 0
      | _ => S754_zero neg
      end
    else
      match 10 ^ (- e) with
      | Z.pos d =>
        let '(q, e', l) := SFdiv_core_binary f64_prec f64_emax (Z.pos m) 0 (Z.pos d) 0 in
        binary_round_aux f64_prec f64_emax neg q e' l
      | _ => S754_nan
      end
  | _ => S754_zero neg
  end.

Definition readFloat (s0 : string) : option float64 :=
  let '(neg, s) := strip_sign s0 in
  let '(hex, s1) := match hex_prefix s with Some s1 => (true, s1) | None => (false, s) end in
  let m := readMant hex 0 0 false false false s1 in
  if negb (m_digits m) then None
  else
    let exp :=
      match m_rest m with
      | String c s2 =>
        if lower c =? (if hex then 0x70 else 0x65) then
          let '(eneg, s3) := strip_sign s2 in
          match s3 with
          | String d _ =>
            if is_digit d then
              let '(e, under, s4) := readExp 0 (m_under m) s3 in
              if (s4 =? "")%string then Some (if eneg then - e else e, under) else None
            else None
          | EmptyString => None
          end
        else None
      | EmptyString => if hex then None else Some (0, m_under m)
      end in
    match exp with
    | None => None
    | Some (e, under) =>
      if under && negb (underscoreOK s0) then None
      else Some (f64_round neg hex (m_val m) (e - (if hex then 4 else 1) * m_frac m))
    end.

(** [strconv.ParseFloat(s, 64)]: the value and whether the error is nil. A syntax error
    gives zero, a range error an infinity. *)
Definition ParseFloat (s : string) : float64 * bool :=
  match special s with
  | Some f => (f, true)
  | None =>
    match readFloat s with
    | None => (f64_zero, false)
    | Some f => (f, negb (IsInf f 0))
    end
  end.

Example parse_half : ParseFloat "-0.5" = (S754_finite true 4503599627370496 (-53), true).
Proof. by vm_compute. Qed.
Example parse_tenth : ParseFloat "1e-1" = (S754_finite false 7205759403792794 (-56), true).
Proof. by vm_compute. Qed.
Example parse_under : (ParseFloat "000_123").2 = true /\ (ParseFloat "1__2").2 = false.
Proof. by vm_compute. Qed.
Example parse_big : ParseFloat "1e999" = (f64_pinf, false).
Proof. by vm_compute. Qed.
Example parse_bad : ParseFloat "truck" = (f64_zero, false).
Proof. by vm_compute. Qed.

(** ** Integers: [strconv.ParseUint], [ParseInt], [FormatInt], base 10 *)

Fixpoint parseDigits (v : Z) (s : string) : option Z :=
  match s with
  | EmptyString => Some v
  | String c s1 => if is_digit c then parseDigits (v * 10 + digit_val c) s1 else None
  end.

(** [ParseUint(s, 10, 64)], [None] on a syntax or range error. *)
Definition ParseUint (s : string) : option Z :=
  if (s =? "")%string then None
  else match parseDigits 0 s with
       | Some v => if v <? 2 ^ 64 then Some v else None
       | None => None
       end.

(** [ParseInt(s, 10, 64)], [None] on a syntax or range error. *)
Definition ParseInt (s : string) : option Z :=
  let '(neg, s1) := strip_sign s in
  match ParseUint s1 with
  | Some u =>
    if neg then if u <=? 2 ^ 63 then Some (- u) else None
    else if u <? 2 ^ 63 then Some u else None
  | None => None
  end.

Definition digit_char (d : Z) : ascii := chr (0x30 + d).

Fixpoint formatDigits (fuel : nat) (v : Z) (acc : string) : string :=
  match fuel with
  | O => acc
  | S fuel =>
    let acc := String (digit_char (v mod 10)) acc in
    if v <? 10 then acc else formatDigits fuel (v / 10) acc
  end.

(** [FormatUint(v, 10)]; twenty digits hold every [uint64]. *)
Definition FormatUint (v : Z) : string := formatDigits 20 v "".

Definition FormatInt (v : Z) : string :=
  if v <? 0 then String "-" (FormatUint (- v)) else FormatUint v.

Lemma digit_char_digit d : 0 <= d < 10 -> is_digit (digit_char d) = true.
Proof.
  intros H. unfold is_digit, in_range, digit_char.
  rewrite code_chr_small by lia. boolify. lia.
Qed.

Lemma digit_char_val d : 0 <= d < 10 -> digit_val (digit_char d) = d.
Proof.
  intros H. unfold digit_val. rewrite digit_char_digit by done.
  unfold digit_char. rewrite code_chr_small by lia. lia.
Qed.

Lemma parse_formatDigits fuel v acc w :
  0 <= v < 10 ^ Z.of_nat fuel -> (0 < fuel)%nat ->
  exists k, 0 < k /\ v < k /\
    parseDigits w (formatDigits fuel v acc) = parseDigits (w * k + v) acc.
Proof.
  revert v acc w. induction fuel as [|fuel IH]; intros v acc w Hv Hf; [lia|].
  rewrite Nat2Z.inj_succ, Z.pow_succ_r in Hv by lia.
  pose proof (Z.mod_pos_bound v 10 ltac:(lia)) as Hm.
  cbn [formatDigits]. destruct (v <? 10) eqn:E; boolify.
  - exists 10. split_and!; [lia..|]. cbn [parseDigits].
    by rewrite digit_char_digit, digit_char_val, Z.mod_small by lia.
  - assert (0 < fuel)%nat as Hf'.
    { destruct fuel; [simpl in Hv; lia|lia]. }
    destruct (IH (v / 10) (String (digit_char (v mod 10)) acc) w) as (k & Hk & Hlt & Hp);
      [split; [apply Z.div_pos; lia|apply Z.div_lt_upper_bound; lia]|done|].
    exists (k * 10). split_and!; [lia| |].
    + pose proof (Z.div_mod v 10 ltac:(lia)). nia.
    + rewrite Hp. cbn [parseDigits].
      rewrite digit_char_digit, digit_char_val by lia.
      f_equal. pose proof (Z.div_mod v 10 ltac:(lia)). lia.
Qed.

Lemma formatDigits_nonempty fuel v acc : (0 < fuel)%nat -> formatDigits fuel v acc <> "".
Proof.
  revert v acc. induction fuel as [|fuel IH]; intros v acc Hf; [lia|].
  cbn [formatDigits]. destruct (v <? 10); [done|].
  destruct fuel; [done|]. apply IH. lia.
Qed.

Lemma formatDigits_all fuel v acc :
  0 <= v -> Forall (fun c => is_digit c = true) (bytes_of acc) ->
  Forall (fun c => is_digit c = true) (bytes_of (formatDigits fuel v acc)).
Proof.
  revert v acc. induction fuel as [|fuel IH]; intros v acc Hv Hacc; [done|].
  pose proof (Z.mod_pos_bound v 10 ltac:(lia)) as Hm.
  assert (Forall (fun c => is_digit c = true)
            (bytes_of (String (digit_char (v mod 10)) acc))) as H1.
  { simpl. constructor; [by apply digit_char_digit|done]. }
  cbn [formatDigits]. destruct (v <? 10); [done|].
  apply IH; [apply Z.div_pos; lia|done].
Qed.

Lemma FormatUint_digits v :
  0 <= v -> Forall (fun c => is_digit c = true) (bytes_of (FormatUint v)).
Proof. intros. apply formatDigits_all; [done|constructor]. Qed.

Lemma Parse_FormatUint v : is_uint64 v -> ParseUint (FormatUint v) = Some v.
Proof.
  intros H. unfold is_uint64 in H. unfold ParseUint, FormatUint.
  pose proof (formatDigits_nonempty 20 v "" ltac:(lia)) as Hne.
  apply String.eqb_neq in Hne. rewrite Hne.
  destruct (parse_formatDigits 20 v "" 0) as (k & _ & _ & ->); [|lia|].
  { simpl Z.of_nat. lia. }
  simpl parseDigits. rewrite Z.add_0_l.
  destruct (Z.ltb_spec v (2 ^ 64)); [done|lia].
Qed.

Lemma FormatUint_sign v : 0 <= v -> strip_sign (FormatUint v) = (false, FormatUint v).
Proof.
  intros Hv. pose proof (FormatUint_digits v Hv) as Hd.
  destruct (FormatUint v) as [|c s]; [done|].
  simpl in Hd. apply Forall_cons in Hd as [Hc _].
  unfold strip_sign.
  destruct (c =? "-")%char eqn:E1; [apply Ascii.eqb_eq in E1; by subst|].
  destruct (c =? "+")%char eqn:E2; [apply Ascii.eqb_eq in E2; by subst|done].
Qed.

Lemma Parse_FormatInt v : is_int64 v -> ParseInt (FormatInt v) = Some v.
Proof.
  unfold is_int64. intros H. unfold ParseInt, FormatInt. destruct (v <? 0) eqn:E; boolify.
  - cbn [strip_sign]. simpl. rewrite Parse_FormatUint by (unfold is_uint64; lia).
    destruct (Z.leb_spec (- v) (2 ^ 63)); [f_equal; lia|lia].
  - rewrite FormatUint_sign by done. rewrite Parse_FormatUint by (unfold is_uint64; lia).
    destruct (Z.ltb_spec v (2 ^ 63)); [done|lia].
Qed.

(** ** Writing floats: [strconv.FormatFloat(f, 'f', -1, 64)]

    The shortest decimal that reads back as [f], written without an exponent. *)

Fixpoint numDigits (fuel : nat) (v : Z) : Z :=
  match fuel with O => 0 | S fuel => if v <? 10 then 1 else 1 + numDigits fuel (v / 10) end.

(** The least [j] with [num * 10^j >= den]. *)
Fixpoint leadingZeros (fuel : nat) (num den j : Z) : Z :=
  match fuel with
  | O => j
  | S fuel => if den <=? num then j else leadingZeros fuel (num * 10) den (j + 1)
  end.

(** The decimal point: [10^(k-1) <= num/den < 10^k]. *)
Definition decPoint (num den : Z) : Z :=
  if den <=? num then numDigits 320 (num / den) else 1 - leadingZeros 330 num den 0.

(** The decimal of [n] digits next to [num/den] that reads back as [x], if any. *)
Definition tryDigits (x : float64) (num den k n : Z) : option Z :=
  let e := n - k in
  let '(a, b) := if 0 <=? e then (num * 10 ^ e, den) else (num, den * 10 ^ (- e)) in
  let lo := a / b in
  let reads d := bool_decide (f64_round false false d (k - n) = x) in
  match reads lo, reads (lo + 1) with
  | true, true => Some (if 2 * (a mod b) <=? b then lo else lo + 1)
  | true, false => Some lo
  | false, true => Some (lo + 1)
  | false, false => None
  end.

Fixpoint shortest (fuel : nat) (x : float64) (num den k n : Z) : Z * Z :=
  match fuel with
  | O => (0, k)
  | S fuel =>
    match tryDigits x num den k n with
    | Some d => (d, k - n)
    | None => shortest fuel x num den k (n + 1)
    end
  end.

Fixpoint zeros (n : nat) : string := match n with O => "" | S n => String "0" (zeros n) end.

(** [d * 10^e] without an exponent. *)
Definition fixedPoint (d e : Z) : string :=
  let s := FormatUint d in
  if 0 <=? e then s +:+ zeros (Z.to_nat e)
  else
    let n := Z.to_nat (- e) in
    let len := String.length s in
    if (len <=? n)%nat then "0." +:+ zeros (n - len) +:+ s
    else str_take (len - n) s +:+ "." +:+ str_drop (len - n) s.

Definition FormatFloat (f : float64) : string :=
  match f with
  | S754_nan => "NaN"
  | S754_infinity false => "+Inf"
  | S754_infinity true => "-Inf"
  | S754_zero false => "0"
  | S754_zero true => "-0"
  | S754_finite s m e =>
    let '(num, den) := if 0 <=? e then (Z.pos m * 2 ^ e, 1) else (Z.pos m, 2 ^ (- e)) in
    let '(d, e10) := shortest 18 (S754_finite false m e) num den (decPoint num den) 1 in
    (if s then "-" else "") +:+ fixedPoint d e10
  end.

Example format_tenth : FormatFloat (ParseFloat "0.1").1 = "0.1".
Proof. by vm_compute. Qed.
Example format_neg : FormatFloat (ParseFloat "-122.4194155").1 = "-122.4194155".
Proof. by vm_compute. Qed.
Example format_big : FormatFloat (ParseFloat "1e21").1 = "1000000000000000000000".
Proof. by vm_compute. Qed.
Example format_small : FormatFloat (ParseFloat "12e-10").1 = "0.0000000012".
Proof. by vm_compute. Qed.
