(* ===== verification/Bytes.v ===== *)
(** * Fixed-width integers and floats as bytes

    The byte orders of [encoding/binary], and [math.Float64frombits] and
    [math.Float64bits]: a [float64] in memory or in a file is its 64 bits, so that
    the payload of a NaN survives a copy. *)

From Stdlib Require Import Ascii String ZArith Lia Bool SpecFloat.
From stdpp Require Import base list strings option.
From S2P Require Import Prelude GoStd Strconv.

Local Open Scope Z_scope.

(** ** Byte orders *)

Fixpoint le_bytes (n : nat) (z : Z) : list ascii :=
  match n with O => [] | S n => chr z :: le_bytes n (z / 256) end.
Fixpoint le_value (l : list ascii) : Z :=
  match l with [] => 0 | c :: l => code c + 256 * le_value l end.
Definition be_bytes (n : nat) (z : Z) : list ascii := reverse (le_bytes n z).
Definition be_value (l : list ascii) : Z := le_value (reverse l).

Lemma length_le_bytes n z : length (le_bytes n z) = n.
Proof. revert z. induction n as [|n IH]; intros z; [done|]. simpl. by rewrite IH. Qed.
Lemma length_be_bytes n z : length (be_bytes n z) = n.
Proof. unfold be_bytes. by rewrite length_reverse, length_le_bytes. Qed.

Lemma pow256_S n : 256 ^ Z.of_nat (S n) = 256 * 256 ^ Z.of_nat n.
Proof. rewrite Nat2Z.inj_succ, Z.pow_succ_r by lia. done. Qed.

Lemma le_value_bytes n z : 0 <= z < 256 ^ Z.of_nat n -> le_value (le_bytes n z) = z.
Proof.
  revert z. induction n as [|n IH]; intros z Hz; [simpl in *; lia|].
  rewrite pow256_S in Hz. cbn [le_bytes le_value]. rewrite code_chr, IH.
  - pose proof (Z.div_mod z 256). lia.
  - split; [apply Z.div_pos; lia|]. apply Z.div_lt_upper_bound; lia.
Qed.
Lemma le_value_bounds l : 0 <= le_value l < 256 ^ Z.of_nat (length l).
Proof.
  induction l as [|c l IH]; [simpl; lia|]. cbn [length le_value]. rewrite pow256_S.
  pose proof (code_bounds c). lia.
Qed.
Lemma le_bytes_value l : le_bytes (length l) (le_value l) = l.
Proof.
  induction l as [|c l IH]; [done|]. cbn [length le_value le_bytes].
  pose proof (code_bounds c). f_equal.
  - rewrite <- (chr_code c) at 2. unfold chr. do 2 f_equal.
    rewrite Z.mul_comm, Z.mod_add by lia. done.
  - rewrite Z.mul_comm, Z.div_add by lia. rewrite Z.div_small by done. by rewrite Z.add_0_l.
Qed.

Lemma be_value_bytes n z : 0 <= z < 256 ^ Z.of_nat n -> be_value (be_bytes n z) = z.
Proof. intros. unfold be_value, be_bytes. by rewrite reverse_involutive, le_value_bytes. Qed.
Lemma be_bytes_value l : be_bytes (length l) (be_value l) = l.
Proof.
  unfold be_bytes, be_value. rewrite <- (length_reverse l), le_bytes_value.
  apply reverse_involutive.
Qed.
Lemma be_value_bounds l : 0 <= be_value l < 256 ^ Z.of_nat (length l).
Proof. unfold be_value. rewrite <- (length_reverse l). apply le_value_bounds. Qed.

(** An [int64] and its bits. *)
Lemma int64_wrap64 x : is_int64 x -> int64 (wrap64 x) = x.
Proof.
  intros Hx. unfold int64, wrap64. rewrite Z.mod_mod by lia. by apply int64_id.
Qed.
Lemma wrap64_int64 x : is_uint64 x -> wrap64 (int64 x) = x.
Proof.
  unfold is_uint64, int64, wrap64. intros Hx. rewrite (Z.mod_small x) by done.
  destruct (Z.ltb_spec x (2 ^ 63)).
  - by apply Z.mod_small.
  - rewrite <- (Z.mod_add _ 1) by lia. rewrite Z.mod_small by lia. lia.
Qed.
Lemma wrap64_bounds x : is_uint64 (wrap64 x).
Proof. apply Z.mod_pos_bound. lia. Qed.

(** ** The bits of a float *)

Definition Float64frombits (b : Z) : float64 :=
  let s := Z.testbit b 63 in
  let e := (b / 2 ^ 52) mod 2 ^ 11 in
  let m := b mod 2 ^ 52 in
  if e =? 0x7FF then (if m =? 0 then S754_infinity s else S754_nan)
  else if e =? 0 then match m with Zpos p => S754_finite s p (-1074) | _ => S754_zero s end
  else match m + 2 ^ 52 with Zpos p => S754_finite s p (e - 1075) | _ => S754_nan end.

Definition Float64bits (x : float64) : Z :=
  let sign (s : bool) := if s then 2 ^ 63 else 0 in
  match x with
  | S754_zero s => sign s
  | S754_infinity s => sign s + 0x7FF * 2 ^ 52
  | S754_nan => 0x7FF8000000000001
  | S754_finite s m e =>
    if Zpos m <? 2 ^ 52 then sign s + Zpos m
    else sign s + (e + 1075) * 2 ^ 52 + (Zpos m - 2 ^ 52)
  end.

(** The finite values a [float64] has: a full mantissa, or the least exponent. *)
Definition is_float64 (x : float64) : bool :=
  match x with
  | S754_finite _ m e =>
    (Zpos m <? 2 ^ 53) && (-1074 <=? e) && (e <=? 971) && ((2 ^ 52 <=? Zpos m) || (e =? -1074))
  | _ => true
  end.

Lemma bits_parts (s : bool) e m :
  0 <= e < 2 ^ 11 -> 0 <= m < 2 ^ 52 ->
  let b := (if s then 2 ^ 63 else 0) + e * 2 ^ 52 + m in
  Z.testbit b 63 = s /\ (b / 2 ^ 52) mod 2 ^ 11 = e /\ b mod 2 ^ 52 = m.
Proof.
  intros He Hm b. assert (b / 2 ^ 52 = (if s then 2 ^ 11 else 0) + e) as Hd.
  { unfold b. symmetry. apply Z.div_unique_pos with (r := m); [done|]. destruct s; lia. }
  split_and!.
  - rewrite Z.testbit_eqb by lia. unfold b.
    destruct s; apply Z.eqb_eq || apply Z.eqb_neq.
    + symmetry. apply Z.mod_unique_pos with (q := 0); [lia|].
      rewrite Z.mul_0_r, Z.add_0_l. symmetry. apply Z.div_unique_pos with (r := e * 2 ^ 52 + m); lia.
    + rewrite Z.div_small by lia. done.
  - rewrite Hd. destruct s.
    + symmetry. apply Z.mod_unique_pos with (q := 1); lia.
    + by apply Z.mod_small.
  - symmetry. apply Z.mod_unique_pos with (q := (if s then 2 ^ 11 else 0) + e); [done|].
    unfold b. destruct s; lia.
Qed.

Lemma Float64frombits_bits x : is_float64 x = true -> Float64frombits (Float64bits x) = x.
Proof.
  unfold Float64frombits. destruct x as [s|s| |s m e]; cbn [is_float64 Float64bits]; intros Hx.
  - by destruct s; vm_compute.
  - by destruct s; vm_compute.
  - by vm_compute.
  - boolify. destruct Hx as [[[H1 H2] H3] H4]. destruct (Z.ltb_spec (Zpos m) (2 ^ 52)) as [Hm|Hm].
    + destruct (bits_parts s 0 (Zpos m)) as (B1 & B2 & B3); [lia..|].
      rewrite Z.mul_0_l, Z.add_0_r in B1, B2, B3. rewrite B1, B2, B3. simpl. f_equal. lia.
    + destruct (bits_parts s (e + 1075) (Zpos m - 2 ^ 52)) as (B1 & B2 & B3); [lia..|].
      rewrite B1, B2, B3. rewrite (proj2 (Z.eqb_neq _ _)), (proj2 (Z.eqb_neq _ _)) by lia.
      replace (Zpos m - 2 ^ 52 + 2 ^ 52) with (Zpos m) by lia. f_equal. lia.
Qed.

(** Every pattern that is no NaN is the bits of its value. *)
Lemma Float64bits_frombits b :
  is_uint64 b -> IsNaN (Float64frombits b) = false -> Float64bits (Float64frombits b) = b.
Proof.
  intros Hb Hn. unfold is_uint64 in Hb.
  pose proof (Z.div_mod b (2 ^ 52) ltac:(lia)) as D1.
  pose proof (Z.mod_pos_bound b (2 ^ 52) ltac:(lia)) as M1.
  pose proof (Z.div_mod (b / 2 ^ 52) (2 ^ 11) ltac:(lia)) as D2.
  pose proof (Z.mod_pos_bound (b / 2 ^ 52) (2 ^ 11) ltac:(lia)) as M2.
  assert (b = (if Z.testbit b 63 then 2 ^ 63 else 0) + (b / 2 ^ 52) mod 2 ^ 11 * 2 ^ 52 + b mod 2 ^ 52) as E.
  { rewrite Z.testbit_eqb by lia. rewrite Z.div_div in D2 by lia.
    assert (b / 2 ^ 63 < 2) by (apply Z.div_lt_upper_bound; lia).
    assert (0 <= b / 2 ^ 63) by (apply Z.div_pos; lia).
    change (2 ^ 52 * 2 ^ 11) with (2 ^ 63) in D2. rewrite Z.mod_small by lia.
    destruct (Z.eqb_spec (b / 2 ^ 63) 1); lia. }
  unfold Float64frombits in *.
  set (s := Z.testbit b 63) in *. set (e := (b / 2 ^ 52) mod 2 ^ 11) in *. set (m := b mod 2 ^ 52) in *.
  clearbody s e m. clear D1 D2. subst b.
  destruct (Z.eqb_spec e 0x7FF) as [->|He].
  - destruct (Z.eqb_spec m 0) as [->|]; [|done]. unfold Float64bits. lia.
  - destruct (Z.eqb_spec e 0) as [->|He0].
    + unfold Float64bits. destruct m as [|p|p]; [lia| |lia]. rewrite (proj2 (Z.ltb_lt _ _)) by lia. lia.
    + unfold Float64bits. destruct (m + 2 ^ 52) as [|p|p] eqn:Ep; [lia| |lia].
      rewrite (proj2 (Z.ltb_ge _ _)) by lia. lia.
Qed.
