(* ===== verification/Json.v ===== *)
(** * JSON text ([src/internal/legacy/server/json.go])

    How the server writes strings as JSON, and how it decides that a text is a JSON
    number. [encoding/json.Marshal] on a string is part of the standard library and
    defined here; the server's own functions take a short cut for plain texts. *)

From Stdlib Require Import Ascii String ZArith Lia Bool SpecFloat.
From stdpp Require Import base list strings option.
From S2P Require Import Prelude GoStd Strconv.

Local Open Scope Z_scope.

(** ** Strings *)

Definition backslash : ascii := "\"%char.

Definition hex_digit (d : Z) : ascii := if d <? 10 then chr (0x30 + d) else chr (0x61 + d - 10).

(** [\u00XX]. *)
Definition unicode_escape (c : ascii) : string :=
  String backslash (String "u" (String "0" (String "0"
    (String (hex_digit (code c / 16)) (String (hex_digit (code c mod 16)) ""))))).

(** The bytes [json.Marshal] copies: printable ASCII and DEL but quote, backslash and the
    HTML characters. *)
Definition html_safe (c : ascii) : bool :=
  (0x20 <=? code c) && negb (code c =? 0x22) && negb (code c =? 0x5C) &&
  negb (code c =? 0x3C) && negb (code c =? 0x3E) && negb (code c =? 0x26).

Definition escape_ascii (c : ascii) : string :=
  if html_safe c then String c ""
  else if (code c =? 0x5C) || (code c =? 0x22) then String backslash (String c "")
  else if code c =? 0x08 then String backslash (String "b" "")
  else if code c =? 0x0C then String backslash (String "f" "")
  else if code c =? 0x0A then String backslash (String "n" "")
  else if code c =? 0x0D then String backslash (String "r" "")
  else if code c =? 0x09 then String backslash (String "t" "")
  else unicode_escape c.

Fixpoint marshalF (fuel : nat) (s : string) : string :=
  match fuel, s with
  | S fuel, String c s1 =>
    if code c <? 0x80 then escape_ascii c +:+ marshalF fuel s1
    else
      let '(r, n) := DecodeRuneInString s in
      if (r =? RuneError) && (n =? 1)%nat
      then String backslash "ufffd" +:+ marshalF fuel s1
      else if (r =? 0x2028) || (r =? 0x2029)
      then String backslash "u202" +:+ String (hex_digit (r mod 16)) "" +:+ marshalF fuel (str_drop n s)
      else str_take n s +:+ marshalF fuel (str_drop n s)
  | _, _ => ""
  end.

(** [json.Marshal(s)]. *)
Definition Marshal (s : string) : string := quoted (marshalF (String.length s) s).

(** A byte that sends the whole string to [json.Marshal]. *)
Definition needs_escape (c : ascii) : bool :=
  (code c <? 0x20) || (code c =? 0x5C) || (code c =? 0x22) || (126 <? code c).

Fixpoint any_byte (p : ascii -> bool) (s : string) : bool :=
  match s with EmptyString => false | String c s => p c || any_byte p s end.

Definition appendJSONString (b : string) (s : string) : string :=
  if any_byte needs_escape s then b +:+ Marshal s
  else (b +:+ String dquote "") +:+ s +:+ String dquote "".

Definition jsonString (s : string) : string :=
  if any_byte needs_escape s then Marshal s else String dquote (s +:+ String dquote "").

(** ** Numbers *)

Fixpoint skipDigits (s : string) : string :=
  match s with
  | String c s1 => if is_digit c then skipDigits s1 else s
  | EmptyString => s
  end.

Definition starts (c : ascii) (s : string) : bool :=
  match s with String d _ => (c =? d)%char | EmptyString => false end.
Definition rest (s : string) : string := str_drop 1 s.
Definition starts_digit (s : string) : bool :=
  match s with String d _ => is_digit d | EmptyString => false end.

Definition isJSONNumber (data : string) : bool :=
  if data =s "" then false
  else
    let s := if starts "-" data then rest data else data in
    if s =s "" then false
    else
      let s := if starts "0" s then rest s else skipDigits s in
      if s =s "" then true
      else
        if starts "." s && negb (starts_digit (rest s)) then false
        else
          let s := if starts "." s then skipDigits (rest (rest s)) else s in
          if s =s "" then true
          else if starts "e" s || starts "E" s then
            let s := rest s in
            if s =s "" then false
            else
              let s := if starts "+" s || starts "-" s then rest s else s in
              if s =s "" then false
              else if negb (starts_digit s) then false
              else skipDigits (rest s) =s ""
          else s =s "".

(** ** What a JSON string literal denotes *)

Definition unhex (c : ascii) : option Z :=
  if is_digit c then Some (code c - 0x30)
  else if in_range 0x61 0x66 c then Some (code c - 0x61 + 10)
  else if in_range 0x41 0x46 c then Some (code c - 0x41 + 10)
  else None.

(** The character after a backslash, other than [u]. *)
Definition unescape1 (c : ascii) : option ascii :=
  if (c =? "b")%char then Some (chr 0x08)
  else if (c =? "f")%char then Some (chr 0x0C)
  else if (c =? "n")%char then Some (chr 0x0A)
  else if (c =? "r")%char then Some (chr 0x0D)
  else if (c =? "t")%char then Some (chr 0x09)
  else if (code c =? 0x22) || (code c =? 0x5C) || (c =? "/")%char then Some c
  else None.

(** Read the body of a literal up to the closing quote, which must end the text;
    [\uXXXX] is read for ASCII characters. *)
Fixpoint unescape (s : string) : option string :=
  match s with
  | EmptyString => None
  | String c s1 =>
    if (c =? dquote)%char then if s1 =s "" then Some "" else None
    else if (c =? backslash)%char then
      match s1 with
      | String d s2 =>
        if (d =? "u")%char then
          match s2 with
          | String z0 (String z1 (String h (String l s3))) =>
            match unhex h, unhex l, unescape s3 with
            | Some a, Some b, Some t =>
              if (z0 =? "0")%char && (z1 =? "0")%char && (a * 16 + b <? 0x80)
              then Some (String (chr (a * 16 + b)) t) else None
            | _, _, _ => None
            end
          | _ => None
          end
        else
          match unescape1 d, unescape s2 with
          | Some e, Some t => Some (String e t)
          | _, _ => None
          end
      | EmptyString => None
      end
    else if code c <? 0x20 then None
    else match unescape s1 with Some t => Some (String c t) | None => None end
  end.

Definition literal_value (s : string) : option string :=
  match s with
  | String c s1 => if (c =? dquote)%char then unescape s1 else None
  | EmptyString => None
  end.

Definition ascii_bytes (s : string) : Prop := Forall (fun c => code c < 0x80) (bytes_of s).

Lemma unescape_plain c t u :
  0x20 <= code c -> c <> dquote -> c <> backslash -> unescape t = Some u ->
  unescape (String c t) = Some (String c u).
Proof.
  intros H1 H2 H3 Ht. cbn [unescape].
  rewrite (proj2 (Ascii.eqb_neq _ _) H2), (proj2 (Ascii.eqb_neq _ _) H3), Ht.
  destruct (Z.ltb_spec (code c) 0x20); [lia|done].
Qed.

Lemma unescape_simple d e t u :
  d <> "u"%char -> unescape1 d = Some e -> unescape t = Some u ->
  unescape (String backslash (String d t)) = Some (String e u).
Proof.
  intros Hd He Ht. cbn [unescape]. change (backslash =? dquote)%char with false.
  change (backslash =? backslash)%char with true. cbv iota.
  by rewrite (proj2 (Ascii.eqb_neq _ _) Hd), He, Ht.
Qed.

Lemma unhex_hex d : 0 <= d < 16 -> unhex (hex_digit d) = Some d.
Proof.
  intros Hd. assert (forallb (fun d => bool_decide (unhex (hex_digit d) = Some d))
    (Z.of_nat <$> seq 0 16) = true) as Hall by (by vm_compute).
  rewrite forallb_forall in Hall. eapply bool_decide_eq_true_1, Hall, list_elem_of_In.
  apply list_elem_of_fmap. exists (Z.to_nat d). split; [lia|]. apply elem_of_seq. lia.
Qed.

Lemma unescape_unicode c t u :
  code c < 0x80 -> unescape t = Some u -> unescape (unicode_escape c +:+ t) = Some (String c u).
Proof.
  intros Hc Ht. pose proof (code_bounds c) as Hb.
  unfold unicode_escape. rewrite !str_app_cons, str_app_nil_l. cbn [unescape].
  change (backslash =? dquote)%char with false. change (backslash =? backslash)%char with true.
  change ("u" =? "u")%char with true. cbv iota.
  pose proof (Z.div_mod (code c) 16 ltac:(lia)) as Hdm.
  pose proof (Z.mod_pos_bound (code c) 16 ltac:(lia)) as Hm.
  assert (0 <= code c / 16 < 16) as Hd.
  { split; [apply Z.div_pos; lia|apply Z.div_lt_upper_bound; lia]. }
  rewrite !unhex_hex by lia. rewrite Ht. cbn [Ascii.eqb andb].
  replace (code c / 16 * 16 + code c mod 16) with (code c) by lia.
  rewrite (proj2 (Z.ltb_lt _ _) Hc), chr_code. done.
Qed.

Lemma escape_byte c t u :
  code c < 0x80 -> unescape t = Some u ->
  unescape (escape_ascii c +:+ t) = Some (String c u).
Proof.
  intros Hc Ht. unfold escape_ascii.
  assert (forall z, 0 <= z < 256 -> code c = z -> c = chr z) as Hchr
    by (intros z Hz <-; by rewrite chr_code).
  destruct (html_safe c) eqn:Hs.
  { rewrite str_app_cons, str_app_nil_l. unfold html_safe in Hs. boolify.
    apply unescape_plain; [lia| | |done];
      intros ->; revert Hs; vm_compute (code _); intros; naive_solver. }
  destruct ((code c =? 0x5C) || (code c =? 0x22)) eqn:E0.
  { rewrite !str_app_cons, str_app_nil_l. boolify.
    destruct E0 as [E0|E0]; apply Hchr in E0 as ->; [|lia| |lia];
      by apply unescape_simple. }
  repeat match goal with
  | |- context [if code c =? ?z then _ else _] =>
    let E := fresh "E" in destruct (code c =? z) eqn:E;
      [boolify; apply Hchr in E as ->; [|lia]; rewrite !str_app_cons, str_app_nil_l;
       by apply unescape_simple|]
  end.
  by apply unescape_unicode.
Qed.

Lemma marshal_reads_back fuel s :
  ascii_bytes s -> (String.length s <= fuel)%nat ->
  unescape (marshalF fuel s +:+ String dquote "") = Some s.
Proof.
  revert s. induction fuel as [|fuel IH]; intros [|c s] Ha Hl; try done; [simpl in Hl; lia|].
  unfold ascii_bytes in *. simpl in Ha.
  apply list.Forall_cons in Ha as [Hc Ha]. cbn [marshalF].
  rewrite (proj2 (Z.ltb_lt _ _) Hc), str_app_assoc. apply escape_byte; [done|].
  apply IH; [done|]. simpl in Hl. lia.
Qed.

Lemma plain_reads_back s :
  any_byte needs_escape s = false -> unescape (s +:+ String dquote "") = Some s.
Proof.
  induction s as [|c s IH]; intros Hs; [done|]. cbn [any_byte] in Hs.
  apply orb_false_iff in Hs as [Hc Hs]. rewrite str_app_cons.
  unfold needs_escape in Hc. boolify.
  apply unescape_plain; [lia| | |by apply IH];
    intros ->; revert Hc; vm_compute (code _); intros; naive_solver.
Qed.

Lemma literal_quoted s t : unescape (s +:+ String dquote "") = Some t -> literal_value (quoted s) = Some t.
Proof. done. Qed.

(** What the server writes for an ASCII string, control characters included, is a
    JSON literal that denotes exactly that string, on both paths of [jsonString]; and
    [appendJSONString] appends the same literal. *)
Theorem jsonString_denotes b s :
  ascii_bytes s ->
  literal_value (jsonString s) = Some s /\ appendJSONString b s = b +:+ jsonString s.
Proof.
  intros Ha. unfold jsonString, appendJSONString.
  destruct (any_byte needs_escape s) eqn:E; split; try done.
  - by apply literal_quoted, marshal_reads_back.
  - apply literal_quoted. by apply plain_reads_back.
  - by rewrite str_app_assoc, str_app_cons, str_app_nil_l.
Qed.

Lemma jsonString_denotes_witness :
  let s := String (chr 10) "<a>" in
  literal_value (jsonString s) = Some s.
Proof.
  apply (jsonString_denotes "" (String (chr 10) "<a>")).
  unfold ascii_bytes. repeat (apply list.Forall_cons; split; [by vm_compute|]). constructor.
Defined.

(** ** JSON numbers *)

Definition digits (s : string) : Prop := Forall (fun c => is_digit c = true) (bytes_of s).
Definition digits1 (s : string) : Prop := s <> "" /\ digits s.

(** [int = 0 / (digit1-9 *digit)]. *)
Definition json_int (s : string) : Prop := s = "0" \/ (digits1 s /\ starts "0" s = false).
Definition json_frac (s : string) : Prop := s = "" \/ exists d, s = "." +:+ d /\ digits1 d.
Definition json_exp (s : string) : Prop :=
  s = "" \/ exists e sg d, s = e +:+ sg +:+ d /\ (e = "e" \/ e = "E") /\
    (sg = "" \/ sg = "+" \/ sg = "-") /\ digits1 d.

(** The number grammar of RFC 8259; [int] is the grammar of the integer part. *)
Definition number (int : string -> Prop) (s : string) : Prop :=
  exists m i f e, s = m +:+ i +:+ f +:+ e /\ (m = "" \/ m = "-") /\ int i /\ json_frac f /\
    json_exp e /\ i +:+ f +:+ e <> "".
Definition json_number : string -> Prop := number json_int.

(** What the code takes for the integer part: it may be missing. *)
Definition loose_int (s : string) : Prop := s = "" \/ json_int s.

Lemma skipDigits_split s : exists d, s = d +:+ skipDigits s /\ digits d.
Proof.
  induction s as [|c s (d & Hd & Hds)]; [exists ""; split; [done|constructor]|]. cbn [skipDigits].
  destruct (is_digit c) eqn:E.
  - exists (String c d). rewrite str_app_cons, <- Hd. split; [done|]. by constructor.
  - exists "". split; [done|constructor].
Qed.

Lemma skipDigits_app d s : digits d -> starts_digit s = false -> skipDigits (d +:+ s) = s.
Proof.
  unfold digits. induction d as [|c d IH]; intros Hd Hs.
  - rewrite str_app_nil_l. destruct s as [|c s]; [done|]. simpl in *. by rewrite Hs.
  - rewrite str_app_cons. cbn [skipDigits]. apply list.Forall_cons in Hd as [Hc Hd].
    rewrite Hc. by apply IH.
Qed.

Lemma skipDigits_stops s : starts_digit (skipDigits s) = false.
Proof.
  induction s as [|c s IH]; [done|]. cbn [skipDigits]. destruct (is_digit c) eqn:E; [done|].
  by simpl.
Qed.

(** The last step: the exponent, or nothing. *)
Definition exp_ok (s : string) : bool :=
  if s =s "" then true
  else if starts "e" s || starts "E" s then
    let s := rest s in
    if s =s "" then false
    else
      let s := if starts "+" s || starts "-" s then rest s else s in
      if s =s "" then false
      else if negb (starts_digit s) then false
      else skipDigits (rest s) =s ""
  else s =s "".

(** From the fraction on. *)
Definition frac_ok (s : string) : bool :=
  if s =s "" then true
  else if starts "." s && negb (starts_digit (rest s)) then false
  else exp_ok (if starts "." s then skipDigits (rest (rest s)) else s).

Lemma isJSONNumber_steps data :
  isJSONNumber data =
    let s := if starts "-" data then rest data else data in
    negb (data =s "") && negb (s =s "") && frac_ok (if starts "0" s then rest s else skipDigits s).
Proof.
  unfold isJSONNumber, frac_ok, exp_ok. destruct (data =s ""); [done|].
  cbv zeta. by destruct ((if starts "-" data then rest data else data) =s "").
Qed.

Lemma starts_cons c s : starts c s = true -> exists t, s = String c t.
Proof. destruct s as [|d t]; [done|]. simpl. intros ->%Ascii.eqb_eq. by exists t. Qed.

Lemma digits_cons c s : digits (String c s) <-> is_digit c = true /\ digits s.
Proof. unfold digits. simpl. by rewrite list.Forall_cons. Qed.

Lemma digits_skip s : digits s -> skipDigits s = "".
Proof.
  intros Hd. rewrite <- (str_app_nil_r s). by apply skipDigits_app.
Qed.

Lemma digits1_cons s : digits1 s <-> exists c t, s = String c t /\ is_digit c = true /\ digits t.
Proof.
  unfold digits1. split.
  - intros [Hne Hd]. destruct s as [|c t]; [done|]. apply digits_cons in Hd as [? ?]. eauto.
  - intros (c & t & -> & Hc & Ht). split; [done|]. by apply digits_cons.
Qed.

Lemma skip_digits s : skipDigits s = "" <-> digits s.
Proof.
  split; [|apply digits_skip]. intros Hs. destruct (skipDigits_split s) as (d & Hd & Hdd).
  rewrite Hs, str_app_nil_r in Hd. by rewrite Hd.
Qed.

(** The digits of an exponent after an optional sign. *)
Lemma exp_tail s :
  (let s' := if starts "+" s || starts "-" s then rest s else s in
   (if s =s "" then false
    else if s' =s "" then false
    else if negb (starts_digit s') then false else skipDigits (rest s') =s "") = true) <->
  exists sg d, s = sg +:+ d /\ (sg = "" \/ sg = "+" \/ sg = "-") /\ digits1 d.
Proof.
  cbv zeta. split.
  - destruct (String.eqb_spec s "") as [|Hs]; [done|].
    set (s' := if starts "+" s || starts "-" s then rest s else s).
    assert (exists sg, s = sg +:+ s' /\ (sg = "" \/ sg = "+" \/ sg = "-")) as (sg & Hsg & Hc).
    { subst s'. destruct (starts "+" s) eqn:E1; [|destruct (starts "-" s) eqn:E2]; simpl.
      - apply starts_cons in E1 as [t ->]. exists "+". auto.
      - apply starts_cons in E2 as [t ->]. exists "-". auto.
      - exists "". auto. }
    destruct (s' =s ""); [done|]. destruct s' as [|c t]; [done|]. simpl.
    destruct (is_digit c) eqn:Ec; [|done]. intros Ht%String.eqb_eq%skip_digits.
    exists sg, (String c t). split_and!; [done..|]. apply digits1_cons. eauto.
  - intros (sg & d & -> & Hsg & (c & t & -> & Hc & Ht)%digits1_cons).
    assert (forall a, is_digit a = true -> starts "+" (String a t) = false /\
      starts "-" (String a t) = false) as Hns.
    { intros a Ha. split; cbn [starts]; apply Ascii.eqb_neq; intros <-; done. }
    destruct (Hns c Hc) as [N1 N2].
    destruct Hsg as [->|[->| ->]].
    + rewrite str_app_nil_l, N1, N2. simpl. rewrite Hc. by rewrite digits_skip.
    + rewrite str_app_cons, str_app_nil_l. simpl. rewrite Hc. by rewrite digits_skip.
    + rewrite str_app_cons, str_app_nil_l. simpl. rewrite Hc. by rewrite digits_skip.
Qed.

Lemma exp_ok_iff s : exp_ok s = true <-> json_exp s.
Proof.
  unfold exp_ok, json_exp. destruct (String.eqb_spec s "") as [->|Hs]; [naive_solver|].
  destruct (starts "e" s || starts "E" s) eqn:E.
  - assert (exists e t, s = e +:+ t /\ (e = "e" \/ e = "E") /\ rest s = t) as (e & t & -> & He & Hr).
    { apply orb_true_iff in E as [E|E]; apply starts_cons in E as [t ->];
        [exists "e"|exists "E"]; exists t; auto. }
    rewrite Hr. rewrite (exp_tail t). split.
    + intros (sg & d & -> & Hsg & Hd). right. exists e, sg, d. auto.
    + intros [Hn|(e' & sg & d & Heq & He' & Hsg & Hd)]; [done|]. exists sg, d.
      split_and!; [|done..].
      destruct He as [->| ->], He' as [->| ->]; rewrite !str_app_cons, !str_app_nil_l in Heq;
        by injection Heq.
  - split; [done|]. intros [->|(e & sg & d & -> & He & _)]; [done|].
    destruct He as [->| ->]; rewrite str_app_cons in E; done.
Qed.

Lemma exp_head s : json_exp s -> starts_digit s = false /\ starts "." s = false /\ starts "-" s = false.
Proof.
  intros [->|(e & sg & d & -> & [->| ->] & _)]; [done|by rewrite str_app_cons..].
Qed.

Lemma frac_head f e :
  json_frac f -> json_exp e -> starts_digit (f +:+ e) = false /\ starts "-" (f +:+ e) = false.
Proof.
  intros [->|(d & -> & _)] He; [|by rewrite str_app_assoc, str_app_cons].
  rewrite str_app_nil_l. by destruct (exp_head e He) as (? & _ & ?).
Qed.

Lemma frac_ok_iff s :
  frac_ok s = true <-> exists f e, s = f +:+ e /\ json_frac f /\ json_exp e.
Proof.
  unfold frac_ok. split.
  - destruct (String.eqb_spec s "") as [->|Hs]; [exists "", ""; by repeat split; left|].
    destruct (starts "." s) eqn:E; simpl.
    + apply starts_cons in E as [t ->]. change (rest (String "." t)) with t.
      destruct t as [|c t]; [done|]. simpl starts_digit. destruct (is_digit c) eqn:Ec; [|done].
      simpl. change (rest (String c t)) with t. intros He%exp_ok_iff.
      destruct (skipDigits_split t) as (d & Hd & Hdd).
      exists (String "." (String c d)), (skipDigits t). split_and!; [|right|done].
      * by rewrite !str_app_cons, <- Hd.
      * exists (String c d). split; [done|]. apply digits1_cons. eauto.
    + intros He%exp_ok_iff. exists "", s. split_and!; [done|by left|done].
  - intros (f & e & -> & Hf & He). destruct (exp_head e He) as (Hd & Hdot & _).
    destruct Hf as [->|(d & -> & (c & t & -> & Hc & Ht)%digits1_cons)].
    + rewrite str_app_nil_l. destruct (e =s ""); [done|]. rewrite Hdot. by apply exp_ok_iff.
    + rewrite str_app_assoc, (str_app_cons c t), str_app_cons, str_app_nil_l.
      change (rest (String "." (String c (t +:+ e)))) with (String c (t +:+ e)).
      change (rest (String c (t +:+ e))) with (t +:+ e).
      change (String "." (String c (t +:+ e)) =s "") with false. cbn [starts starts_digit].
      change ("." =? ".")%char with true. rewrite Hc. cbn [andb negb].
      rewrite skipDigits_app by done. by apply exp_ok_iff.
Qed.

Lemma int_split s : s <> "" ->
  exists i, s = i +:+ (if starts "0" s then rest s else skipDigits s) /\ loose_int i.
Proof.
  intros Hs. destruct (starts "0" s) eqn:E.
  - apply starts_cons in E as [t ->]. exists "0". split; [done|]. right. by left.
  - destruct (skipDigits_split s) as (d & Hd & Hdd). exists d. split; [done|].
    destruct d as [|c d]; [by left|right; right]. split; [by split|].
    rewrite Hd, str_app_cons in E. done.
Qed.

Lemma int_join i t : loose_int i -> starts_digit t = false ->
  (if starts "0" (i +:+ t) then rest (i +:+ t) else skipDigits (i +:+ t)) = t.
Proof.
  intros [->|[->|[[Hne Hd] H0]]] Ht.
  - rewrite str_app_nil_l. destruct (starts "0" t) eqn:E.
    + apply starts_cons in E as [u ->]. done.
    + by rewrite <- (str_app_nil_l t) at 1; apply skipDigits_app; [constructor|].
  - by rewrite str_app_cons, str_app_nil_l.
  - destruct i as [|c i]; [done|]. rewrite str_app_cons.
    change (starts "0" (String c (i +:+ t))) with (starts "0" (String c i)). rewrite H0.
    rewrite <- str_app_cons. by apply skipDigits_app.
Qed.

(** [isJSONNumber] accepts exactly the texts of the JSON number grammar, except that
    it also takes an integer part with no digits: every JSON number is accepted, and
    what is accepted in addition is [.5], [-e3] and the like. *)
Theorem isJSONNumber_iff s :
  (isJSONNumber s = true <-> number loose_int s) /\ (json_number s -> isJSONNumber s = true).
Proof.
  assert (isJSONNumber s = true <-> number loose_int s) as Hiff.
  2: { split; [done|]. rewrite Hiff. intros (m & i & f & e & ? & ? & ? & ?).
       exists m, i, f, e. unfold loose_int. naive_solver. }
  rewrite isJSONNumber_steps. cbv zeta. split.
  - intros [[_ Hs]%andb_true_iff Hf]%andb_true_iff.
    set (t := if starts "-" s then rest s else s) in *.
    assert (exists m, s = m +:+ t /\ (m = "" \/ m = "-")) as (m & Hm & Hmc).
    { subst t. destruct (starts "-" s) eqn:E; [|exists ""; auto].
      apply starts_cons in E as [u ->]. exists "-". auto. }
    apply negb_true_iff, String.eqb_neq in Hs.
    destruct (int_split t Hs) as (i & Hi & Hil). apply frac_ok_iff in Hf as (f & e & Hfe & ? & ?).
    exists m, i, f, e. rewrite <- Hfe, <- Hi. done.
  - intros (m & i & f & e & -> & Hm & Hi & Hf & He & Hne).
    destruct (frac_head f e Hf He) as [Hd Hminus].
    assert (starts "-" (i +:+ f +:+ e) = false) as Hmi.
    { destruct Hi as [->|[->|[[_ Hdi] _]]]; [done|done|].
      destruct i as [|c i]; [done|]. rewrite str_app_cons. cbn [starts].
      apply digits_cons in Hdi as [Hc _]. apply Ascii.eqb_neq. intros <-. done. }
    assert ((if starts "-" (m +:+ i +:+ f +:+ e) then rest (m +:+ i +:+ f +:+ e)
             else m +:+ i +:+ f +:+ e) = i +:+ f +:+ e) as ->.
    { destruct Hm as [->| ->]; [by rewrite str_app_nil_l, Hmi|].
      by rewrite str_app_cons, str_app_nil_l. }
    apply andb_true_iff. split; [apply andb_true_iff; split|].
    + apply negb_true_iff, String.eqb_neq. destruct Hm as [->| ->]; [done|].
      by rewrite str_app_cons.
    + by apply negb_true_iff, String.eqb_neq.
    + rewrite int_join by done. apply frac_ok_iff. eauto.
Qed.

(** Texts that are no JSON numbers and are taken for numbers. *)
Lemma isJSONNumber_loose :
  isJSONNumber ".5" = true /\ isJSONNumber "e3" = true /\ ~ json_number ".5".
Proof.
  split_and!; [done..|]. intros (m & i & f & e & Heq & Hm & Hi & _).
  destruct Hm as [->| ->]; [|by rewrite str_app_cons in Heq].
  rewrite str_app_nil_l in Heq. destruct Hi as [->|[(c & t & -> & Hc & _)%digits1_cons _]].
  - by rewrite str_app_cons in Heq.
  - rewrite str_app_cons in Heq. injection Heq as <- _. done.
Qed.
