(* ===== verification/Containers.v ===== *)
(** * Containers the engine imports

    The engine keeps its state in third-party containers: [hashmap.Map] and
    [btree.Map] (maps with string keys), [btree.BTreeG] (an ordered set with a
    caller-supplied comparison) and [rtree.RTreeGN]. Their code is not part of the
    repository, so each is an interface here: a class with the operations the engine
    calls and a class with the documented behaviour of these. Every interface has an
    instance over lists, which shows the laws can hold and on which the witnesses
    compute. *)

From Stdlib Require Import Ascii String ZArith Lia Bool.
From stdpp Require Import base list strings option sets sorting gmap.
From S2P Require Import Prelude.

(** ** Maps with string keys *)

(** [sm_items] are the pairs in ascending key order, what [Scan] visits; [Reverse],
    [Ascend] and [Descend] are derived from it below. *)
Class StrMap (M : Type -> Type) := {
  sm_empty : forall A, M A;
  sm_get : forall {A}, M A -> string -> option A;
  sm_set : forall {A}, M A -> string -> A -> M A;
  sm_delete : forall {A}, M A -> string -> M A;
  sm_items : forall {A}, M A -> list (string * A);
}.
Arguments sm_empty {M _ A}.

Definition key_lt {A} (x y : string * A) : Prop := (x.1 <s y.1) = true.

Class StrMapLaws (M : Type -> Type) `{StrMap M} := {
  sm_get_empty : forall A k, sm_get (@sm_empty M _ A) k = None;
  sm_get_set : forall A (m : M A) k k' v,
    sm_get (sm_set m k v) k' = if (k =s k') then Some v else sm_get m k';
  sm_get_delete : forall A (m : M A) k k',
    sm_get (sm_delete m k) k' = if (k =s k') then None else sm_get m k';
  sm_elem_items : forall A (m : M A) k v, (k, v) ∈ sm_items m <-> sm_get m k = Some v;
  sm_sorted : forall A (m : M A), StronglySorted key_lt (sm_items m);
}.

Section derived.
Context {M : Type -> Type} `{StrMap M}.

Definition sm_len {A} (m : M A) : nat := length (sm_items m).
(** [Ascend(pivot, iter)]: the pairs from [pivot] up. *)
Definition sm_ascend {A} (m : M A) (pivot : string) : list (string * A) :=
  filter (fun kv => (kv.1 <s pivot) = false) (sm_items m).
(** [Reverse(iter)]: all pairs, downwards. *)
Definition sm_reverse {A} (m : M A) : list (string * A) := reverse (sm_items m).
(** [Descend(pivot, iter)]: the pairs from [pivot] down. *)
Definition sm_descend {A} (m : M A) (pivot : string) : list (string * A) :=
  filter (fun kv => (pivot <s kv.1) = false) (sm_reverse m).
End derived.

Section laws.
Context {M : Type -> Type} `{StrMapLaws M}.

Lemma sm_get_set_eq {A} (m : M A) k v : sm_get (sm_set m k v) k = Some v.
Proof. by rewrite sm_get_set, String.eqb_refl. Qed.
Lemma sm_get_set_ne {A} (m : M A) k k' v : k <> k' -> sm_get (sm_set m k v) k' = sm_get m k'.
Proof. intros. by rewrite sm_get_set, (proj2 (String.eqb_neq _ _)). Qed.
Lemma sm_get_delete_eq {A} (m : M A) k : sm_get (sm_delete m k) k = None.
Proof. by rewrite sm_get_delete, String.eqb_refl. Qed.
Lemma sm_get_delete_ne {A} (m : M A) k k' :
  k <> k' -> sm_get (sm_delete m k) k' = sm_get m k'.
Proof. intros. by rewrite sm_get_delete, (proj2 (String.eqb_neq _ _)). Qed.

Lemma key_lt_irrefl {A} (x : string * A) : ~ key_lt x x.
Proof. unfold key_lt. by rewrite str_ltb_irrefl. Qed.

(** Sorted lists with the same elements are equal. *)
Lemma sorted_ext {A} (l1 l2 : list (string * A)) :
  StronglySorted key_lt l1 -> StronglySorted key_lt l2 ->
  (forall x, x ∈ l1 <-> x ∈ l2) -> l1 = l2.
Proof.
  intros S1. revert l2.
  induction S1 as [|x l1 S1 IH F1]; intros l2 S2 Hel.
  { destruct l2 as [|y l2]; [done|]. exfalso. by apply (not_elem_of_nil y), Hel, list_elem_of_here. }
  destruct S2 as [|y l2 S2 F2].
  { exfalso. by apply (not_elem_of_nil x), Hel, list_elem_of_here. }
  rewrite Forall_forall in F1, F2.
  assert (x = y) as ->.
  { assert (x ∈ y :: l2) as Hx by (apply Hel; set_solver).
    assert (y ∈ x :: l1) as Hy by (apply Hel; set_solver).
    apply elem_of_cons in Hx as [->|Hx]; [done|].
    apply elem_of_cons in Hy as [->|Hy]; [done|].
    pose proof (F2 _ Hx) as K1. pose proof (F1 _ Hy) as K2. unfold key_lt in *.
    pose proof (str_ltb_asym _ _ K1). congruence. }
  f_equal. apply IH; [done|]. intros z. specialize (Hel z). rewrite !elem_of_cons in Hel.
  split; intros Hz.
  - destruct (proj1 Hel (or_intror Hz)) as [->|]; [|done].
    by destruct (key_lt_irrefl _ (F1 _ Hz)).
  - destruct (proj2 Hel (or_intror Hz)) as [->|]; [|done].
    by destruct (key_lt_irrefl _ (F2 _ Hz)).
Qed.

(** Maps are determined by their lookups, up to the items they list. *)
Lemma sm_items_ext {A} (m1 m2 : M A) :
  (forall k, sm_get m1 k = sm_get m2 k) -> sm_items m1 = sm_items m2.
Proof.
  intros Hg. apply sorted_ext; [apply sm_sorted..|].
  intros [k v]. by rewrite !sm_elem_items, Hg.
Qed.

Lemma sm_items_empty {A} : sm_items (@sm_empty M _ A) = [].
Proof.
  destruct (sm_items sm_empty) as [|[k v] l] eqn:E; [done|].
  assert ((k, v) ∈ sm_items (@sm_empty M _ A)) as Hin by (rewrite E; set_solver).
  by rewrite sm_elem_items, sm_get_empty in Hin.
Qed.

Lemma sorted_NoDup {A} (l : list (string * A)) : StronglySorted key_lt l -> NoDup l.
Proof.
  induction 1 as [|x l S IH F]; constructor; [|done].
  intros Hx. rewrite Forall_forall in F. by apply (key_lt_irrefl x), F.
Qed.

Lemma sm_items_NoDup {A} (m : M A) : NoDup (sm_items m).
Proof. apply sorted_NoDup, sm_sorted. Qed.

(** How the items change, as permutations. *)
Lemma sm_items_set_new {A} (m : M A) k v :
  sm_get m k = None -> sm_items (sm_set m k v) ≡ₚ (k, v) :: sm_items m.
Proof.
  intros Hk. apply NoDup_Permutation.
  - apply sm_items_NoDup.
  - constructor; [|apply sm_items_NoDup]. by rewrite sm_elem_items, Hk.
  - intros [k' v']. rewrite elem_of_cons, !sm_elem_items, sm_get_set.
    destruct (String.eqb_spec k k') as [<-|Hne]; [|naive_solver].
    rewrite Hk. naive_solver.
Qed.

Lemma sm_items_delete {A} (m : M A) k v :
  sm_get m k = Some v -> sm_items m ≡ₚ (k, v) :: sm_items (sm_delete m k).
Proof.
  intros Hk. apply NoDup_Permutation.
  - apply sm_items_NoDup.
  - constructor; [|apply sm_items_NoDup]. by rewrite sm_elem_items, sm_get_delete_eq.
  - intros [k' v']. rewrite elem_of_cons, !sm_elem_items, sm_get_delete.
    destruct (String.eqb_spec k k') as [<-|Hne]; [|naive_solver].
    rewrite Hk. naive_solver.
Qed.

Lemma sm_items_set_old {A} (m : M A) k v v' :
  sm_get m k = Some v -> sm_items (sm_set m k v') ≡ₚ (k, v') :: sm_items (sm_delete m k).
Proof.
  intros Hk. apply NoDup_Permutation.
  - apply sm_items_NoDup.
  - constructor; [|apply sm_items_NoDup]. by rewrite sm_elem_items, sm_get_delete_eq.
  - intros [k' w]. rewrite elem_of_cons, !sm_elem_items, sm_get_delete, sm_get_set.
    destruct (String.eqb_spec k k') as [<-|Hne]; naive_solver.
Qed.

Lemma sm_delete_absent {A} (m : M A) k :
  sm_get m k = None -> sm_items (sm_delete m k) = sm_items m.
Proof.
  intros Hk. apply sm_items_ext. intros k'. rewrite sm_get_delete.
  destruct (String.eqb_spec k k') as [<-|]; congruence.
Qed.
End laws.
#[export] Hint Resolve sm_sorted sm_items_NoDup : spatial.
#[export] Hint Rewrite @sm_get_set_eq @sm_get_delete_eq @sm_get_empty using apply _ : smap.

(** The instance: [gmap], with its pairs sorted by key. *)
Module GMap.

Definition key_le {A} (x y : string * A) : Prop := (y.1 <s x.1) = false.
#[global] Instance key_le_dec {A} : RelDecision (@key_le A).
Proof. intros x y. unfold key_le. apply _. Defined.
#[global] Instance key_le_total {A} : Total (@key_le A).
Proof.
  intros x y. unfold key_le. destruct (y.1 <s x.1) eqn:E; [right|by left].
  by apply str_ltb_asym.
Qed.
#[global] Instance key_le_trans {A} : Transitive (@key_le A).
Proof. intros x y z. unfold key_le. intros H1 H2. eauto using str_ltb_false_trans. Qed.

#[global] Instance gmap_StrMap : StrMap (gmap string) := {|
  sm_empty := fun A => ∅;
  sm_get := fun A m k => m !! k;
  sm_set := fun A m k v => <[k := v]> m;
  sm_delete := fun A m k => delete k m;
  sm_items := fun A m => merge_sort key_le (map_to_list m) |}.

Lemma strict_of_sorted {A} (l : list (string * A)) :
  NoDup l.*1 -> StronglySorted key_le l -> StronglySorted key_lt l.
Proof.
  induction 2 as [|x l S IH F]; constructor.
  - apply IH. by apply NoDup_cons in H as [_ ?].
  - apply NoDup_cons in H as [Hx _]. rewrite Forall_forall in *. intros y Hy.
    unfold key_lt. pose proof (F y Hy) as Hle. unfold key_le in Hle.
    destruct (str_ltb_total x.1 y.1) as [?|[E|?]]; [done| |congruence].
    destruct Hx. rewrite E. by apply list_elem_of_fmap_2.
Qed.

#[global] Instance gmap_StrMapLaws : StrMapLaws (gmap string).
Proof.
  split; simpl.
  - intros. apply lookup_empty.
  - intros A m k k' v. destruct (String.eqb_spec k k') as [<-|];
      [by rewrite lookup_insert_eq|by rewrite lookup_insert_ne].
  - intros A m k k'. destruct (String.eqb_spec k k') as [<-|];
      [by rewrite lookup_delete_eq|by rewrite lookup_delete_ne].
  - intros A m k v. by rewrite merge_sort_Permutation, elem_of_map_to_list.
  - intros A m. apply strict_of_sorted.
    + rewrite merge_sort_Permutation. apply NoDup_fst_map_to_list.
    + apply (StronglySorted_merge_sort _).
Qed.

End GMap.

(** ** Ordered sets with a comparison: [btree.BTreeG] *)

(** What the comparison of a tree has to be: a strict weak order. *)
Class StrictWeak {A} (less : A -> A -> bool) : Prop := {
  sw_irrefl : forall x, less x x = false;
  sw_trans : forall x y z, less x y = true -> less y z = true -> less x z = true;
  sw_incomp : forall x y z, less x y = false -> less y z = false -> less x z = false;
}.

Definition equivb {A} (less : A -> A -> bool) (x y : A) : bool :=
  negb (less x y) && negb (less y x).

(** Comparisons by a string first, then by another order. *)
Definition lex {A} (f : A -> string) (less : A -> A -> bool) (x y : A) : bool :=
  if f x <s f y then true else if f y <s f x then false else less x y.

Lemma lex_sw {A} (f : A -> string) (less : A -> A -> bool) :
  StrictWeak less -> StrictWeak (lex f less).
Proof.
  intros Hw. split; unfold lex.
  - intros x. rewrite str_ltb_irrefl. apply (sw_irrefl (StrictWeak := Hw)).
  - intros x y z. pose proof (sw_trans (less := less) x y z) as Ht.
    generalize (f x) (f y) (f z). intros a b c.
    destruct (str_ltb_total a b) as [E1|[->|E1]].
    + rewrite E1. intros _. destruct (str_ltb_total b c) as [E2|[->|E2]].
      * by rewrite (str_ltb_trans _ _ _ E1 E2).
      * by rewrite E1.
      * by rewrite E2, (str_ltb_asym _ _ E2).
    + rewrite str_ltb_irrefl. intros H1. destruct (b <s c); [done|].
      destruct (c <s b); [done|]. by apply Ht.
    + by rewrite E1, (str_ltb_asym _ _ E1).
  - intros x y z. pose proof (sw_incomp (less := less) x y z) as Ht.
    generalize (f x) (f y) (f z). intros a b c.
    destruct (str_ltb_total a b) as [E1|[->|E1]]; [by rewrite E1| |].
    + rewrite str_ltb_irrefl. intros H1. destruct (b <s c); [done|].
      destruct (c <s b); [done|]. by apply Ht.
    + intros _. destruct (str_ltb_total b c) as [E2|[->|E2]]; [by rewrite E2| |].
      * by rewrite E1, (str_ltb_asym _ _ E1).
      * pose proof (str_ltb_trans _ _ _ E2 E1) as E3. by rewrite E3, (str_ltb_asym _ _ E3).
Qed.

Lemma str_sw {A} (f : A -> string) : StrictWeak (fun x y => f x <s f y).
Proof.
  split.
  - intros. apply str_ltb_irrefl.
  - intros x y z. apply str_ltb_trans.
  - intros x y z H1 H2. by eapply str_ltb_false_trans.
Qed.

Lemma lex_equiv {A} (f : A -> string) (less : A -> A -> bool) x y :
  equivb (lex f less) x y = true <-> f x = f y /\ equivb less x y = true.
Proof.
  unfold equivb, lex. destruct (str_ltb_total (f x) (f y)) as [E|[E|E]].
  - rewrite E. split; [done|]. intros [He _]. by rewrite He, str_ltb_irrefl in E.
  - rewrite E, str_ltb_irrefl. tauto.
  - rewrite E, (str_ltb_asym _ _ E). split; [done|].
    intros [He _]. by rewrite He, str_ltb_irrefl in E.
Qed.

Lemma str_equiv {A} (f : A -> string) x y :
  equivb (fun x y => f x <s f y) x y = true <-> f x = f y.
Proof.
  unfold equivb. boolify. split; [intros [? ?]; by apply str_ltb_false_antisym|].
  intros ->. by rewrite str_ltb_irrefl.
Qed.

(** A tree is created with its comparison, so this is an index of its type. Items that
    the comparison does not tell apart are the same item: [bt_set] replaces it,
    [bt_delete] removes it, [bt_get] finds it. *)
Class BTree (T : forall A, (A -> A -> bool) -> Type) := {
  bt_new : forall A (less : A -> A -> bool), T A less;
  bt_items : forall {A less}, T A less -> list A;
  bt_set : forall {A less}, T A less -> A -> T A less;
  bt_delete : forall {A less}, T A less -> A -> T A less;
  bt_get : forall {A less}, T A less -> A -> option A;
}.

Class BTreeLaws (T : forall A, (A -> A -> bool) -> Type) `{BTree T} : Prop := {
  bt_items_new : forall A less, bt_items (bt_new A less) = [];
  bt_sorted : forall A (less : A -> A -> bool) (t : T A less),
    StrictWeak less -> StronglySorted (fun x y => less x y = true) (bt_items t);
  bt_elem_set : forall A (less : A -> A -> bool) (t : T A less) x y,
    StrictWeak less ->
    y ∈ bt_items (bt_set t x) <-> y = x \/ (y ∈ bt_items t /\ equivb less x y = false);
  bt_elem_delete : forall A (less : A -> A -> bool) (t : T A less) x y,
    StrictWeak less ->
    y ∈ bt_items (bt_delete t x) <-> y ∈ bt_items t /\ equivb less x y = false;
  bt_get_spec : forall A (less : A -> A -> bool) (t : T A less) x y,
    StrictWeak less ->
    bt_get t x = Some y <-> y ∈ bt_items t /\ equivb less x y = true;
}.

Section btree.
Context {T : forall A, (A -> A -> bool) -> Type} `{BTree T}.

(** [Ascend(pivot, iter)] and [Descend(pivot, iter)]. *)
Definition bt_ascend {A less} (t : T A less) (pivot : A) : list A :=
  filter (fun x => less x pivot = false) (bt_items t).
Definition bt_descend {A less} (t : T A less) (pivot : A) : list A :=
  filter (fun x => less pivot x = false) (reverse (bt_items t)).
End btree.

Section strict_weak.
Context {A : Type} (less : A -> A -> bool) `{!StrictWeak less}.

Lemma equivb_refl x : equivb less x x = true.
Proof. unfold equivb. by rewrite (sw_irrefl (less:=less)). Qed.
Lemma equivb_sym x y : equivb less x y = equivb less y x.
Proof. unfold equivb. apply andb_comm. Qed.

(** Items of a sorted list are pairwise distinct for the comparison. *)
Lemma sorted_equiv_eq l x y :
  StronglySorted (fun x y => less x y = true) l ->
  x ∈ l -> y ∈ l -> equivb less x y = true -> x = y.
Proof.
  induction 1 as [|z l S IH F]; [set_solver|].
  rewrite Forall_forall in F. intros Hx Hy He.
  unfold equivb in He. boolify. destruct He as [He1 He2].
  apply elem_of_cons in Hx as [->|Hx]; apply elem_of_cons in Hy as [->|Hy].
  - done.
  - apply F in Hy. congruence.
  - apply F in Hx. congruence.
  - apply IH; [done..|]. unfold equivb. by rewrite He1, He2.
Qed.
End strict_weak.

(** ** Insertion sort

    [sort.SliceStable] gives the one stable order, [sort.Slice] any order. *)

Section sorting.
Context {A : Type} (less : A -> A -> bool).

Fixpoint insert_by (x : A) (l : list A) : list A :=
  match l with
  | [] => [x]
  | y :: l => if less y x then y :: insert_by x l else x :: y :: l
  end.
Definition sort_by (l : list A) : list A := foldr insert_by [] l.

Lemma insert_by_perm x l : insert_by x l ≡ₚ x :: l.
Proof. induction l as [|y l IH]; cbn; [done|]. case_match; [|done]. rewrite IH. apply Permutation_swap. Qed.

Lemma sort_by_perm l : sort_by l ≡ₚ l.
Proof. unfold sort_by. induction l as [|x l IH]; cbn; [done|]. by rewrite insert_by_perm, IH. Qed.

Hypothesis asym : forall a b, less a b = true -> less b a = false.

Lemma insert_by_sorted x l :
  Sorted (fun a b => less b a = false) l -> Sorted (fun a b => less b a = false) (insert_by x l).
Proof.
  induction 1 as [|y l Hs IH Hh]; cbn; [by repeat constructor|].
  destruct (less y x) eqn:E; [|by repeat constructor].
  constructor; [done|]. destruct l as [|z l]; cbn; [constructor; by apply asym|].
  inversion Hh; subst. destruct (less z x); constructor; [done|by apply asym].
Qed.

Lemma sort_by_sorted l : Sorted (fun a b => less b a = false) (sort_by l).
Proof. unfold sort_by. induction l as [|x l IH]; cbn; [constructor|by apply insert_by_sorted]. Qed.
End sorting.

Section stable.
Context {A K : Type} `{!EqDecision K} (less : A -> A -> bool) `{!StrictWeak less} (key : A -> K).
Hypothesis less_key : forall a b, equivb less a b = true <-> key a = key b.

Definition ordered (l : list A) : Prop := StronglySorted (fun a b => less b a = false) l.

Lemma less_asym a b : less a b = true -> less b a = false.
Proof.
  intros E. apply not_true_iff_false. intros E'. pose proof (sw_trans _ _ _ E E') as Ht.
  by rewrite sw_irrefl in Ht.
Qed.

Lemma insert_ordered x l : ordered l -> ordered (insert_by less x l).
Proof.
  unfold ordered. induction 1 as [|y l Hs IH Hf]; cbn; [by repeat constructor|].
  destruct (less y x) eqn:E.
  - constructor; [done|]. rewrite insert_by_perm. constructor; [by apply less_asym|done].
  - constructor; [by constructor|]. constructor; [done|].
    eapply Forall_impl; [done|]. intros z Hz. exact (sw_incomp _ _ _ Hz E).
Qed.

Lemma sort_by_ordered l : ordered (sort_by less l).
Proof. unfold sort_by. induction l as [|x l IH]; cbn; [constructor|by apply insert_ordered]. Qed.

Lemma insert_filter k x l :
  ordered l -> filter (fun a => key a = k) (insert_by less x l) = filter (fun a => key a = k) (x :: l).
Proof.
  unfold ordered. induction 1 as [|y l Hs IH Hf]; cbn [insert_by]; [done|].
  destruct (less y x) eqn:E; [|done]. rewrite filter_cons, IH, !filter_cons.
  destruct (decide (key y = k)) as [Ey|], (decide (key x = k)) as [Ex|]; try done.
  rewrite <- Ex in Ey. apply less_key in Ey. unfold equivb in Ey. by rewrite E in Ey.
Qed.

Lemma sort_spec l :
  sort_by less l ≡ₚ l /\ ordered (sort_by less l) /\ forall k, filter (fun a => key a = k) (sort_by less l) = filter (fun a => key a = k) l.
Proof.
  split; [apply sort_by_perm|]. split; [apply sort_by_ordered|]. intros k.
  induction l as [|x l IH]; [done|]. change (sort_by less (x :: l)) with (insert_by less x (sort_by less l)).
  rewrite insert_filter by apply sort_by_ordered.
  by rewrite !filter_cons, IH.
Qed.

(** What is in order is determined by the order among the equal ones. *)
Lemma ordered_unique l l' :
  ordered l -> ordered l' ->
  (forall k, filter (fun a => key a = k) l = filter (fun a => key a = k) l') -> l = l'.
Proof.
  unfold ordered. intros Hl. revert l'. induction Hl as [|x l Hs IH Hf]; intros l' Hl' Hk.
  - destruct l' as [|y l']; [done|]. specialize (Hk (key y)). by rewrite filter_cons_True in Hk by done.
  - destruct Hl' as [|y l' Hs' Hf'].
    { specialize (Hk (key x)). by rewrite filter_cons_True in Hk by done. }
    assert (x ∈ y :: l' /\ y ∈ x :: l) as [Hx Hy].
    { pose proof (Hk (key x)) as E1. rewrite filter_cons_True in E1 by done.
      pose proof (Hk (key y)) as E2. rewrite (filter_cons_True _ y) in E2 by done.
      split; [apply (list_elem_of_filter (fun a => key a = key x)); rewrite <- E1; set_solver|].
      apply (list_elem_of_filter (fun a => key a = key y)). rewrite E2. set_solver. }
    assert (key x = key y) as Exy.
    { apply less_key. unfold equivb. rewrite Forall_forall in Hf, Hf'.
      apply elem_of_cons in Hx as [->|Hx]; [by rewrite (sw_irrefl (less := less))|].
      apply elem_of_cons in Hy as [->|Hy]; [by rewrite (sw_irrefl (less := less))|]. by rewrite (Hf _ Hy), (Hf' _ Hx). }
    assert (x = y) as ->.
    { specialize (Hk (key x)). rewrite !filter_cons_True in Hk by done. by injection Hk. }
    f_equal. apply IH; [done|]. intros k. specialize (Hk k). rewrite !filter_cons in Hk.
    destruct (decide (key y = k)); [by injection Hk|done].
Qed.

Lemma sort_unique l l' :
  (forall k, filter (fun a => key a = k) l = filter (fun a => key a = k) l') -> sort_by less l = sort_by less l'.
Proof.
  intros Hk. destruct (sort_spec l) as (_ & O1 & F1), (sort_spec l') as (_ & O2 & F2).
  apply ordered_unique; [done..|]. intros k. by rewrite F1, F2.
Qed.
End stable.

Section btree_laws.
Context {T : forall A, (A -> A -> bool) -> Type} `{BTreeLaws T}.
Context {A : Type} (less : A -> A -> bool) `{!StrictWeak less}.
Implicit Types t : T A less.

Lemma bt_NoDup t : NoDup (bt_items t).
Proof.
  pose proof (bt_sorted _ less t _) as Hs.
  induction Hs as [|x l S IH F]; constructor; [|done].
  intros Hx. rewrite Forall_forall in F. apply F in Hx. by rewrite (sw_irrefl (less:=less)) in Hx.
Qed.

Lemma bt_equiv_eq t x y :
  x ∈ bt_items t -> y ∈ bt_items t -> equivb less x y = true -> x = y.
Proof. apply sorted_equiv_eq; [done|]. by apply bt_sorted. Qed.

(** The items around a deletion and an insertion. *)
Lemma bt_items_delete t x y :
  y ∈ bt_items t -> equivb less x y = true -> bt_items t ≡ₚ y :: bt_items (bt_delete t x).
Proof.
  intros Hy He. apply NoDup_Permutation.
  - apply bt_NoDup.
  - constructor; [|apply bt_NoDup]. rewrite bt_elem_delete by done. intros [_ Hn]. congruence.
  - intros z. rewrite elem_of_cons, bt_elem_delete by done. split.
    + intros Hz. destruct (equivb less x z) eqn:E; [left|by right].
      apply (bt_equiv_eq t); [done..|]. unfold equivb in *. boolify.
      split; eapply (sw_incomp (less := less)); naive_solver.
    + intros [->|[Hz _]]; done.
Qed.

Lemma bt_items_insert t x :
  (forall y, y ∈ bt_items t -> equivb less x y = false) -> bt_items (bt_set t x) ≡ₚ x :: bt_items t.
Proof.
  intros Hx. apply NoDup_Permutation.
  - apply bt_NoDup.
  - constructor; [|apply bt_NoDup]. intros Hin. apply Hx in Hin.
    by rewrite equivb_refl in Hin.
  - intros z. rewrite elem_of_cons, bt_elem_set by done. naive_solver.
Qed.
End btree_laws.

(** The instance: a list kept sorted by insertion. *)
Module LTree.

Section ops.
Context {A : Type} (less : A -> A -> bool).

Fixpoint ins (x : A) (l : list A) : list A :=
  match l with
  | [] => [x]
  | y :: l => if less y x then y :: ins x l
              else if less x y then x :: y :: l else x :: l
  end.
Definition del (x : A) (l : list A) : list A := filter (fun y => equivb less x y = false) l.

Definition sorted (l : list A) : Prop := StronglySorted (fun x y => less x y = true) l.

Context `{!StrictWeak less}.

Lemma elem_of_ins x y l :
  sorted l -> y ∈ ins x l <-> y = x \/ (y ∈ l /\ equivb less x y = false).
Proof.
  induction 1 as [|z l S IH F]; simpl; [set_solver|].
  rewrite Forall_forall in F. unfold equivb in *.
  destruct (less z x) eqn:E1; [|destruct (less x z) eqn:E2].
  - rewrite !elem_of_cons, IH. split.
    + intros [->|[->|[Hy He]]]; [right|by left|right]; [|by auto].
      split; [by left|]. rewrite E1. by rewrite andb_false_r.
    + naive_solver.
  - rewrite !elem_of_cons. split; [|naive_solver].
    intros [->|[->|Hy]]; [by left|right; split; [by left|by rewrite E2]|].
    right. split; [by right|]. by rewrite (sw_trans _ _ _ E2 (F _ Hy)).
  - rewrite !elem_of_cons. split.
    + intros [->|Hy]; [by left|]. right. split; [by right|].
      destruct (less x y) eqn:E3; [done|]. apply F in Hy.
      by rewrite (sw_incomp _ _ _ E1 E3) in Hy.
    + intros [->|[[->|Hy] He]]; [by left| |by right]. by rewrite E1, E2 in He.
Qed.

Lemma sorted_ins x l : sorted l -> sorted (ins x l).
Proof.
  unfold sorted. induction 1 as [|z l S IH F]; simpl; [by repeat constructor|].
  destruct (less z x) eqn:E1; [|destruct (less x z) eqn:E2]; rewrite Forall_forall in F.
  - constructor; [done|]. apply Forall_forall. intros y Hy.
    apply elem_of_ins in Hy as [->|[Hy _]]; auto.
  - constructor; [by constructor; [|apply Forall_forall]|].
    apply Forall_forall. intros y [->|Hy]%elem_of_cons; [done|]. eauto using sw_trans.
  - constructor; [done|]. apply Forall_forall. intros y Hy.
    destruct (less x y) eqn:E3; [done|]. apply F in Hy.
    by rewrite (sw_incomp _ _ _ E1 E3) in Hy.
Qed.

Lemma sorted_del x l : sorted l -> sorted (del x l).
Proof.
  unfold sorted, del. induction 1 as [|z l S IH F]; [constructor|].
  rewrite filter_cons. case_decide; [|done]. constructor; [done|].
  rewrite Forall_forall in *. intros y [_ Hy]%list_elem_of_filter. auto.
Qed.
End ops.

Record tree A (less : A -> A -> bool) := mkTree {
  items : list A;
  items_ok : StrictWeak less -> sorted less items }.
Arguments items {A less}.
Arguments mkTree {A less}.

#[global] Instance tree_BTree : BTree tree := {|
  bt_new := fun A less => mkTree [] (fun _ => SSorted_nil _);
  bt_items := fun A less t => items t;
  bt_set := fun A less t x =>
    mkTree (ins less x (items t)) (fun H => sorted_ins less x _ (items_ok _ _ t H));
  bt_delete := fun A less t x =>
    mkTree (del less x (items t)) (fun H => sorted_del less x _ (items_ok _ _ t H));
  bt_get := fun A less t x => find (equivb less x) (items t) |}.

#[global] Instance tree_BTreeLaws : BTreeLaws tree.
Proof.
  split; simpl.
  - done.
  - intros A less t Hw. apply (items_ok _ _ t Hw).
  - intros A less t x y Hw. apply elem_of_ins, (items_ok _ _ t Hw). done.
  - intros A less t x y Hw. unfold del. rewrite list_elem_of_filter. tauto.
  - intros A less t x y Hw. split.
    + intros [Hin He]%find_some. apply list_elem_of_In in Hin. done.
    + intros [Hy He]. destruct (find (equivb less x) (items t)) as [z|] eqn:E.
      * apply find_some in E as [Hz Ez]. apply list_elem_of_In in Hz. f_equal.
        unfold equivb in Ez, He. boolify.
        apply (sorted_equiv_eq less (items t)); [apply (items_ok _ _ t Hw)|done..|].
        unfold equivb. boolify.
        split; eapply (sw_incomp (StrictWeak := Hw)); naive_solver.
      * apply list_elem_of_In in Hy. pose proof (find_none _ _ E _ Hy). congruence.
Qed.

End LTree.

(** ** Spatial index: [rtree.RTreeGN]

    Boxes [B] with the items [A] stored at them. [box_ok] says that no coordinate is
    NaN: comparisons with NaN are false, so an index that holds such a box promises
    nothing about [Delete] and [Search]. The order in which [Search] visits is not
    specified. *)
Class RTree (B A R : Type) := {
  rt_empty : R;
  rt_items : R -> list (B * A);
  rt_insert : R -> B -> A -> R;
  rt_delete : R -> B -> A -> R;
  rt_search : R -> B -> list (B * A);
}.

Class RTreeLaws (B A R : Type) `{RTree B A R} (box_ok : B -> bool) (meet : B -> B -> bool)
    : Prop := {
  rt_items_empty : rt_items rt_empty = [];
  rt_items_insert : forall t b x, rt_items (rt_insert t b x) ≡ₚ (b, x) :: rt_items t;
  rt_items_delete : forall t b x,
    Forall (fun p => box_ok p.1 = true) (rt_items t) -> (b, x) ∈ rt_items t ->
    rt_items t ≡ₚ (b, x) :: rt_items (rt_delete t b x);
  rt_search_items : forall t b,
    Forall (fun p => box_ok p.1 = true) (rt_items t) -> box_ok b = true ->
    rt_search t b ≡ₚ filter (fun p => meet b p.1 = true) (rt_items t);
  rt_search_sub : forall t b p, p ∈ rt_search t b -> p ∈ rt_items t;
}.

(** The instance: a list of boxes with their items. *)
Module LBoxes.
Section boxes.
Context {B A : Type} `{EqDecision B, EqDecision A} (box_ok : B -> bool) (meet : B -> B -> bool).

Fixpoint remove1 (x : B * A) (l : list (B * A)) : list (B * A) :=
  match l with
  | [] => []
  | y :: l => if decide (x = y) then l else y :: remove1 x l
  end.

#[global] Instance list_RTree : RTree B A (list (B * A)) := {|
  rt_empty := [];
  rt_items := fun t => t;
  rt_insert := fun t b x => (b, x) :: t;
  rt_delete := fun t b x => remove1 (b, x) t;
  rt_search := fun t b => filter (fun p => meet b p.1 = true) t |}.

Lemma remove1_perm x l : x ∈ l -> l ≡ₚ x :: remove1 x l.
Proof.
  induction l as [|y l IH]; [set_solver|]. intros Hx. simpl.
  case_decide as E; [by rewrite E|].
  apply elem_of_cons in Hx as [?|Hx]; [done|].
  rewrite (IH Hx) at 1. constructor.
Qed.

#[global] Instance list_RTreeLaws : RTreeLaws B A (list (B * A)) box_ok meet.
Proof.
  split; simpl; auto.
  - intros t b x _. apply remove1_perm.
  - intros t b p [_ Hp]%list_elem_of_filter. done.
Qed.
End boxes.
End LBoxes.
