(* ===== verification/Heap.v ===== *)
(** * Binary heaps ([container/heap])

    The heap operations of the standard library on a slice, with the comparison of the
    [heap.Interface] as a parameter: [Push] and [Pop] keep the elements, [Pop] takes a
    least one. *)

From Stdlib Require Import ZArith Lia Bool.
From stdpp Require Import base list option sorting.
From S2P Require Import Prelude Containers.

Section heap.
Context {A : Type} (less : A -> A -> bool).

(** [h.Less(i, j)] and [h.Swap(i, j)] of a slice. *)
Definition lessAt (h : list A) (i j : nat) : bool :=
  match h !! i, h !! j with Some x, Some y => less x y | _, _ => false end.
Definition swap (h : list A) (i j : nat) : list A :=
  match h !! i, h !! j with Some x, Some y => <[i:=y]> (<[j:=x]> h) | _, _ => h end.

(** The loops end because the index falls, respectively grows. *)
Fixpoint up (fuel : nat) (h : list A) (j : nat) : list A :=
  match fuel with
  | O => h
  | S fuel =>
    let i := (j - 1) / 2 in
    if (i =? j) || negb (lessAt h j i) then h else up fuel (swap h i j) i
  end.

Fixpoint down (fuel : nat) (h : list A) (i n : nat) : list A :=
  match fuel with
  | O => h
  | S fuel =>
    let j1 := 2 * i + 1 in
    if n <=? j1 then h
    else
      let j2 := j1 + 1 in
      let j := if (j2 <? n) && lessAt h j2 j1 then j2 else j1 in
      if negb (lessAt h j i) then h else down fuel (swap h i j) j n
  end.

Definition Push (h : list A) (x : A) : list A := up (S (length h)) (h ++ [x]) (length h).

(** [None]: [Pop] of an empty heap is an index out of range. *)
Definition Pop (h : list A) : option (A * list A) :=
  match h with
  | [] => None
  | _ =>
    let n := length h - 1 in
    let h := down (S n) (swap h 0 n) 0 n in
    x ← h !! n; Some (x, take n h)
  end.

(** ** Elements *)

Lemma length_swap h i j : length (swap h i j) = length h.
Proof. unfold swap. repeat case_match; by rewrite ?length_insert. Qed.

Lemma swap_perm h i j : swap h i j ≡ₚ h.
Proof.
  unfold swap. destruct (h !! i) as [x|] eqn:Ei, (h !! j) as [y|] eqn:Ej; try done.
  destruct (decide (i = j)) as [->|Hne].
  { rewrite list_insert_insert_eq. simplify_eq. by rewrite list_insert_id. }
  apply Permutation_inj. split; [by rewrite !length_insert|].
  exists (fun k => if decide (k = i) then j else if decide (k = j) then i else k).
  split; [intros a b ?; repeat case_decide; congruence|].
  intros k. pose proof (lookup_lt_Some _ _ _ Ei). pose proof (lookup_lt_Some _ _ _ Ej).
  repeat case_decide; subst; rewrite ?list_lookup_insert_eq, ?list_lookup_insert_ne, ?list_lookup_insert_eq by (rewrite ?length_insert; done); done.
Qed.

Lemma lookup_swap h i j k :
  i < length h -> j < length h ->
  swap h i j !! k = if decide (k = i) then h !! j else if decide (k = j) then h !! i else h !! k.
Proof.
  intros [x Ei]%lookup_lt_is_Some [y Ej]%lookup_lt_is_Some. unfold swap. rewrite Ei, Ej.
  pose proof (lookup_lt_Some _ _ _ Ei). pose proof (lookup_lt_Some _ _ _ Ej).
  repeat case_decide; subst.
  - by rewrite list_lookup_insert_eq by (by rewrite length_insert).
  - by rewrite list_lookup_insert_ne, list_lookup_insert_eq.
  - by rewrite !list_lookup_insert_ne.
Qed.

Lemma up_perm fuel h j : up fuel h j ≡ₚ h.
Proof.
  revert h j. induction fuel as [|fuel IH]; intros h j; [done|]. cbn [up].
  case_match; [done|]. by rewrite IH, swap_perm.
Qed.
Lemma down_perm fuel h i n : down fuel h i n ≡ₚ h.
Proof.
  revert h i. induction fuel as [|fuel IH]; intros h i; [done|]. cbn [down].
  repeat case_match; try done; by rewrite IH, swap_perm.
Qed.

Lemma Push_perm h x : Push h x ≡ₚ x :: h.
Proof. unfold Push. rewrite up_perm. by rewrite Permutation_app_comm. Qed.

Lemma Pop_perm h x h' : Pop h = Some (x, h') -> h ≡ₚ x :: h'.
Proof.
  unfold Pop. destruct h as [|y h]; [done|].
  set (n := length (y :: h) - 1). set (d := down (S n) (swap (y :: h) 0 n) 0 n).
  assert (d ≡ₚ y :: h) as Hp by (unfold d; by rewrite down_perm, swap_perm).
  destruct (d !! n) as [z|] eqn:E; [|done]. intros [= -> <-].
  rewrite <- Hp at 1. rewrite <- (take_drop n d) at 1.
  assert (length d = S n) as Hl by (rewrite Hp; unfold n; simpl; lia).
  rewrite (drop_S d x n) by done. rewrite drop_ge by lia. by rewrite Permutation_app_comm.
Qed.

Lemma Pop_nonempty h : h <> [] -> exists x h', Pop h = Some (x, h').
Proof.
  destruct h as [|y h]; [done|]. intros _. unfold Pop.
  set (n := length (y :: h) - 1). set (d := down (S n) (swap (y :: h) 0 n) 0 n).
  assert (d ≡ₚ y :: h) as Hp by (unfold d; by rewrite down_perm, swap_perm).
  destruct (lookup_lt_is_Some_2 d n) as [z ->]; [|by eauto].
  rewrite Hp. unfold n. simpl. lia.
Qed.

(** ** The heap order *)

Context `{!StrictWeak less}.

(** No element is less than its parent, among the first [n]. *)
Definition parent (j : nat) : nat := (j - 1) / 2.
Definition ge (h : list A) (i j : nat) : Prop := lessAt h j i = false.
Definition heap_to (n : nat) (h : list A) : Prop := forall j, 0 < j < n -> ge h (parent j) j.
Definition heap (h : list A) : Prop := heap_to (length h) h.

Lemma parent_lt j : 0 < j -> parent j < j.
Proof. intros. unfold parent. apply Nat.Div0.div_lt_upper_bound. lia. Qed.
Lemma parent_child i j : 0 < j -> parent j = i <-> j = 2 * i + 1 \/ j = 2 * i + 2.
Proof.
  intros. unfold parent. pose proof (Nat.div_mod_eq (j - 1) 2).
  pose proof (Nat.mod_upper_bound (j - 1) 2). lia.
Qed.

Lemma lessAt_Some h i j x y : h !! i = Some x -> h !! j = Some y -> lessAt h i j = less x y.
Proof. unfold lessAt. by intros -> ->. Qed.
Lemma ge_trans h i j k : j < length h -> ge h i j -> ge h j k -> ge h i k.
Proof.
  unfold ge, lessAt. intros [y Ey]%lookup_lt_is_Some. rewrite Ey.
  destruct (h !! k) as [z|], (h !! i) as [x|]; try done. intros H1 H2. by eapply sw_incomp.
Qed.
Lemma lessAt_ge h i j : lessAt h i j = true -> ge h i j.
Proof.
  unfold ge, lessAt. destruct (h !! i), (h !! j); try done. by apply less_asym.
Qed.

(** Comparisons after a swap. *)
Lemma ge_swap h i j a b :
  i < length h -> j < length h ->
  let f k := if decide (k = i) then j else if decide (k = j) then i else k in
  ge (swap h i j) a b <-> ge h (f a) (f b).
Proof.
  intros Hi Hj f. assert (forall k, swap h i j !! k = h !! f k) as E.
  { intros k. rewrite lookup_swap by done. unfold f. by repeat case_decide. }
  unfold ge, lessAt. by rewrite !E.
Qed.

(** The order but for the element at [j], which may be less than its parent. *)
Definition heap_up (h : list A) (j : nat) : Prop :=
  (forall k, 0 < k < length h -> k <> j -> ge h (parent k) k) /\
  (forall k, 0 < k < length h -> parent k = j -> 0 < j -> ge h (parent j) k).

Lemma up_step h j :
  0 < j < length h -> heap_up h j -> lessAt h j (parent j) = true ->
  heap_up (swap h (parent j) j) (parent j).
Proof.
  intros Hj [H1 H2] Hl. pose proof (parent_lt j ltac:(lia)) as Hp.
  split; intros k Hk; rewrite length_swap in Hk; intros Hne; [|intros Hpos];
    (rewrite ge_swap by lia); pose proof (parent_lt k ltac:(lia)); cbv zeta.
  - repeat case_decide; try (exfalso; subst; first [done | lia | congruence]).
    + by apply lessAt_ge.
    + (* siblings of j *) apply (ge_trans h j (parent j) k); [lia|by apply lessAt_ge|].
      replace (parent j) with (parent k) by done. by apply H1.
    + apply H2; [lia|done|lia].
    + by apply H1.
  - pose proof (parent_lt (parent j) ltac:(lia)). repeat case_decide; try (exfalso; subst; first [done | lia | congruence]).
    + apply H1; lia.
    + apply (ge_trans h _ (parent j) k); [lia|apply H1; lia|]. rewrite <- Hne. apply H1; lia.
Qed.

Lemma up_heap fuel h j : j < fuel -> j < length h -> heap_up h j -> heap (up fuel h j).
Proof.
  revert h j. induction fuel as [|fuel IH]; intros h j Hf Hj Hh; [lia|]. cbn [up].
  fold (parent j). destruct (Nat.eqb_spec (parent j) j) as [He|He]; cbn [orb].
  { assert (j = 0) as -> by (destruct j; [done|]; pose proof (parent_lt (S j)); lia).
    intros k Hk. apply Hh; lia. }
  assert (0 < j) as Hpos by (destruct j; [done|lia]).
  destruct (lessAt h j (parent j)) eqn:E; cbn [negb].
  - pose proof (parent_lt j Hpos). apply IH; [lia|rewrite length_swap; lia|]. by apply up_step.
  - intros k Hk. destruct (decide (k = j)) as [->|]; [done|]. by apply Hh.
Qed.

(** The order of the first [n], but for the element at [i], which may be more than its
    children. *)
Definition heap_down (n : nat) (h : list A) (i : nat) : Prop :=
  (forall k, 0 < k < n -> parent k <> i -> ge h (parent k) k) /\
  (forall k, 0 < k < n -> parent k = i -> 0 < i -> ge h (parent i) k).

(** [j] is the child the loop takes. *)
Definition least_child (n : nat) (h : list A) (i j : nat) : Prop :=
  parent j = i /\ 0 < j < n /\ (forall k, 0 < k < n -> parent k = i -> ge h j k).

Lemma down_step n h i j :
  n <= length h -> i < n -> heap_down n h i -> least_child n h i j -> lessAt h j i = true ->
  heap_down n (swap h i j) j.
Proof.
  intros Hn Hi [H1 H2] (Hj & Hjn & Hc) Hl. pose proof (parent_lt j ltac:(lia)) as Hp.
  split; intros k Hk Hne; [|intros Hpos]; (rewrite ge_swap by lia);
    pose proof (parent_lt k ltac:(lia)); cbv zeta.
  - repeat case_decide; try (exfalso; subst; first [done | lia | congruence]).
    + by apply lessAt_ge.
    + by apply Hc.
    + subst k. apply H2; [lia|done|lia].
    + by apply H1.
  - repeat case_decide; try (exfalso; subst; first [done | lia | congruence]). rewrite <- Hne. apply H1; lia.
Qed.

Lemma down_heap fuel n h i :
  n <= length h -> n < fuel + i -> i < n -> heap_down n h i -> heap_to n (down fuel h i n).
Proof.
  revert h i. induction fuel as [|fuel IH]; intros h i Hn Hf Hi Hh; [lia|]. cbn [down].
  destruct (Nat.leb_spec n (2 * i + 1)) as [Hle|Hlt].
  { intros k Hk. apply Hh; [done|]. intros Hpk%parent_child; lia. }
  set (j := if (_ <? _) && _ then _ else _).
  assert (least_child n h i j) as Hc.
  { unfold j. destruct (Nat.ltb_spec (2 * i + 1 + 1) n) as [H2|H2]; cbn [andb].
    - destruct (lessAt h (2 * i + 1 + 1) (2 * i + 1)) eqn:E; (split; [apply parent_child; lia|split; [lia|]]);
        intros k Hk Hpk%parent_child; try lia.
      all: assert (k = 2 * i + 1 \/ k = 2 * i + 1 + 1) as [->| ->] by lia; try done; try (by apply lessAt_ge).
      all: unfold ge, lessAt; case_match; [apply sw_irrefl|done].
    - split; [apply parent_child; lia|split; [lia|]]. intros k Hk Hpk%parent_child; [|lia].
      assert (k = 2 * i + 1) as -> by lia. unfold ge, lessAt. case_match; [apply sw_irrefl|done]. }
  clearbody j. destruct Hc as (Hj & Hjn & Hc). pose proof (parent_lt j ltac:(lia)).
  destruct (lessAt h j i) eqn:E; cbn [negb].
  - apply IH; [by rewrite length_swap|lia|lia|]. by apply down_step.
  - intros k Hk. destruct (decide (parent k = i)) as [Hpk|]; [|by apply Hh].
    rewrite Hpk. apply (ge_trans h i j k); [lia|done|auto].
Qed.

Lemma down_above fuel n h i k :
  i < n -> n <= k -> n <= length h -> down fuel h i n !! k = h !! k.
Proof.
  revert h i. induction fuel as [|fuel IH]; intros h i Hi Hk Hn; [done|]. cbn [down].
  destruct (Nat.leb_spec n (2 * i + 1)); [done|].
  set (j := if (_ <? _) && _ then _ else _).
  assert (j < n) by (unfold j; destruct (Nat.ltb_spec (2 * i + 1 + 1) n), (lessAt h (2 * i + 1 + 1) (2 * i + 1)); simpl; lia).
  case_match; [done|]. rewrite IH by (rewrite ?length_swap; lia).
  rewrite lookup_swap by lia. by rewrite !decide_False by lia.
Qed.

Lemma heap_root h k x y : heap h -> h !! 0 = Some x -> h !! k = Some y -> less y x = false.
Proof.
  intros Hh H0. revert y. induction k as [k IH] using lt_wf_ind. intros y Hk.
  destruct (decide (k = 0)) as [->|Hne]; [simplify_eq; apply sw_irrefl|].
  pose proof (lookup_lt_Some _ _ _ Hk). pose proof (parent_lt k ltac:(lia)).
  destruct (lookup_lt_is_Some_2 h (parent k)) as [z Hz]; [lia|].
  specialize (Hh k ltac:(lia)). unfold ge in Hh. rewrite (lessAt_Some _ _ _ _ _ Hk Hz) in Hh.
  eapply sw_incomp; [done|]. by eapply IH.
Qed.

Lemma Push_heap h x : heap h -> heap (Push h x).
Proof.
  intros Hh. unfold Push. apply up_heap; rewrite ?length_app; simpl; [lia..|].
  assert (forall k, k < length h -> (h ++ [x]) !! k = h !! k) as Hl by (intros; by rewrite lookup_app_l).
  split; intros k Hk; rewrite length_app in Hk; simpl in Hk; intros Hne.
  - pose proof (parent_lt k ltac:(lia)). specialize (Hh k ltac:(lia)).
    unfold ge, lessAt in *. by rewrite !Hl by lia.
  - intros Hpos. apply parent_child in Hne; lia.
Qed.

Lemma Pop_spec h x h' :
  heap h -> Pop h = Some (x, h') -> heap h' /\ (forall y, y ∈ h' -> less y x = false).
Proof.
  intros Hh Hpop. pose proof (Pop_perm _ _ _ Hpop) as Hperm.
  destruct h as [|y h]; [done|]. unfold Pop in Hpop.
  set (n := length (y :: h) - 1) in *. set (sw := swap (y :: h) 0 n) in *.
  assert (length sw = S n) as Hl by (unfold sw; rewrite length_swap; unfold n; simpl; lia).
  assert (n < length (y :: h)) as Hn by (unfold n; simpl; lia).
  destruct (down (S n) sw 0 n !! n) as [z|] eqn:E; [|done]. injection Hpop as -> <-.
  assert (x = y) as ->.
  { destruct (decide (n = 0)) as [Hz|Hz].
    - destruct h; [|unfold n in Hz; simpl in Hz; lia]. by injection E.
    - rewrite down_above in E by lia. unfold sw in E. rewrite lookup_swap in E by lia.
      rewrite decide_False, decide_True in E by lia. simpl in E. congruence. }
  split.
  - destruct (decide (n = 0)) as [Hz|Hz].
    { rewrite Hz. simpl. intros k Hk. simpl in Hk. lia. }
    assert (heap_to n (down (S n) sw 0 n)) as Hd.
    { apply down_heap; [lia..|]. split; [|lia]. intros k Hk Hne. unfold sw.
      pose proof (parent_lt k ltac:(lia)). rewrite ge_swap by lia. cbv zeta.
      rewrite !decide_False by lia. apply Hh. lia. }
    intros k Hk. rewrite length_take in Hk. pose proof (parent_lt k ltac:(lia)).
    specialize (Hd k ltac:(lia)). unfold ge, lessAt in *. by rewrite !lookup_take_lt by lia.
  - intros w Hw. assert (w ∈ y :: h) as [k Hk]%list_elem_of_lookup by (rewrite Hperm; by right).
    by apply (heap_root (y :: h) k y w).
Qed.
End heap.
