(* ===== verification/Bing.v ===== *)
(** * Map tiles and quad keys ([src/internal/legacy/bing])

    The tile arithmetic behind the TILE, MVT and QUADKEY areas: pixels, tiles and quad keys
    at a level of detail, on 64-bit integers, with Go's shifts. *)

From Stdlib Require Import Ascii String ZArith Lia Bool SpecFloat.
From stdpp Require Import base list strings option.
From S2P Require Import Prelude GoStd Strconv.

Local Open Scope Z_scope.

(** The functions of Go's [math] package the projection uses. *)
Class MathFns := {
  Sin : float64 -> float64;
  Log : float64 -> float64;
  Atan : float64 -> float64;
  Exp : float64 -> float64;
}.

Definition lit (s : string) : float64 := (ParseFloat s).1.
Definition MinLatitude : float64 := lit "-85.05112878".
Definition MaxLatitude : float64 := lit "85.05112878".
Definition MinLongitude : float64 := lit "-180".
Definition MaxLongitude : float64 := lit "180".
Definition Pi : float64 := lit "3.141592653589793".
Definition TileSize : Z := 256.

Definition clip (n minValue maxValue : float64) : float64 :=
  if f64_lt n minValue then minValue
  else if f64_gt n maxValue then maxValue
  else n.

(** [x << n] on [int64] and on [uint64]; a shift by 64 or more gives zero. *)
Definition shl (x n : Z) : Z := int64 (Z.shiftl x n).
Definition ushl (x n : Z) : Z := wrap64 (Z.shiftl x n).

Definition MapSize (levelOfDetail : Z) : Z := ushl TileSize levelOfDetail.

Section projection.
Context `{MathFns}.

Definition LatLongToPixelXY (latitude longitude : float64) (levelOfDetail : Z) : Z * Z :=
  let latitude := clip latitude MinLatitude MaxLatitude in
  let longitude := clip longitude MinLongitude MaxLongitude in
  let x := f64_div (f64_add longitude (f64_of_Z 180)) (f64_of_Z 360) in
  let sinLatitude := Sin (f64_div (f64_mul latitude Pi) (f64_of_Z 180)) in
  let one := f64_of_Z 1 in
  let y := f64_sub (lit "0.5")
             (f64_div (Log (f64_div (f64_add one sinLatitude) (f64_sub one sinLatitude)))
                (lit "12.566370614359172")) in
  let mapSize := f64_of_Z (MapSize levelOfDetail) in
  let pixel v := int64_of_f64 (clip (f64_add (f64_mul v mapSize) (lit "0.5")) f64_zero (f64_sub mapSize one)) in
  (pixel x, pixel y).

Definition PixelXYToLatLong (pixelX pixelY : Z) (levelOfDetail : Z) : float64 * float64 :=
  let mapSize := f64_of_Z (MapSize levelOfDetail) in
  let part p := f64_div (clip (f64_of_Z p) f64_zero (f64_sub mapSize (f64_of_Z 1))) mapSize in
  let x := f64_sub (part pixelX) (lit "0.5") in
  let y := f64_sub (lit "0.5") (part pixelY) in
  let exponent := f64_mul (f64_mul (f64_mul (lit "-1") y) (f64_of_Z 2)) Pi in
  (f64_sub (f64_of_Z 90) (f64_div (f64_mul (f64_of_Z 360) (Atan (Exp exponent))) Pi),
   f64_mul (f64_of_Z 360) x).

Definition PixelXYToTileXY (pixelX pixelY : Z) : Z * Z := (Z.shiftr pixelX 8, Z.shiftr pixelY 8).
Definition TileXYToPixelXY (tileX tileY : Z) : Z * Z := (shl tileX 8, shl tileY 8).

(** [TileXYToBounds]: minLat, minLon, maxLat, maxLon. *)
Definition TileXYToBounds (tileX tileY : Z) (levelOfDetail : Z) : float64 * float64 * float64 * float64 :=
  let size := shl 1 levelOfDetail in
  let '(pixelX, pixelY) := TileXYToPixelXY tileX tileY in
  let '(maxLat, minLon) := PixelXYToLatLong pixelX pixelY levelOfDetail in
  let '(pixelX, pixelY) := TileXYToPixelXY (int64 (tileX + 1)) (int64 (tileY + 1)) in
  let '(minLat, maxLon) := PixelXYToLatLong pixelX pixelY levelOfDetail in
  let minLon := if (size =? 0) || (Z.rem tileX size =? 0) then MinLongitude else minLon in
  let maxLon := if (size =? 0) || (Z.rem tileX size =? int64 (size - 1)) then MaxLongitude else maxLon in
  let maxLat := if tileY <=? 0 then MaxLatitude else maxLat in
  let minLat := if int64 (size - 1) <=? tileY then MinLatitude else minLat in
  (minLat, minLon, maxLat, maxLon).
End projection.

(** ** Quad keys *)

(** [partForTileXY], with [mask = 1 << (levelOfDetail - 1)]. *)
Definition partForTileXY (tileX tileY : Z) (levelOfDetail : Z) : Z :=
  let mask := shl 1 (levelOfDetail - 1) in
  if negb (Z.land tileX mask =? 0) then if negb (Z.land tileY mask =? 0) then 3 else 1
  else if negb (Z.land tileY mask =? 0) then 2 else 0.

(** The digits from level [i] down. *)
Fixpoint quadLoop (i : nat) (tileX tileY : Z) : string :=
  match i with
  | O => ""
  | S k =>
    let mask := shl 1 (Z.of_nat k) in
    let c := if negb (Z.land tileX mask =? 0) then
               if negb (Z.land tileY mask =? 0) then "3"%char else "1"%char
             else if negb (Z.land tileY mask =? 0) then "2"%char else "0"%char in
    String c (quadLoop k tileX tileY)
  end.
Definition TileXYToQuadKey (tileX tileY : Z) (levelOfDetail : nat) : string :=
  quadLoop levelOfDetail tileX tileY.

Fixpoint quadRead (tileX tileY : Z) (quadKey : string) : result string (Z * Z) :=
  match quadKey with
  | "" => Ok (tileX, tileY)
  | String c rest =>
    let mask := shl 1 (Z.of_nat (String.length rest)) in
    if (c =? "0")%char then quadRead tileX tileY rest
    else if (c =? "1")%char then quadRead (Z.lor tileX mask) tileY rest
    else if (c =? "2")%char then quadRead tileX (Z.lor tileY mask) rest
    else if (c =? "3")%char then quadRead (Z.lor tileX mask) (Z.lor tileY mask) rest
    else Err "Invalid QuadKey digit sequence."
  end.
Definition QuadKeyToTileXY (quadKey : string) : result string (Z * Z * Z) :=
  let? (x, y) := quadRead 0 0 quadKey in Ok (x, y, Z.of_nat (String.length quadKey)).

Definition quadDigit (c : ascii) : bool := in_range 0x30 0x33 c.

(** [QuadKeyToBounds] and [LatLongToQuad]. *)
Definition QuadKeyToBounds `{MathFns} (quadkey : string) : result string (float64 * float64 * float64 * float64) :=
  if negb (forallb quadDigit (bytes_of quadkey)) then Err "invalid quadkey"
  else let? (x, y, level) := QuadKeyToTileXY quadkey in Ok (TileXYToBounds x y level).

Fixpoint quadParts {S} (i : nat) (tileX tileY : Z) (iterator : S -> Z -> S * bool) (s : S) : S :=
  match i with
  | O => s
  | Datatypes.S k =>
    let '(s, more) := iterator s (partForTileXY tileX tileY (Z.of_nat i)) in
    if more then quadParts k tileX tileY iterator s else s
  end.
Definition LatLongToQuad `{MathFns} {S} (latitude longitude : float64) (levelOfDetail : nat)
    (iterator : S -> Z -> S * bool) (s : S) : S :=
  let '(pixelX, pixelY) := LatLongToPixelXY latitude longitude (Z.of_nat levelOfDetail) in
  let '(tileX, tileY) := PixelXYToTileXY pixelX pixelY in
  quadParts levelOfDetail tileX tileY iterator s.

(** ** Round trips *)

Lemma shl_1 k : (k < 63)%nat -> shl 1 (Z.of_nat k) = 2 ^ Z.of_nat k.
Proof.
  intros Hk. unfold shl. rewrite Z.shiftl_1_l. apply int64_id. unfold is_int64.
  pose proof (Z.pow_lt_mono_r 2 (Z.of_nat k) 63). pose proof (Z.pow_pos_nonneg 2 (Z.of_nat k)). lia.
Qed.

Lemma land_pow2 x k : 0 <= k -> (Z.land x (2 ^ k) =? 0) = negb (Z.testbit x k).
Proof.
  intros Hk. destruct (Z.testbit x k) eqn:E; cbn.
  - apply Z.eqb_neq. intros H0. apply (f_equal (fun z => Z.testbit z k)) in H0.
    rewrite Z.land_spec, Z.pow2_bits_true, E, Z.bits_0 in H0 by done. done.
  - apply Z.eqb_eq, Z.bits_inj'. intros n Hn. rewrite Z.land_spec, Z.bits_0.
    destruct (Z.eq_dec k n) as [->|]; [by rewrite E|]. by rewrite Z.pow2_bits_false, andb_false_r.
Qed.

(** The lower bits of a number, one more at a time. *)
Lemma low_bits x n :
  x mod 2 ^ Z.of_nat (S n) = Z.lor (if Z.testbit x (Z.of_nat n) then 2 ^ Z.of_nat n else 0) (x mod 2 ^ Z.of_nat n).
Proof.
  apply Z.bits_inj'. intros m Hm. rewrite Z.lor_spec.
  destruct (Z.lt_ge_cases m (Z.of_nat n)) as [Hlt|Hge].
  - rewrite !Z.mod_pow2_bits_low by lia. destruct (Z.testbit x (Z.of_nat n)).
    + by rewrite Z.pow2_bits_false by lia.
    + by rewrite Z.bits_0.
  - rewrite (Z.mod_pow2_bits_high x (Z.of_nat n)) by lia. rewrite orb_false_r.
    destruct (Z.eq_dec m (Z.of_nat n)) as [->|].
    + rewrite Z.mod_pow2_bits_low by lia. destruct (Z.testbit x (Z.of_nat n)) eqn:E.
      * by rewrite Z.pow2_bits_true.
      * by rewrite Z.bits_0.
    + rewrite Z.mod_pow2_bits_high by lia. destruct (Z.testbit x (Z.of_nat n)).
      * by rewrite Z.pow2_bits_false by lia.
      * by rewrite Z.bits_0.
Qed.

Lemma quadLoop_length n x y : String.length (quadLoop n x y) = n.
Proof. induction n as [|n IH]; [done|]. cbn. by rewrite IH. Qed.

Lemma quadRead_quadLoop n x y ax ay :
  (n <= 63)%nat ->
  quadRead ax ay (quadLoop n x y) = Ok (Z.lor ax (x mod 2 ^ Z.of_nat n), Z.lor ay (y mod 2 ^ Z.of_nat n)).
Proof.
  revert ax ay. induction n as [|n IH]; intros ax ay Hn.
  { cbn. change (2 ^ 0) with 1. by rewrite !Z.mod_1_r, !Z.lor_0_r. }
  cbn [quadLoop quadRead]. rewrite quadLoop_length, shl_1 by lia. rewrite !land_pow2 by lia.
  rewrite !negb_involutive, (low_bits x), (low_bits y).
  destruct (Z.testbit x (Z.of_nat n)), (Z.testbit y (Z.of_nat n)); cbn [Ascii.eqb Bool.eqb];
    rewrite IH by lia; by rewrite ?Z.lor_0_l, ?Z.lor_assoc.
Qed.

Lemma quadLoop_low n x y x' y' :
  (n <= 63)%nat -> (forall k, (k < n)%nat -> Z.testbit x (Z.of_nat k) = Z.testbit x' (Z.of_nat k)) ->
  (forall k, (k < n)%nat -> Z.testbit y (Z.of_nat k) = Z.testbit y' (Z.of_nat k)) ->
  quadLoop n x y = quadLoop n x' y'.
Proof.
  induction n as [|n IH]; intros Hn Hx Hy; [done|]. cbn [quadLoop]. rewrite shl_1 by lia.
  rewrite !land_pow2 by lia. rewrite Hx, Hy, IH by (intros; auto; lia). done.
Qed.

(** A bit put on top of smaller bits. *)
Definition top (b : bool) (n : nat) (x : Z) : Z := Z.lor (if b then 2 ^ Z.of_nat n else 0) x.

Lemma top_bits b n x :
  0 <= x < 2 ^ Z.of_nat n ->
  0 <= top b n x < 2 ^ Z.of_nat (S n) /\ Z.testbit (top b n x) (Z.of_nat n) = b /\
  forall k, (k < n)%nat -> Z.testbit (top b n x) (Z.of_nat k) = Z.testbit x (Z.of_nat k).
Proof.
  intros Hx. unfold top. assert (Z.testbit x (Z.of_nat n) = false) as Hb.
  { rewrite <- (Z.mod_small x (2 ^ Z.of_nat n)) by done. apply Z.mod_pow2_bits_high. lia. }
  split; [|split].
  - replace (Z.lor _ x) with (x mod 2 ^ Z.of_nat n + (if b then 2 ^ Z.of_nat n else 0)).
    { rewrite Z.mod_small by done. rewrite Nat2Z.inj_succ, Z.pow_succ_r by lia. destruct b; lia. }
    rewrite Z.mod_small by done. rewrite Z.lor_comm. destruct b; [|by rewrite Z.lor_0_r, Z.add_0_r].
    rewrite Z.add_nocarry_lxor, Z.lxor_lor; [done|..]; apply Z.eqb_eq; rewrite land_pow2 by lia; by rewrite Hb.
  - rewrite Z.lor_spec, Hb, orb_false_r. destruct b; [apply Z.pow2_bits_true; lia|apply Z.bits_0].
  - intros k Hk. rewrite Z.lor_spec. destruct b; [by rewrite Z.pow2_bits_false by lia|by rewrite Z.bits_0].
Qed.

Lemma quadRead_digits key :
  (String.length key <= 63)%nat -> forallb quadDigit (bytes_of key) = true ->
  let n := String.length key in
  exists x y, 0 <= x < 2 ^ Z.of_nat n /\ 0 <= y < 2 ^ Z.of_nat n /\
    (forall ax ay, quadRead ax ay key = Ok (Z.lor ax x, Z.lor ay y)) /\ quadLoop n x y = key.
Proof.
  induction key as [|c key IH]; intros Hn Hd n.
  { exists 0, 0. cbn. split_and!; try lia; [|done]. intros. by rewrite !Z.lor_0_r. }
  subst n. cbn in Hn, Hd. apply andb_true_iff in Hd as [Hc Hd].
  destruct IH as (x & y & Hx & Hy & Hr & Hl); [lia|done|].
  assert (exists bx by_ : bool, c = (if bx then if by_ then "3" else "1" else if by_ then "2" else "0")%char)
    as (bx & by_ & Ec).
  { unfold quadDigit, in_range in Hc. boolify. destruct Hc as [H1 H2].
    assert (code c = 0x30 \/ code c = 0x31 \/ code c = 0x32 \/ code c = 0x33) as [E|[E|[E|E]]] by lia;
      rewrite <- (chr_code c), E; [by exists false, false|by exists true, false|
                                   by exists false, true|by exists true, true]. }
  destruct (top_bits bx (String.length key) x Hx) as (Tx & Bx & Lx).
  destruct (top_bits by_ (String.length key) y Hy) as (Ty & By & Ly).
  exists (top bx (String.length key) x), (top by_ (String.length key) y). split; [done|]. split; [done|]. split.
  - intros ax ay. cbn [quadRead]. rewrite shl_1 by lia. unfold top. subst c.
    destruct bx, by_; cbn [Ascii.eqb Bool.eqb]; rewrite Hr; by rewrite ?Z.lor_0_l, ?Z.lor_assoc.
  - cbn [quadLoop String.length]. rewrite shl_1 by lia. rewrite !land_pow2, !negb_involutive by lia.
    rewrite Bx, By, (quadLoop_low _ _ _ x y) by (done || lia). rewrite Hl. by subst c; destruct bx, by_.
Qed.

(** A tile is the tile of its quad key, at every level of detail a tile coordinate
    can have, and the tile of a quad key has that key. *)
Theorem quadkey_roundtrip :
  (forall x y n, (n <= 63)%nat -> 0 <= x < 2 ^ Z.of_nat n -> 0 <= y < 2 ^ Z.of_nat n ->
    QuadKeyToTileXY (TileXYToQuadKey x y n) = Ok (x, y, Z.of_nat n)) /\
  (forall key, (String.length key <= 63)%nat -> forallb quadDigit (bytes_of key) = true ->
    exists x y, QuadKeyToTileXY key = Ok (x, y, Z.of_nat (String.length key)) /\
      TileXYToQuadKey x y (String.length key) = key).
Proof.
  split.
  - intros x y n Hn Hx Hy. unfold QuadKeyToTileXY, TileXYToQuadKey.
    rewrite quadRead_quadLoop, quadLoop_length by done. cbn [rbind].
    by rewrite !Z.mod_small, !Z.lor_0_l by done.
  - intros key Hn Hd. destruct (quadRead_digits key Hn Hd) as (x & y & _ & _ & Hr & Hl).
    exists x, y. unfold QuadKeyToTileXY. rewrite Hr. by rewrite !Z.lor_0_l.
Qed.

(** The parts a quad walk reports are the digits of the key. *)
Lemma quadLoop_part n x y :
  (n < 63)%nat ->
  quadLoop (S n) x y = String (chr (0x30 + partForTileXY x y (Z.of_nat (S n)))) (quadLoop n x y).
Proof.
  intros Hn. unfold partForTileXY. cbn [quadLoop]. replace (Z.of_nat (S n) - 1) with (Z.of_nat n) by lia.
  by repeat case_match.
Qed.

(** ** Bounds of tiles *)

Section tiles.
Context `{MathFns}.

Lemma size_pos (l : nat) : (l <= 62)%nat -> shl 1 (Z.of_nat l) = 2 ^ Z.of_nat l /\ 0 < 2 ^ Z.of_nat l < 2 ^ 63.
Proof.
  intros Hl. split; [apply shl_1; lia|]. pose proof (Z.pow_lt_mono_r 2 (Z.of_nat l) 63).
  pose proof (Z.pow_pos_nonneg 2 (Z.of_nat l)). lia.
Qed.

(** The tiles of a level cover the map without gaps: a tile ends where its right and
    its lower neighbour begin, and the outermost tiles end at the limits of the map. *)
Theorem tiles_seamless x y (l : nat) :
  (l <= 62)%nat -> 0 <= x < 2 ^ Z.of_nat l -> 0 <= y < 2 ^ Z.of_nat l ->
  let '(minLat, minLon, maxLat, maxLon) := TileXYToBounds x y (Z.of_nat l) in
  let '(_, minLon', _, _) := TileXYToBounds (x + 1) y (Z.of_nat l) in
  let '(_, _, maxLat', _) := TileXYToBounds x (y + 1) (Z.of_nat l) in
  maxLon = (if x + 1 =? 2 ^ Z.of_nat l then MaxLongitude else minLon') /\
  minLat = (if y + 1 =? 2 ^ Z.of_nat l then MinLatitude else maxLat') /\
  (x = 0 -> minLon = MinLongitude) /\ (y = 0 -> maxLat = MaxLatitude).
Proof.
  intros Hl Hx Hy. destruct (size_pos l Hl) as [Hs Hp]. unfold TileXYToBounds, TileXYToPixelXY, PixelXYToLatLong.
  rewrite Hs. set (n := 2 ^ Z.of_nat l) in *. cbv zeta. rewrite !(int64_id (_ + 1)) by (unfold is_int64; lia).
  rewrite (int64_id (n - 1)) by (unfold is_int64; lia). rewrite (Z.rem_small x n) by lia.
  replace (n =? 0) with false by (symmetry; apply Z.eqb_neq; lia). cbn [orb].
  replace (x =? n - 1) with (x + 1 =? n) by (destruct (Z.eqb_spec (x + 1) n), (Z.eqb_spec x (n - 1)); lia || done).
  replace (n - 1 <=? y) with (y + 1 =? n)
    by (destruct (Z.eqb_spec (y + 1) n), (Z.leb_spec (n - 1) y); lia || done).
  split; [|split; [|split]].
  - destruct (Z.eqb_spec (x + 1) n); [done|]. rewrite Z.rem_small by lia.
    by rewrite (proj2 (Z.eqb_neq _ _)) by lia.
  - destruct (Z.eqb_spec (y + 1) n); [done|]. by rewrite (proj2 (Z.leb_gt _ _)) by lia.
  - by intros ->.
  - by intros ->.
Qed.
End tiles.

Module BingExample.
#[global] Instance fns : MathFns := {| Sin := fun x => x; Log := fun x => x; Atan := fun x => x; Exp := fun x => x |}.

Lemma quadkey_roundtrip_witness :
  QuadKeyToTileXY (TileXYToQuadKey 3 5 3) = Ok (3, 5, 3) /\ TileXYToQuadKey 3 5 3 = "213".
Proof. split; [apply (proj1 quadkey_roundtrip 3 5 3%nat); lia|by vm_compute]. Defined.

Lemma tiles_seamless_witness :
  let '(_, _, _, maxLon) := TileXYToBounds 0 0 1 in
  let '(_, minLon', _, _) := TileXYToBounds 1 0 1 in maxLon = minLon'.
Proof. pose proof (tiles_seamless 0 0 1) as Ht. cbn -[TileXYToBounds] in Ht. apply Ht; lia. Defined.
End BingExample.
