(* ===== verification/Spinlock.v ===== *)
(** * The spinning read-write lock ([rwspinlock] of [src/internal/legacy/server/server.go])

    Goroutines that lock, hold and unlock, interleaved at every atomic operation. *)

From Stdlib Require Import ZArith Lia Bool.
From stdpp Require Import base list option relations.
From S2P Require Import Prelude GoStd.

Local Open Scope Z_scope.

(** [atomic.Int32] arithmetic. *)
Definition int32 (z : Z) : Z := (z + 2 ^ 31) mod 2 ^ 32 - 2 ^ 31.

Lemma int32_id z : - 2 ^ 31 <= z < 2 ^ 31 -> int32 z = z.
Proof. intros Hz. unfold int32. rewrite Z.mod_small by lia. lia. Qed.

(** Where a goroutine is: not using the lock, in the loop of [RLock] or [Lock] before the
    load ([None]) or with the loaded state, holding the lock, or past an unlock that
    reported a failure. *)
Inductive thread := Idle | RSpin (loaded : option Z) | WSpin (loaded : option Z) | Reading | Writing | Failed.

#[global] Instance thread_eq_dec : EqDecision thread.
Proof. solve_decision. Defined.

Record lock := mkLock { state : Z; threads : list thread }.

(** One atomic operation of a goroutine, with the choices it has; [None] when it has none. *)
Definition RLock_step (v : Z) (loaded : option Z) : Z * thread :=
  match loaded with
  | None => (v, RSpin (Some v))
  | Some w => if (0 <=? w) && (v =? w) then (int32 (w + 1), Reading) else (v, RSpin None)
  end.
Definition Lock_step (v : Z) (loaded : option Z) : Z * thread :=
  match loaded with
  | None => (v, WSpin (Some v))
  | Some w => if (w =? 0) && (v =? w) then (-1, Writing) else (v, WSpin None)
  end.
Definition RUnlock (v : Z) : Z * thread := let v := int32 (v - 1) in (v, if v <? 0 then Failed else Idle).
Definition Unlock (v : Z) : Z * thread := let v := int32 (v + 1) in (v, if 0 <? v then Failed else Idle).

Inductive moves (v : Z) : thread -> Z * thread -> Prop :=
  | m_rbegin : moves v Idle (v, RSpin None)
  | m_wbegin : moves v Idle (v, WSpin None)
  | m_rlock l : moves v (RSpin l) (RLock_step v l)
  | m_lock l : moves v (WSpin l) (Lock_step v l)
  | m_runlock : moves v Reading (RUnlock v)
  | m_unlock : moves v Writing (Unlock v).

Inductive step : lock -> lock -> Prop :=
  | s_move i t v' t' k : threads k !! i = Some t -> moves (state k) t (v', t') ->
      step k (mkLock v' (<[i := t']> (threads k))).

(** ** Mutual exclusion *)

Definition reading (t : thread) : bool := match t with Reading => true | _ => false end.
Definition writing (t : thread) : bool := match t with Writing => true | _ => false end.
Definition failed (t : thread) : bool := match t with Failed => true | _ => false end.
Definition count (p : thread -> bool) (l : list thread) : Z := Z.of_nat (length (filter (fun t => p t = true) l)).

Lemma count_cons p x l : count p (x :: l) = Z.b2z (p x) + count p l.
Proof. unfold count. rewrite filter_cons. destruct (p x); [rewrite decide_True by done|rewrite decide_False by done]; cbn [length Z.b2z]; lia. Qed.

Lemma count_insert p l i x y : l !! i = Some x -> count p (<[i := y]> l) = count p l - Z.b2z (p x) + Z.b2z (p y).
Proof.
  revert i. induction l as [|z l IH]; intros [|i] E; cbn in E; try done.
  - injection E as ->. cbn. rewrite !count_cons. lia.
  - change (<[S i := y]> (z :: l)) with (z :: <[i := y]> l). rewrite !count_cons, (IH _ E). lia.
Qed.

Lemma count_bounds p l : 0 <= count p l <= Z.of_nat (length l).
Proof. unfold count. pose proof (length_filter (fun t => p t = true) l). lia. Qed.

Lemma count_lookup p l i x : l !! i = Some x -> Z.b2z (p x) <= count p l <= Z.of_nat (length l) - 1 + Z.b2z (p x).
Proof.
  revert i. induction l as [|z l IH]; intros [|i] E; cbn in E; try done; rewrite count_cons; cbn [length].
  - injection E as ->. pose proof (count_bounds p l). lia.
  - specialize (IH _ E). destruct (p z); cbn; lia.
Qed.

Record lock_ok (k : lock) : Prop := {
  lk_size : Z.of_nat (length (threads k)) < 2 ^ 31;
  lk_failed : count failed (threads k) = 0;
  lk_state : (count writing (threads k) = 0 /\ state k = count reading (threads k)) \/
             (count writing (threads k) = 1 /\ count reading (threads k) = 0 /\ state k = -1);
}.

(** A move of one goroutine, by what it does to the counts. *)
Lemma moves_counts v t v' t' r w :
  moves v t (v', t') -> Z.b2z (reading t) <= r < 2 ^ 31 - 1 + Z.b2z (reading t) -> Z.b2z (writing t) <= w ->
  (w = 0 /\ v = r) \/ (w = 1 /\ r = 0 /\ v = -1) ->
  let r' := r - Z.b2z (reading t) + Z.b2z (reading t') in
  let w' := w - Z.b2z (writing t) + Z.b2z (writing t') in
  failed t' = false /\ ((w' = 0 /\ v' = r') \/ (w' = 1 /\ r' = 0 /\ v' = -1)).
Proof.
  intros Hm Hr Hw Hst. remember (v', t') as q eqn:E. destruct Hm as [| |l|l| |]; cbn [reading writing Z.b2z] in *; cbv zeta.
  - injection E as <- <-. cbn. lia.
  - injection E as <- <-. cbn. lia.
  - destruct l as [x|]; cbn in E; [|injection E as <- <-; cbn; lia].
    destruct (Z.leb_spec 0 x), (Z.eqb_spec v x); cbn in E; injection E as <- <-; cbn; try lia.
    rewrite int32_id by lia. lia.
  - destruct l as [x|]; cbn in E; [|injection E as <- <-; cbn; lia].
    destruct (Z.eqb_spec x 0), (Z.eqb_spec v x); cbn in E; injection E as <- <-; cbn; lia.
  - unfold RUnlock in E. rewrite int32_id in E by lia.
    destruct (Z.ltb_spec (v - 1) 0); injection E as <- <-; cbn; lia.
  - unfold Unlock in E. rewrite int32_id in E by lia.
    destruct (Z.ltb_spec 0 (v + 1)); injection E as <- <-; cbn; lia.
Qed.

Lemma step_ok k k' : step k k' -> lock_ok k -> lock_ok k'.
Proof.
  intros [i t v' t' k0 Ei Hm] [Hs Hf Hst].
  pose proof (count_lookup reading _ _ _ Ei). pose proof (count_lookup writing _ _ _ Ei).
  pose proof (count_lookup failed _ _ _ Ei).
  destruct (moves_counts _ _ _ _ (count reading (threads k0)) (count writing (threads k0)) Hm ltac:(lia) ltac:(lia) Hst) as [E1 E2].
  split; cbn [threads state]; rewrite ?length_insert, ?(count_insert _ _ _ _ _ Ei); [done| |done].
  rewrite E1. destruct (failed t); cbn in *; lia.
Qed.

(** Goroutines that do not use the lock yet. *)
Definition unlocked (n : nat) : lock := mkLock 0 (replicate n Idle).

Lemma unlocked_ok n : Z.of_nat n < 2 ^ 31 -> lock_ok (unlocked n).
Proof.
  intros Hn. assert (forall p, p Idle = false -> count p (replicate n Idle) = 0) as Hc.
  { intros p Hp. induction n as [|n IH]; [done|]. cbn. rewrite count_cons, IH by lia. by rewrite Hp. }
  split; cbn; [by rewrite length_replicate|by apply Hc|left; split; [by apply Hc|by rewrite Hc]].
Qed.

Lemma reachable_lock_ok n k : Z.of_nat n < 2 ^ 31 -> rtc step (unlocked n) k -> lock_ok k.
Proof.
  intros Hn Hr. apply unlocked_ok in Hn. revert Hn.
  induction Hr as [|x y z H1 Hr IH]; [done|]. intros Hx. eapply IH, step_ok; eauto.
Qed.

(** C24. The spinning lock excludes: with fewer than 2^31 goroutines that unlock only what
    they hold, in any interleaving of their loads and compare-and-swaps, there is never a
    writer together with a reader or with another writer, no unlock reports a failure, and
    the counter is the number of readers, or -1 under a writer. *)
Theorem rwspinlock_excludes n k :
  Z.of_nat n < 2 ^ 31 -> rtc step (unlocked n) k ->
  count failed (threads k) = 0 /\
  ((count writing (threads k) = 0 /\ state k = count reading (threads k)) \/
   (count writing (threads k) = 1 /\ count reading (threads k) = 0 /\ state k = -1)).
Proof.
  intros Hn Hr. by destruct (reachable_lock_ok n k Hn Hr).
Qed.

(** ** Progress *)

Definition holds (t : thread) : bool := reading t || writing t.

Lemma free_state k : lock_ok k -> (forall t, t ∈ threads k -> holds t = false) -> state k = 0.
Proof.
  intros Hk Hh. assert (forall p, (forall t, holds t = false -> p t = false) -> count p (threads k) = 0) as Hc.
  { intros p Hp. unfold count. rewrite filter_none; [done|]. apply Forall_forall. intros t Ht.
    rewrite Hp by (by apply Hh). done. }
  destruct (lk_state _ Hk) as [[_ ->]|[E _]]; [by apply Hc; intros []|].
  rewrite Hc in E; [done|by intros []].
Qed.

(** The next atomic operation of a goroutine that spins; others do nothing here. *)
Definition spin (i : nat) (k : lock) : lock :=
  match threads k !! i with
  | Some (RSpin l) => let '(v, t) := RLock_step (state k) l in mkLock v (<[i := t]> (threads k))
  | Some (WSpin l) => let '(v, t) := Lock_step (state k) l in mkLock v (<[i := t]> (threads k))
  | _ => k
  end.

Definition spinning (w : bool) (l : option Z) : thread := if w then WSpin l else RSpin l.
Definition holding (w : bool) : thread := if w then Writing else Reading.

(** The operations left when the lock stays free: a swap, a load and a swap, or a swap that
    fails first. *)
Definition left_ (l : option Z) : nat :=
  match l with Some x => if x =? 0 then 1%nat else 3%nat | None => 2%nat end.

Lemma spin_step i k w l : threads k !! i = Some (spinning w l) -> step k (spin i k).
Proof.
  intros Hi. unfold spin. rewrite Hi. destruct w; cbn.
  - pose proof (m_lock (state k) l) as M. destruct (Lock_step (state k) l) as [v t]. by econstructor.
  - pose proof (m_rlock (state k) l) as M. destruct (RLock_step (state k) l) as [v t]. by econstructor.
Qed.

(** One operation on the free lock takes it or leaves one operation less. *)
Lemma spin_free i k w l :
  state k = 0 -> threads k !! i = Some (spinning w l) ->
  (left_ l = 1%nat /\ threads (spin i k) !! i = Some (holding w)) \/
  (exists l', S (left_ l') = left_ l /\ state (spin i k) = 0 /\ threads (spin i k) !! i = Some (spinning w l')).
Proof.
  intros H0 Hi. assert (i < length (threads k))%nat as Hl by by eapply lookup_lt_Some.
  unfold spin. rewrite Hi, H0. unfold left_. destruct w, l as [x|]; cbn;
    try (destruct (Z.eqb_spec x 0) as [->|Hx]; cbn);
    try (left; split; [done|by apply list_lookup_insert_eq]); right.
  3: destruct x; [done| |]; rewrite ?andb_false_r.
  1, 3, 4: exists None; split; [done|]; split; [done|]; by apply list_lookup_insert_eq.
  all: exists (Some 0); split; [done|]; split; [done|]; by apply list_lookup_insert_eq.
Qed.

Lemma spin_alone i k w l :
  state k = 0 -> threads k !! i = Some (spinning w l) ->
  let k' := Nat.iter (left_ l) (spin i) k in
  nsteps step (left_ l) k k' /\ threads k' !! i = Some (holding w).
Proof.
  remember (left_ l) as n eqn:En. revert k l En. induction n as [|n IH]; intros k l En H0 Hi.
  { by destruct l as [x|]; cbn in En; [destruct (x =? 0)|]. }
  cbv zeta. rewrite Nat.iter_succ_r. pose proof (spin_step i k w l Hi) as Hs.
  destruct (spin_free i k w l H0 Hi) as [[E Ht]|(l' & El & E0 & Ht)].
  - rewrite <- En in E. injection E as ->. split; [|done]. by apply nsteps_once.
  - destruct (IH (spin i k) l') as [Hn Hh]; [lia|done..|]. split; [by eapply nsteps_l|done].
Qed.

(** Any run in which nobody else takes the lock, with the number of operations of
    goroutine [i] while it spins. *)
Inductive contends (i : nat) : nat -> lock -> lock -> Prop :=
  | c_end k : contends i 0 k k
  | c_own m k k' : contends i m (spin i k) k' -> contends i (S m) k k'
  | c_other m j t v' t' k k' : j <> i -> threads k !! j = Some t -> moves (state k) t (v', t') ->
      holds t = false -> holds t' = false ->
      contends i m (mkLock v' (<[j := t']> (threads k))) k' -> contends i m k k'.

(** Goroutines that neither hold nor get the lock leave it as it is. *)
Lemma idle_moves v t v' t' : moves v t (v', t') -> holds t = false -> holds t' = false -> v' = v.
Proof.
  intros Hm Ht Ht'. inversion Hm; subst; try done.
  - destruct l as [w|]; cbn in *; [|by simplify_eq]. by destruct (_ && _); simplify_eq.
  - destruct l as [w|]; cbn in *; [|by simplify_eq]. by destruct (_ && _); simplify_eq.
Qed.

Lemma contends_bound i m k k' w l l' :
  contends i m k k' -> state k = 0 -> threads k !! i = Some (spinning w l) ->
  threads k' !! i = Some (spinning w l') -> (m + left_ l' <= left_ l)%nat.
Proof.
  intros Hc. revert l. induction Hc as [k|m k k' Hc IH|m j t v' t' k k' Hj Ht Hm H1 H2 Hc IH]; intros l H0 Hi Hi'.
  - rewrite Hi in Hi'. destruct w; injection Hi' as ->; lia.
  - destruct (spin_free i k w l H0 Hi) as [[_ Hh]|(l2 & El & E0 & Hs)].
    + exfalso. clear IH. assert (forall n a b, contends i n a b -> threads a !! i = Some (holding w) ->
        threads b !! i = Some (holding w)) as Hkeep.
      { clear. intros n a b Hab. induction Hab as [|n a b _ IH|n j t v' t' a b Hj _ _ _ _ _ IH]; [done| |].
        - intros Ha. apply IH. unfold spin. rewrite Ha. by destruct w.
        - intros Ha. apply IH. cbn. by rewrite list_lookup_insert_ne. }
      rewrite (Hkeep _ _ _ Hc Hh) in Hi'. by destruct w.
    + specialize (IH l2 E0 Hs Hi'). lia.
  - apply IH; [cbn; by rewrite (idle_moves _ _ _ _ Hm H1 H2)|cbn; by rewrite list_lookup_insert_ne|done].
Qed.

(** C25. The spinning lock is not stuck: whenever nobody holds it, a goroutine that spins
    for it, for reading or for writing and whatever it loaded before, gets it by its own
    next atomic operations, at most three of them, if it runs alone; and also if the others
    go on in between, as long as none of them gets the lock: it does no more than two
    operations and still spins. *)
Theorem rwspinlock_progress n k i w l :
  Z.of_nat n < 2 ^ 31 -> rtc step (unlocked n) k -> (forall t, t ∈ threads k -> holds t = false) ->
  threads k !! i = Some (spinning w l) ->
  (exists m, let k' := Nat.iter m (spin i) k in
    (m <= 3)%nat /\ nsteps step m k k' /\ threads k' !! i = Some (holding w)) /\
  (forall m k' l', contends i m k k' -> threads k' !! i = Some (spinning w l') -> (m <= 2)%nat).
Proof.
  intros Hn Hr Hh Hi. pose proof (free_state k (reachable_lock_ok n k Hn Hr) Hh) as H0.
  assert (forall x, (1 <= left_ x <= 3)%nat) as Hl by (intros [x|]; cbn; [destruct (x =? 0)|]; lia).
  split.
  - exists (left_ l). cbv zeta. split; [apply Hl|by apply spin_alone].
  - intros m k' l' Hc Hi'. pose proof (contends_bound i m k k' w l l' Hc H0 Hi Hi').
    pose proof (Hl l). pose proof (Hl l'). lia.
Qed.

(** ** Examples *)

Module SpinExample.
(** Two goroutines: one reads, one spins for writing with an old value. *)
Definition busy : lock := mkLock 1 [Reading; WSpin (Some 0)].

Lemma busy_reachable : rtc step (unlocked 2) busy.
Proof.
  eapply rtc_l; [apply (s_move 1 Idle 0 (WSpin None)); [done|constructor]|]. cbn.
  eapply rtc_l; [apply (s_move 1 (WSpin None) 0 (WSpin (Some 0))); [done|apply (m_lock 0 None)]|]. cbn.
  eapply rtc_l; [apply (s_move 0 Idle 0 (RSpin None)); [done|constructor]|]. cbn.
  eapply rtc_l; [apply (s_move 0 (RSpin None) 0 (RSpin (Some 0))); [done|apply (m_rlock 0 None)]|]. cbn.
  eapply rtc_l; [apply (s_move 0 (RSpin (Some 0)) 1 Reading); [done|apply (m_rlock 0 (Some 0))]|]. apply rtc_refl.
Qed.

Lemma rwspinlock_excludes_witness : state busy = count reading (threads busy).
Proof. destruct (rwspinlock_excludes 2 busy) as [_ [[_ E]|[E _]]]; [lia|apply busy_reachable|exact E|discriminate E]. Defined.

(** Nobody holds the lock, and one goroutine spins with the value it saw under a reader. *)
Definition late : lock := mkLock 0 [Idle; WSpin (Some 1)].

Lemma late_reachable : rtc step (unlocked 2) late.
Proof.
  eapply rtc_l; [apply (s_move 0 Idle 0 (RSpin None)); [done|constructor]|]. cbn.
  eapply rtc_l; [apply (s_move 0 (RSpin None) 0 (RSpin (Some 0))); [done|apply (m_rlock 0 None)]|]. cbn.
  eapply rtc_l; [apply (s_move 0 (RSpin (Some 0)) 1 Reading); [done|apply (m_rlock 0 (Some 0))]|]. cbn.
  eapply rtc_l; [apply (s_move 1 Idle 1 (WSpin None)); [done|constructor]|]. cbn.
  eapply rtc_l; [apply (s_move 1 (WSpin None) 1 (WSpin (Some 1))); [done|apply (m_lock 1 None)]|]. cbn.
  eapply rtc_l; [apply (s_move 0 Reading 0 Idle); [done|apply (m_runlock 1)]|]. apply rtc_refl.
Qed.

Lemma rwspinlock_progress_witness :
  exists m, let k' := Nat.iter m (spin 1) late in
    (m <= 3)%nat /\ nsteps step m late k' /\ threads k' !! 1%nat = Some Writing.
Proof.
  apply (rwspinlock_progress 2 late 1 true (Some 1)); [lia|apply late_reachable| |reflexivity].
  intros t Ht. cbn in Ht. apply elem_of_cons in Ht as [->|[->|[]%not_elem_of_nil]%elem_of_cons]; reflexivity.
Defined.
End SpinExample.
