(* ===== verification/Sstring.v ===== *)
(** * Shared strings ([src/internal/legacy/sstring/sstring.go])

    Field names are stored once and referred to by number. The package state is the
    slice [strs] and the map [nums] from a string to its number; the mutex makes each
    function atomic, so each is one step on the state. *)

From Stdlib Require Import Ascii String ZArith Lia Bool.
From stdpp Require Import base list strings option.
From S2P Require Import Prelude Containers.

Local Open Scope Z_scope.

Section sstring.
Context {M : Type -> Type} `{StrMap M}.

(** The package variables. *)
Record sstrings := mkSstrings { nums : M Z; strs : list string }.

Definition sstrings_init : sstrings := mkSstrings sm_empty [].

Definition Len (st : sstrings) : Z := Z.of_nat (length (strs st)).

(** [Load]: [None] is the failure at the end of the function. *)
Definition Load (st : sstrings) (num : Z) : option string :=
  if (0 <=? num) && (num <? Len st) then strs st !! Z.to_nat num else None.

(** [Store]: the number of the string, allotting the next one to a new string. *)
Definition Store (st : sstrings) (str : string) : Z * sstrings :=
  match sm_get (nums st) str with
  | Some num => (num, st)
  | None =>
    let num := Len st in
    (num, mkSstrings (sm_set (nums st) str num) (strs st ++ [str]))
  end.

(** The two variables agree: [nums] is the inverse of [strs]. *)
Definition sstrings_ok (st : sstrings) : Prop :=
  forall s i, sm_get (nums st) s = Some i <-> Load st i = Some s.

(** [st'] knows every number of [st], with the same string. *)
Definition extends (st st' : sstrings) : Prop :=
  forall i s, Load st i = Some s -> Load st' i = Some s.

Lemma Load_lookup st i s : Load st i = Some s <-> 0 <= i /\ strs st !! Z.to_nat i = Some s.
Proof.
  unfold Load, Len. destruct ((0 <=? i) && (i <? Z.of_nat (length (strs st)))) eqn:E; boolify.
  - split; [|by intros [_ ?]]. intros ?. split; [lia|done].
  - split; [done|]. intros [H0 Hs%lookup_lt_Some]. lia.
Qed.

Lemma Load_range st i s : Load st i = Some s -> 0 <= i < Len st.
Proof. unfold Len. intros [? ?%lookup_lt_Some]%Load_lookup. lia. Qed.

#[global] Instance extends_preorder : PreOrder extends.
Proof. split; [by intros st i s|]. intros a b c H1 H2 i s Hi. by apply H2, H1. Qed.

(** The store after appending a string. *)
Lemma Load_snoc m st str i s :
  Load (mkSstrings m (strs st ++ [str])) i = Some s <->
  Load st i = Some s \/ (i = Len st /\ s = str).
Proof.
  rewrite !Load_lookup. simpl. rewrite lookup_app_Some, list_lookup_singleton_Some.
  unfold Len. naive_solver lia.
Qed.

Lemma Store_extends st s : extends st (Store st s).2.
Proof.
  intros i t Hi. unfold Store. case_match; [done|]. simpl.
  apply Load_snoc. by left.
Qed.

Lemma Store_len st s : Len (Store st s).2 <= 1 + Len st.
Proof.
  unfold Store, Len. case_match; simpl; [lia|]. rewrite length_app. simpl. lia.
Qed.

Context `{!StrMapLaws M}.

Lemma sstrings_init_ok : sstrings_ok sstrings_init.
Proof.
  intros s i. rewrite Load_lookup. unfold sstrings_init; simpl.
  by rewrite sm_get_empty, lookup_nil; naive_solver.
Qed.

Lemma Store_ok st s : sstrings_ok st -> sstrings_ok (Store st s).2.
Proof.
  intros Hok t i. unfold Store. destruct (sm_get (nums st) s) as [n|] eqn:E; [apply Hok|].
  cbn [snd nums]. rewrite Load_snoc, sm_get_set.
  destruct (String.eqb_spec s t) as [<-|Hne]; rewrite <- (Hok _ i); naive_solver.
Qed.

Lemma Load_Store st s : sstrings_ok st -> Load (Store st s).2 (Store st s).1 = Some s.
Proof.
  intros Hok. unfold Store.
  destruct (sm_get (nums st) s) as [n|] eqn:E; [by apply Hok|].
  apply Load_snoc. by right.
Qed.

(** A number names one string and a string has one number. *)
Lemma Load_inj st i j s :
  sstrings_ok st -> Load st i = Some s -> Load st j = Some s -> i = j.
Proof. intros Hok. rewrite <- !(Hok s). congruence. Qed.
End sstring.
Arguments sstrings : clear implicits.
#[export] Hint Resolve Store_ok Load_Store Store_extends : spatial.
