(* ===== verification/Field.v ===== *)
(** * Field values ([src/internal/legacy/field/field.go])

    A field is a name with a value; a value keeps its JSON kind, its text and, for a
    number, its float. [gjson] and [pretty] are imported packages: their functions are
    the operations of the class [Gjson]. *)

From Stdlib Require Import Ascii String ZArith Lia Bool SpecFloat.
From stdpp Require Import base list strings option.
From S2P Require Import Prelude GoStd Strconv.

Local Open Scope Z_scope.

(** [Kind] is a byte with the constants of [gjson.Type]. *)
Definition Kind := Z.
Definition Null : Kind := 0.
Definition False_ : Kind := 1.
Definition Number : Kind := 2.
Definition String_ : Kind := 3.
Definition True_ : Kind := 4.
Definition JSON_ : Kind := 5.

(** [gjson.Valid]; [gjson.Parse(s)] as its [Type] and [String()]; [gjson.Get(s, path)]
    likewise, [None] when the result does not exist; the literal that
    [gjson.AppendJSONString] appends; [pretty.Ugly]. *)
Class Gjson := {
  gjson_Valid : string -> bool;
  gjson_Parse : string -> Kind * string;
  gjson_Get : string -> string -> option (Kind * string);
  gjson_JSONString : string -> string;
  pretty_Ugly : string -> string;
}.

Record Value := mkValue { kind : Kind; data : string; num : float64 }.

#[global] Instance Value_eq_dec : EqDecision Value.
Proof. solve_decision. Defined.

Definition emptyValue : Value := mkValue Null "" f64_zero.
Definition ZeroValue : Value := mkValue Number "0" f64_zero.

(** Go's [==] on two [Value]s: floats compare as numbers. *)
Definition value_eqb (v b : Value) : bool :=
  (kind v =? kind b) && (data v =s data b) && f64_eq (num v) (num b).

Definition IsZero (v : Value) : bool :=
  ((kind v =? Number) && (data v =s "0") && f64_eq (num v) f64_zero)
  || value_eqb v emptyValue.

Definition is_upper (c : ascii) : bool := in_range 0x41 0x5A c.

Fixpoint stringLessInsensitive (a b : string) : bool :=
  match a, b with
  | String x a1, String y b1 =>
    let cx := code x in
    let cy := code y in
    if is_upper x then
      if is_upper y then
        if cx <? cy then true else if cx >? cy then false else stringLessInsensitive a1 b1
      else
        if code (chr (cx + 32)) <? cy then true
        else if code (chr (cx + 32)) >? cy then false else stringLessInsensitive a1 b1
    else if is_upper y then
      if cx <? code (chr (cy + 32)) then true
      else if cx >? code (chr (cy + 32)) then false else stringLessInsensitive a1 b1
    else
      if cx <? cy then true else if cx >? cy then false else stringLessInsensitive a1 b1
  | _, _ => (String.length a <? String.length b)%nat
  end.

Definition LessCase (v b : Value) (caseSensitive : bool) : bool :=
  if kind v <? kind b then true
  else if kind v >? kind b then false
  else if kind v =? Number then f64_lt (num v) (num b)
  else if kind v =? String_ then
    if caseSensitive then data v <s data b else stringLessInsensitive (data v) (data b)
  else data v <s data b.

Definition Less (v b : Value) : bool := LessCase v b false.

Definition Equals (v b : Value) : bool := negb (Less v b) && negb (Less b v).

Record Field := mkField { name : string; value : Value }.

#[global] Instance Field_eq_dec : EqDecision Field.
Proof. solve_decision. Defined.

Definition ZeroField : Field := mkField "" ZeroValue.

Section gjson.
Context `{Gjson}.

Definition value_JSON (v : Value) : string :=
  if kind v =? Number then
    if data v =s "NaN" then quoted "NaN"
    else if data v =s "+Inf" then quoted "+Inf"
    else if data v =s "-Inf" then quoted "-Inf"
    else data v
  else if kind v =? String_ then gjson_JSONString (data v)
  else if kind v =? True_ then "true"
  else if kind v =? False_ then "false"
  else if kind v =? Null then if value_eqb v emptyValue then "0" else "null"
  else if kind v =? JSON_ then data v
  else "0".

(** The last part of [ValueOf]: the words for NaN and the infinities, else a string. *)
Definition special_or_string (d : string) : Value :=
  let words :=
    match d with
    | String c _ =>
      ((3 <=? String.length d) && (String.length d <=? 9))%nat &&
      ((c =? "-") || (c =? "+") || (c =? "I") || (c =? "i") || (c =? "N") || (c =? "n"))%char
    | EmptyString => false
    end in
  match (if words then ToLower d else None) with
  | Some low =>
    if low =s "nan" then mkValue Number "NaN" S754_nan
    else if (low =s "inf") || (low =s "+inf") || (low =s "infinity") || (low =s "+infinity")
    then mkValue Number "+Inf" f64_pinf
    else if (low =s "-inf") || (low =s "-infinity") then mkValue Number "-Inf" f64_ninf
    else mkValue String_ d f64_zero
  | None => mkValue String_ d f64_zero
  end.

Definition ValueOf (data0 : string) : Value :=
  let data := TrimSpace data0 in
  let '(num, ok) := ParseFloat data in
  if ok then
    if IsInf num 0 then
      if IsInf num 1 then mkValue Number "+Inf" f64_pinf else mkValue Number "-Inf" f64_ninf
    else if IsNaN num then mkValue Number "NaN" S754_nan
    else if gjson_Valid data then mkValue Number data num
    else special_or_string data
  else if gjson_Valid data then
    let '(ty, str) := gjson_Parse data in
    if ty =? Null then mkValue Null "null" f64_zero
    else if ty =? JSON_ then mkValue JSON_ (pretty_Ugly data) f64_zero
    else if ty =? True_ then mkValue True_ "true" f64_zero
    else if ty =? False_ then mkValue False_ "false" f64_zero
    else special_or_string str
  else special_or_string data.

Definition Make (name data : string) : Field := mkField (TrimSpace name) (ValueOf data).
End gjson.

(** ** The order of values *)

Fixpoint lower_str (s : string) : string :=
  match s with String c s => String (lower_byte c) (lower_str s) | EmptyString => "" end.

Lemma code_lower c : code (lower_byte c) = if is_upper c then code c + 32 else code c.
Proof.
  unfold lower_byte, is_upper, in_range.
  destruct ((0x41 <=? code c) && (code c <=? 0x5A)) eqn:E; [|done].
  boolify. rewrite code_chr_small; lia.
Qed.

(** The case-insensitive loop is the order of the lower-cased strings. *)
Lemma stringLessInsensitive_lower a b :
  stringLessInsensitive a b = (lower_str a <s lower_str b).
Proof.
  revert b. induction a as [|x a IH]; intros [|y b]; [done..|].
  cbn [stringLessInsensitive lower_str]. rewrite str_ltb_cons, !code_lower, IH, !Z.gtb_ltb.
  unfold is_upper, in_range. pose proof (code_bounds x). pose proof (code_bounds y).
  destruct ((0x41 <=? code x) && (code x <=? 0x5A)) eqn:Ex,
    ((0x41 <=? code y) && (code y <=? 0x5A)) eqn:Ey; boolify;
    rewrite ?code_chr_small by lia; [|done..].
  assert (forall p q, (p + 32 <? q + 32) = (p <? q)) as Hs.
  { intros p q. destruct (Z.ltb_spec p q), (Z.ltb_spec (p + 32) (q + 32)); (done || lia). }
  by rewrite !Hs.
Qed.

(** The text two values of one kind compare by, other than numbers. *)
Definition cmp_text (cs : bool) (v : Value) : string :=
  if (kind v =? String_) && negb cs then lower_str (data v) else data v.

Lemma LessCase_unfold v b cs :
  LessCase v b cs =
  if kind v =? kind b then
    if kind v =? Number then f64_lt (num v) (num b) else (cmp_text cs v <s cmp_text cs b)
  else kind v <? kind b.
Proof.
  unfold LessCase, cmp_text. rewrite Z.gtb_ltb, stringLessInsensitive_lower.
  destruct (Z.eqb_spec (kind v) (kind b)) as [E|E].
  - rewrite E, Z.ltb_irrefl. destruct (kind b =? Number); [done|].
    by destruct (kind b =? String_), cs.
  - destruct (Z.ltb_spec (kind v) (kind b)); [done|].
    by rewrite (proj2 (Z.ltb_lt _ _)) by lia.
Qed.

Definition value_nan (v : Value) : bool := IsNaN (num v).

Lemma LessCase_irrefl v cs : LessCase v v cs = false.
Proof.
  rewrite LessCase_unfold, Z.eqb_refl. destruct (kind v =? Number).
  - apply f64_lt_irrefl.
  - apply str_ltb_irrefl.
Qed.

Lemma LessCase_trans v b w cs :
  LessCase v b cs = true -> LessCase b w cs = true -> LessCase v w cs = true.
Proof.
  rewrite !LessCase_unfold.
  destruct (Z.eqb_spec (kind v) (kind b)) as [E1|E1],
    (Z.eqb_spec (kind b) (kind w)) as [E2|E2]; boolify.
  - rewrite E1, E2, Z.eqb_refl. destruct (kind w =? Number);
      [apply f64_lt_trans|apply str_ltb_trans].
  - intros _ H. rewrite E1. destruct (Z.eqb_spec (kind b) (kind w)); boolify; [done|lia].
  - intros H _. rewrite <- E2. destruct (Z.eqb_spec (kind v) (kind b)); boolify; [done|lia].
  - intros H1 H2. destruct (Z.eqb_spec (kind v) (kind w)); boolify; lia.
Qed.

Lemma f64_lt_incomp x y z :
  IsNaN x = false -> IsNaN y = false -> IsNaN z = false ->
  f64_lt x y = false -> f64_lt y z = false -> f64_lt x z = false.
Proof.
  intros Nx Ny Nz H1 H2. destruct (f64_lt x z) eqn:E; [|done].
  destruct (f64_lt y x) eqn:E1.
  { by rewrite (f64_lt_trans _ _ _ E1 E) in H2. }
  by rewrite (f64_key_lt x y z z (f64_incomparable x y Nx Ny H1 E1) eq_refl), H2 in E.
Qed.

Lemma LessCase_incomp v b w cs :
  value_nan v = false -> value_nan b = false -> value_nan w = false ->
  LessCase v b cs = false -> LessCase b w cs = false -> LessCase v w cs = false.
Proof.
  intros N1 N2 N3. rewrite !LessCase_unfold.
  destruct (Z.eqb_spec (kind v) (kind b)) as [E1|E1],
    (Z.eqb_spec (kind b) (kind w)) as [E2|E2]; boolify.
  - rewrite E1, E2, Z.eqb_refl. destruct (kind w =? Number).
    + by apply f64_lt_incomp.
    + intros H1 H2. by eapply str_ltb_false_trans.
  - intros _ H. rewrite E1. destruct (Z.eqb_spec (kind b) (kind w)); boolify; [done|lia].
  - intros H _. rewrite <- E2. destruct (Z.eqb_spec (kind v) (kind b)); boolify; [done|lia].
  - intros H1 H2. destruct (Z.eqb_spec (kind v) (kind w)); boolify; lia.
Qed.

(** Away from NaN, [LessCase] is a strict weak order for both case modes, so
    [Equals] is an equivalence: no value is below itself, and both [LessCase] and its
    negation are transitive. *)
Theorem LessCase_strict_weak v b w cs :
  value_nan v = false -> value_nan b = false -> value_nan w = false ->
  LessCase v v cs = false /\
  (LessCase v b cs = true -> LessCase b w cs = true -> LessCase v w cs = true) /\
  (LessCase v b cs = false -> LessCase b w cs = false -> LessCase v w cs = false).
Proof.
  intros. split_and!; [apply LessCase_irrefl|apply LessCase_trans|by apply LessCase_incomp].
Qed.

Lemma LessCase_strict_weak_witness :
  let v := mkValue Number "1" (f64_of_Z 1) in
  let b := mkValue String_ "Truck" f64_zero in
  let w := mkValue String_ "van" f64_zero in
  LessCase v w false = true.
Proof. by apply (LessCase_strict_weak _ (mkValue String_ "Truck" f64_zero)). Defined.

(** NaN is equal to every number, so [Equals] is not transitive on numbers. *)
Lemma Equals_nan :
  let one := mkValue Number "1" (f64_of_Z 1) in
  let two := mkValue Number "2" (f64_of_Z 2) in
  let nan := mkValue Number "NaN" S754_nan in
  Equals one nan = true /\ Equals nan two = true /\ Equals one two = false.
Proof. by vm_compute. Qed.

(** [Equals] does not see the case of strings. *)
Lemma Equals_case :
  Equals (mkValue String_ "truck" f64_zero) (mkValue String_ "TRUCK" f64_zero) = true.
Proof. by vm_compute. Qed.

(** ** Canonical values

    The text determines the rest: the float is the one the text parses to, and kinds
    without text of their own have the fixed one. *)
Definition canon (k : Kind) (d : string) : Value :=
  if k =? Number then mkValue k d (ParseFloat d).1
  else if k =? Null then mkValue k "null" f64_zero
  else if k =? False_ then mkValue k "false" f64_zero
  else if k =? True_ then mkValue k "true" f64_zero
  else mkValue k d f64_zero.

Definition canonical (v : Value) : Prop :=
  0 <= kind v <= 5 /\ v = canon (kind v) (data v).

(** The results [ValueOf] can have besides a plain number. *)
Lemma canonical_consts d :
  canonical (mkValue Number "NaN" S754_nan) /\ canonical (mkValue Number "+Inf" f64_pinf) /\
  canonical (mkValue Number "-Inf" f64_ninf) /\ canonical (mkValue String_ d f64_zero) /\
  canonical (mkValue JSON_ d f64_zero) /\ canonical (mkValue Null "null" f64_zero) /\
  canonical (mkValue True_ "true" f64_zero) /\ canonical (mkValue False_ "false" f64_zero).
Proof. split_and!; done. Qed.

Lemma special_canonical d : canonical (special_or_string d).
Proof.
  pose proof (canonical_consts d) as Hc. unfold special_or_string.
  destruct (if (_ : bool) then ToLower d else None) as [low|]; [|tauto].
  case_match; [tauto|]. case_match; [tauto|]. case_match; tauto.
Qed.

Lemma ValueOf_canonical `{Gjson} d : canonical (ValueOf d).
Proof.
  unfold ValueOf. set (t := TrimSpace d).
  pose proof (canonical_consts (pretty_Ugly t)) as Hc.
  destruct (ParseFloat t) as [n ok] eqn:E.
  destruct ok; [destruct (IsInf n 0); [destruct (IsInf n 1); tauto|];
    destruct (IsNaN n); [tauto|]|]; (destruct (gjson_Valid t); [|apply special_canonical]).
  - split; [done|]. unfold canon; simpl. by rewrite E.
  - destruct (gjson_Parse t) as [ty str].
    destruct (ty =? Null); [tauto|]. destruct (ty =? JSON_); [tauto|].
    destruct (ty =? True_); [tauto|]. destruct (ty =? False_); [tauto|].
    apply special_canonical.
Qed.

#[export] Hint Resolve ValueOf_canonical LessCase_irrefl : spatial.
