(* ===== verification/FieldList.v ===== *)
(** * Field lists ([src/internal/legacy/field])

    An object carries a list of fields sorted by name. The build uses the packed byte
    form of [list_binary.go] (module [Binary]); [list_struct.go] is the plain form
    (module [Struct]). Both are shown to compute the same function of the list of
    fields, [fl_set]; [Binary] also needs its bytes to decode without running off the
    buffer, which is part of the refinement. *)

From Stdlib Require Import Ascii String ZArith Lia Bool SpecFloat.
From stdpp Require Import base list strings option sorting.
From S2P Require Import Prelude GoStd Strconv Containers Sstring Field.

(** ** The list as a mathematical object *)

Definition name_lt (f g : Field) : Prop := (name f <s name g) = true.
Abbreviation sorted_fields := (StronglySorted name_lt).

(** Setting a field: a zero value deletes, an equal value changes nothing. *)
Fixpoint fl_set (fs : list Field) (f : Field) : list Field :=
  match fs with
  | [] => if IsZero (value f) then [] else [f]
  | g :: r =>
    if name f <s name g then if IsZero (value f) then fs else f :: fs
    else if name g =s name f then
      if IsZero (value f) then r
      else if Equals (value g) (value f) then fs else f :: r
    else g :: fl_set r f
  end.

Definition fl_find (fs : list Field) (n : string) : option Field :=
  find (fun f => name f =s n) fs.

(** A field list of the engine: sorted, canonical, no zero value. *)
Definition fields_ok (fs : list Field) : Prop :=
  sorted_fields fs /\ Forall (fun f => canonical (value f) /\ IsZero (value f) = false) fs.

Lemma name_lt_irrefl f : ~ name_lt f f.
Proof. unfold name_lt. by rewrite str_ltb_irrefl. Qed.

Lemma elem_of_fl_set fs f g : g ∈ fl_set fs f -> g = f \/ g ∈ fs.
Proof.
  induction fs as [|h fs IH]; simpl; repeat case_match; rewrite ?elem_of_cons, ?elem_of_nil;
    naive_solver.
Qed.

Lemma elem_of_fl_set_new fs f g :
  g ∈ fl_set fs f -> g ∉ fs -> g = f /\ IsZero (value f) = false.
Proof.
  induction fs as [|h fs IH]; simpl; repeat case_match; rewrite ?elem_of_cons, ?elem_of_nil;
    naive_solver.
Qed.

Lemma fl_set_sorted fs f : sorted_fields fs -> sorted_fields (fl_set fs f).
Proof.
  induction 1 as [|g fs S IH F]; simpl; [case_match; by repeat constructor|].
  destruct (name f <s name g) eqn:E1; [|destruct (String.eqb_spec (name g) (name f)) as [E2|E2]].
  - case_match; constructor; [done..|by constructor|].
    constructor; [done|]. eapply Forall_impl; [done|].
    intros h Hh. unfold name_lt in *. by eapply str_ltb_trans.
  - repeat case_match; [done|by constructor|]. constructor; [done|].
    unfold name_lt in *. by rewrite <- E2.
  - constructor; [done|]. apply Forall_forall. intros h Hh.
    apply elem_of_fl_set in Hh as [->|Hh].
    + unfold name_lt. destruct (str_ltb_total (name g) (name f)) as [?|[?|?]]; congruence.
    + rewrite Forall_forall in F. by apply F.
Qed.

Lemma fl_set_ok fs f : fields_ok fs -> canonical (value f) -> fields_ok (fl_set fs f).
Proof.
  intros [Hs Hf] Hc. split; [by apply fl_set_sorted|].
  apply Forall_forall. intros g Hg. rewrite Forall_forall in Hf.
  destruct (decide (g ∈ fs)) as [?|Hn]; [by apply Hf|].
  destruct (elem_of_fl_set_new _ _ _ Hg Hn) as [-> Hz]. done.
Qed.

Lemma sorted_find_None fs n :
  Forall (fun g => (n <s name g) = true) fs -> fl_find fs n = None.
Proof.
  unfold fl_find. induction 1 as [|g fs Hg _ IH]; simpl; [done|].
  destruct (String.eqb_spec (name g) n) as [<-|]; [by rewrite str_ltb_irrefl in Hg|done].
Qed.

(** Lookup after [fl_set]: the field itself unless it is zero (deleted) or the old one
    counts as equal (kept); other names are untouched. *)
Lemma fl_find_set fs f n :
  sorted_fields fs ->
  fl_find (fl_set fs f) n =
  if name f =s n then
    if IsZero (value f) then None
    else match fl_find fs n with
         | Some g => if Equals (value g) (value f) then Some g else Some f
         | None => Some f
         end
  else fl_find fs n.
Proof.
  induction 1 as [|g fs S IH F].
  { unfold fl_find; simpl. destruct (IsZero (value f)); simpl; by destruct (name f =s n). }
  assert (forall m, (m <s name g) = true -> fl_find (g :: fs) m = None) as Hn.
  { intros m Hm. apply sorted_find_None. constructor; [done|].
    eapply Forall_impl; [done|]. intros h Hh. by eapply str_ltb_trans. }
  cbn [fl_set]. destruct (name f <s name g) eqn:E1;
    [|destruct (String.eqb_spec (name g) (name f)) as [E2|E2]].
  - destruct (String.eqb_spec (name f) n) as [<-|En].
    + rewrite (Hn _ E1). case_match; [by apply Hn|].
      unfold fl_find; simpl. by rewrite String.eqb_refl.
    + case_match; [done|]. unfold fl_find at 1; simpl.
      by rewrite (proj2 (String.eqb_neq _ _) En).
  - rewrite <- E2. destruct (String.eqb_spec (name g) n) as [<-|En].
    + assert (fl_find (g :: fs) (name g) = Some g) as ->.
      { unfold fl_find; simpl. by rewrite String.eqb_refl. }
      destruct (IsZero (value f)); [by apply sorted_find_None|].
      destruct (Equals (value g) (value f)); unfold fl_find; simpl;
        rewrite <- ?E2, String.eqb_refl; done.
    + apply String.eqb_neq in En. repeat case_match; unfold fl_find; simpl;
        rewrite <- ?E2, ?En; done.
  - unfold fl_find in *. simpl. rewrite IH.
    destruct (String.eqb_spec (name g) n) as [<-|]; [|done].
    by rewrite (proj2 (String.eqb_neq (name f) (name g))) by congruence.
Qed.

(** ** The plain list: [list_struct.go] *)

Module Struct.

Abbreviation List := (list Field).

Definition name_at (fields : List) (i : nat) : string := default "" (name <$> fields !! i).

(** The binary search loop; [j - i] shrinks at every step. *)
Fixpoint bsearch_loop (fuel : nat) (fields : List) (n : string) (i j : nat) : nat :=
  match fuel with
  | O => i
  | S fuel =>
    if (i <? j)%nat then
      let h := (i + (j - i) / 2)%nat in
      if negb (n <s name_at fields h) then bsearch_loop fuel fields n (h + 1) j
      else bsearch_loop fuel fields n i h
    else i
  end.

Definition bsearch (fields : List) (n : string) : nat * bool :=
  let i := bsearch_loop (length fields) fields n 0 (length fields) in
  if (0 <? i)%nat && negb (name_at fields (i - 1) <s n) then ((i - 1)%nat, true)
  else (i, false).

Definition Set_ (fields : List) (field : Field) : List :=
  let '(index, found) := bsearch fields (name field) in
  if found then
    if IsZero (value field) then
      if (1 <? length fields)%nat then take index fields ++ drop (index + 1) fields else []
    else
      match fields !! index with
      | Some g =>
        if negb (Equals (value g) (value field))
        then <[index := mkField (name g) (value field)]> fields
        else fields
      | None => fields
      end
  else if IsZero (value field) then fields
  else take index fields ++ [field] ++ drop index fields.

Definition Get (fields : List) (n : string) : Field :=
  let '(index, found) := bsearch fields n in
  if found then default ZeroField (fields !! index) else ZeroField.

(** [i] splits the list for [n]: names up to [n] before it, names above [n] from it on. *)
Definition splits (fields : List) (n : string) (i : nat) : Prop :=
  (i <= length fields)%nat /\
  (forall k, (k < i)%nat -> (n <s name_at fields k) = false) /\
  (forall k, (i <= k < length fields)%nat -> (n <s name_at fields k) = true).

Lemma name_at_lookup fields i f : fields !! i = Some f -> name_at fields i = name f.
Proof. unfold name_at. by intros ->. Qed.

Lemma name_at_mono fields i j :
  sorted_fields fields -> (i < j < length fields)%nat ->
  (name_at fields i <s name_at fields j) = true.
Proof.
  intros Hs [Hi Hj]. destruct (lookup_lt_is_Some_2 fields j Hj) as [g Hg].
  destruct (lookup_lt_is_Some_2 fields i ltac:(lia)) as [f Hf].
  rewrite (name_at_lookup _ _ _ Hf), (name_at_lookup _ _ _ Hg). unfold name_lt in Hs.
  clear Hj. revert i j Hi f g Hf Hg.
  induction Hs as [|h fs Hs IH F]; intros i j Hi f g Hf Hg; [done|].
  destruct j as [|j]; [lia|]. destruct i as [|i]; simplify_eq/=.
  - rewrite Forall_forall in F. apply F. by eapply list_elem_of_lookup_2.
  - apply (IH i j); [lia|done..].
Qed.

Lemma bsearch_loop_splits fuel fields n i j :
  sorted_fields fields -> (i <= j <= length fields)%nat -> (j - i <= fuel)%nat ->
  (forall k, (k < i)%nat -> (n <s name_at fields k) = false) ->
  (forall k, (j <= k < length fields)%nat -> (n <s name_at fields k) = true) ->
  splits fields n (bsearch_loop fuel fields n i j).
Proof.
  intros Hs. revert i j. induction fuel as [|fuel IH]; intros i j Hij Hf Hlo Hhi;
    cbn [bsearch_loop]; cbv zeta.
  { assert (i = j) as -> by lia. split_and!; [lia|done..]. }
  destruct (Nat.ltb_spec i j) as [Hlt|Hge].
  2: { assert (i = j) as -> by lia. split_and!; [lia|done..]. }
  assert (i <= i + (j - i) / 2 < j)%nat as Hh.
  { pose proof (Nat.div_lt (j - i) 2 ltac:(lia) ltac:(lia)). lia. }
  generalize dependent (i + (j - i) / 2)%nat. intros h Hh.
  destruct (n <s name_at fields h) eqn:E; simpl.
  - apply IH; [lia|lia|done|]. intros k Hk. destruct (decide (k = h)) as [->|]; [done|].
    eapply str_ltb_trans; [done|]. apply name_at_mono; [done|lia].
  - apply IH; [lia|lia| |done]. intros k Hk.
    destruct (decide (k = h)) as [->|]; [done|].
    eapply str_ltb_false_trans; [|done]. apply str_ltb_asym, name_at_mono; [done|lia].
Qed.

Lemma bsearch_splits fields n :
  sorted_fields fields ->
  splits fields n (bsearch_loop (length fields) fields n 0 (length fields)).
Proof. intros Hs. apply bsearch_loop_splits; [done|lia..]. Qed.

(** Both parts of a split list, as lists. *)
Lemma splits_app fields n i :
  splits fields n i ->
  Forall (fun f => (n <s name f) = false) (take i fields) /\
  Forall (fun f => (n <s name f) = true) (drop i fields).
Proof.
  intros (Hi & Hlo & Hhi). split; apply Forall_lookup_2; intros k f Hk.
  - apply lookup_take_Some in Hk as [Hk Hlt]. rewrite <- (name_at_lookup _ _ _ Hk). auto.
  - rewrite lookup_drop in Hk. rewrite <- (name_at_lookup _ _ _ Hk). apply Hhi.
    apply lookup_lt_Some in Hk. lia.
Qed.

(** What the search returns: the list as what is below the name, the field of that name
    if there is one, and what is above. *)
Lemma bsearch_spec fields n :
  sorted_fields fields ->
  exists l r, Forall (fun f => (name f <s n) = true) l /\ Forall (fun f => (n <s name f) = true) r /\
    ((fields = l ++ r /\ bsearch fields n = (length l, false)) \/
     (exists g, name g = n /\ fields = l ++ g :: r /\ bsearch fields n = (length l, true))).
Proof.
  intros Hs. unfold bsearch. pose proof (bsearch_splits fields n Hs) as Hsp.
  set (i := bsearch_loop _ _ _ _ _) in *. pose proof (splits_app _ _ _ Hsp) as [Hl Hr].
  destruct Hsp as (Hi & Hlo & _). clearbody i.
  destruct (Nat.ltb_spec 0 i) as [Hpos|Hz]; simpl.
  2: { assert (i = 0)%nat as -> by lia. exists [], fields. split_and!; [done..|]. by left. }
  destruct (lookup_lt_is_Some_2 fields (i - 1) ltac:(lia)) as [g Hg].
  rewrite (name_at_lookup _ _ _ Hg).
  assert (take i fields = take (i - 1) fields ++ [g]) as Ht.
  { replace i with (S (i - 1)) at 1 by lia. by apply take_S_r. }
  assert (Forall (fun f => (name f <s name g) = true) (take (i - 1) fields)) as Hbelow.
  { apply Forall_lookup_2. intros k f Hk. apply lookup_take_Some in Hk as [Hk Hlt].
    rewrite <- (name_at_lookup _ _ _ Hk), <- (name_at_lookup _ _ _ Hg).
    apply name_at_mono; [done|lia]. }
  assert ((n <s name g) = false) as Hng.
  { rewrite <- (name_at_lookup _ _ _ Hg). apply Hlo. lia. }
  destruct (name g <s n) eqn:E; simpl.
  - exists (take i fields), (drop i fields). split_and!; [|done|].
    + rewrite Ht. apply Forall_app. split; [|by apply Forall_singleton].
      eapply Forall_impl; [done|]. intros f Hf. by apply (str_ltb_trans _ (name g)).
    + left. by rewrite take_drop, length_take_le.
  - assert (name g = n) as <- by (by apply str_ltb_false_antisym).
    exists (take (i - 1) fields), (drop i fields). split_and!; [done..|]. right.
    exists g. split_and!; [done| |by rewrite length_take_le by lia].
    rewrite cons_middle, (assoc_L (++)), <- Ht. by rewrite take_drop.
Qed.

Lemma fl_set_skip l r f :
  Forall (fun g => (name g <s name f) = true) l -> fl_set (l ++ r) f = l ++ fl_set r f.
Proof.
  induction 1 as [|g l Hg _ IH]; simpl; [done|].
  rewrite (str_ltb_asym _ _ Hg). apply str_ltb_neq in Hg.
  by rewrite (proj2 (String.eqb_neq _ _) Hg), IH.
Qed.

Lemma Set_fl_set fields f : sorted_fields fields -> Set_ fields f = fl_set fields f.
Proof.
  intros Hs. destruct (bsearch_spec fields (name f) Hs) as (l & r & Hl & Hr & [[-> Hb]|H]).
  - unfold Set_. rewrite Hb, fl_set_skip by done. rewrite take_app_length, drop_app_length.
    destruct Hr as [|g r Hg Hr]; simpl; [by destruct (IsZero (value f))|].
    rewrite Hg. by destruct (IsZero (value f)).
  - destruct H as (g & Hg & -> & Hb). unfold Set_. rewrite Hb, fl_set_skip by done.
    cbn [fl_set]. rewrite <- Hg, str_ltb_irrefl, String.eqb_refl.
    rewrite lookup_app_r, Nat.sub_diag by lia. cbn [lookup list_lookup].
    destruct (IsZero (value f)).
    + rewrite take_app_length.
      replace (drop (length l + 1) (l ++ g :: r)) with r
        by (by rewrite drop_app_add').
      destruct (Nat.ltb_spec 1 (length (l ++ g :: r))) as [|Hlen]; [done|].
      rewrite length_app in Hlen; simpl in Hlen.
      destruct l; [|simpl in *; lia]. by destruct r; [|simpl in *; lia].
    + destruct (Equals (value g) (value f)); simpl; [done|].
      rewrite insert_app_r_alt, Nat.sub_diag by lia. simpl. rewrite Hg. by destruct f.
Qed.

Lemma Get_find fields n : sorted_fields fields -> Get fields n = default ZeroField (fl_find fields n).
Proof.
  intros Hs. destruct (bsearch_spec fields n Hs) as (l & r & Hl & Hr & H).
  assert (forall r', fl_find (l ++ r') n = fl_find r' n) as Hskip.
  { intros r'. clear -Hl. unfold fl_find.
    induction Hl as [|g l Hg _ IH]; simpl; [done|]. apply str_ltb_neq in Hg.
    by rewrite (proj2 (String.eqb_neq _ _) Hg). }
  unfold Get. destruct H as [[-> ->]|(g & <- & -> & ->)].
  - by rewrite Hskip, (sorted_find_None r n).
  - rewrite Hskip. unfold fl_find; simpl. rewrite String.eqb_refl.
    by rewrite lookup_app_r, Nat.sub_diag by lia.
Qed.

End Struct.
