(* ===== verification/FieldBinary.v ===== *)
(** * Packed field lists ([src/internal/legacy/field/list_binary.go])

    The list the build uses: a pointer to bytes, [nil] for the empty list. The bytes are
    the size of the rest as a uvarint and then the entries; an entry is the number of
    the shared name, the kind, and for kinds with text the length and the text. Indexing
    outside the buffer and an unknown name number panic, [None] here; the refinement
    theorems show that neither happens on the lists the operations build. *)

From Stdlib Require Import Ascii String ZArith Lia Bool SpecFloat.
From stdpp Require Import base list strings option sorting gmap.
From S2P Require Import Prelude GoStd Strconv Containers Sstring Field FieldList.

Local Open Scope Z_scope.

Section binary.
Context {M : Type -> Type} `{StrMap M}.
Implicit Types st : sstrings M.

(** [uvarint(buf)]: the value as an [int], and the number of bytes. *)
Definition uvarint (buf : list ascii) : Z * nat :=
  let '(x, n) := uvarint_loop 0 0 buf in (int64 x, Z.to_nat n).

(** [b[lo:hi]]. *)
Definition slice (b : list ascii) (lo : nat) (hi : Z) : option (list ascii) :=
  if (Z.of_nat lo <=? hi) && (hi <=? Z.of_nat (length b))
  then Some (take (Z.to_nat hi - lo) (drop lo b)) else None.

Definition List := option (list ascii).

(** The entries: the header is read from the first ten bytes. *)
Definition ptob (p : List) : option (list ascii) :=
  match p with
  | None => Some []
  | Some m => let '(x, n) := uvarint (take 10 m) in slice m n (Z.of_nat n + x)
  end.

Definition datakind (k : Kind) : bool := (k =? Number) || (k =? String_) || (k =? JSON_).

Definition bfield (name : string) (k : Kind) (data : string) : Field := mkField name (canon k data).

(** One turn of the reading loops: [Some None] at the end of the buffer. *)
Definition readEntry st (b : list ascii) (i : nat)
    : option (option (string * Kind * string * nat)) :=
  let '(x, n) := uvarint (drop i b) in
  if (n =? 0)%nat then Some None
  else
    match Load st x with
    | None => None
    | Some name =>
      let i := (i + n)%nat in
      match b !! i with
      | None => None
      | Some kb =>
        let k := code kb in
        let i := S i in
        if datakind k then
          let '(x, n) := uvarint (drop i b) in
          match slice b (i + n) (Z.of_nat (i + n) + x) with
          | Some d => Some (Some (name, k, string_of d, (i + n + Z.to_nat x)%nat))
          | None => None
          end
        else Some (Some (name, k, "", i))
      end
    end.

(** Where the loop of [Set] stops: before an entry or at the end, or on the entry of
    that name. *)
Inductive stop := Before (i : nat) | On (s e : nat) (k : Kind) (d : string).

Fixpoint findField (fuel : nat) st (b : list ascii) (nm : string) (i : nat) : option stop :=
  match fuel with
  | O => None
  | S fuel =>
    match readEntry st b i with
    | None => None
    | Some None => Some (Before i)
    | Some (Some (name, k, d, e)) =>
      if nm <s name then Some (Before i)
      else if name =s nm then Some (On i e k d)
      else findField fuel st b nm e
    end
  end.

Definition delfield (b : list ascii) (s e : nat) : List :=
  let totallen := (s + (length b - e))%nat in
  if (totallen =? 0)%nat then None
  else Some (PutUvarint (Z.of_nat totallen) ++ take s b ++ drop e b).

(** The bytes of one entry for name number [num]. *)
Definition entry (num : Z) (v : Value) : list ascii :=
  PutUvarint num ++ [chr (kind v)] ++
  (if datakind (kind v)
   then PutUvarint (Z.of_nat (String.length (data v))) ++ bytes_of (data v) else []).

Definition putfield st (b : list ascii) (f : Field) (s e : nat) : List * sstrings M :=
  let '(num, st) := Store st (name f) in
  let body := take s b ++ entry num (value f) ++ drop e b in
  (Some (PutUvarint (Z.of_nat (length body)) ++ body), st).

Definition Set_ st (fields : List) (f : Field) : option (List * sstrings M) :=
  match ptob fields with
  | None => None
  | Some b =>
    match findField (S (length b)) st b (name f) 0 with
    | None => None
    | Some (On s e k d) =>
      if IsZero (value f) then Some (delfield b s e, st)
      else if Equals (value (bfield (name f) k d)) (value f) then Some (fields, st)
      else Some (putfield st b f s e)
    | Some (Before i) =>
      if IsZero (value f) then Some (fields, st) else Some (putfield st b f i i)
    end
  end.

(** [strings.IndexByte(name, '.')], as the parts around the first dot. *)
Fixpoint split_dot (s : string) : option (string * string) :=
  match s with
  | EmptyString => None
  | String c s1 =>
    if (c =? ".")%char then Some ("", s1)
    else match split_dot s1 with Some (a, b) => Some (String c a, b) | None => None end
  end.

(** What [Get] does with one entry: stop, return, or go on. *)
Inductive verdict := Stop | Return (f : Field) | Next.

Definition getEntry `{Gjson} (nm : string) (fname : string) (k : Kind) (d : string) : verdict :=
  match split_dot nm with
  | Some (jname, jpath) =>
    if k =? JSON_ then
      if jname <s fname then Stop
      else if fname =s jname then
        match gjson_Get d jpath with
        | Some (ty, str) => Return (bfield nm ty str)
        | None => Next
        end
      else Next
    else if nm <s fname then Stop
    else if fname =s nm then Return (bfield nm k d) else Next
  | None =>
    if nm <s fname then Stop
    else if fname =s nm then Return (bfield nm k d) else Next
  end.

Fixpoint getLoop `{Gjson} (fuel : nat) st (b : list ascii) (nm : string) (i : nat)
    : option Field :=
  match fuel with
  | O => None
  | S fuel =>
    match readEntry st b i with
    | None => None
    | Some None => Some ZeroField
    | Some (Some (fname, k, d, e)) =>
      match getEntry nm fname k d with
      | Stop => Some ZeroField
      | Return f => Some f
      | Next => getLoop fuel st b nm e
      end
    end
  end.

Definition Get `{Gjson} st (fields : List) (nm : string) : option Field :=
  match ptob fields with
  | None => None
  | Some b => getLoop (S (length b)) st b nm 0
  end.

(** [Scan]: the callback updates its captured state and says whether to go on. *)
Fixpoint scanLoop {S} (iter : S -> Field -> S * bool) (fuel : nat) st (b : list ascii)
    (i : nat) (s : S) : option S :=
  match fuel with
  | O => None
  | Datatypes.S fuel =>
    match readEntry st b i with
    | None => None
    | Some None => Some s
    | Some (Some (fname, k, d, e)) =>
      let '(s, keepon) := iter s (bfield fname k d) in
      if keepon then scanLoop iter fuel st b e s else Some s
    end
  end.

Definition Scan {S} st (fields : List) (iter : S -> Field -> S * bool) (s : S) : option S :=
  match ptob fields with
  | None => None
  | Some b => scanLoop iter (Datatypes.S (length b)) st b 0 s
  end.

Fixpoint lenLoop (fuel : nat) (b : list ascii) (i : nat) : option Z :=
  match fuel with
  | O => None
  | S fuel =>
    let '(x, n) := uvarint (drop i b) in
    if (n =? 0)%nat then Some 0
    else
      let i := (i + n)%nat in
      match b !! i with
      | None => None
      | Some kb =>
        let i := S i in
        let i := if datakind (code kb)
                 then let '(x, n) := uvarint (drop i b) in (i + n + Z.to_nat x)%nat else i in
        match lenLoop fuel b i with Some c => Some (c + 1) | None => None end
      end
  end.

Definition Len (fields : List) : option Z :=
  match ptob fields with
  | None => None
  | Some b => lenLoop (S (length b)) b 0
  end.

Definition Weight (fields : List) : Z :=
  match fields with
  | None => 0
  | Some m => let '(x, n) := uvarint (take 10 m) in x + Z.of_nat n
  end.

(** [MakeList]. *)
Fixpoint MakeListLoop st (l : List) (fields : list Field) : option (List * sstrings M) :=
  match fields with
  | [] => Some (l, st)
  | f :: fields =>
    match Set_ st l f with
    | Some (l, st) => MakeListLoop st l fields
    | None => None
    end
  end.
Definition MakeList st (fields : list Field) : option (List * sstrings M) :=
  MakeListLoop st None fields.

(** [String]: the callback of its [Scan] keeps the text and the number of fields. *)
Definition appendField `{Gjson} (dst : string * nat) (f : Field) : (string * nat) * bool :=
  let '(dst, i) := dst in
  let dst := if (0 <? i)%nat then dst +:+ "," else dst in
  ((dst +:+ gjson_JSONString (name f) +:+ ":" +:+ value_JSON (value f), S i), true).

Definition String' `{Gjson} st (fields : List) : option string :=
  match Scan st fields appendField ("{", 0%nat) with
  | Some (dst, _) => Some (pretty_Ugly (dst +:+ "}"))
  | None => None
  end.

(** ** The bytes of a list of fields *)

(** [bs] is an entry for [f]: its name number is known and the value written out. *)
Definition entry_of st (f : Field) (bs : list ascii) : Prop :=
  exists num, Load st num = Some (name f) /\ bs = entry num (value f).

Inductive encodes st : list Field -> list ascii -> Prop :=
| enc_nil : encodes st [] []
| enc_cons f fs bs rest :
    entry_of st f bs -> encodes st fs rest -> encodes st (f :: fs) (bs ++ rest).

(** The pointer [p] holds exactly the fields [fs]. *)
Definition rep st (p : List) (fs : list Field) : Prop :=
  match p with
  | None => fs = []
  | Some m => exists body,
      m = PutUvarint (Z.of_nat (length body)) ++ body /\ encodes st fs body /\
      Z.of_nat (length body) < 2 ^ 63
  end.

(** The sizes stay in [int]: what every address space guarantees. *)
Definition fits st (fs : list Field) : Prop :=
  Sstring.Len st < 2 ^ 63 /\
  Forall (fun f => Z.of_nat (String.length (data (value f))) < 2 ^ 63) fs.

Lemma uvarint_bytes x rest :
  0 <= x < 2 ^ 63 -> uvarint (PutUvarint x ++ rest) = (x, length (PutUvarint x)).
Proof.
  intros Hx. unfold uvarint. rewrite uvarint_put by (unfold is_uint64; lia).
  rewrite int64_id by (unfold is_int64; lia). by rewrite Nat2Z.id.
Qed.

Lemma PutUvarint_length x : (length (PutUvarint x) <= 10)%nat.
Proof. apply PutUvarintF_length. Qed.

Lemma slice_app pre d post i hi :
  i = length pre -> hi = Z.of_nat i + Z.of_nat (length d) ->
  slice (pre ++ d ++ post) i hi = Some d.
Proof.
  intros -> ->. unfold slice. rewrite !length_app.
  rewrite (proj2 (Z.leb_le _ _)), (proj2 (Z.leb_le _ _)) by lia. simpl.
  rewrite drop_app_length. f_equal.
  replace (Z.to_nat _ - _)%nat with (length d) by lia. apply take_app_length.
Qed.

Lemma ptob_rep st p fs :
  rep st p fs -> exists body, ptob p = Some body /\ encodes st fs body /\
    Z.of_nat (length body) < 2 ^ 63.
Proof.
  destruct p as [m|]; simpl; [|intros ->; exists []; by repeat constructor].
  intros (body & -> & He & Hlen). exists body. split_and!; [|done..].
  set (h := PutUvarint (Z.of_nat (length body))).
  assert (take 10 (h ++ body) = h ++ take (10 - length h) body) as ->.
  { rewrite take_app. f_equal. apply take_ge, PutUvarint_length. }
  unfold h at 1. rewrite uvarint_bytes by lia. fold h.
  pose proof (slice_app h body [] _ _ eq_refl eq_refl) as Hs. by rewrite app_nil_r in Hs.
Qed.

Lemma lookup_mid {A} (pre post : list A) x i : i = length pre -> (pre ++ x :: post) !! i = Some x.
Proof. intros ->. by rewrite lookup_app_r, Nat.sub_diag by lia. Qed.

Lemma drop_mid {A} (pre post : list A) i : i = length pre -> drop i (pre ++ post) = post.
Proof. intros ->. apply drop_app_length. Qed.

Lemma drop_two {A} (b m b2 : list A) : drop (length b + length m) (b ++ m ++ b2) = b2.
Proof. rewrite (assoc_L (++)). apply drop_mid. by rewrite length_app. Qed.

(** What is read back of a value: the text of kinds that store it. *)
Definition stored (v : Value) : string := if datakind (kind v) then data v else "".

Lemma readEntry_entry st pre f bs post :
  Sstring.Len st < 2 ^ 63 -> canonical (value f) ->
  Z.of_nat (String.length (data (value f))) < 2 ^ 63 ->
  entry_of st f bs ->
  readEntry st (pre ++ bs ++ post) (length pre) =
    Some (Some (name f, kind (value f), stored (value f), (length pre + length bs)%nat)).
Proof.
  intros Hst [Hk _] Hd (num & Hnum & ->). pose proof (Load_range _ _ _ Hnum) as Hr.
  unfold readEntry, entry, stored.
  set (h := PutUvarint num). set (k := kind (value f)). set (t := if datakind k then _ else []).
  assert (pre ++ (h ++ [chr k] ++ t) ++ post = (pre ++ h) ++ chr k :: t ++ post) as ->
    by (by rewrite <- !(assoc_L (++))).
  rewrite <- (assoc_L (++) pre h) at 1. rewrite drop_mid by done.
  unfold h at 1. rewrite uvarint_bytes by lia. fold h.
  destruct (Nat.eqb_spec (length h) 0) as [E|_].
  { by apply nil_length_inv, PutUvarint_nonempty in E. }
  rewrite Hnum, lookup_mid by (by rewrite length_app).
  rewrite code_chr_small by lia. subst t.
  destruct (datakind k).
  - set (d := PutUvarint (Z.of_nat (String.length (data (value f))))).
    assert ((pre ++ h) ++ chr k :: (d ++ bytes_of (data (value f))) ++ post =
      ((pre ++ h) ++ [chr k]) ++ d ++ bytes_of (data (value f)) ++ post) as ->
      by (by rewrite <- !(assoc_L (++))).
    rewrite drop_mid by (rewrite !length_app; simpl; lia).
    unfold d at 1. rewrite uvarint_bytes by lia. fold d.
    rewrite (assoc_L (++) _ d), (slice_app _ (bytes_of (data (value f)))).
    + rewrite string_of_bytes. do 3 f_equal.
      rewrite !length_app, length_bytes_of. simpl. lia.
    + rewrite !length_app. simpl. lia.
    + rewrite length_bytes_of. lia.
  - do 3 f_equal. rewrite !length_app. simpl. lia.
Qed.

Lemma readEntry_end st b : readEntry st b (length b) = Some None.
Proof. unfold readEntry. rewrite drop_all. reflexivity. Qed.

Lemma bfield_stored f : canonical (value f) -> bfield (name f) (kind (value f)) (stored (value f)) = f.
Proof.
  intros [Hk Hv]. destruct f as [n v]; simpl in *. unfold bfield, stored. f_equal.
  transitivity (canon (kind v) (data v)); [|done]. unfold canon, datakind.
  destruct (kind v =? Number) eqn:E1; simpl; [done|].
  destruct (kind v =? Null) eqn:E2; [done|]. destruct (kind v =? False_) eqn:E3; [done|].
  destruct (kind v =? True_) eqn:E4; [done|].
  destruct (kind v =? String_) eqn:E5; [done|]. destruct (kind v =? JSON_) eqn:E6; [done|].
  boolify. unfold Null, False_, True_, String_, JSON_, Number in *. lia.
Qed.

Lemma encodes_app st fs gs bs cs :
  encodes st fs bs -> encodes st gs cs -> encodes st (fs ++ gs) (bs ++ cs).
Proof.
  induction 1 as [|f fs b rest Hf _ IH]; intros Hg; [done|].
  rewrite <- (assoc_L (++)). constructor; [done|]. by apply IH.
Qed.

Lemma encodes_extends st st' fs bs : extends st st' -> encodes st fs bs -> encodes st' fs bs.
Proof.
  intros He. induction 1 as [|f fs b rest (num & Hn & ->) _ IH]; constructor; [|done].
  exists num. split; [by apply He|done].
Qed.

Lemma rep_extends st st' p fs : extends st st' -> rep st p fs -> rep st' p fs.
Proof.
  intros He. destruct p; [|done]. intros (body & Hm & Hb & Hl).
  exists body. split_and!; [done| |done]. by eapply encodes_extends.
Qed.

Lemma entry_of_nonempty st f bs : entry_of st f bs -> (2 <= length bs)%nat.
Proof.
  intros (num & _ & ->). unfold entry. rewrite !length_app. simpl.
  pose proof (PutUvarint_nonempty num). destruct (PutUvarint num); [done|]. simpl. lia.
Qed.

Lemma encodes_length st fs bs : encodes st fs bs -> (length fs <= length bs)%nat.
Proof.
  induction 1 as [|f fs b rest Hf _ IH]; [done|].
  apply entry_of_nonempty in Hf. rewrite length_app. simpl. lia.
Qed.

Lemma encodes_nil_inv st fs : encodes st fs [] -> fs = [].
Proof. intros He%encodes_length. by destruct fs; [|simpl in He; lia]. Qed.

(** Reading at the start of an encoded suffix. *)
Lemma read_cons st pre f fs bs :
  fits st (f :: fs) -> canonical (value f) -> encodes st (f :: fs) bs ->
  exists b rest, bs = b ++ rest /\ entry_of st f b /\ encodes st fs rest /\
    readEntry st (pre ++ bs) (length pre) =
      Some (Some (name f, kind (value f), stored (value f), length (pre ++ b))).
Proof.
  intros [Hl [Hd _]%Forall_cons] Hc He. inversion He as [|? ? b rest Hb Hr]; subst.
  exists b, rest. split_and!; [done..|]. rewrite (length_app pre b).
  by apply readEntry_entry.
Qed.

Lemma read_nil st pre bs :
  encodes st [] bs -> readEntry st (pre ++ bs) (length pre) = Some None.
Proof. intros He. inversion He; subst. rewrite app_nil_r. apply readEntry_end. Qed.

Lemma fits_tail st f fs : fits st (f :: fs) -> fits st fs.
Proof. intros [? [_ ?]%Forall_cons]. done. Qed.

(** Where the loop of [Set] stops. *)
Definition stops_at st (pre : list ascii) (fs : list Field) (bs : list ascii) (nm : string)
    (r : option stop) : Prop :=
  exists l l2 b b2, fs = l ++ l2 /\ bs = b ++ b2 /\ encodes st l b /\ encodes st l2 b2 /\
    Forall (fun g => (name g <s nm) = true) l /\
    match l2 with
    | g :: tl =>
      ((nm <s name g) = true /\ r = Some (Before (length (pre ++ b)))) \/
      (name g = nm /\ exists bg rest, b2 = bg ++ rest /\ encodes st tl rest /\
         r = Some (On (length (pre ++ b)) (length (pre ++ b ++ bg))
                     (kind (value g)) (stored (value g))))
    | [] => r = Some (Before (length (pre ++ b)))
    end.

Lemma findField_stops st fuel nm pre fs bs :
  fits st fs -> Forall (fun f => canonical (value f)) fs -> encodes st fs bs ->
  (length fs < fuel)%nat ->
  stops_at st pre fs bs nm (findField fuel st (pre ++ bs) nm (length pre)).
Proof.
  revert pre fs bs. induction fuel as [|fuel IH]; intros pre fs bs Hfit Hc He Hf; [lia|].
  cbn [findField]. destruct fs as [|f fs].
  { rewrite read_nil by done. exists [], [], [], bs. rewrite (app_nil_r pre).
    split_and!; try done; constructor. }
  apply Forall_cons in Hc as [Hcf Hc].
  destruct (read_cons st pre f fs bs Hfit Hcf He) as (b & rest & -> & Hb & Hr & ->).
  destruct (nm <s name f) eqn:E1; [|destruct (String.eqb_spec (name f) nm) as [E2|E2]].
  - exists [], (f :: fs), [], (b ++ rest). rewrite (app_nil_r pre).
    split_and!; try done; [constructor..|]. by left.
  - exists [], (f :: fs), [], (b ++ rest). rewrite (app_nil_r pre).
    split_and!; try done; [constructor..|]. right. split; [done|].
    exists b, rest. split_and!; done.
  - rewrite (assoc_L (++) pre b rest).
    destruct (IH (pre ++ b) fs rest (fits_tail _ _ _ Hfit) Hc Hr ltac:(simpl in Hf; lia))
      as (l & l2 & c & c2 & -> & -> & Hl & Hl2 & Hn & Hm).
    exists (f :: l), l2, (b ++ c), c2. split_and!; try done.
    + by rewrite (assoc_L (++)).
    + by constructor.
    + constructor; [|done].
      destruct (str_ltb_total (name f) nm) as [?|[?|?]]; [done|congruence..].
    + destruct l2; rewrite <- !(assoc_L (++)) in *; [done|].
      destruct Hm as [?|(? & bg & r2 & ? & ? & Hm)]; [by left|right]. split; [done|].
      exists bg, r2. split_and!; [done..|]. rewrite Hm. by rewrite <- !(assoc_L (++)).
Qed.

(** ** Refinement *)

Context `{!StrMapLaws M}.

(** The list [p] can grow by the entry of [f]. *)
Definition room (p : List) (f : Field) : Prop :=
  Z.of_nat (length (default [] p)) + Z.of_nat (String.length (data (value f))) + 21 < 2 ^ 63.

Lemma entry_length num v :
  (length (entry num v) <= 21 + String.length (data v))%nat.
Proof.
  unfold entry. rewrite !length_app. pose proof (PutUvarint_length num).
  pose proof (PutUvarint_length (Z.of_nat (String.length (data v)))).
  case_match; rewrite ?length_app, ?length_bytes_of; simpl; lia.
Qed.

Lemma ptob_room st p fs f body :
  rep st p fs -> ptob p = Some body -> room p f ->
  Z.of_nat (length body) + Z.of_nat (String.length (data (value f))) + 21 < 2 ^ 63.
Proof.
  intros Hr Hp. unfold room. destruct p as [m|]; [|by injection Hp as <-].
  unfold ptob in Hp. destruct (uvarint (take 10 m)) as [x n].
  unfold slice in Hp. case_match; [|done]. injection Hp as <-. simpl default.
  rewrite length_take, length_drop. lia.
Qed.

Lemma putfield_rep st l r f b b2 :
  sstrings_ok st -> encodes st l b -> encodes st r b2 ->
  Z.of_nat (length b) + Z.of_nat (length b2) +
    Z.of_nat (String.length (data (value f))) + 21 < 2 ^ 63 ->
  forall m e, e = (length b + length m)%nat ->
  exists p' st', putfield st (b ++ m ++ b2) f (length b) e = (p', st') /\
    rep st' p' (l ++ f :: r) /\ sstrings_ok st' /\ extends st st'.
Proof.
  intros Hok Hl Hr Hroom m e ->. unfold putfield.
  destruct (Store st (name f)) as [num st'] eqn:E.
  pose proof (Store_extends st (name f)) as He. rewrite E in He.
  pose proof (Store_ok st (name f) Hok) as Hok'. rewrite E in Hok'.
  eexists _, st'. split; [done|]. split_and!; [|done..].
  rewrite take_app_length, drop_two.
  eexists. split; [done|]. split.
  - apply encodes_app; [by eapply encodes_extends|].
    constructor; [|by eapply encodes_extends]. exists num. split; [|done].
    pose proof (Load_Store st (name f) Hok) as HL. by rewrite E in HL.
  - rewrite !length_app. pose proof (entry_length num (value f)). lia.
Qed.

Lemma delfield_rep st l r b m b2 e :
  encodes st l b -> encodes st r b2 -> e = (length b + length m)%nat ->
  Z.of_nat (length b) + Z.of_nat (length b2) < 2 ^ 63 ->
  rep st (delfield (b ++ m ++ b2) (length b) e) (l ++ r).
Proof.
  intros Hl Hr -> Hlen. unfold delfield. rewrite take_app_length, drop_two.
  destruct (Nat.eqb_spec (length b + (length (b ++ m ++ b2) - (length b + length m))) 0) as [E|E].
  - rewrite !length_app in E. assert (length b = 0 /\ length b2 = 0)%nat as [E1 E2] by lia.
    apply nil_length_inv in E1, E2. subst. apply encodes_nil_inv in Hl, Hr. by subst.
  - exists (b ++ b2). split_and!.
    + do 3 f_equal. rewrite !length_app. lia.
    + by apply encodes_app.
    + rewrite length_app. lia.
Qed.

Lemma packed_Set_fl_set st p fs f :
  sstrings_ok st -> rep st p fs -> fields_ok fs -> fits st fs -> canonical (value f) ->
  room p f ->
  exists p' st', Set_ st p f = Some (p', st') /\ rep st' p' (fl_set fs f) /\
    sstrings_ok st' /\ extends st st'.
Proof.
  intros Hok Hrep [Hs Hf] Hfit Hc Hroom.
  destruct (ptob_rep st p fs Hrep) as (body & Hp & He & Hlen).
  pose proof (ptob_room _ _ _ _ _ Hrep Hp Hroom) as Hsize.
  assert (Forall (fun f => canonical (value f)) fs) as Hcan
    by (eapply Forall_impl; [exact Hf|naive_solver]).
  unfold Set_. rewrite Hp.
  destruct (findField_stops st (S (length body)) (name f) [] fs body Hfit Hcan He)
    as (l & l2 & b & b2 & -> & -> & Hl & Hl2 & Hn & Hm);
    [apply encodes_length in He; lia|].
  cbn [app length] in Hm. rewrite Struct.fl_set_skip by done. rewrite length_app in Hsize.
  assert (exists p' st', (if IsZero (value f) then Some (p, st) else
      Some (putfield st (b ++ b2) f (length b) (length b))) = Some (p', st') /\
      rep st' p' (l ++ if IsZero (value f) then l2 else f :: l2) /\
      sstrings_ok st' /\ extends st st') as Hins.
  { destruct (IsZero (value f)); [by exists p, st|].
    destruct (putfield_rep st l l2 f b b2 Hok Hl Hl2 ltac:(lia) [] (length b))
      as (p' & st' & Hput & ?); [simpl; lia|]. exists p', st'. by rewrite <- Hput. }
  destruct l2 as [|g l2].
  { rewrite Hm. simpl. by destruct (IsZero (value f)). }
  cbn [fl_set]. destruct Hm as [[Hlt ->]|(Hg & bg & rest & -> & Hrest & ->)].
  { rewrite Hlt. by destruct (IsZero (value f)). }
  clear Hins. apply Forall_app in Hcan as [_ [Hcg _]%Forall_cons].
  rewrite <- Hg, str_ltb_irrefl, String.eqb_refl, bfield_stored by done.
  rewrite length_app in Hsize.
  destruct (IsZero (value f)).
  { eexists _, _. split_and!; [done| |done..]. rewrite length_app.
    apply delfield_rep; [done..|lia]. }
  destruct (Equals (value g) (value f)); [by exists p, st|].
  destruct (putfield_rep st l l2 f b rest Hok Hl Hrest ltac:(lia) bg (length (b ++ bg)))
    as (p' & st' & Hput & ?); [by rewrite length_app|]. exists p', st'. by rewrite <- Hput.
Qed.

(** [Get] as a function of the fields. *)
Fixpoint fl_get `{Gjson} (fs : list Field) (nm : string) : Field :=
  match fs with
  | [] => ZeroField
  | f :: fs =>
    match getEntry nm (name f) (kind (value f)) (stored (value f)) with
    | Stop => ZeroField
    | Return r => r
    | Next => fl_get fs nm
    end
  end.

Lemma getLoop_spec `{Gjson} st fuel nm pre fs bs :
  fits st fs -> Forall (fun f => canonical (value f)) fs -> encodes st fs bs ->
  (length fs < fuel)%nat ->
  getLoop fuel st (pre ++ bs) nm (length pre) = Some (fl_get fs nm).
Proof.
  revert pre fs bs. induction fuel as [|fuel IH]; intros pre fs bs Hfit Hc He Hf; [lia|].
  cbn [getLoop]. destruct fs as [|f fs]; [by rewrite read_nil|].
  apply Forall_cons in Hc as [Hcf Hc].
  destruct (read_cons st pre f fs bs Hfit Hcf He) as (b & rest & -> & Hb & Hr & ->).
  cbn [fl_get]. destruct (getEntry nm (name f) (kind (value f)) (stored (value f))); [done..|].
  rewrite (assoc_L (++)). apply IH; [by eapply fits_tail|done..|simpl in Hf; lia].
Qed.

Lemma scanLoop_spec {S} (iter : S -> Field -> S * bool) st fuel pre fs bs s :
  fits st fs -> Forall (fun f => canonical (value f)) fs -> encodes st fs bs ->
  (length fs < fuel)%nat ->
  scanLoop iter fuel st (pre ++ bs) (length pre) s = Some (iter_while iter s fs).
Proof.
  revert pre fs bs s. induction fuel as [|fuel IH]; intros pre fs bs s Hfit Hc He Hf; [lia|].
  cbn [scanLoop]. destruct fs as [|f fs]; [by rewrite read_nil|].
  apply Forall_cons in Hc as [Hcf Hc].
  destruct (read_cons st pre f fs bs Hfit Hcf He) as (b & rest & -> & Hb & Hr & ->).
  rewrite bfield_stored by done. cbn [iter_while]. destruct (iter s f) as [s' []]; [|done].
  rewrite (assoc_L (++)). apply IH; [by eapply fits_tail|done..|simpl in Hf; lia].
Qed.

(** [Len] reads the same bytes as [readEntry], without the names. *)
Lemma lenLoop_read fuel st b i r :
  readEntry st b i = Some r ->
  lenLoop (S fuel) b i =
    match r with
    | None => Some 0
    | Some (_, _, _, e) => match lenLoop fuel b e with Some c => Some (c + 1) | None => None end
    end.
Proof.
  unfold readEntry. cbn [lenLoop]. destruct (uvarint (drop i b)) as [x n].
  destruct (n =? 0)%nat; [by intros [= <-]|].
  destruct (Load st x) as [nm|]; [|done]. destruct (b !! (i + n)%nat) as [kb|]; [|done].
  destruct (datakind (code kb)).
  - destruct (uvarint (drop (S (i + n)) b)) as [y m]. case_match; [|done].
    by intros [= <-].
  - by intros [= <-].
Qed.

Lemma lenLoop_spec st fuel pre fs bs :
  fits st fs -> Forall (fun f => canonical (value f)) fs -> encodes st fs bs ->
  (length fs < fuel)%nat ->
  lenLoop fuel (pre ++ bs) (length pre) = Some (Z.of_nat (length fs)).
Proof.
  revert pre fs bs. induction fuel as [|fuel IH]; intros pre fs bs Hfit Hc He Hf; [lia|].
  destruct fs as [|f fs]; [by rewrite (lenLoop_read _ st _ _ None) by (by apply read_nil)|].
  apply Forall_cons in Hc as [Hcf Hc].
  destruct (read_cons st pre f fs bs Hfit Hcf He) as (b & rest & -> & Hb & Hr & Hread).
  rewrite (lenLoop_read _ _ _ _ _ Hread), (assoc_L (++)), (IH _ fs);
    [f_equal; simpl; lia|by eapply fits_tail|done..|simpl in Hf; lia].
Qed.

Section reading.
Context st p fs (Hrep : rep st p fs) (Hok : fields_ok fs) (Hfit : fits st fs).

Lemma rep_body :
  exists body, ptob p = Some body /\ encodes st fs body /\
    (length fs < S (length body))%nat /\ Forall (fun f => canonical (value f)) fs.
Proof.
  destruct (ptob_rep st p fs Hrep) as (body & Hp & He & _). exists body.
  split_and!; [done..|apply encodes_length in He; lia|].
  eapply Forall_impl; [apply Hok|naive_solver].
Qed.

Lemma Get_fl_get `{Gjson} nm : Get st p nm = Some (fl_get fs nm).
Proof.
  destruct rep_body as (body & Hp & He & Hl & Hc). unfold Get. rewrite Hp.
  by apply (getLoop_spec st _ nm []).
Qed.

Lemma Scan_iter {S} (iter : S -> Field -> S * bool) s :
  Scan st p iter s = Some (iter_while iter s fs).
Proof.
  destruct rep_body as (body & Hp & He & Hl & Hc). unfold Scan. rewrite Hp.
  by apply (scanLoop_spec iter st _ []).
Qed.

Lemma Len_length : Len p = Some (Z.of_nat (length fs)).
Proof.
  destruct rep_body as (body & Hp & He & Hl & Hc). unfold Len. rewrite Hp.
  by apply (lenLoop_spec st _ []).
Qed.

Lemma Weight_length : Weight p = Z.of_nat (length (default [] p)).
Proof.
  destruct p as [m|]; [|done]. destruct Hrep as (body & -> & _ & Hlen). simpl.
  set (h := PutUvarint _). rewrite take_app, take_ge by apply PutUvarint_length.
  unfold h at 1. rewrite uvarint_bytes by lia. rewrite length_app. fold h. lia.
Qed.
End reading.

Lemma fl_get_find `{Gjson} fs nm :
  fields_ok fs -> split_dot nm = None -> fl_get fs nm = default ZeroField (fl_find fs nm).
Proof.
  intros [Hs Hf] Hd. induction Hs as [|f fs Hs IH F]; [done|].
  apply Forall_cons in Hf as [[Hcf _] Hf]. cbn [fl_get]. unfold getEntry. rewrite Hd.
  destruct (nm <s name f) eqn:E1.
  - rewrite sorted_find_None; [done|]. constructor; [done|].
    eapply Forall_impl; [exact F|]. intros g Hg. exact (str_ltb_trans _ _ _ E1 Hg).
  - unfold fl_find; simpl. destruct (String.eqb_spec (name f) nm) as [<-|].
    + by rewrite bfield_stored.
    + by apply IH.
Qed.

(** C40. The packed list refines the plain one: on a packed list that holds the fields
    [fs], [Set] of [list_binary.go] neither panics nor runs out of buffer, and yields a
    packed list that holds exactly what [Set] of [list_struct.go] yields for [fs]. Every
    other packed list keeps its fields, and the shared names stay consistent. *)
Theorem Set_refines_struct st p fs f :
  sstrings_ok st -> rep st p fs -> fields_ok fs -> fits st fs -> canonical (value f) ->
  room p f ->
  exists p' st', Set_ st p f = Some (p', st') /\ rep st' p' (Struct.Set_ fs f) /\
    fields_ok (Struct.Set_ fs f) /\ sstrings_ok st' /\
    forall q gs, rep st q gs -> rep st' q gs.
Proof.
  intros Hok Hrep Hfs Hfit Hc Hroom. rewrite Struct.Set_fl_set by apply Hfs.
  destruct (packed_Set_fl_set st p fs f) as (p' & st' & Hset & Hrep' & Hok' & Hext); [done..|].
  exists p', st'. split_and!; [done..|by apply fl_set_ok|done|].
  intros q gs. by apply rep_extends.
Qed.

Lemma fits_set st st' fs f :
  fits st fs -> fits st [f] -> Sstring.Len st' < 2 ^ 63 -> fits st' (fl_set fs f).
Proof.
  intros [_ Hd] [_ [Hf _]%Forall_cons] Hl. split; [done|].
  apply Forall_forall. intros g [->|Hg]%elem_of_fl_set; [done|].
  rewrite Forall_forall in Hd. by apply Hd.
Qed.

Lemma Set_len st p f p' st' : Set_ st p f = Some (p', st') -> Sstring.Len st' <= 1 + Sstring.Len st.
Proof.
  unfold Set_, putfield. pose proof (Store_len st (name f)) as Hl.
  destruct (Store st (name f)) as [num st1]. simpl in Hl.
  repeat case_match; intros; simplify_eq; lia.
Qed.

(** [Get] after [Set] on packed lists, for a name without a dot: the field set
    unless it is zero (deleted) or the field that was there counts as equal (kept);
    other names give what they gave before. *)
Theorem Get_Set `{Gjson} st p fs f n :
  sstrings_ok st -> rep st p fs -> fields_ok fs -> fits st fs -> fits st [f] ->
  canonical (value f) -> room p f -> Sstring.Len st + 1 < 2 ^ 63 -> split_dot n = None ->
  Get st p n = Some (default ZeroField (fl_find fs n)) /\
  exists p' st', Set_ st p f = Some (p', st') /\
    Get st' p' n = Some
      (if name f =s n then
         if IsZero (value f) then ZeroField
         else match fl_find fs n with
              | Some g => if Equals (value g) (value f) then g else f
              | None => f
              end
       else default ZeroField (fl_find fs n)).
Proof.
  intros Hok Hrep Hfs Hfit Hff Hc Hroom Hl Hd. split.
  { by rewrite (Get_fl_get st p fs), fl_get_find. }
  destruct (packed_Set_fl_set st p fs f) as (p' & st' & Hset & Hrep' & Hok' & Hext); [done..|].
  exists p', st'. split; [done|]. pose proof (Set_len _ _ _ _ _ Hset).
  pose proof (fl_set_ok fs f Hfs Hc) as Hfs'.
  rewrite (Get_fl_get st' p' (fl_set fs f)), fl_get_find; [|done..|].
  2: { apply (fits_set st); [done..|lia]. }
  rewrite fl_find_set by apply Hfs. destruct (name f =s n); [|done].
  destruct (IsZero (value f)); [done|]. destruct (fl_find fs n); [|done].
  by destruct (Equals _ _).
Qed.

(** [Scan] hands the callback exactly the fields the list holds, in name order,
    until it returns false; [Len] counts them and [Weight] is the size of the buffer. *)
Theorem Scan_Len_Weight {S} (iter : S -> Field -> S * bool) st p fs s :
  rep st p fs -> fields_ok fs -> fits st fs ->
  Scan st p iter s = Some (iter_while iter s fs) /\
  Len p = Some (Z.of_nat (length fs)) /\
  Weight p = Z.of_nat (length (default [] p)).
Proof.
  intros. split_and!; [by apply Scan_iter|by eapply Len_length|by eapply Weight_length].
Qed.
End binary.

(** ** A list with two fields *)

Definition ex_speed : Field := mkField "speed" (mkValue Number "10" (f64_of_Z 10)).
Definition ex_kind : Field := mkField "kind" (mkValue String_ "truck" f64_zero).
Definition ex_store : sstrings (gmap string) :=
  (Store (Store sstrings_init "kind").2 "speed").2.
Definition ex_list : List :=
  Some (let body := entry 0 (value ex_kind) ++ entry 1 (value ex_speed) in
        PutUvarint (Z.of_nat (length body)) ++ body).

Lemma ex_store_ok : sstrings_ok ex_store.
Proof. apply Store_ok, Store_ok, sstrings_init_ok. Qed.
Lemma ex_rep : rep ex_store ex_list [ex_kind; ex_speed].
Proof.
  eexists. split_and!; [done| |by vm_compute].
  apply (enc_cons _ ex_kind [ex_speed]); [by exists 0|].
  rewrite <- (app_nil_r (entry 1 _)). constructor; [by exists 1|constructor].
Qed.
Lemma ex_fields_ok : fields_ok [ex_kind; ex_speed].
Proof.
  split; [by repeat constructor|].
  repeat (apply Forall_cons; split; [by repeat split|]). constructor.
Qed.
Lemma ex_fits : fits ex_store [ex_kind; ex_speed].
Proof.
  split; [by vm_compute|]. repeat (apply Forall_cons; split; [by vm_compute|]). constructor.
Qed.

(** A toy [gjson]: no document is valid JSON but a number. *)
Definition ex_gjson : Gjson := {|
  gjson_Valid := fun s => (ParseFloat s).2;
  gjson_Parse := fun s => (Number, s);
  gjson_Get := fun _ _ => None;
  gjson_JSONString := quoted;
  pretty_Ugly := fun s => s |}.

Lemma Set_refines_struct_witness :
  let f := mkField "age" (mkValue Number "3" (f64_of_Z 3)) in
  exists p' st', Set_ ex_store ex_list f = Some (p', st') /\
    rep st' p' (Struct.Set_ [ex_kind; ex_speed] f).
Proof.
  intros f. destruct (Set_refines_struct ex_store ex_list [ex_kind; ex_speed] f)
    as (p' & st' & H1 & H2 & _); [apply ex_store_ok|apply ex_rep|apply ex_fields_ok
    |apply ex_fits|done|by vm_compute|]. by exists p', st'.
Defined.

Lemma Get_Set_witness :
  exists p' st', Set_ ex_store ex_list ZeroField = Some (p', st') /\
    Get (H0 := ex_gjson) st' p' "speed" = Some ex_speed.
Proof.
  destruct (Get_Set (H0 := ex_gjson) ex_store ex_list [ex_kind; ex_speed] ZeroField "speed")
    as (_ & p' & st' & H1 & H2); [apply ex_store_ok|apply ex_rep|apply ex_fields_ok
    |apply ex_fits|..|by exists p', st']; try done.
  split; [done|]. by repeat constructor.
Defined.

Lemma Scan_Len_Weight_witness :
  Scan ex_store ex_list (fun n f => (n ++ [name f], true)) [] = Some ["kind"; "speed"] /\
  Len ex_list = Some 2 /\ Weight ex_list = 14.
Proof.
  apply (Scan_Len_Weight (fun n f => (n ++ [name f], true)) ex_store ex_list
    [ex_kind; ex_speed] []); [apply ex_rep|apply ex_fields_ok|apply ex_fits].
Defined.
