(* ===== verification/Geo.v ===== *)
(** * Geometries

    An item of a collection holds a [geojson.Object]: a geometry of the imported
    [geojson] package, or a plain string, which [collection/string.go] makes implement
    the same interface. The geometries are the parameter [G] with the methods the engine
    calls (class [GeoJSON]); strings are the engine's own. *)

From Stdlib Require Import Ascii String ZArith Lia Bool SpecFloat.
From stdpp Require Import base list strings option.
From S2P Require Import Prelude GoStd Strconv Json.

Local Open Scope Z_scope.

(** [geometry.Point] and [geometry.Rect]. *)
Record Point := mkPoint { X : float64; Y : float64 }.
Record Rect := mkRect { Min : Point; Max : Point }.

#[global] Instance Point_eq_dec : EqDecision Point.
Proof. solve_decision. Defined.
#[global] Instance Rect_eq_dec : EqDecision Rect.
Proof. solve_decision. Defined.

(** The zero values [geometry.Point{}] and [geometry.Rect{}]. *)
Definition zeroPoint : Point := mkPoint f64_zero f64_zero.
Definition zeroRect : Rect := mkRect zeroPoint zeroPoint.

(** The type switch of the engine: a [*geojson.Point] with its [Z()], a
    [*geojson.Feature] with its [Base()], another type. *)
Inductive shape (G : Type) := PointZ (z : float64) | FeatureOf (base : G) | OtherShape.
Arguments PointZ {G}.
Arguments FeatureOf {G}.
Arguments OtherShape {G}.

(** The methods of [geojson.Object] on geometries. [geo_simple] is [Some] of the base
    point for a [*SimplePoint] and for a [*Point] that [IsSimple], and [geo_point] is
    [&SimplePoint{Point: pt}]. The relations between two objects take the string case of
    the second into account on the engine's side. [geo_depth] bounds the number of
    features around a geometry. *)
Class GeoJSON (G : Type) := {
  geo_simple : G -> option Point;
  geo_point : Point -> G;
  geo_Empty : G -> bool;
  geo_Rect : G -> Rect;
  geo_Center : G -> Point;
  geo_JSON : G -> string;
  geo_String : G -> string;
  geo_NumPoints : G -> Z;
  geo_Within : G -> G -> bool;
  geo_Intersects : G -> G -> bool;
  geo_Distance : G -> G -> float64;
  geo_Members : G -> string;
  geo_shape : G -> shape G;
  geo_depth : G -> nat;
}.

Section objects.
Context {G : Type} `{GeoJSON G}.

(** [geojson.Object] as the engine uses it. *)
Inductive geometry := Str (s : string) | Geom (g : G).

Definition Empty (o : geometry) : bool :=
  match o with Str _ => true | Geom g => geo_Empty g end.
Definition RectOf (o : geometry) : Rect :=
  match o with Str _ => zeroRect | Geom g => geo_Rect g end.
Definition Center (o : geometry) : Point :=
  match o with Str _ => zeroPoint | Geom g => geo_Center g end.
Definition StringOf (o : geometry) : string :=
  match o with Str s => s | Geom g => geo_String g end.
Definition JSON (o : geometry) : string :=
  match o with Str s => Marshal s | Geom g => geo_JSON g end.
Definition NumPoints (o : geometry) : Z :=
  match o with Str _ => 0 | Geom g => geo_NumPoints g end.
(** The type assertion [o.(geojson.Spatial)]: strings do not implement it. *)
Definition IsSpatial (o : geometry) : bool :=
  match o with Str _ => false | Geom _ => true end.
Definition Within (o : geometry) (b : G) : bool :=
  match o with Str _ => false | Geom g => geo_Within g b end.
Definition Intersects (o : geometry) (b : G) : bool :=
  match o with Str _ => false | Geom g => geo_Intersects g b end.
Definition Distance (o : geometry) (b : G) : float64 :=
  match o with Str _ => f64_zero | Geom g => geo_Distance g b end.
Definition Members (o : geometry) : string :=
  match o with Str _ => "" | Geom g => geo_Members g end.

(** [extractZCoordinate] of [server/scanner.go]. *)
Fixpoint extractZ (fuel : nat) (g : G) : float64 :=
  match geo_shape g with
  | PointZ z => z
  | FeatureOf base => match fuel with O => f64_zero | S fuel => extractZ fuel base end
  | OtherShape => f64_zero
  end.
Definition extractZCoordinate (o : geometry) : float64 :=
  match o with Str _ => f64_zero | Geom g => extractZ (geo_depth g) g end.

End objects.
Arguments geometry : clear implicits.

(** ** Boxes, for examples: a geometry is its rectangle *)
Module Boxes.

Definition pt (x y : Z) : Point := mkPoint (f64_of_Z x) (f64_of_Z y).
Definition box (x0 y0 x1 y1 : Z) : Rect := mkRect (pt x0 y0) (pt x1 y1).

Definition inside (a b : Rect) : bool :=
  f64_le (X (Min b)) (X (Min a)) && f64_le (Y (Min b)) (Y (Min a)) &&
  f64_le (X (Max a)) (X (Max b)) && f64_le (Y (Max a)) (Y (Max b)).
Definition meets (a b : Rect) : bool :=
  f64_le (X (Min a)) (X (Max b)) && f64_le (X (Min b)) (X (Max a)) &&
  f64_le (Y (Min a)) (Y (Max b)) && f64_le (Y (Min b)) (Y (Max a)).

#[global] Instance rect_GeoJSON : GeoJSON Rect := {|
  geo_simple := fun r => if bool_decide (Min r = Max r) then Some (Min r) else None;
  geo_point := fun p => mkRect p p;
  geo_Empty := fun _ => false;
  geo_Rect := fun r => r;
  geo_Center := fun r => Min r;
  geo_JSON := fun _ => "box";
  geo_String := fun _ => "box";
  geo_NumPoints := fun r => if bool_decide (Min r = Max r) then 1 else 4;
  geo_Within := fun a b => inside a b && meets a b;
  geo_Intersects := meets;
  geo_Distance := fun _ _ => f64_zero;
  geo_Members := fun _ => "";
  geo_shape := fun r => if bool_decide (Min r = Max r) then PointZ f64_zero else OtherShape;
  geo_depth := fun _ => 0%nat |}.

End Boxes.
