(* ===== verification/Object.v ===== *)
(** * Objects ([src/internal/legacy/object])

    An item of a collection: id, geometry, expiration time and fields. The build uses
    [object_binary.go] (module [Packed]), which packs kind, expiration and id into one
    string; [object_struct.go] is the plain record. [Packed.New_refines] shows that the
    packed form answers every method as the plain one, so the components above use the
    plain record. *)

From Stdlib Require Import Ascii String ZArith Lia Bool SpecFloat.
From stdpp Require Import base list strings option.
From S2P Require Import Prelude GoStd Strconv Field Geo.

Local Open Scope Z_scope.

(** The size in bytes of a field list as it is stored, [Fields().Weight()]. *)
Class FieldsWeight := fields_weight : list Field -> Z.

Section objects.
Context {G : Type} `{GeoJSON G}.

(** ** The plain object *)

Record Object := mkObject {
  ID : string;
  Geo : geometry G;
  Expires : Z;
  Fields : list Field }.

Definition New (id : string) (geo : geometry G) (expires : Z) (fields : list Field) : Object :=
  mkObject id geo expires fields.

Definition Weight `{FieldsWeight} (o : Object) : Z :=
  Z.of_nat (String.length (ID o)) +
  (if IsSpatial (Geo o) then NumPoints (Geo o) * 16
   else Z.of_nat (String.length (StringOf (Geo o)))) +
  fields_weight (Fields o).

End objects.
Arguments Object : clear implicits.

(** ** The packed object *)

Module Packed.
Section packed.
Context {G : Type} `{GeoJSON G}.

Definition opoint : Z := 1.
Definition ogeo : Z := 2.

(** What follows the common part in memory: [pointObject.pt] or [geoObject.geo]. *)
Inductive tail := PointTail (pt : Point) | GeoTail (geo : geometry G).

Record PObject := mkP { head : string; fields : list Field; tail_ : tail }.

(** [o.geo()]: the first byte says which of the two the memory is; [None] where it is
    not what the byte says. *)
Definition geo (o : PObject) : option (geometry G) :=
  match head o with
  | String k _ =>
    if code k =? opoint then
      match tail_ o with PointTail pt => Some (Geom (geo_point pt)) | GeoTail _ => None end
    else if code k =? ogeo then
      match tail_ o with GeoTail g => Some g | PointTail _ => None end
    else None
  | EmptyString => None
  end.

(** [uvarint(s)] and [varint(s)] of [object_binary.go]. *)
Definition uvarint (s : string) : Z * nat :=
  let '(x, n) := uvarint_loop 0 0 (bytes_of s) in (x, Z.to_nat n).

Definition varint (s : string) : Z * nat :=
  let '(ux, n) := uvarint s in
  let x := int64 (Z.shiftr ux 1) in
  (if Z.odd ux then Z.lnot x else x, n).

Definition ID (o : PObject) : string :=
  match head o with
  | String _ s1 =>
    match s1 with
    | String c s2 =>
      if code c =? 0 then s2 else let '(_, n) := varint s1 in str_drop n s1
    | EmptyString => ""
    end
  | EmptyString => ""
  end.

Definition Expires (o : PObject) : Z := (varint (str_drop 1 (head o))).1.

Definition Rect (o : PObject) : Geo.Rect :=
  match geo o with None => zeroRect | Some g => RectOf g end.

Definition String' (o : PObject) : string :=
  match geo o with None => "" | Some g => StringOf g end.

Definition IsSpatial (o : PObject) : bool :=
  match geo o with None => false | Some g => Geo.IsSpatial g end.

Definition Weight `{FieldsWeight} (o : PObject) : Z :=
  let weight := Z.of_nat (String.length (ID o)) in
  let weight :=
    match geo o with
    | None => weight
    | Some g => if IsSpatial o then weight + NumPoints g * 16
                else weight + Z.of_nat (String.length (StringOf g))
    end in
  weight + fields_weight (fields o).

Definition makeHead (kind : Z) (id : string) (expires : Z) : string :=
  let exb := if negb (expires =? 0) then PutVarint expires else [chr 0] in
  string_of (chr kind :: exb ++ bytes_of id).

Definition newPoint (id : string) (pt : Point) (expires : Z) (fields : list Field) : PObject :=
  mkP (makeHead opoint id expires) fields (PointTail pt).
Definition newGeo (id : string) (geo : geometry G) (expires : Z) (fields : list Field) : PObject :=
  mkP (makeHead ogeo id expires) fields (GeoTail geo).

Definition New (id : string) (geo : geometry G) (expires : Z) (fields : list Field) : PObject :=
  match geo with
  | Geom g =>
    match geo_simple g with
    | Some pt => newPoint id pt expires fields
    | None => newGeo id geo expires fields
    end
  | Str _ => newGeo id geo expires fields
  end.

(** The geometry an object keeps: simple points become a [SimplePoint]. *)
Definition kept (g : geometry G) : geometry G :=
  match g with
  | Geom h => match geo_simple h with Some pt => Geom (geo_point pt) | None => g end
  | Str _ => g
  end.

(** ** The head *)

Lemma lxor_ones x : 0 <= x < 2 ^ 64 -> Z.lxor x (2 ^ 64 - 1) = 2 ^ 64 - 1 - x.
Proof.
  intros Hx. change (2 ^ 64 - 1) with (Z.ones 64).
  assert (Z.lxor x (Z.ones 64) = Z.ldiff (Z.ones 64) x) as ->.
  { apply Z.bits_inj'. intros n Hn. rewrite Z.lxor_spec, Z.ldiff_spec.
    destruct (Z.ltb_spec n 64) as [Hlt|Hge].
    - rewrite Z.ones_spec_low by lia. by destruct (Z.testbit x n).
    - rewrite Z.ones_spec_high by lia.
      replace (Z.testbit x n) with false; [done|]. symmetry.
      apply Z.testbit_false; [done|]. rewrite Z.div_small; [done|].
      split; [lia|]. eapply Z.lt_le_trans; [apply Hx|]. apply Z.pow_le_mono_r; lia. }
  symmetry. apply Z.sub_nocarry_ldiff.
  apply Z.bits_inj'. intros n Hn. rewrite Z.ldiff_spec, Z.bits_0.
  destruct (Z.ltb_spec n 64).
  - rewrite Z.ones_spec_low by lia. by destruct (Z.testbit x n).
  - replace (Z.testbit x n) with false; [done|]. symmetry.
    apply Z.testbit_false; [done|]. rewrite Z.div_small; [done|].
    split; [lia|]. eapply Z.lt_le_trans; [apply Hx|]. apply Z.pow_le_mono_r; lia.
Qed.

(** The zig-zag code of an [int64]. *)
Definition zigzag (x : Z) : Z := if x <? 0 then - 2 * x - 1 else 2 * x.

Lemma PutVarint_zigzag x : is_int64 x -> PutVarint x = PutUvarint (zigzag x).
Proof.
  unfold is_int64, PutVarint, zigzag. intros Hx. f_equal. rewrite Z.shiftl_mul_pow2 by lia.
  unfold wrap64. destruct (Z.ltb_spec x 0).
  - replace ((x * 2 ^ 1) mod 2 ^ 64) with (2 * x + 2 ^ 64).
    + rewrite lxor_ones; lia.
    + rewrite <- (Z.mod_add (x * 2 ^ 1) 1) by lia. rewrite Z.mod_small; lia.
  - rewrite Z.mod_small; lia.
Qed.

Lemma zigzag_range x : is_int64 x -> is_uint64 (zigzag x).
Proof. unfold is_int64, is_uint64, zigzag. intros. case_match; boolify; lia. Qed.

Lemma zigzag_decode x :
  is_int64 x ->
  (if Z.odd (zigzag x) then Z.lnot (int64 (Z.shiftr (zigzag x) 1))
   else int64 (Z.shiftr (zigzag x) 1)) = x.
Proof.
  intros Hx. unfold zigzag. rewrite Z.shiftr_div_pow2 by lia. change (2 ^ 1) with 2.
  unfold is_int64 in Hx. destruct (Z.ltb_spec x 0).
  - replace (- 2 * x - 1) with (2 * (- x - 1) + 1) by lia.
    rewrite Z.odd_add, Z.odd_mul. simpl xorb. cbv iota.
    replace ((2 * (- x - 1) + 1) / 2) with (- x - 1) by (apply (Z.div_unique _ _ _ 1); lia).
    rewrite int64_id by (unfold is_int64; lia). unfold Z.lnot. lia.
  - rewrite Z.odd_mul. simpl. rewrite Z.mul_comm, Z.div_mul by lia.
    apply int64_id. unfold is_int64. lia.
Qed.

Lemma varint_put x rest :
  is_int64 x ->
  varint (string_of (PutVarint x ++ rest)) = (x, length (PutVarint x)).
Proof.
  intros Hx. unfold varint, uvarint. rewrite bytes_of_string, PutVarint_zigzag by done.
  rewrite uvarint_put by (by apply zigzag_range). rewrite Nat2Z.id.
  f_equal. by apply zigzag_decode.
Qed.

(** A nonzero expiration does not start with a zero byte. *)
Lemma PutVarint_head x :
  is_int64 x -> x <> 0 -> exists c l, PutVarint x = c :: l /\ code c <> 0.
Proof.
  intros Hx Hne. rewrite PutVarint_zigzag by done. unfold PutUvarint.
  assert (0 < zigzag x) as Hz.
  { unfold zigzag. case_match; boolify; lia. }
  rewrite PutUvarintF_S. destruct (Z.ltb_spec (zigzag x) 0x80).
  - eexists _, _. split; [done|]. rewrite code_chr_small; lia.
  - eexists _, _. split; [done|]. rewrite cont_byte by lia.
    pose proof (Z.mod_pos_bound (zigzag x) 128). lia.
Qed.

Lemma head_ID kind id ex fs t :
  is_int64 ex -> ID (mkP (makeHead kind id ex) fs t) = id.
Proof.
  intros Hx. unfold ID, makeHead. destruct (Z.eqb_spec ex 0) as [->|Hne]; simpl.
  - by rewrite string_of_bytes.
  - destruct (PutVarint_head ex Hx Hne) as (c & l & E & Hc). rewrite E. simpl.
    rewrite (proj2 (Z.eqb_neq _ _) Hc).
    change (String c (string_of (l ++ bytes_of id))) with (string_of ((c :: l) ++ bytes_of id)).
    rewrite <- E, varint_put by done. rewrite string_of_app, <- length_string_of.
    by rewrite str_drop_app, string_of_bytes.
Qed.

Lemma head_Expires kind id ex fs t :
  is_int64 ex -> Expires (mkP (makeHead kind id ex) fs t) = ex.
Proof.
  intros Hx. unfold Expires, makeHead. cbn [head].
  assert (forall c l, str_drop 1 (string_of (c :: l)) = string_of l) as -> by done.
  destruct (Z.eqb_spec ex 0) as [->|Hne]; [done|]. simpl negb. cbv iota.
  by rewrite varint_put.
Qed.

Lemma head_kind kind id ex fs t :
  0 <= kind < 256 ->
  geo (mkP (makeHead kind id ex) fs t) =
    if kind =? opoint then
      match t with PointTail pt => Some (Geom (geo_point pt)) | GeoTail _ => None end
    else if kind =? ogeo then match t with GeoTail g => Some g | PointTail _ => None end
    else None.
Proof.
  intros Hk. unfold geo, makeHead. cbn [head tail_].
  assert (forall c l, string_of (c :: l) = String c (string_of l)) as -> by done.
  by rewrite code_chr_small.
Qed.

(** A packed object gives back what it was made of: id, expiration (any [int64],
    zero included), fields and geometry; and its [Rect], [String], [IsSpatial] and
    [Weight] are those of the plain object with these parts. *)
Theorem New_refines `{FieldsWeight} id g ex fs :
  is_int64 ex ->
  let o := New id g ex fs in
  let o' := Object.New id (kept g) ex fs in
  ID o = Object.ID o' /\ Expires o = Object.Expires o' /\ fields o = Object.Fields o' /\
  geo o = Some (Object.Geo o') /\ Rect o = RectOf (Object.Geo o') /\
  String' o = StringOf (Object.Geo o') /\ IsSpatial o = Geo.IsSpatial (Object.Geo o') /\
  Weight o = Object.Weight o'.
Proof.
  intros Hx o o'.
  assert (exists kind t, o = mkP (makeHead kind id ex) fs t /\ geo o = Some (kept g)) as
    (kind & t & Ho & Hg).
  { subst o. unfold New, kept, newPoint, newGeo. destruct g as [s|h].
    - eexists _, _. split; [done|]. by rewrite head_kind.
    - destruct (geo_simple h); eexists _, _; (split; [done|]); by rewrite head_kind. }
  assert (ID o = id) as Hid by (rewrite Ho; by apply head_ID).
  assert (Expires o = ex) as Hex by (rewrite Ho; by apply head_Expires).
  assert (fields o = fs) as Hfs by (by rewrite Ho).
  unfold Rect, String', Weight, IsSpatial, Object.Weight. rewrite Hid, Hg, Hfs, Hex. simpl.
  split_and!; try done. by destruct (Geo.IsSpatial (kept g)).
Qed.
End packed.
End Packed.

Lemma New_refines_witness :
  let fw : FieldsWeight := fun fs => Z.of_nat (length fs) in
  Packed.ID (Packed.New "truck1" (Geom (Boxes.box 1 2 1 2)) 1700000000000000000 []) = "truck1".
Proof.
  intros fw.
  apply (Packed.New_refines "truck1" (Geom (Boxes.box 1 2 1 2)) 1700000000000000000 []).
  unfold is_int64. lia.
Defined.
