(* ===== verification/Collection.v ===== *)
(** * Collections ([src/internal/legacy/collection/collection.go])

    A collection keeps its objects in a map by id, and keeps up to date with it: a
    spatial index of the non-empty geometries, an ordered set of the string objects by
    value, an ordered set of the objects with an expiration, and four counters. This
    file has the operations and the proof that the indexes always describe the map. *)

From Stdlib Require Import Ascii String ZArith Lia Bool SpecFloat.
From stdpp Require Import base list strings option sorting sets gmap.
From S2P Require Import Prelude GoStd Strconv Containers Field Geo Object.

Local Open Scope Z_scope.

(** ** Comparisons *)

Section comparisons.
Context {G : Type} `{GeoJSON G}.

Definition byID (a b : Object G) : bool := ID a <s ID b.

Definition byValue (a b : Object G) : bool :=
  let value1 := StringOf (Geo a) in
  let value2 := StringOf (Geo b) in
  if value1 <s value2 then true
  else if value2 <s value1 then false
  else byID a b.

Definition byExpires (a b : Object G) : bool :=
  if Expires a <? Expires b then true
  else if Expires b <? Expires a then false
  else byID a b.

(** Two objects a comparison does not tell apart have the same id. *)
Lemma byID_equiv a b : equivb byID a b = true -> ID a = ID b.
Proof. apply (str_equiv ID). Qed.

Lemma byValue_equiv a b : equivb byValue a b = true -> ID a = ID b.
Proof. intros [_ He]%(lex_equiv (fun o => StringOf (Geo o)) byID). by apply byID_equiv. Qed.

Lemma byExpires_equiv a b : equivb byExpires a b = true -> ID a = ID b.
Proof.
  unfold equivb, byExpires. boolify. intros [H1 H2]. apply byID_equiv.
  unfold equivb, byID in *. boolify.
  destruct (Expires a <? Expires b); [done|]. by destruct (Expires b <? Expires a).
Qed.

#[global] Instance byID_sw : StrictWeak byID.
Proof. apply str_sw. Qed.

#[global] Instance byValue_sw : StrictWeak byValue.
Proof. apply (lex_sw (fun o => StringOf (Geo o)) byID), _. Qed.

#[global] Instance byExpires_sw : StrictWeak byExpires.
Proof.
  split; unfold byExpires.
  - intros x. rewrite Z.ltb_irrefl. apply sw_irrefl.
  - intros x y z. pose proof (sw_trans (less := byID) x y z).
    destruct (Z.ltb_spec (Expires x) (Expires y)), (Z.ltb_spec (Expires y) (Expires x)),
      (Z.ltb_spec (Expires y) (Expires z)), (Z.ltb_spec (Expires z) (Expires y)),
      (Z.ltb_spec (Expires x) (Expires z)), (Z.ltb_spec (Expires z) (Expires x));
      (done || lia || auto).
  - intros x y z. pose proof (sw_incomp (less := byID) x y z).
    destruct (Z.ltb_spec (Expires x) (Expires y)), (Z.ltb_spec (Expires y) (Expires x)),
      (Z.ltb_spec (Expires y) (Expires z)), (Z.ltb_spec (Expires z) (Expires y)),
      (Z.ltb_spec (Expires x) (Expires z)), (Z.ltb_spec (Expires z) (Expires x));
      (done || lia || auto).
Qed.
End comparisons.

(** ** Boxes of the spatial index: [float32], rounded outwards *)

Definition f32_of_f64 (d : float64) : spec_float :=
  match d with S754_finite s m e => binary_round 24 128 s m e | _ => d end.
Definition f64_of_f32 (f : spec_float) : float64 :=
  match f with S754_finite s m e => binary_round f64_prec f64_emax s m e | _ => f end.

(** [1.0 - 1.0/8388608.0] and [1.0 + 1.0/8388608.0]. *)
Definition dRNDTOWARDS : float64 := binary_round f64_prec f64_emax false 8388607 (-23).
Definition dRNDAWAY : float64 := binary_round f64_prec f64_emax false 8388609 (-23).

Definition rtreeValueDown (d : float64) : spec_float :=
  let f := f32_of_f64 d in
  if f64_lt d (f64_of_f32 f) then
    if f64_lt d f64_zero then f32_of_f64 (f64_mul d dRNDAWAY)
    else f32_of_f64 (f64_mul d dRNDTOWARDS)
  else f.

Definition rtreeValueUp (d : float64) : spec_float :=
  let f := f32_of_f64 d in
  if f64_lt (f64_of_f32 f) d then
    if f64_lt d f64_zero then f32_of_f64 (f64_mul d dRNDTOWARDS)
    else f32_of_f64 (f64_mul d dRNDAWAY)
  else f.

(** [(min, max [2]float32)]. *)
Record fbox := mkBox { bmin : spec_float * spec_float; bmax : spec_float * spec_float }.
#[global] Instance fbox_eq_dec : EqDecision fbox.
Proof. solve_decision. Defined.

Definition rtreeRect (r : Rect) : fbox :=
  mkBox (rtreeValueDown (X (Min r)), rtreeValueDown (Y (Min r)))
        (rtreeValueUp (X (Max r)), rtreeValueUp (Y (Max r))).

Definition box_ok (b : fbox) : bool :=
  negb (IsNaN (bmin b).1 || IsNaN (bmin b).2 || IsNaN (bmax b).1 || IsNaN (bmax b).2).

(** Boxes that share a point. *)
Definition box_meet (a b : fbox) : bool :=
  SFleb (bmin a).1 (bmax b).1 && SFleb (bmin b).1 (bmax a).1 &&
  SFleb (bmin a).2 (bmax b).2 && SFleb (bmin b).2 (bmax a).2.

Example down_tenth :
  let d := (ParseFloat "0.1").1 in
  f64_lt d (f64_of_f32 (f32_of_f64 d)) = true /\ f64_lt (f64_of_f32 (rtreeValueDown d)) d = true.
Proof. by vm_compute. Qed.

Section collection.
Context {G : Type} `{GeoJSON G} `{FieldsWeight}.
Context {M : Type -> Type} `{StrMap M}.
Context {T : forall A, (A -> A -> bool) -> Type} `{BTree T}.
Context {R : Type} `{RTree fbox (Object G) R}.

Record Collection := mkCollection {
  objs : M (Object G);
  spatial : R;
  values : T (Object G) byValue;
  expires : T (Object G) byExpires;
  weight : Z;
  points : Z;
  objects : Z;
  nobjects : Z }.

Definition New : Collection :=
  mkCollection sm_empty rt_empty (bt_new _ byValue) (bt_new _ byExpires) 0 0 0 0.

Definition Count (c : Collection) : Z := objects c + nobjects c.
Definition StringCount (c : Collection) : Z := nobjects c.
Definition PointCount (c : Collection) : Z := points c.
Definition TotalWeight (c : Collection) : Z := weight c.

Definition rtreeItem (item : Object G) : fbox := rtreeRect (RectOf (Geo item)).

Definition indexDelete (c : Collection) (item : Object G) : Collection :=
  if negb (Empty (Geo item)) then
    mkCollection (objs c) (rt_delete (spatial c) (rtreeItem item) item) (values c) (expires c)
      (weight c) (points c) (objects c) (nobjects c)
  else c.

Definition indexInsert (c : Collection) (item : Object G) : Collection :=
  if negb (Empty (Geo item)) then
    mkCollection (objs c) (rt_insert (spatial c) (rtreeItem item) item) (values c) (expires c)
      (weight c) (points c) (objects c) (nobjects c)
  else c.

(** Assignments to single members of the struct. *)
Definition with_objs (c : Collection) m :=
  mkCollection m (spatial c) (values c) (expires c) (weight c) (points c) (objects c) (nobjects c).
Definition with_values (c : Collection) v :=
  mkCollection (objs c) (spatial c) v (expires c) (weight c) (points c) (objects c) (nobjects c).
Definition with_expires (c : Collection) e :=
  mkCollection (objs c) (spatial c) (values c) e (weight c) (points c) (objects c) (nobjects c).
Definition add_objects (c : Collection) n :=
  mkCollection (objs c) (spatial c) (values c) (expires c) (weight c) (points c)
    (objects c + n) (nobjects c).
Definition add_nobjects (c : Collection) n :=
  mkCollection (objs c) (spatial c) (values c) (expires c) (weight c) (points c)
    (objects c) (nobjects c + n).
Definition add_counts (c : Collection) p w :=
  mkCollection (objs c) (spatial c) (values c) (expires c) (weight c + w) (points c + p)
    (objects c) (nobjects c).

(** The branch of [setFill] for a previous object. *)
Definition unfill (c : Collection) (prev : Object G) : Collection :=
  let c := if IsSpatial (Geo prev) then add_objects (indexDelete c prev) (-1)
           else add_nobjects (with_values c (bt_delete (values c) prev)) (-1) in
  let c := if negb (Expires prev =? 0) then with_expires c (bt_delete (expires c) prev) else c in
  add_counts c (- NumPoints (Geo prev)) (- Weight prev).

(** The rest of [setFill]. *)
Definition fill (c : Collection) (obj : Object G) : Collection :=
  let c := if IsSpatial (Geo obj) then add_objects (indexInsert c obj) 1
           else add_nobjects (with_values c (bt_set (values c) obj)) 1 in
  let c := if negb (Expires obj =? 0) then with_expires c (bt_set (expires c) obj) else c in
  add_counts c (NumPoints (Geo obj)) (Weight obj).

Definition setFill (c : Collection) (prev : option (Object G)) (obj : Object G) : Collection :=
  fill (match prev with Some p => unfill c p | None => c end) obj.

(** [Set]: the new collection and the previous object. *)
Definition Set_ (c : Collection) (obj : Object G) : Collection * option (Object G) :=
  let prev := sm_get (objs c) (ID obj) in
  (setFill (with_objs c (sm_set (objs c) (ID obj) obj)) prev obj, prev).

Definition Delete (c : Collection) (id : string) : Collection * option (Object G) :=
  match sm_get (objs c) id with
  | None => (with_objs c (sm_delete (objs c) id), None)
  | Some prev =>
    let c := with_objs c (sm_delete (objs c) id) in
    let c := if IsSpatial (Geo prev)
             then add_objects (if negb (Empty (Geo prev)) then indexDelete c prev else c) (-1)
             else add_nobjects (with_values c (bt_delete (values c) prev)) (-1) in
    let c := if negb (Expires prev =? 0) then with_expires c (bt_delete (expires c) prev) else c in
    (add_counts c (- NumPoints (Geo prev)) (- Weight prev), Some prev)
  end.

Definition Get (c : Collection) (id : string) : option (Object G) := sm_get (objs c) id.

End collection.
Arguments Collection G {_} M T R.

(** ** The indexes describe the map *)

Section facts.
Context {G : Type} `{GeoJSON G} `{FieldsWeight}.
Context {M : Type -> Type} `{StrMapLaws M}.
Context {T : forall A, (A -> A -> bool) -> Type} `{BTreeLaws T}.
Context {R : Type} `{!RTree fbox (Object G) R} `{!RTreeLaws fbox (Object G) R box_ok box_meet}.
Abbreviation Coll := (Collection G M T R).
Implicit Types (c : Coll) (o : Object G) (l : list (Object G)).

(** The objects of a collection, by id. *)
Definition all c : list (Object G) := (sm_items (objs c)).*2.

(** The entries of the spatial index for the objects [l]. *)
Definition boxed o : bool := IsSpatial (Geo o) && negb (Empty (Geo o)).
Definition boxes l : list (fbox * Object G) :=
  (fun o => (rtreeItem o, o)) <$> filter (fun o => boxed o = true) l.

(** No coordinate of an indexed object is NaN. *)
Definition obj_ok o : bool := negb (boxed o) || box_ok (rtreeItem o).

(** The indexes and counters of [c] are those of the objects [l]. *)
Record indexed c l : Prop := {
  ix_spatial : rt_items (spatial c) ≡ₚ boxes l;
  ix_values : forall o, o ∈ bt_items (values c) <-> o ∈ l /\ IsSpatial (Geo o) = false;
  ix_expires : forall o, o ∈ bt_items (expires c) <-> o ∈ l /\ Expires o <> 0;
  ix_weight : weight c = zsum Weight l;
  ix_points : points c = zsum (fun o => NumPoints (Geo o)) l;
  ix_objects : objects c = zsum (fun o => if IsSpatial (Geo o) then 1 else 0) l;
  ix_nobjects : nobjects c = zsum (fun o => if IsSpatial (Geo o) then 0 else 1) l;
}.

Record coll_ok c : Prop := {
  ok_keys : forall k o, sm_get (objs c) k = Some o -> ID o = k;
  ok_objs : Forall (fun o => obj_ok o = true) (all c);
  ok_indexed : indexed c (all c);
}.

#[global] Instance boxes_perm : Proper ((≡ₚ) ==> (≡ₚ)) boxes.
Proof. intros l k Hl. unfold boxes. by rewrite Hl. Qed.

#[global] Instance indexed_perm c : Proper ((≡ₚ) ==> iff) (indexed c).
Proof.
  assert (forall l k, l ≡ₚ k -> indexed c l -> indexed c k) as Hw.
  { intros l k Hl [I1 I2 I3 I4 I5 I6 I7]. split.
    - by rewrite <- Hl.
    - intros o. by rewrite I2, Hl.
    - intros o. by rewrite I3, Hl.
    - by rewrite I4, Hl.
    - by rewrite I5, Hl.
    - by rewrite I6, Hl.
    - by rewrite I7, Hl. }
  intros l k Hl. by split; apply Hw.
Qed.

Lemma boxes_ok t l :
  rt_items t ≡ₚ boxes l -> Forall (fun o => obj_ok o = true) l ->
  Forall (fun p => box_ok p.1 = true) (rt_items t).
Proof.
  intros -> Hl. unfold boxes. apply Forall_fmap, Forall_forall.
  intros o [Hb Ho]%list_elem_of_filter. rewrite Forall_forall in Hl. simpl.
  specialize (Hl o Ho). unfold obj_ok in Hl. by rewrite Hb in Hl.
Qed.

Lemma elem_of_boxes o l : boxed o = true -> o ∈ l -> (rtreeItem o, o) ∈ boxes l.
Proof.
  intros Hb Ho. unfold boxes. apply list_elem_of_fmap. exists o. split; [done|].
  by apply list_elem_of_filter.
Qed.

Lemma boxes_cons o l :
  boxes (o :: l) = if boxed o then (rtreeItem o, o) :: boxes l else boxes l.
Proof. unfold boxes. rewrite filter_cons. by destruct (boxed o). Qed.

(** The members after [unfill] and [fill]. *)
Lemma unfill_members c p :
  objs (unfill c p) = objs c /\
  spatial (unfill c p) =
    (if boxed p then rt_delete (spatial c) (rtreeItem p) p else spatial c) /\
  values (unfill c p) = (if IsSpatial (Geo p) then values c else bt_delete (values c) p) /\
  expires (unfill c p) = (if Expires p =? 0 then expires c else bt_delete (expires c) p) /\
  weight (unfill c p) = weight c - Weight p /\
  points (unfill c p) = points c - NumPoints (Geo p) /\
  objects (unfill c p) = objects c - (if IsSpatial (Geo p) then 1 else 0) /\
  nobjects (unfill c p) = nobjects c - (if IsSpatial (Geo p) then 0 else 1).
Proof.
  unfold unfill, boxed, indexDelete.
  destruct (IsSpatial (Geo p)), (Empty (Geo p)), (Expires p =? 0); simpl;
    split_and!; (done || lia).
Qed.

Lemma fill_members c o :
  objs (fill c o) = objs c /\
  spatial (fill c o) =
    (if boxed o then rt_insert (spatial c) (rtreeItem o) o else spatial c) /\
  values (fill c o) = (if IsSpatial (Geo o) then values c else bt_set (values c) o) /\
  expires (fill c o) = (if Expires o =? 0 then expires c else bt_set (expires c) o) /\
  weight (fill c o) = weight c + Weight o /\
  points (fill c o) = points c + NumPoints (Geo o) /\
  objects (fill c o) = objects c + (if IsSpatial (Geo o) then 1 else 0) /\
  nobjects (fill c o) = nobjects c + (if IsSpatial (Geo o) then 0 else 1).
Proof.
  unfold fill, boxed, indexInsert.
  destruct (IsSpatial (Geo o)), (Empty (Geo o)), (Expires o =? 0); simpl;
    split_and!; (done || lia).
Qed.

(** Removing an item from an ordered set of objects, and adding one, when ids are
    distinct. *)
Lemma tree_remove (less : Object G -> Object G -> bool) `{!StrictWeak less}
    (t : T (Object G) less) p l (P : Object G -> Prop) :
  (forall a b, equivb less a b = true -> ID a = ID b) ->
  NoDup (ID <$> p :: l) -> (forall o, o ∈ bt_items t <-> o ∈ p :: l /\ P o) ->
  forall o, o ∈ bt_items (bt_delete t p) <-> o ∈ l /\ P o.
Proof.
  intros He [Hp Hnd]%NoDup_cons Ht o. rewrite bt_elem_delete, Ht, elem_of_cons by done. split.
  - intros [[[->|Ho] HP] Hn]; [|done]. by rewrite equivb_refl in Hn.
  - intros [Ho HP]. split_and!; [by right|done|].
    destruct (equivb less p o) eqn:E; [|done]. apply He in E. destruct Hp.
    rewrite E. by apply list_elem_of_fmap_2.
Qed.

Lemma tree_add (less : Object G -> Object G -> bool) `{!StrictWeak less}
    (t : T (Object G) less) p l (P : Object G -> Prop) :
  (forall a b, equivb less a b = true -> ID a = ID b) ->
  NoDup (ID <$> p :: l) -> (forall o, o ∈ bt_items t <-> o ∈ l /\ P o) -> P p ->
  forall o, o ∈ bt_items (bt_set t p) <-> o ∈ p :: l /\ P o.
Proof.
  intros He [Hp Hnd]%NoDup_cons Ht HPp o. rewrite bt_elem_set, Ht, elem_of_cons by done. split.
  - intros [->|[[Ho HP] _]]; auto.
  - intros [[->|Ho] HP]; [by left|right]. split; [done|].
    destruct (equivb less p o) eqn:E; [|done]. apply He in E. destruct Hp.
    rewrite E. by apply list_elem_of_fmap_2.
Qed.

(** Removing the index entries of an object. *)
Lemma unfill_indexed c p l :
  indexed c (p :: l) -> NoDup (ID <$> p :: l) -> Forall (fun o => obj_ok o = true) (p :: l) ->
  indexed (unfill c p) l.
Proof.
  intros [I1 I2 I3 I4 I5 I6 I7] Hnd Hok.
  destruct (unfill_members c p) as (_ & U1 & U2 & U3 & U4 & U5 & U6 & U7).
  rewrite zsum_cons in I4, I5, I6, I7. split.
  - rewrite U1. pose proof (boxes_ok _ _ I1 Hok) as Hb. rewrite boxes_cons in I1.
    destruct (boxed p) eqn:E; [|done].
    apply (Permutation_cons_inv (a := (rtreeItem p, p))). rewrite <- I1. symmetry.
    apply rt_items_delete; [done|]. rewrite I1. apply list_elem_of_here.
  - rewrite U2. destruct (IsSpatial (Geo p)) eqn:E.
    + intros o. rewrite I2, elem_of_cons. naive_solver congruence.
    + apply (tree_remove byValue _ p l (fun x => IsSpatial (Geo x) = false));
        [apply byValue_equiv|done..].
  - rewrite U3. destruct (Z.eqb_spec (Expires p) 0) as [E|E].
    + intros o. rewrite I3, elem_of_cons. naive_solver.
    + apply (tree_remove byExpires _ p l (fun x => Expires x <> 0));
        [apply byExpires_equiv|done..].
  - rewrite U4, I4. lia.
  - rewrite U5, I5. lia.
  - rewrite U6, I6. lia.
  - rewrite U7, I7. lia.
Qed.

(** Adding the index entries of an object. *)
Lemma fill_indexed c o l :
  indexed c l -> NoDup (ID <$> o :: l) -> indexed (fill c o) (o :: l).
Proof.
  intros [I1 I2 I3 I4 I5 I6 I7] Hnd.
  destruct (fill_members c o) as (_ & U1 & U2 & U3 & U4 & U5 & U6 & U7). split.
  - rewrite U1, boxes_cons. destruct (boxed o); [|done]. by rewrite rt_items_insert, I1.
  - rewrite U2. destruct (IsSpatial (Geo o)) eqn:E.
    + intros x. rewrite I2, elem_of_cons. naive_solver congruence.
    + apply (tree_add byValue _ o l (fun x => IsSpatial (Geo x) = false));
        [apply byValue_equiv|done..].
  - rewrite U3. destruct (Z.eqb_spec (Expires o) 0) as [E|E].
    + intros x. rewrite I3, elem_of_cons. naive_solver.
    + apply (tree_add byExpires _ o l (fun x => Expires x <> 0));
        [apply byExpires_equiv|done..].
  - rewrite U4, I4, zsum_cons. lia.
  - rewrite U5, I5, zsum_cons. lia.
  - rewrite U6, I6, zsum_cons. lia.
  - rewrite U7, I7, zsum_cons. lia.
Qed.

Lemma elem_of_all c o : coll_ok c -> o ∈ all c <-> sm_get (objs c) (ID o) = Some o.
Proof.
  intros Hok. unfold all. rewrite list_elem_of_fmap. split.
  - intros ([k o'] & -> & Hin). simpl. apply sm_elem_items in Hin.
    by rewrite (ok_keys _ Hok _ _ Hin).
  - intros Hg. exists (ID o, o). split; [done|]. by apply sm_elem_items.
Qed.

Lemma all_ids c :
  (forall k o, sm_get (objs c) k = Some o -> ID o = k) -> ID <$> all c = (sm_items (objs c)).*1.
Proof.
  intros Hk. unfold all. rewrite <- list_fmap_compose. apply list_fmap_ext.
  intros i [k o] Hi. apply list_elem_of_lookup_2, sm_elem_items in Hi. simpl. by apply Hk.
Qed.

Lemma keys_NoDup {A} (m : M A) : NoDup (sm_items m).*1.
Proof.
  pose proof (sm_sorted _ m) as Hs. induction Hs as [|x l Hs IH F]; simpl; constructor; [|done].
  intros ([k v] & E & Hin)%list_elem_of_fmap. rewrite Forall_forall in F.
  apply F in Hin. unfold Containers.key_lt in Hin. simpl in *. subst.
  by rewrite str_ltb_irrefl in Hin.
Qed.

Lemma all_NoDup c :
  (forall k o, sm_get (objs c) k = Some o -> ID o = k) -> NoDup (ID <$> all c).
Proof. intros Hk. rewrite all_ids by done. apply keys_NoDup. Qed.

(** The objects after an insertion and a removal in the map. *)
Lemma all_delete c id p :
  sm_get (objs c) id = Some p -> all c ≡ₚ p :: (sm_items (sm_delete (objs c) id)).*2.
Proof. intros Hg. unfold all. by rewrite (sm_items_delete _ _ _ Hg). Qed.

Lemma all_set_old c id p o :
  sm_get (objs c) id = Some p ->
  (sm_items (sm_set (objs c) id o)).*2 ≡ₚ o :: (sm_items (sm_delete (objs c) id)).*2.
Proof. intros Hg. by rewrite (sm_items_set_old _ _ _ _ Hg). Qed.

Lemma all_set_new c id o :
  sm_get (objs c) id = None -> (sm_items (sm_set (objs c) id o)).*2 ≡ₚ o :: all c.
Proof. intros Hg. by rewrite (sm_items_set_new _ _ _ Hg). Qed.

Lemma indexed_objs c m l : indexed (with_objs c m) l <-> indexed c l.
Proof. split; intros [I1 I2 I3 I4 I5 I6 I7]; split; done. Qed.

Lemma New_ok : coll_ok New.
Proof.
  assert (all New = []) as Ha by (unfold all, New; simpl; by rewrite sm_items_empty).
  split.
  - intros k o. unfold New; simpl. by rewrite sm_get_empty.
  - by rewrite Ha.
  - rewrite Ha. split; try done; unfold New; simpl.
    + by rewrite (rt_items_empty (RTreeLaws := RTreeLaws0)).
    + intros o. rewrite bt_items_new. set_solver.
    + intros o. rewrite bt_items_new. set_solver.
Qed.

Lemma Set_objs c o : objs (Set_ c o).1 = sm_set (objs c) (ID o) o.
Proof.
  unfold Set_, setFill. cbn [fst]. rewrite (proj1 (fill_members _ _)).
  destruct (sm_get (objs c) (ID o)); [by rewrite (proj1 (unfill_members _ _))|done].
Qed.

Lemma Delete_eq c id :
  Delete c id = match sm_get (objs c) id with
                | Some p => (unfill (with_objs c (sm_delete (objs c) id)) p, Some p)
                | None => (with_objs c (sm_delete (objs c) id), None)
                end.
Proof.
  unfold Delete, unfill, indexDelete. destruct (sm_get (objs c) id) as [p|]; [|done].
  by destruct (IsSpatial (Geo p)), (Empty (Geo p)).
Qed.

Lemma Delete_objs c id : objs (Delete c id).1 = sm_delete (objs c) id.
Proof.
  rewrite Delete_eq. destruct (sm_get (objs c) id); [|done].
  cbn [fst]. by rewrite (proj1 (unfill_members _ _)).
Qed.

Lemma Get_Set_ c o id :
  Get (Set_ c o).1 id = if ID o =s id then Some o else Get c id.
Proof. unfold Get. by rewrite Set_objs, sm_get_set. Qed.
Lemma Get_Delete c id id' :
  Get (Delete c id).1 id' = if id =s id' then None else Get c id'.
Proof. unfold Get. by rewrite Delete_objs, sm_get_delete. Qed.

Lemma Set_keys c o k x :
  coll_ok c -> sm_get (objs (Set_ c o).1) k = Some x -> ID x = k.
Proof.
  intros Hok. rewrite Set_objs, sm_get_set.
  destruct (String.eqb_spec (ID o) k); [by intros [= <-]|by apply ok_keys].
Qed.

Lemma Set_ok c o : coll_ok c -> obj_ok o = true -> coll_ok (Set_ c o).1.
Proof.
  intros Hok Ho. assert (NoDup (ID <$> all (Set_ c o).1)) as Hnd.
  { apply all_NoDup. intros k x. by apply Set_keys. }
  assert (exists l, all (Set_ c o).1 ≡ₚ o :: l /\ Forall (fun o => obj_ok o = true) l /\
    (NoDup (ID <$> o :: l) -> indexed (Set_ c o).1 (o :: l))) as (l & Hl & Hf & Hi).
  { unfold all at 1. rewrite Set_objs. pose proof (all_NoDup c (ok_keys _ Hok)) as Hn.
    pose proof (ok_objs _ Hok) as Hb. unfold Set_, setFill. cbn [fst].
    destruct (sm_get (objs c) (ID o)) as [p|] eqn:E.
    - pose proof (all_delete _ _ _ E) as Hp. rewrite Hp in Hb, Hn.
      eexists. split; [by apply (all_set_old _ _ p)|]. split; [by inversion Hb|].
      intros Hnd'. apply fill_indexed; [|done]. apply unfill_indexed; [|done..].
      rewrite indexed_objs, <- Hp. apply ok_indexed, Hok.
    - eexists. split; [by apply all_set_new|]. split; [done|].
      intros Hnd'. apply fill_indexed; [|done]. rewrite indexed_objs. apply ok_indexed, Hok. }
  split.
  - intros k x. by apply Set_keys.
  - rewrite Hl. by constructor.
  - rewrite Hl. apply Hi. by rewrite <- Hl.
Qed.

Lemma Delete_ok c id : coll_ok c -> coll_ok (Delete c id).1.
Proof.
  intros Hok. pose proof (all_NoDup c (ok_keys _ Hok)) as Hn.
  pose proof (ok_objs _ Hok) as Hb.
  assert (forall k x, sm_get (objs (Delete c id).1) k = Some x -> ID x = k) as Hk.
  { intros k x. rewrite Delete_objs, sm_get_delete. case_match; [done|]. by apply ok_keys. }
  destruct (sm_get (objs c) id) as [p|] eqn:E.
  - pose proof (all_delete _ _ _ E) as Hp. rewrite Hp in Hb, Hn.
    split; [done| |]; unfold all; rewrite Delete_objs; [by inversion Hb|].
    rewrite Delete_eq, E. apply unfill_indexed; [|done..].
    rewrite indexed_objs, <- Hp. apply ok_indexed, Hok.
  - split; [done| |]; unfold all; rewrite Delete_objs, sm_delete_absent by done; [done|].
    rewrite Delete_eq, E. apply indexed_objs, ok_indexed, Hok.
Qed.

Lemma Count_length c : coll_ok c -> Count c = Z.of_nat (length (all c)).
Proof.
  intros Hok. destruct (ok_indexed _ Hok) as [_ _ _ _ _ I6 I7]. unfold Count. rewrite I6, I7.
  clear. induction (all c) as [|o l IH]; [done|]. rewrite !zsum_cons. cbn [length].
  rewrite Nat2Z.inj_succ, <- IH. destruct (IsSpatial (Geo o)); lia.
Qed.

(** C5. [Set] keeps the collection consistent and is a map update: it returns the object
    that had the id, the id now has the new object, every other id is untouched, and all
    indexes and counters describe the new contents. *)
Theorem Set_correct c o :
  coll_ok c -> obj_ok o = true ->
  coll_ok (Set_ c o).1 /\ (Set_ c o).2 = Get c (ID o) /\
  (forall id, Get (Set_ c o).1 id = if ID o =s id then Some o else Get c id) /\
  rt_items (spatial (Set_ c o).1) ≡ₚ boxes (all (Set_ c o).1).
Proof.
  intros Hok Ho. pose proof (Set_ok c o Hok Ho) as Hok'. split_and!; [done|done| |].
  - intros id. apply Get_Set_.
  - apply ix_spatial, ok_indexed, Hok'.
Qed.

(** C15. [Delete] keeps the collection consistent, returns the object that had the id and
    removes that id only; the object leaves every index it was in. *)
Theorem Delete_correct c id :
  coll_ok c ->
  coll_ok (Delete c id).1 /\ (Delete c id).2 = Get c id /\
  (forall id', Get (Delete c id).1 id' = if id =s id' then None else Get c id') /\
  (forall o, ID o = id ->
    o ∉ (rt_items (spatial (Delete c id).1)).*2 /\ o ∉ bt_items (values (Delete c id).1) /\
    o ∉ bt_items (expires (Delete c id).1)).
Proof.
  intros Hok. pose proof (Delete_ok c id Hok) as Hok'. split_and!; [done| | |].
  - rewrite Delete_eq. unfold Get. by destruct (sm_get (objs c) id).
  - intros id'. apply Get_Delete.
  - intros o <-. assert (o ∉ all (Delete c (ID o)).1) as Hn.
    { rewrite elem_of_all, Delete_objs, sm_get_delete_eq by done. done. }
    destruct (ok_indexed _ Hok') as [I1 I2 I3 _ _ _ _]. split_and!.
    + rewrite I1. unfold boxes. rewrite <- list_fmap_compose.
      intros (x & -> & [_ Hx]%list_elem_of_filter)%list_elem_of_fmap. done.
    + rewrite I2. by intros [? _].
    + rewrite I3. by intros [? _].
Qed.

(** The collections a program can reach. *)
Inductive reachable : Coll -> Prop :=
| reach_new : reachable New
| reach_set c o : reachable c -> obj_ok o = true -> reachable (Set_ c o).1
| reach_delete c id : reachable c -> reachable (Delete c id).1.

Lemma reachable_ok c : reachable c -> coll_ok c.
Proof. induction 1; [apply New_ok|by apply Set_ok|by apply Delete_ok]. Qed.

(** In every reachable collection the counters are what they say: [Count] the number
    of objects, [StringCount] the number of strings, [PointCount] and [TotalWeight] the
    sums over the objects; and the ordered sets list exactly the strings and exactly the
    objects with an expiration. *)
Theorem reachable_counts c :
  reachable c ->
  Count c = Z.of_nat (length (all c)) /\
  StringCount c = zsum (fun o => if IsSpatial (Geo o) then 0 else 1) (all c) /\
  PointCount c = zsum (fun o => NumPoints (Geo o)) (all c) /\
  TotalWeight c = zsum Weight (all c) /\
  (forall o, o ∈ bt_items (values c) <-> o ∈ all c /\ IsSpatial (Geo o) = false) /\
  (forall o, o ∈ bt_items (expires c) <-> o ∈ all c /\ Expires o <> 0).
Proof.
  intros Hok%reachable_ok. destruct (ok_indexed _ Hok) as [_ I2 I3 I4 I5 _ I7].
  split_and!; [by apply Count_length|done..].
Qed.
End facts.
#[export] Hint Resolve New_ok Set_ok Delete_ok : spatial.

(** ** Witnesses: collections over lists *)

Module Example.

#[global] Instance fw : FieldsWeight := fun fs => zsum (fun f => Z.of_nat (String.length (name f))) fs.
#[global] Instance object_eq_dec : EqDecision (Object Rect).
Proof.
  intros [i1 g1 e1 f1] [i2 g2 e2 f2].
  destruct (decide (i1 = i2)), (decide (e1 = e2)), (decide (f1 = f2)); try (right; congruence).
  destruct g1 as [s|r], g2 as [s'|r']; try (right; congruence).
  - destruct (decide (s = s')); [left|right]; congruence.
  - destruct (decide (r = r')); [left|right]; congruence.
Defined.
#[global] Instance rt : RTree fbox (Object Rect) (list (fbox * Object Rect)) :=
  LBoxes.list_RTree box_meet.
#[global] Instance rt_laws :
  RTreeLaws fbox (Object Rect) (list (fbox * Object Rect)) box_ok box_meet :=
  LBoxes.list_RTreeLaws box_ok box_meet.

Abbreviation coll := (Collection Rect (gmap string) LTree.tree (list (fbox * Object Rect))).

Definition truck : Object Rect := Object.New "truck" (Geom (Boxes.box 1 2 1 2)) 0 [].
Definition note : Object Rect := Object.New "note" (Str "hello") 5 [].
Definition fleet : coll := (Set_ (Set_ New truck).1 note).1.

Lemma fleet_ok : coll_ok fleet.
Proof. apply Set_ok; [|done]. apply Set_ok; [|by vm_compute]. apply New_ok. Qed.

End Example.

Lemma Set_correct_witness :
  let o := Object.New "truck" (Str "gone") 9 [] in
  (Set_ Example.fleet o).2 = Some Example.truck.
Proof.
  intros o. destruct (Set_correct Example.fleet o Example.fleet_ok) as (_ & -> & _);
    by vm_compute.
Defined.

Lemma Delete_correct_witness :
  Get (Delete Example.fleet "truck").1 "note" = Some Example.note.
Proof.
  destruct (Delete_correct Example.fleet "truck" Example.fleet_ok) as (_ & _ & -> & _).
  by vm_compute.
Defined.

Lemma reachable_counts_witness : Count Example.fleet = 2 /\ TotalWeight Example.fleet = 30.
Proof.
  destruct (reachable_counts Example.fleet) as (-> & _ & _ & -> & _); [|by vm_compute].
  unfold Example.fleet. apply reach_set; [|done]. apply reach_set; [|by vm_compute]. constructor.
Defined.
