(* ===== verification/CollectionScan.v ===== *)
(** * Scans of a collection ([src/internal/legacy/collection/collection.go])

    The scans walk an index from a cursor offset on and hand each object to a callback
    until it returns false. A callback here updates a state [S]; the result says what
    the state is afterwards, how far the cursor was stepped and whether the scan was
    stopped. Every scan is shown to be the plain iteration of its callback over the
    objects in range, less the first [offset] of them. *)

From Stdlib Require Import Ascii String ZArith Lia Bool SpecFloat.
From stdpp Require Import base list strings option sorting sets gmap.
From S2P Require Import Prelude GoStd Strconv Containers Field Geo Object Collection.

Local Open Scope Z_scope.

(** ** Deadlines ([src/internal/legacy/deadline/deadline.go]) *)

Record Deadline := mkDeadline { unixNano : Z; hit : bool }.

(** [Check] at time [now]: the deadline afterwards and whether it panics. *)
Definition Check_ (dl : Deadline) (now : Z) : Deadline * bool :=
  if unixNano dl =? 0 then (dl, false)
  else if negb (hit dl) && (unixNano dl <? now) then (mkDeadline (unixNano dl) true, true)
  else (dl, false).

(** ** The state of a scan *)

Section state.
Context {S : Type}.

(** [steps] is what the cursor was stepped by; [deadline] comes with the clock read at
    each check; [timeout] is set when the deadline panics. *)
Record scan := mkScan {
  st : S; count : Z; steps : Z; deadline : option (Deadline * (Z -> Z));
  keepon : bool; timeout : bool }.

Definition yieldStep : Z := 256.

(** [nextStep(step, cursor, deadline)]. *)
Definition nextStep (x : scan) (step : Z) (cursor : bool) : scan :=
  let '(dl, panics) :=
    match deadline x with
    | Some (dl, clock) =>
      if Z.land step (yieldStep - 1) =? yieldStep - 1
      then let '(dl, p) := Check_ dl (clock step) in (Some (dl, clock), p)
      else (Some (dl, clock), false)
    | None => (None, false)
    end in
  if panics then mkScan (st x) (count x) (steps x) dl (keepon x) true
  else mkScan (st x) (count x) (if cursor then steps x + 1 else steps x) dl (keepon x) false.

(** The start of every scan: [cursor.Step(offset)]. *)
Definition start (cursor : option Z) dl (s : S) : scan :=
  mkScan s 0 (default 0 cursor) dl true false.

(** The common callback: skip [offset] items, step, then run [iterator] unless [stop]
    says the range has ended. *)
Definition visit {A} (cursor : option Z) (stop : A -> bool) (iterator : S -> A -> S * bool)
    (x : scan) (o : A) : scan * bool :=
  let count := count x + 1 in
  let x := mkScan (st x) count (steps x) (deadline x) (keepon x) (timeout x) in
  if count <=? default 0 cursor then (x, true)
  else
    let x := nextStep x count (if cursor then true else false) in
    if timeout x then (x, false)
    else if stop o then (x, false)
    else
      let '(s, k) := iterator (st x) o in
      (mkScan s count (steps x) (deadline x) k (timeout x), k).
End state.
Arguments scan : clear implicits.

(** What a callback makes of a list: the final state and whether it ran to the end. *)
Fixpoint run {S A} (iterator : S -> A -> S * bool) (s : S) (l : list A) : S * bool :=
  match l with
  | [] => (s, true)
  | x :: l => let '(s, k) := iterator s x in if k then run iterator s l else (s, false)
  end.

(** The items before the first one that stops the range. *)
Fixpoint until {A} (stop : A -> bool) (l : list A) : list A :=
  match l with [] => [] | x :: l => if stop x then [] else x :: until stop l end.

Section scans.
Context {G : Type} `{GeoJSON G} `{FieldsWeight}.
Context {M : Type -> Type} `{StrMap M}.
Context {T : forall A, (A -> A -> bool) -> Type} `{BTree T}.
Context {R : Type} `{RTree fbox (Object G) R}.
Context {S : Type}.
Implicit Types (c : Collection G M T R) (iterator : S -> Object G -> S * bool).

Definition never {A} (_ : A) : bool := false.

Definition Scan c (desc : bool) (cursor : option Z) dl iterator (s : S) : scan S :=
  iter_while (visit cursor never (fun s (kv : string * Object G) => iterator s kv.2))
    (start cursor dl s)
    (if desc then sm_reverse (objs c) else sm_items (objs c)).

Definition ScanRange c (start_ end_ : string) (desc : bool) (cursor : option Z) dl
    iterator (s : S) : scan S :=
  let stop (kv : string * Object G) :=
    if negb desc then negb (ID kv.2 <s end_) else negb (end_ <s ID kv.2) in
  iter_while (visit cursor stop (fun s (kv : string * Object G) => iterator s kv.2))
    (start cursor dl s)
    (if desc then sm_descend (objs c) start_ else sm_ascend (objs c) start_).

Definition SearchValues c (desc : bool) (cursor : option Z) dl iterator (s : S) : scan S :=
  iter_while (visit cursor never iterator) (start cursor dl s)
    (if desc then reverse (bt_items (values c)) else bt_items (values c)).

(** The range test comes before the callback, so an item outside is not counted. *)
Definition SearchValuesRange c (start_ end_ : string) (desc : bool) (cursor : option Z) dl
    iterator (s : S) : scan S :=
  let pstart := Object.New "" (Str start_) 0 [] in
  let pend := Object.New "" (Str end_) 0 [] in
  let inner := visit cursor never iterator in
  if desc then
    iter_while (fun x o => if byValue pend o then inner x o else (x, false))
      (start cursor dl s) (bt_descend (values c) pstart)
  else
    iter_while (fun x o => if byValue o pend then inner x o else (x, false))
      (start cursor dl s) (bt_ascend (values c) pstart).

Definition ScanGreaterOrEqual c (id : string) (desc : bool) (cursor : option Z) dl
    iterator (s : S) : scan S :=
  iter_while (visit cursor never (fun s (kv : string * Object G) => iterator s kv.2))
    (start cursor dl s)
    (if desc then sm_descend (objs c) id else sm_ascend (objs c) id).

(** [geoSearch]: [alive] is the last answer of the callback. *)
Definition geoSearch c (rect : Rect) (iter : S -> Object G -> S * bool) (s : S) : S * bool :=
  let b := rtreeRect rect in
  if IsNaN (bmin b).1 && IsNaN (bmin b).2 && IsNaN (bmax b).1 && IsNaN (bmax b).2
  then (s, true)
  else run iter s (rt_search (spatial c) b).*2.

(** [ScanExpires]. *)
Definition ScanExpires c (iter : S -> Object G -> S * bool) (s : S) : S :=
  iter_while iter s (bt_items (expires c)).
End scans.

Section within.
Context {G : Type} `{GeoJSON G} `{FieldsWeight}.
Context {M : Type -> Type} `{StrMap M}.
Context {T : forall A, (A -> A -> bool) -> Type} `{BTree T}.
Context {R : Type} `{RTree fbox (Object G) R}.
Context {S : Type}.
Implicit Types (c : Collection G M T R) (iter : S -> Object G -> S * bool).

(** The callback of [Within] and [Intersects] with [sparse] zero: [rel] is the relation
    of the object to the searched one. A timeout ends the search. *)
Definition geoVisit (cursor : option Z) (rel : Object G -> bool) iter (x : scan S) (o : Object G)
    : scan S * bool :=
  let count := count x + 1 in
  let x := mkScan (st x) count (steps x) (deadline x) (keepon x) (timeout x) in
  if count <=? default 0 cursor then (x, true)
  else
    let x := nextStep x count (if cursor then true else false) in
    if timeout x then (x, false)
    else if rel o then
      let '(s, k) := iter (st x) o in
      (mkScan s count (steps x) (deadline x) (keepon x) false, k)
    else (x, true).

(** The callback with [sparse] positive answers [(match, ok)]; [ok] stays false when the
    object does not match. *)
Definition geoVisitSparse (cursor : option Z) (rel : Object G -> bool) iter (x : scan S)
    (o : Object G) : scan S * (bool * bool) :=
  let count := count x + 1 in
  let x := mkScan (st x) count (steps x) (deadline x) (keepon x) (timeout x) in
  if count <=? default 0 cursor then (x, (false, true))
  else
    let x := nextStep x count (if cursor then true else false) in
    if timeout x then (x, (false, false))
    else if rel o then
      let '(s, k) := iter (st x) o in
      (mkScan s count (steps x) (deadline x) (keepon x) false, (true, k))
    else (x, (false, false)).

(** The four quarters of a rectangle, in the order they are searched. *)
Definition quads (rect : Rect) : list Rect :=
  let two := f64_of_Z 2 in
  let w := f64_sub (X (Max rect)) (X (Min rect)) in
  let h := f64_sub (Y (Max rect)) (Y (Min rect)) in
  let xm := f64_add (X (Min rect)) (f64_div w two) in
  let ym := f64_add (Y (Min rect)) (f64_div h two) in
  [ mkRect (mkPoint (X (Min rect)) ym) (mkPoint xm (Y (Max rect)));
    mkRect (mkPoint xm ym) (mkPoint (X (Max rect)) (Y (Max rect)));
    mkRect (mkPoint (X (Min rect)) (Y (Min rect))) (mkPoint xm ym);
    mkRect (mkPoint xm (Y (Min rect))) (mkPoint (X (Max rect)) ym) ].

(** The callback at the leaves: [alive] is false once [ok] was, and the search of this
    piece ends with the first match. *)
Definition sparseLeaf {S'} (iter : S' -> Object G -> S' * (bool * bool)) (x : S' * bool)
    (o : Object G) : (S' * bool) * bool :=
  let '(s, (matched, ok)) := iter x.1 o in
  if negb ok then ((s, false), false) else ((s, x.2), negb matched).

(** [geoSparseInner]: quarter [sparse] times, then search each piece for its first
    match. *)
Fixpoint geoSparseInner {S'} c (sparse : nat) (rect : Rect)
    (iter : S' -> Object G -> S' * (bool * bool)) (s : S') : S' * bool :=
  match sparse with
  | O =>
    let '((s, alive), _) := geoSearch c rect (sparseLeaf iter) (s, true) in (s, alive)
  | Datatypes.S sparse =>
    run (fun s quad => geoSparseInner c sparse quad iter s) s (quads rect)
  end.

(** The callback of [geoSparse]: an id that matched is not offered again. *)
Definition sparseOnce (iter : scan S -> Object G -> scan S * (bool * bool))
    (x : scan S * list string) (o : Object G) : (scan S * list string) * (bool * bool) :=
  if bool_decide (ID o ∈ x.2) then (x, (false, true))
  else
    let '(y, (matched, ok)) := iter x.1 o in
    ((y, if matched then ID o :: x.2 else x.2), (matched, ok)).

(** [geoSparse]: the ids that matched are not offered again; the result is always
    [true]. *)
Definition geoSparse c (rect : Rect) (sparse : nat)
    (iter : scan S -> Object G -> scan S * (bool * bool)) (x : scan S) : scan S * bool :=
  let '((x, _), _) := geoSparseInner c sparse rect (sparseOnce iter) (x, []) in
  (x, true).

Definition geoQuery (rel : Object G -> bool) c (rect : Rect) (sparse : nat)
    (cursor : option Z) dl iter (s : S) : scan S * bool :=
  match sparse with
  | O => geoSearch c rect (geoVisit cursor rel iter) (start cursor dl s)
  | Datatypes.S _ => geoSparse c rect sparse (geoVisitSparse cursor rel iter) (start cursor dl s)
  end.

Definition Within c (obj : G) (sparse : nat) (cursor : option Z) dl iter (s : S)
    : scan S * bool :=
  geoQuery (fun o => Geo.Within (Geo o) obj) c (geo_Rect obj) sparse cursor dl iter s.

Definition Intersects c (gobj : G) (sparse : nat) (cursor : option Z) dl iter (s : S)
    : scan S * bool :=
  geoQuery (fun o => Geo.Intersects (Geo o) gobj) c (geo_Rect gobj) sparse cursor dl iter s.
End within.

(** ** What the scans do *)

(** [run] with the end of the range, counting the items stepped over. *)
Fixpoint run_until {S A} (stop : A -> bool) (iterator : S -> A -> S * bool) (s : S)
    (l : list A) : S * bool * Z :=
  match l with
  | [] => (s, true, 0)
  | x :: l =>
    if stop x then (s, true, 1)
    else
      let '(s, k) := iterator s x in
      if k then let '(r, n) := run_until stop iterator s l in (r, n + 1) else (s, false, 1)
  end.

Section visits.
Context {S A : Type} (stop : A -> bool) (iterator : S -> A -> S * bool) (cursor : option Z).
Implicit Types (x : scan S) (l : list A).

(** The parts of a finished scan. *)
Definition outcome x : S * bool * Z := (st x, keepon x, steps x).

Definition stepped (n : Z) : Z := if cursor then n else 0.

Lemma nextStep_None x step b :
  deadline x = None -> timeout x = false ->
  nextStep x step b =
    mkScan (st x) (count x) (if b then steps x + 1 else steps x) None (keepon x) false.
Proof. intros Hd _. unfold nextStep. by rewrite Hd. Qed.

(** Past the offset. *)
Lemma visits_after x l :
  deadline x = None -> timeout x = false -> keepon x = true -> default 0 cursor <= count x ->
  outcome (iter_while (visit cursor stop iterator) x l) =
    let '(s, k, n) := run_until stop iterator (st x) l in (s, k, steps x + stepped n).
Proof.
  revert x. induction l as [|o l IH]; intros x Hd Ht Hk Hc; simpl.
  { unfold outcome. rewrite Hk. f_equal. unfold stepped. destruct cursor; lia. }
  unfold visit at 1. cbn [count steps st keepon timeout deadline].
  rewrite (proj2 (Z.leb_gt _ _)) by lia. rewrite nextStep_None by done. cbn.
  rewrite Hk. destruct (stop o).
  { unfold outcome, stepped; simpl. f_equal. destruct cursor; lia. }
  destruct (iterator (st x) o) as [s []].
  - rewrite IH; simpl; [|done..|lia]. destruct (run_until stop iterator s l) as [[s' k'] n'].
    f_equal. unfold stepped. destruct cursor; lia.
  - unfold outcome, stepped; simpl. f_equal. destruct cursor; lia.
Qed.

(** Up to the offset nothing happens but the counting. *)
Lemma visits_before x l n :
  default 0 cursor - count x = Z.of_nat n ->
  iter_while (visit cursor stop iterator) x l =
  iter_while (visit cursor stop iterator)
    (mkScan (st x) (count x + Z.of_nat (n `min` length l)) (steps x) (deadline x) (keepon x)
       (timeout x)) (drop n l).
Proof.
  revert x l. induction n as [|n IH]; intros x l Hn.
  { simpl. rewrite Z.add_0_r. by destruct x. }
  destruct l as [|o l].
  { simpl. rewrite Z.add_0_r. by destruct x. }
  cbn [iter_while drop length]. unfold visit at 1. rewrite (proj2 (Z.leb_le _ _)) by lia.
  rewrite IH by (cbn [count]; lia). cbn [st count steps deadline keepon timeout].
  do 2 f_equal. lia.
Qed.

Lemma visits s l :
  0 <= default 0 cursor ->
  outcome (iter_while (visit cursor stop iterator) (start cursor None s) l) =
    let off := default 0 cursor in
    let '(s', k, n) := run_until stop iterator s (drop (Z.to_nat off) l) in
    (s', k, off + stepped n).
Proof.
  intros Hc. set (off := default 0 cursor) in *.
  rewrite (visits_before _ _ (Z.to_nat off)) by (cbn [start count]; lia).
  cbn [start st count steps deadline keepon timeout]. fold off.
  destruct (Nat.le_gt_cases (Z.to_nat off) (length l)) as [Hle|Hgt].
  - rewrite visits_after; cbn [st count steps deadline keepon timeout]; try done.
    fold off. lia.
  - rewrite drop_ge by lia. unfold outcome, stepped. cbn. f_equal. destruct cursor; lia.
Qed.

Lemma run_until_run s l :
  (run_until stop iterator s l).1 = run iterator s (until stop l).
Proof.
  revert s. induction l as [|x l IH]; intros s; simpl; [done|].
  destruct (stop x); [done|]. simpl. destruct (iterator s x) as [s' []]; [|done].
  rewrite <- IH. by destruct (run_until stop iterator s' l).
Qed.

(** Where what follows a stopping item stops too, [until] is a filter. *)
Lemma until_filter l :
  StronglySorted (fun a b => stop a = true -> stop b = true) l ->
  until stop l = filter (fun a => stop a = false) l.
Proof.
  induction 1 as [|a l Hs IH F]; simpl; [done|]. rewrite filter_cons.
  destruct (stop a) eqn:E; [|by rewrite IH].
  destruct (decide (true = false)); [done|].
  symmetry. apply filter_none. eapply Forall_impl; [done|]. intros b Hb. rewrite Hb; done.
Qed.

Lemma until_drop n l :
  StronglySorted (fun a b => stop a = true -> stop b = true) l ->
  until stop (drop n l) = drop n (until stop l).
Proof.
  intros Hs. revert n. induction Hs as [|a l Hs IH F]; intros [|n]; simpl; try done.
  destruct (stop a) eqn:E; [|by simpl].
  rewrite until_filter by (by apply sorted_drop). apply filter_none.
  apply Forall_drop. eapply Forall_impl; [done|]. intros b Hb. rewrite Hb; done.
Qed.

(** The state and the answer of a scan: the callback run over what is in range, less
    the offset. *)
Lemma visits_run s l :
  0 <= default 0 cursor -> StronglySorted (fun a b => stop a = true -> stop b = true) l ->
  (outcome (iter_while (visit cursor stop iterator) (start cursor None s) l)).1 =
    run iterator s (drop (Z.to_nat (default 0 cursor)) (filter (fun a => stop a = false) l)).
Proof.
  intros Hc Hs. rewrite visits by done. cbv zeta.
  rewrite <- until_filter, <- until_drop, <- run_until_run by done.
  by destruct (run_until stop iterator s _) as [[]].
Qed.

(** Without a deadline there is no timeout. *)
Lemma visits_timeout x l :
  deadline x = None -> timeout x = false ->
  timeout (iter_while (visit cursor stop iterator) x l) = false.
Proof.
  revert x. induction l as [|o l IH]; intros x Hd Ht; simpl; [done|].
  unfold visit at 1. cbn [count st steps deadline keepon timeout].
  destruct (_ <=? _); [by apply IH|]. rewrite nextStep_None by done. cbn [timeout st].
  destruct (stop o); [done|]. destruct (iterator (st x) o) as [s' []]; [by apply IH|done].
Qed.
End visits.

Lemma run_fmap {S A B} (it : S -> B -> S * bool) (f : A -> B) s l :
  run (fun s a => it s (f a)) s l = run it s (f <$> l).
Proof.
  revert s. induction l as [|a l IH]; intros s; simpl; [done|].
  by destruct (it s (f a)) as [s' []].
Qed.

Lemma never_sorted {A} (l : list A) :
  StronglySorted (fun a b => never a = true -> never b = true) l.
Proof. induction l; constructor; [done|]. by apply Forall_true. Qed.

Lemma filter_never {A} (l : list A) : filter (fun a => never a = false) l = l.
Proof. apply filter_all. by apply Forall_true. Qed.

Section facts.
Context {G : Type} `{GeoJSON G} `{FieldsWeight}.
Context {M : Type -> Type} `{StrMapLaws M}.
Context {T : forall A, (A -> A -> bool) -> Type} `{BTreeLaws T}.
Context {R : Type} `{!RTree fbox (Object G) R} `{!RTreeLaws fbox (Object G) R box_ok box_meet}.
Context {S : Type}.
Implicit Types (c : Collection G M T R) (iterator : S -> Object G -> S * bool).

Definition dir {A} (desc : bool) (l : list A) : list A := if desc then reverse l else l.

Lemma Scan_run c desc cursor iterator s :
  0 <= default 0 cursor ->
  (outcome (Scan c desc cursor None iterator s)).1 =
    run iterator s (drop (Z.to_nat (default 0 cursor)) (dir desc (all c))).
Proof.
  intros Hc. unfold Scan. rewrite visits_run by (done || apply never_sorted).
  rewrite filter_never, (run_fmap iterator snd), fmap_drop.
  do 2 f_equal. unfold dir, all, sm_reverse. destruct desc; [apply fmap_reverse|done].
Qed.

(** The objects of an id range, in scan order: ascending [start <= id < end],
    descending [end < id <= start]. *)
Definition id_range c (start_ end_ : string) (desc : bool) : list (Object G) :=
  if desc then reverse (filter (fun o => (start_ <s ID o) = false /\ (end_ <s ID o) = true) (all c))
  else filter (fun o => (ID o <s start_) = false /\ (ID o <s end_) = true) (all c).

Lemma filter_items c (P : string -> Prop) `{!forall k, Decision (P k)} :
  coll_ok c ->
  (filter (fun kv => P kv.1) (sm_items (objs c))).*2 = filter (fun o => P (ID o)) (all c).
Proof.
  intros Hok. unfold all.
  assert (Forall (fun kv => ID kv.2 = kv.1) (sm_items (objs c))) as Hk.
  { apply Forall_forall. intros [k o] Hin%sm_elem_items. by apply (ok_keys _ Hok). }
  induction Hk as [|[k o] l Hk _ IH]; [done|]. simpl in Hk. cbn [fmap list_fmap snd].
  rewrite !filter_cons. cbn [fst]. rewrite Hk.
  case_decide; [|done]. rewrite fmap_cons. by f_equal.
Qed.

Lemma items_sorted_by_id c :
  coll_ok c -> StronglySorted (fun x y : string * Object G => (ID x.2 <s ID y.2) = true)
    (sm_items (objs c)).
Proof.
  intros Hok. pose proof (sm_sorted _ (objs c)) as Hs.
  assert (Forall (fun kv => ID kv.2 = kv.1) (sm_items (objs c))) as Hk.
  { apply Forall_forall. intros [k o] Hin%sm_elem_items. by apply (ok_keys _ Hok). }
  induction Hs as [|x l Hs IH F]; constructor; apply Forall_cons in Hk as [Hx Hk]; [by apply IH|].
  rewrite Forall_forall in F, Hk. apply Forall_forall. intros y Hy.
  rewrite Hx, (Hk y Hy). by apply F.
Qed.

(** What [ScanRange] walks over, and when it stops. *)
Definition range_stop (end_ : string) (desc : bool) (kv : string * Object G) : bool :=
  if negb desc then negb (ID kv.2 <s end_) else negb (end_ <s ID kv.2).
Definition range_items c (start_ : string) (desc : bool) : list (string * Object G) :=
  if desc then sm_descend (objs c) start_ else sm_ascend (objs c) start_.

Lemma range_items_sorted c start_ end_ desc :
  coll_ok c ->
  StronglySorted (fun a b => range_stop end_ desc a = true -> range_stop end_ desc b = true)
    (range_items c start_ desc).
Proof.
  intros Hok. pose proof (items_sorted_by_id c Hok) as Hs. unfold range_items, range_stop.
  destruct desc; simpl; unfold sm_descend, sm_ascend, sm_reverse; apply sorted_filter.
  - apply sorted_reverse in Hs. eapply sorted_impl; [|exact Hs].
    intros x y Hlt. rewrite !negb_true_iff. intros Hn. eapply str_ltb_false_trans; [|done].
    by apply str_ltb_asym.
  - eapply sorted_impl; [|exact Hs].
    intros x y Hlt. rewrite !negb_true_iff. intros Hn. eapply str_ltb_false_trans; [done|].
    by apply str_ltb_asym.
Qed.

Lemma range_items_id c start_ end_ desc :
  coll_ok c ->
  (filter (fun kv => range_stop end_ desc kv = false) (range_items c start_ desc)).*2 =
    id_range c start_ end_ desc.
Proof.
  intros Hok. unfold id_range, range_items, range_stop.
  destruct desc; simpl; unfold sm_descend, sm_reverse, sm_ascend.
  - rewrite !filter_reverse, fmap_reverse. f_equal. rewrite list_filter_filter.
    etrans; [|exact (filter_items c (fun k => (start_ <s k) = false /\ (end_ <s k) = true) Hok)].
    f_equal. apply list_filter_iff'. intros [k o] Hin%sm_elem_items.
    rewrite <- (ok_keys _ Hok _ _ Hin). simpl. rewrite negb_false_iff. tauto.
  - rewrite list_filter_filter.
    etrans; [|exact (filter_items c (fun k => (k <s start_) = false /\ (k <s end_) = true) Hok)].
    f_equal. apply list_filter_iff'. intros [k o] Hin%sm_elem_items.
    rewrite <- (ok_keys _ Hok _ _ Hin). simpl. rewrite negb_false_iff. tauto.
Qed.

Lemma ScanRange_run c start_ end_ desc cursor iterator s :
  coll_ok c -> 0 <= default 0 cursor ->
  (outcome (ScanRange c start_ end_ desc cursor None iterator s)).1 =
    run iterator s (drop (Z.to_nat (default 0 cursor)) (id_range c start_ end_ desc)).
Proof.
  intros Hok Hc. unfold ScanRange. fold (range_items c start_ desc) (range_stop end_ desc).
  rewrite visits_run by (done || by apply range_items_sorted).
  by rewrite (run_fmap iterator snd), fmap_drop, range_items_id.
Qed.

Lemma ScanGreaterOrEqual_run c id desc cursor iterator s :
  coll_ok c -> 0 <= default 0 cursor ->
  (outcome (ScanGreaterOrEqual c id desc cursor None iterator s)).1 =
    run iterator s (drop (Z.to_nat (default 0 cursor))
      (dir desc (filter (fun o => (if desc then id <s ID o else ID o <s id) = false) (all c)))).
Proof.
  intros Hok Hc. unfold ScanGreaterOrEqual.
  rewrite visits_run by (done || apply never_sorted).
  rewrite filter_never, (run_fmap iterator snd), fmap_drop. do 2 f_equal.
  unfold dir, sm_descend, sm_ascend, sm_reverse. destruct desc.
  - rewrite filter_reverse, fmap_reverse. f_equal.
    exact (filter_items c (fun k => (id <s k) = false) Hok).
  - exact (filter_items c (fun k => (k <s id) = false) Hok).
Qed.

Lemma SearchValues_run c desc cursor iterator s :
  0 <= default 0 cursor ->
  (outcome (SearchValues c desc cursor None iterator s)).1 =
    run iterator s (drop (Z.to_nat (default 0 cursor)) (dir desc (bt_items (values c)))).
Proof.
  intros Hc. unfold SearchValues. rewrite visits_run by (done || apply never_sorted).
  by rewrite filter_never.
Qed.

(** A test in front of a callback ends the walk like the end of a range. *)
Lemma guarded_until {X A} (t : A -> bool) (f : X -> A -> X * bool) x l :
  iter_while (fun x o => if t o then f x o else (x, false)) x l =
  iter_while f x (until (fun o => negb (t o)) l).
Proof.
  revert x. induction l as [|o l IH]; intros x; simpl; [done|].
  destruct (t o); simpl; [|done]. by destruct (f x o) as [x' []].
Qed.

(** The string objects of a value range. The pivots have the empty id, so ascending it
    is [start <= value < end], and descending [end <= value < start] except that the
    object with the empty id sits on the other side of each bound. *)
Definition value_in (start_ end_ : string) (desc : bool) (o : Object G) : bool :=
  let v := StringOf (Geo o) in
  if desc then
    ((v <s start_) || ((v =s start_) && (ID o =s ""))) &&
    ((end_ <s v) || ((v =s end_) && negb (ID o =s "")))
  else negb (v <s start_) && (v <s end_).

Lemma nonempty_lt id : ("" <s id) = negb (id =s "").
Proof. by destruct id. Qed.

Lemma byValue_pivot_r o v : byValue o (Object.New "" (Str v) 0 []) = (StringOf (Geo o) <s v).
Proof.
  unfold byValue, byID; simpl. destruct (StringOf (Geo o) <s v) eqn:E; [done|].
  destruct (v <s StringOf (Geo o)); [done|]. by destruct (ID o).
Qed.

Lemma byValue_pivot_l o v :
  byValue (Object.New "" (Str v) 0 []) o =
    (v <s StringOf (Geo o)) || ((StringOf (Geo o) =s v) && negb (ID o =s "")).
Proof.
  unfold byValue, byID; simpl. rewrite nonempty_lt.
  destruct (str_ltb_total v (StringOf (Geo o))) as [E|[E|E]].
  - by rewrite E.
  - rewrite <- E. by rewrite str_ltb_irrefl, String.eqb_refl.
  - rewrite (str_ltb_asym _ _ E), E. pose proof (str_ltb_neq _ _ E) as Hn.
    by rewrite (proj2 (String.eqb_neq _ _) Hn).
Qed.

Lemma below_pivot o v :
  (v <s StringOf (Geo o)) || ((StringOf (Geo o) =s v) && negb (ID o =s "")) = false <->
  (StringOf (Geo o) <s v) || ((StringOf (Geo o) =s v) && (ID o =s "")) = true.
Proof.
  generalize (StringOf (Geo o)). intros w. destruct (str_ltb_total v w) as [E|[<-|E]].
  - pose proof (str_ltb_neq _ _ E) as Hn. rewrite (str_ltb_asym _ _ E), E.
    rewrite (proj2 (String.eqb_neq w v)) by congruence. done.
  - rewrite str_ltb_irrefl, String.eqb_refl. by destruct (ID o =s "").
  - rewrite (str_ltb_asym _ _ E), E. apply str_ltb_neq, String.eqb_neq in E. by rewrite E.
Qed.

Lemma SearchValuesRange_run c start_ end_ desc cursor iterator s :
  0 <= default 0 cursor ->
  (outcome (SearchValuesRange c start_ end_ desc cursor None iterator s)).1 =
    run iterator s (drop (Z.to_nat (default 0 cursor))
      (dir desc (filter (fun o => value_in start_ end_ desc o = true) (bt_items (values c))))).
Proof.
  intros Hc. pose proof (bt_sorted _ byValue (values c) _) as Hs. unfold SearchValuesRange.
  destruct desc; rewrite guarded_until, visits_run by (done || apply never_sorted);
    rewrite filter_never; do 2 f_equal; unfold bt_descend, bt_ascend, dir.
  - rewrite until_filter.
    + rewrite list_filter_filter, filter_reverse. f_equal. apply list_filter_iff'. intros o _.
      rewrite !byValue_pivot_l, below_pivot, negb_false_iff. unfold value_in.
      rewrite andb_true_iff. tauto.
    + apply sorted_filter. apply sorted_reverse in Hs. eapply sorted_impl; [|exact Hs].
      intros x y Hxy. rewrite !negb_true_iff. intros Hn.
      destruct (byValue _ y) eqn:E; [|done]. by rewrite (sw_trans _ _ _ E Hxy) in Hn.
  - rewrite until_filter.
    + rewrite list_filter_filter. apply list_filter_iff'. intros o _.
      rewrite !byValue_pivot_r, negb_false_iff. unfold value_in.
      rewrite andb_true_iff, negb_true_iff. tauto.
    + apply sorted_filter. eapply sorted_impl; [|exact Hs].
      intros x y Hxy. rewrite !negb_true_iff. intros Hn.
      destruct (byValue y _) eqn:E; [|done]. by rewrite (sw_trans _ _ _ Hxy E) in Hn.
Qed.

(** ** Spatial searches *)

(** The objects whose index box meets the box of a rectangle. *)
Definition candidates c (rect : Rect) : list (Object G) :=
  filter (fun o => box_meet (rtreeRect rect) (rtreeItem o) = true)
    (filter (fun o => boxed o = true) (all c)).

Lemma search_candidates c rect :
  coll_ok c -> box_ok (rtreeRect rect) = true ->
  (rt_search (spatial c) (rtreeRect rect)).*2 ≡ₚ candidates c rect.
Proof.
  intros Hok Hb. pose proof (ix_spatial _ _ (ok_indexed _ Hok)) as Hs.
  rewrite (rt_search_items (RTreeLaws := RTreeLaws0))
    by (done || by eapply boxes_ok; [done|apply ok_objs]).
  rewrite Hs. unfold candidates, boxes.
  induction (filter (fun o => boxed o = true) (all c)) as [|o l IH]; [done|].
  rewrite fmap_cons, !filter_cons. cbn [fst].
  destruct (decide _); [rewrite fmap_cons; by constructor|done].
Qed.

Lemma search_in c rect o :
  coll_ok c -> o ∈ (rt_search (spatial c) (rtreeRect rect)).*2 -> o ∈ all c /\ boxed o = true.
Proof.
  intros Hok (p & -> & Hp)%list_elem_of_fmap. apply rt_search_sub in Hp.
  rewrite (ix_spatial _ _ (ok_indexed _ Hok)) in Hp. unfold boxes in Hp.
  apply list_elem_of_fmap in Hp as (o & -> & [? ?]%list_elem_of_filter). done.
Qed.

Section geo_visits.
Context (rel : Object G -> bool) (cursor : option Z) (iter : S -> Object G -> S * bool).

(** What the caller sees of a search: the state of its callback and the answer. *)
Definition seen (r : scan S * bool) : S * bool := (st r.1, r.2).

Lemma geoVisits_after x l :
  deadline x = None -> timeout x = false -> default 0 cursor <= count x ->
  seen (run (geoVisit cursor rel iter) x l) =
    run iter (st x) (filter (fun o => rel o = true) l).
Proof.
  revert x. induction l as [|o l IH]; intros x Hd Ht Hc; [done|].
  cbn [run]. unfold geoVisit at 1. rewrite (proj2 (Z.leb_gt _ _)) by lia.
  rewrite nextStep_None by done. cbn [st count steps deadline keepon timeout].
  rewrite filter_cons. destruct (rel o).
  - destruct (decide (true = true)); [|done]. cbn [run].
    destruct (iter (st x) o) as [s []]; [|done]. rewrite IH; [done..|cbn [count]; lia].
  - destruct (decide (false = true)); [done|]. rewrite IH; [done..|cbn [count]; lia].
Qed.

Lemma geoVisits_before x l n :
  default 0 cursor - count x = Z.of_nat n ->
  run (geoVisit cursor rel iter) x l =
  run (geoVisit cursor rel iter)
    (mkScan (st x) (count x + Z.of_nat (n `min` length l)) (steps x) (deadline x) (keepon x)
       (timeout x)) (drop n l).
Proof.
  revert x l. induction n as [|n IH]; intros x l Hn.
  { simpl. rewrite Z.add_0_r. by destruct x. }
  destruct l as [|o l].
  { simpl. rewrite Z.add_0_r. by destruct x. }
  cbn [run drop length]. unfold geoVisit at 1. rewrite (proj2 (Z.leb_le _ _)) by lia.
  rewrite IH by (cbn [count]; lia). cbn [st count steps deadline keepon timeout].
  do 2 f_equal. lia.
Qed.

Lemma geoVisits s l :
  0 <= default 0 cursor ->
  seen (run (geoVisit cursor rel iter) (start cursor None s) l) =
    run iter s (filter (fun o => rel o = true) (drop (Z.to_nat (default 0 cursor)) l)).
Proof.
  intros Hc. set (off := default 0 cursor) in *.
  rewrite (geoVisits_before _ _ (Z.to_nat off)) by (cbn [start count]; lia).
  destruct (Nat.le_gt_cases (Z.to_nat off) (length l)) as [Hle|Hgt].
  - rewrite geoVisits_after; cbn [start st count steps deadline keepon timeout]; try done.
    fold off. lia.
  - by rewrite drop_ge by lia.
Qed.
End geo_visits.

Lemma box_ok_not_nan b :
  box_ok b = true ->
  IsNaN (bmin b).1 && IsNaN (bmin b).2 && IsNaN (bmax b).1 && IsNaN (bmax b).2 = false.
Proof. unfold box_ok. by destruct (IsNaN (bmin b).1). Qed.

Lemma geoQuery_run rel c rect cursor iter s :
  coll_ok c -> box_ok (rtreeRect rect) = true -> 0 <= default 0 cursor ->
  exists l, l ≡ₚ candidates c rect /\
    seen (geoQuery rel c rect 0 cursor None iter s) =
      run iter s (filter (fun o => rel o = true) (drop (Z.to_nat (default 0 cursor)) l)).
Proof.
  intros Hok Hb Hc. exists (rt_search (spatial c) (rtreeRect rect)).*2.
  split; [by apply search_candidates|].
  unfold geoQuery, geoSearch. rewrite box_ok_not_nan by done. by apply geoVisits.
Qed.

(** An invariant of the callback's state is an invariant of the quartered search. *)
Lemma run_inv {X A} (P : X -> Prop) (f : X -> A -> X * bool) x l :
  (forall x a, a ∈ l -> P x -> P (f x a).1) -> P x -> P (run f x l).1.
Proof.
  revert x. induction l as [|a l IH]; intros x Hf Hx; simpl; [done|].
  pose proof (Hf x a ltac:(set_solver) Hx) as Hfx. destruct (f x a) as [x' []]; [|done].
  apply IH; [|done]. intros y b Hb. apply Hf. set_solver.
Qed.

Lemma geoSearch_inv {X} (P : X -> Prop) c rect (f : X -> Object G -> X * bool) x :
  coll_ok c -> (forall x o, o ∈ all c -> P x -> P (f x o).1) -> P x ->
  P (geoSearch c rect f x).1.
Proof.
  intros Hok Hf Hx. unfold geoSearch. destruct (_ && _); [done|].
  apply run_inv; [|done]. intros y o Ho. by apply Hf, (search_in c rect o Hok).
Qed.

Lemma geoSparseInner_inv {X} (P : X -> Prop) c sparse rect
    (f : X -> Object G -> X * (bool * bool)) x :
  coll_ok c -> (forall x o, o ∈ all c -> P x -> P (f x o).1) -> P x ->
  P (geoSparseInner c sparse rect f x).1.
Proof.
  intros Hok Hf. revert rect x. induction sparse as [|n IH]; intros rect x Hx.
  - cbn [geoSparseInner].
    pose proof (geoSearch_inv (fun p => P p.1) c rect (sparseLeaf f) (x, true) Hok) as Hg.
    destruct (geoSearch c rect (sparseLeaf f) (x, true)) as [[y alive] b]. apply Hg; [|done].
    intros [z zb] o Ho Hz. unfold sparseLeaf. cbn [fst snd] in *.
    pose proof (Hf z o Ho Hz) as Hfz. destruct (f z o) as [z' [m ok]]. by destruct ok.
  - cbn [geoSparseInner]. apply run_inv; [|done]. intros y q _. apply IH.
Qed.

(** A callback that keeps what it is given, with any rule for going on. *)
Definition logging (more : list (Object G) -> bool) (log : list (Object G)) (o : Object G)
    : list (Object G) * bool := (log ++ [o], more (log ++ [o])).

(** What a sparse search has reported: objects of the collection in the relation, no id
    twice, and every id of theirs among the matches. *)
Definition sparse_inv (rel : Object G -> bool) c
    (x : scan (list (Object G)) * list string) : Prop :=
  NoDup (ID <$> st x.1) /\
  Forall (fun o => o ∈ all c /\ rel o = true /\ ID o ∈ x.2) (st x.1).

Lemma sparse_step rel c cursor more x matches o :
  o ∈ all c -> ID o ∉ matches -> sparse_inv rel c (x, matches) ->
  let r := geoVisitSparse cursor rel (logging more) x o in
  sparse_inv rel c (r.1, if r.2.1 then ID o :: matches else matches).
Proof.
  intros Ho Hm [Hnd Hf]. unfold geoVisitSparse. cbn [fst snd] in *.
  destruct (count x + 1 <=? default 0 cursor); [done|].
  set (y := nextStep _ _ _).
  assert (st y = st x) as Hy by (subst y; unfold nextStep; repeat case_match; done).
  destruct (timeout y); [by split; cbn; rewrite Hy|].
  destruct (rel o) eqn:Hr; [|by split; cbn; rewrite Hy].
  rewrite Forall_forall in Hf. unfold logging. split; cbn [fst snd st]; rewrite Hy.
  - rewrite fmap_app. apply NoDup_app. split; [done|]. split; [|by apply NoDup_singleton].
    intros id (o' & -> & Ho')%list_elem_of_fmap Heq%list_elem_of_singleton.
    rewrite <- Heq in Hm. by destruct Hm; apply Hf.
  - apply Forall_forall. intros o' [Ho'| ->%list_elem_of_singleton]%elem_of_app.
    + destruct (Hf o' Ho') as (? & ? & ?). set_solver.
    + set_solver.
Qed.

Lemma geoSparse_reports rel c rect n cursor more :
  coll_ok c ->
  let log := st (geoQuery rel c rect (Datatypes.S n) cursor None (logging more) []).1 in
  NoDup (ID <$> log) /\ Forall (fun o => o ∈ all c /\ rel o = true) log.
Proof.
  intros Hok. cbv zeta. unfold geoQuery, geoSparse.
  set (f := sparseOnce (geoVisitSparse cursor rel (logging more))).
  pose proof (geoSparseInner_inv (sparse_inv rel c) c (Datatypes.S n) rect f
    (start cursor None [], []) Hok) as Hinv.
  destruct (geoSparseInner c (Datatypes.S n) rect f (start cursor None [], []))
    as [[x matches] b]. destruct Hinv as [Hnd Hf].
  - intros [y m] o Ho Hy. subst f. unfold sparseOnce. cbn [fst snd].
    case_bool_decide as Hm; [done|].
    pose proof (sparse_step rel c cursor more y m o Ho Hm Hy) as Hs. cbv zeta in Hs.
    by destruct (geoVisitSparse cursor rel (logging more) y o) as [y' [mt ok]].
  - split; [apply NoDup_nil_2|constructor].
  - split; [done|]. eapply Forall_impl; [exact Hf|]. naive_solver.
Qed.

(** [ScanRange] runs its callback over exactly the objects whose id is in the range
    ([start <= id < end] ascending, [end < id <= start] descending), in id order, less
    the first [cursor] of them, and stops when the callback says so. *)
Theorem ScanRange_spec c start_ end_ desc cursor iterator s :
  coll_ok c -> 0 <= default 0 cursor ->
  let r := ScanRange c start_ end_ desc cursor None iterator s in
  (st r, keepon r) =
    run iterator s (drop (Z.to_nat (default 0 cursor)) (id_range c start_ end_ desc)).
Proof. intros Hok Hc r. by rewrite <- ScanRange_run. Qed.

(** [SearchValuesRange] runs its callback over exactly the string objects whose
    value is in the range, in the order of the values, less the first [cursor]. *)
Theorem SearchValuesRange_spec c start_ end_ desc cursor iterator s :
  coll_ok c -> 0 <= default 0 cursor ->
  let r := SearchValuesRange c start_ end_ desc cursor None iterator s in
  exists l, (st r, keepon r) = run iterator s (drop (Z.to_nat (default 0 cursor)) l) /\
    StronglySorted (fun x y => (if desc then byValue y x else byValue x y) = true) l /\
    forall o, o ∈ l <->
      o ∈ all c /\ IsSpatial (Geo o) = false /\ value_in start_ end_ desc o = true.
Proof.
  intros Hok Hc r. pose proof (bt_sorted _ byValue (values c) _) as Hs.
  eexists. split; [by rewrite <- SearchValuesRange_run|]. split.
  - destruct desc; [apply sorted_reverse|]; by apply sorted_filter.
  - intros o. unfold dir. destruct desc; rewrite ?elem_of_reverse, list_elem_of_filter,
      (ix_values _ _ (ok_indexed _ Hok)); tauto.
Qed.

(** Without [sparse], [Within] and [Intersects] run their callback over exactly the
    objects whose index box meets the box of the query and that are in the relation with
    it, each once, in some order; the cursor skips candidates in that order. *)
Theorem Within_Intersects_spec c (obj : G) cursor iter s :
  coll_ok c -> box_ok (rtreeRect (geo_Rect obj)) = true -> 0 <= default 0 cursor ->
  exists l, l ≡ₚ candidates c (geo_Rect obj) /\
    (let l := drop (Z.to_nat (default 0 cursor)) l in
     seen (Within c obj 0 cursor None iter s) =
       run iter s (filter (fun o => Geo.Within (Geo o) obj = true) l) /\
     seen (Intersects c obj 0 cursor None iter s) =
       run iter s (filter (fun o => Geo.Intersects (Geo o) obj = true) l)).
Proof.
  intros Hok Hb Hc. exists (rt_search (spatial c) (rtreeRect (geo_Rect obj))).*2.
  split; [by apply search_candidates|].
  unfold Within, Intersects, geoQuery, geoSearch. rewrite box_ok_not_nan by done.
  split; by apply geoVisits.
Qed.

(** With [sparse], [Within] reports only objects of the collection that are within
    the query, and no object twice, however many pieces the query is cut into. *)
Theorem Within_sparse_safe c (obj : G) n cursor more :
  coll_ok c ->
  let log := st (Within c obj (Datatypes.S n) cursor None (logging more) []).1 in
  NoDup (ID <$> log) /\ Forall (fun o => o ∈ all c /\ Geo.Within (Geo o) obj = true) log.
Proof. apply geoSparse_reports. Qed.
End facts.

(** ** Witnesses *)

Module ScanExample.
Import Collection.Example.

Definition van (i : string) x : Object Rect := Object.New i (Geom (Boxes.box x x x x)) 0 [].
Definition word (i v : string) : Object Rect := Object.New i (Str v) 0 [].
Definition lot : coll :=
  foldl (fun c o => (Set_ c o).1) New
    [van "a" 1; van "b" 2; word "c" "red"; word "d" "blue"; van "e" 9].
Definition names (l : list string) (o : Object Rect) : list string * bool := (l ++ [ID o], true).

Lemma lot_ok : coll_ok lot.
Proof. unfold lot; cbn [foldl]. repeat (apply Set_ok; [|by vm_compute]). apply New_ok. Qed.

(** A candidate that does not match ends a sparse search: the point at 2 is inside the
    query, but the box that sticks out of it is visited first. *)
Definition crowded : coll :=
  (Set_ (Set_ New (van "in" 2)).1 (Object.New "out" (Geom (Boxes.box 1 1 50 50)) 0 [])).1.
Lemma sparse_misses :
  ID <$> st (Within crowded (Boxes.box 0 0 8 8) 0 None None (logging (fun _ => true)) []).1
    = ["in"] /\
  ID <$> st (Within crowded (Boxes.box 0 0 8 8) 1 None None (logging (fun _ => true)) []).1 = [].
Proof. by vm_compute. Qed.

End ScanExample.

Lemma ScanRange_spec_witness :
  st (ScanRange ScanExample.lot "b" "e" false (Some 1) None ScanExample.names []) = ["c"; "d"].
Proof.
  pose proof (ScanRange_spec ScanExample.lot "b" "e" false (Some 1) ScanExample.names []
    ScanExample.lot_ok ltac:(done)) as Hs.
  apply (f_equal fst) in Hs. cbn [fst] in Hs. rewrite Hs. by vm_compute.
Defined.

Lemma SearchValuesRange_spec_witness :
  let r := SearchValuesRange ScanExample.lot "b" "m" false (Some 1) None ScanExample.names [] in
  exists l, (st r, keepon r) =
    run ScanExample.names [] (drop (Z.to_nat (default 0 (Some 1))) l).
Proof.
  destruct (SearchValuesRange_spec ScanExample.lot "b" "m" false (Some 1) ScanExample.names []
    ScanExample.lot_ok Z.le_0_1) as (l & Hl & _).
  exists l. exact Hl.
Defined.

Lemma Within_Intersects_spec_witness :
  exists l, l ≡ₚ candidates ScanExample.lot (geo_Rect (Boxes.box 0 0 5 5)) /\
    seen (Within ScanExample.lot (Boxes.box 0 0 5 5) 0 (Some 1) None ScanExample.names []) =
      run ScanExample.names []
        (filter (fun o => Geo.Within (Geo o) (Boxes.box 0 0 5 5) = true)
           (drop (Z.to_nat (default 0 (Some 1))) l)).
Proof.
  destruct (Within_Intersects_spec ScanExample.lot (Boxes.box 0 0 5 5) (Some 1)
    ScanExample.names [] ScanExample.lot_ok ltac:(by vm_compute) Z.le_0_1)
    as (l & Hl & Hw & _).
  exists l. split; [exact Hl|exact Hw].
Defined.

Lemma Within_sparse_safe_witness :
  NoDup (ID <$> st (Within ScanExample.lot (Boxes.box 0 0 5 5) 2 None None
    (logging (fun _ => true)) []).1).
Proof.
  apply (Within_sparse_safe ScanExample.lot (Boxes.box 0 0 5 5) 1 None (fun _ => true)).
  apply ScanExample.lot_ok.
Defined.
