(* ===== verification/Group.v ===== *)
(** * Groups ([src/internal/legacy/server/group.go])

    A group connects a hook to an object of a collection; the notifications about the
    object for that hook carry its group id. The connections are kept in two ordered
    sets with the same items, one searched by hook and one by object. *)

From Stdlib Require Import Ascii String ZArith Lia Bool.
From stdpp Require Import base list strings option sorting sets gmap.
From S2P Require Import Prelude Containers CollectionScan.

Record groupItem := mkGroup {
  hookName : string; colKey : string; objID : string; groupID : string }.

#[global] Instance groupItem_eq_dec : EqDecision groupItem.
Proof. solve_decision. Defined.

Definition byGroupHook (a b : groupItem) : bool :=
  if hookName a <s hookName b then true
  else if hookName b <s hookName a then false
  else if colKey a <s colKey b then true
  else if colKey b <s colKey a then false
  else objID a <s objID b.

Definition byGroupObject (a b : groupItem) : bool :=
  if colKey a <s colKey b then true
  else if colKey b <s colKey a then false
  else if objID a <s objID b then true
  else if objID b <s objID a then false
  else hookName a <s hookName b.

#[global] Instance byGroupHook_sw : StrictWeak byGroupHook.
Proof. apply (lex_sw hookName (lex colKey (fun a b => objID a <s objID b))), lex_sw, str_sw. Qed.
#[global] Instance byGroupObject_sw : StrictWeak byGroupObject.
Proof. apply (lex_sw colKey (lex objID (fun a b => hookName a <s hookName b))), lex_sw, str_sw. Qed.

(** The three names that identify a connection. *)
Definition conn (g : groupItem) : string * string * string := (hookName g, colKey g, objID g).

Lemma byGroupHook_equiv a b : equivb byGroupHook a b = true <-> conn a = conn b.
Proof.
  unfold conn. etrans; [apply (lex_equiv hookName (lex colKey (fun a b => objID a <s objID b)))|].
  rewrite lex_equiv, str_equiv. naive_solver congruence.
Qed.
Lemma byGroupObject_equiv a b : equivb byGroupObject a b = true <-> conn a = conn b.
Proof.
  unfold conn. etrans; [apply (lex_equiv colKey (lex objID (fun a b => hookName a <s hookName b)))|].
  rewrite lex_equiv, str_equiv. naive_solver congruence.
Qed.

Section groups.
Context {T : forall A, (A -> A -> bool) -> Type} `{BTree T}.

(** The two members of the server. *)
Record groups := mkGroups {
  groupHooks : T groupItem byGroupHook;
  groupObjects : T groupItem byGroupObject }.

Definition groups_init : groups := mkGroups (bt_new _ _) (bt_new _ _).

(** [newGroupItem]; the fresh id [bsonID()] is an argument. *)
Definition newGroupItem (hookName colKey objID groupID : string) : groupItem :=
  let ustr := hookName +:+ colKey +:+ objID +:+ groupID in
  let pos := 0 in
  let h := str_take (String.length hookName) (str_drop pos ustr) in
  let pos := pos + String.length hookName in
  let k := str_take (String.length colKey) (str_drop pos ustr) in
  let pos := pos + String.length colKey in
  let o := str_take (String.length objID) (str_drop pos ustr) in
  let pos := pos + String.length objID in
  let i := str_take (String.length groupID) (str_drop pos ustr) in
  mkGroup h k o i.

Definition groupConnect (s : groups) (hookName colKey objID bsonID : string) : groups * string :=
  let g := newGroupItem hookName colKey objID bsonID in
  (mkGroups (bt_set (groupHooks s) g) (bt_set (groupObjects s) g), groupID g).

Definition groupDisconnect (s : groups) (hookName colKey objID : string) : groups :=
  let g := mkGroup hookName colKey objID "" in
  mkGroups (bt_delete (groupHooks s) g) (bt_delete (groupObjects s) g).

Definition groupGet (s : groups) (hookName colKey objID : string) : string :=
  match bt_get (groupHooks s) (mkGroup hookName colKey objID "") with
  | Some g => groupID g
  | None => ""
  end.

Definition deleteGroups (s : groups) (l : list groupItem) : groups :=
  foldl (fun s g => mkGroups (bt_delete (groupHooks s) g) (bt_delete (groupObjects s) g)) s l.

Definition groupDisconnectObject (s : groups) (colKey_ objID_ : string) : groups :=
  deleteGroups s
    (until (fun g => negb (colKey g =s colKey_) || negb (objID g =s objID_))
       (bt_ascend (groupObjects s) (mkGroup "" colKey_ objID_ ""))).

Definition groupDisconnectCollection (s : groups) (colKey_ : string) : groups :=
  deleteGroups s
    (until (fun g => negb (colKey g =s colKey_))
       (bt_ascend (groupObjects s) (mkGroup "" colKey_ "" ""))).

Definition groupDisconnectHook (s : groups) (hookName_ : string) : groups :=
  deleteGroups s
    (until (fun g => negb (hookName g =s hookName_))
       (bt_ascend (groupHooks s) (mkGroup hookName_ "" "" ""))).

Context `{!BTreeLaws T}.
Implicit Types s : groups.

(** Both sets hold the same connections. *)
Definition groups_ok s : Prop :=
  forall g, g ∈ bt_items (groupHooks s) <-> g ∈ bt_items (groupObjects s).

Definition connected s : list groupItem := bt_items (groupHooks s).

Lemma str_slice a b c : str_take (String.length b) (str_drop (String.length a) (a +:+ b +:+ c)) = b.
Proof. by rewrite str_drop_app, str_take_app. Qed.

Lemma newGroupItem_eq h k o i : newGroupItem h k o i = mkGroup h k o i.
Proof.
  unfold newGroupItem. cbv zeta. f_equal.
  - apply str_take_app.
  - apply str_slice.
  - rewrite <- (str_app_assoc h k), Nat.add_0_l, <- str_length_app. apply str_slice.
  - rewrite <- (str_app_assoc h k), <- (str_app_assoc (h +:+ k) o).
    rewrite Nat.add_0_l, <- !str_length_app, str_drop_app.
    rewrite <- (str_app_nil_r i) at 2. apply str_take_app.
Qed.

Lemma elem_deleteGroups s l g :
  (g ∈ bt_items (groupHooks (deleteGroups s l)) <->
     g ∈ bt_items (groupHooks s) /\ conn g ∉ conn <$> l) /\
  (g ∈ bt_items (groupObjects (deleteGroups s l)) <->
     g ∈ bt_items (groupObjects s) /\ conn g ∉ conn <$> l).
Proof.
  revert s. induction l as [|x l IH]; intros s; cbn [deleteGroups foldl fmap list_fmap].
  { split; set_solver. }
  specialize (IH (mkGroups (bt_delete (groupHooks s) x) (bt_delete (groupObjects s) x))).
  fold (deleteGroups (mkGroups (bt_delete (groupHooks s) x) (bt_delete (groupObjects s) x)) l).
  destruct IH as [-> ->]. simpl. rewrite !bt_elem_delete by apply _.
  rewrite not_elem_of_cons, <- !not_true_iff_false, byGroupHook_equiv, byGroupObject_equiv.
  naive_solver congruence.
Qed.

Lemma deleteGroups_ok s l : groups_ok s -> groups_ok (deleteGroups s l).
Proof. intros Hok g. destruct (elem_deleteGroups s l g) as [-> ->]. by rewrite (Hok g). Qed.

(** What lies at or after the pivot, up to the first item that differs in the leading
    names, is exactly what has these names. *)
Lemma ascend_until {less : groupItem -> groupItem -> bool} `{!StrictWeak less}
    (t : T groupItem less) (pivot : groupItem) (same : groupItem -> bool) g :
  (forall x, same x = true -> less x pivot = false) ->
  (forall x y, less x pivot = false -> same x = false -> less x y = true -> same y = false) ->
  g ∈ until (fun x => negb (same x)) (bt_ascend t pivot) <-> g ∈ bt_items t /\ same g = true.
Proof.
  intros Hp Hmono. unfold bt_ascend. rewrite until_filter.
  - rewrite !list_elem_of_filter, negb_false_iff. naive_solver.
  - assert (StronglySorted (fun x y => less x pivot = false /\ less x y = true)
      (filter (fun x => less x pivot = false) (bt_items t))) as Hs.
    { pose proof (bt_sorted _ less t _) as Hs.
      induction Hs as [|x l Hs IH F]; [constructor|]. rewrite filter_cons.
      case_decide; [|done]. constructor; [done|]. rewrite Forall_forall in *.
      intros y [_ Hy]%list_elem_of_filter. auto. }
    eapply sorted_impl; [|exact Hs]. intros x y [H1 H2]. rewrite !negb_true_iff. eauto.
Qed.

(** Deleting what a test on the names selects. *)
Lemma disconnect_spec s l (same : groupItem -> bool) g :
  groups_ok s -> (forall x y, conn x = conn y -> same x = same y) ->
  (forall x, x ∈ l <-> x ∈ bt_items (groupObjects s) /\ same x = true) ->
  g ∈ connected (deleteGroups s l) <-> g ∈ connected s /\ same g = false.
Proof.
  intros Hok Hsame Hl. unfold connected. destruct (elem_deleteGroups s l g) as [-> _].
  rewrite list_elem_of_fmap. split.
  - intros [Hg Hn]. split; [done|]. apply not_true_iff_false. intros Hs.
    apply Hn. exists g. split; [done|]. apply Hl. by rewrite <- (Hok g).
  - intros [Hg Hs]. split; [done|]. intros (x & Hx & [_ Hs']%Hl).
    rewrite (Hsame g x Hx) in Hs. congruence.
Qed.

Lemma ltb_prefix_lt a b : (a <s b) = false -> a <> b -> (b <s a) = true.
Proof. intros H1 H2. destruct (str_ltb_total a b) as [?|[?|?]]; congruence. Qed.

Lemma disconnectObject_elem s k o g :
  groups_ok s ->
  g ∈ connected (groupDisconnectObject s k o) <->
  g ∈ connected s /\ ~ (colKey g = k /\ objID g = o).
Proof.
  intros Hok. unfold groupDisconnectObject.
  set (same := fun g => (colKey g =s k) && (objID g =s o)).
  assert (forall l, until (fun g => negb (colKey g =s k) || negb (objID g =s o)) l =
    until (fun g => negb (same g)) l) as ->.
  { induction l as [|x l IH]; [done|]. simpl. rewrite IH. unfold same.
    by destruct (colKey x =s k), (objID x =s o). }
  rewrite (disconnect_spec _ _ same); [|done| |].
  - unfold same. rewrite andb_false_iff, !String.eqb_neq.
    destruct (decide (colKey g = k)), (decide (objID g = o)); tauto.
  - unfold same, conn. by intros x y [= _ -> ->].
  - intros x. apply ascend_until; unfold same, byGroupObject; simpl.
    + intros y. boolify. intros [-> ->]. by rewrite !str_ltb_irrefl; destruct (hookName y).
    + intros y z. rewrite !andb_false_iff, !String.eqb_neq.
      destruct (str_ltb_total (colKey y) k) as [E|[E|E]]; [by rewrite E| |].
      * rewrite E, str_ltb_irrefl. intros Hp [?|Ho]; [done|].
        destruct (objID y <s o) eqn:E1; [done|].
        destruct (str_ltb_total k (colKey z)) as [Ez|[Ez|Ez]].
        -- intros _. left. intros Hz. by rewrite Hz, str_ltb_irrefl in Ez.
        -- rewrite <- Ez, str_ltb_irrefl. intros Hlt. right. intros Hz. subst o.
           destruct (objID y <s objID z) eqn:E2; [done|].
           by rewrite (ltb_prefix_lt _ _ E2 Ho) in Hlt.
        -- by rewrite (str_ltb_asym _ _ Ez), Ez.
      * intros _ _ Hlt. left. intros Hz. subst k.
        by rewrite (str_ltb_asym _ _ E), E in Hlt.
Qed.

Lemma disconnectCollection_elem s k g :
  groups_ok s ->
  g ∈ connected (groupDisconnectCollection s k) <-> g ∈ connected s /\ colKey g <> k.
Proof.
  intros Hok. unfold groupDisconnectCollection.
  rewrite (disconnect_spec _ _ (fun g => colKey g =s k)); [|done| |].
  - by rewrite String.eqb_neq.
  - unfold conn. by intros x y [= _ -> _].
  - intros x. apply ascend_until; unfold byGroupObject; simpl.
    + intros y. boolify. intros ->. rewrite str_ltb_irrefl.
      destruct (objID y); [|done]. by destruct (hookName y).
    + intros y z Hp. rewrite !String.eqb_neq. intros Hk Hlt Hz. rewrite Hz in Hlt.
      destruct (colKey y <s k) eqn:E; [done|].
      by rewrite (ltb_prefix_lt _ _ E Hk) in Hlt.
Qed.

Lemma disconnectHook_elem s h g :
  groups_ok s ->
  g ∈ connected (groupDisconnectHook s h) <-> g ∈ connected s /\ hookName g <> h.
Proof.
  intros Hok. unfold groupDisconnectHook.
  rewrite (disconnect_spec _ _ (fun g => hookName g =s h)); [|done| |].
  - by rewrite String.eqb_neq.
  - unfold conn. by intros x y [= -> _ _].
  - intros x. rewrite <- (Hok x). apply ascend_until; unfold byGroupHook; simpl.
    + intros y. boolify. intros ->. rewrite str_ltb_irrefl.
      destruct (colKey y); [|done]. by destruct (objID y).
    + intros y z Hp. rewrite !String.eqb_neq. intros Hk Hlt Hz. rewrite Hz in Hlt.
      destruct (hookName y <s h) eqn:E; [done|].
      by rewrite (ltb_prefix_lt _ _ E Hk) in Hlt.
Qed.

Lemma groups_init_ok : groups_ok groups_init.
Proof. intros g. unfold groups_init; simpl. by rewrite !bt_items_new. Qed.

Lemma connect_ok s h k o i : groups_ok s -> groups_ok (groupConnect s h k o i).1.
Proof.
  intros Hok g. unfold groupConnect; simpl. rewrite !bt_elem_set by apply _.
  rewrite <- !not_true_iff_false, byGroupHook_equiv, byGroupObject_equiv, (Hok g). done.
Qed.

Lemma disconnect_ok s h k o : groups_ok s -> groups_ok (groupDisconnect s h k o).
Proof.
  intros Hok. apply (deleteGroups_ok s [mkGroup h k o ""] Hok).
Qed.

(** The steps the server takes on its groups. *)
Inductive group_op :=
| Connect (h k o id : string) | Disconnect (h k o : string)
| DropObject (k o : string) | DropCollection (k : string) | DropHook (h : string).

Definition group_step s (op : group_op) : groups :=
  match op with
  | Connect h k o id => (groupConnect s h k o id).1
  | Disconnect h k o => groupDisconnect s h k o
  | DropObject k o => groupDisconnectObject s k o
  | DropCollection k => groupDisconnectCollection s k
  | DropHook h => groupDisconnectHook s h
  end.

(** The connection an operation leaves in place, as a test. *)
Definition survives (op : group_op) (g : groupItem) : Prop :=
  match op with
  | Connect h k o _ | Disconnect h k o => conn g <> (h, k, o)
  | DropObject k o => ~ (colKey g = k /\ objID g = o)
  | DropCollection k => colKey g <> k
  | DropHook h => hookName g <> h
  end.

Lemma group_step_ok s op : groups_ok s -> groups_ok (group_step s op).
Proof.
  destruct op; simpl;
    [apply connect_ok|apply disconnect_ok|apply deleteGroups_ok..].
Qed.

(** After any sequence of operations the two group indexes hold the same
    connections. *)
Theorem groups_agree ops g :
  let s := foldl group_step groups_init ops in
  g ∈ bt_items (groupHooks s) <-> g ∈ bt_items (groupObjects s).
Proof.
  intros s. assert (groups_ok s) as Hok; [|apply Hok].
  subst s. generalize groups_init, groups_init_ok.
  induction ops as [|op ops IH]; intros s Hs; simpl; [done|]. by apply IH, group_step_ok.
Qed.

(** Each operation removes exactly the connections it is meant to, and [Connect]
    adds one, which [groupGet] then finds. *)
Theorem group_step_effect s op g :
  groups_ok s ->
  (g ∈ connected (group_step s op) <->
   (g ∈ connected s /\ survives op g) \/
   match op with Connect h k o id => g = mkGroup h k o id | _ => False end) /\
  match op with Connect h k o id => groupGet (group_step s op) h k o = id | _ => True end.
Proof.
  intros Hok. destruct op as [h k o id|h k o|k o|k|h]; cbn [group_step survives].
  - unfold groupConnect, connected, groupGet. rewrite newGroupItem_eq. cbn [fst groupHooks].
    rewrite bt_elem_set by apply _. rewrite <- not_true_iff_false, byGroupHook_equiv. split.
    + split; [intros [->|[Hg Hne]]; [by right|left; split; [done|]]|].
      { intros He. by apply Hne. }
      intros [[Hg Hne]| ->]; [right|by left]. split; [done|]. intros He. by apply Hne.
    + assert (bt_get (bt_set (groupHooks s) (mkGroup h k o id)) (mkGroup h k o "") =
        Some (mkGroup h k o id)) as ->; [|done].
      apply bt_get_spec; [apply _|]. rewrite bt_elem_set by apply _.
      split; [by left|by apply byGroupHook_equiv].
  - split; [|done]. unfold groupDisconnect, connected. cbn [groupHooks].
    rewrite bt_elem_delete by apply _. rewrite <- not_true_iff_false, byGroupHook_equiv.
    unfold conn at 1. naive_solver congruence.
  - rewrite disconnectObject_elem by done. naive_solver.
  - rewrite disconnectCollection_elem by done. naive_solver.
  - rewrite disconnectHook_elem by done. naive_solver.
Qed.
End groups.
Arguments groups : clear implicits.

Lemma group_step_effect_witness :
  let s := group_step (T := LTree.tree) groups_init (Connect "h" "fleet" "t1" "id1") in
  mkGroup "h" "fleet" "t1" "id1" ∉ connected (group_step s (DropObject "fleet" "t1")).
Proof.
  intros s Hin.
  apply (group_step_effect s (DropObject "fleet" "t1")) in Hin as [[_ Hs]|[]].
  - by apply Hs.
  - apply group_step_ok, groups_init_ok.
Defined.

Lemma groups_agree_witness :
  let s := foldl (group_step (T := LTree.tree)) groups_init
    [Connect "h" "fleet" "t1" "id1"; Connect "h" "fleet" "t2" "id2"; DropObject "fleet" "t1"] in
  mkGroup "h" "fleet" "t2" "id2" ∈ bt_items (groupHooks s) <->
  mkGroup "h" "fleet" "t2" "id2" ∈ bt_items (groupObjects s).
Proof.
  apply (groups_agree [Connect "h" "fleet" "t1" "id1"; Connect "h" "fleet" "t2" "id2";
    DropObject "fleet" "t1"]).
Defined.
