(* ===== verification/World.v ===== *)
(** * The server's surroundings and state

    [World] bundles what the server imports: the geometry package, the JSON package, the
    containers, and the geohash package. [WorldLaws] is the documented behaviour of the
    containers. The state of the server ([src/internal/legacy/server/server.go]) and its
    messages follow; an example world over lists is at the end. *)

From Stdlib Require Import Ascii String ZArith Lia Bool SpecFloat.
From stdpp Require Import base list strings option sorting sets gmap.
From S2P Require Import Prelude GoStd Strconv Json Containers Field Geo Object Collection.
From S2P Require Import CollectionScan Group.

Local Open Scope Z_scope.

(** ** Hooks *)

(** [roamSwitches]; [roam.on] is false where there are none. *)
Record roamSwitches := mkRoam {
  roam_key : string; roam_id : string; roam_pattern : bool; roam_meters : float64;
  roam_scan : string }.
#[global] Instance roamSwitches_eq_dec : EqDecision roamSwitches.
Proof. solve_decision. Defined.

(** A fence of a hook: the members of [liveFenceSwitches] the matching depends on; the
    filters are in the hook's [ScanWriter]. Nil maps are [None]. *)
Record fence (G : Type) := mkFence {
  f_cmd : string; f_obj : option (geometry G); f_detect : option (list string);
  f_accept : option (list string); f_globs : list string; f_distance : bool;
  f_nodwell : bool; f_roam : option roamSwitches }.
Arguments mkFence {G}.
Arguments f_cmd {G}.
Arguments f_obj {G}.
Arguments f_detect {G}.
Arguments f_accept {G}.
Arguments f_globs {G}.
Arguments f_distance {G}.
Arguments f_nodwell {G}.
Arguments f_roam {G}.

(** [Hook]: [h_expires] is [None] for the zero time; [h_args] is [Message.Args]. *)
Record Hook (G : Type) := mkHook {
  Key : string; Name : string; Endpoints : list string; h_args : list string;
  Fence : fence G; Metas : list (string * string); channel : bool; h_expires : option Z }.
Arguments mkHook {G}.
Arguments Key {G}.
Arguments Name {G}.
Arguments Endpoints {G}.
Arguments h_args {G}.
Arguments Fence {G}.
Arguments Metas {G}.
Arguments channel {G}.
Arguments h_expires {G}.

Definition byHookName {G} (a b : Hook G) : bool := Name a <s Name b.

(** [Before] on times, the zero time first. *)
Definition time_lt (a b : option Z) : bool :=
  match a, b with
  | None, Some _ => true
  | Some x, Some y => x <? y
  | _, None => false
  end.

Definition byHookExpires {G} (ha hb : Hook G) : bool :=
  if time_lt (h_expires ha) (h_expires hb) then true
  else if time_lt (h_expires hb) (h_expires ha) then false
  else Name ha <s Name hb.

(** [m[k]] on a [map[string]bool] that only holds [true]. *)
Definition detects {G} (f : fence G) (d : string) : bool :=
  match f_detect f with Some l => bool_decide (d ∈ l) | None => false end.

#[global] Instance byHookName_sw {G} : StrictWeak (@byHookName G).
Proof. apply str_sw. Qed.

#[global] Instance byHookExpires_sw {G} : StrictWeak (@byHookExpires G).
Proof.
  pose proof (byHookName_sw (G := G)) as [N1 N2 N3]. unfold byHookName in *.
  split; unfold byHookExpires, time_lt.
  - intros x. destruct (h_expires x); [rewrite Z.ltb_irrefl|]; apply N1.
  - intros x y z. specialize (N2 x y z).
    destruct (h_expires x) as [a|], (h_expires y) as [b|], (h_expires z) as [c|]; try done; try tauto.
    destruct (Z.ltb_spec a b), (Z.ltb_spec b a), (Z.ltb_spec b c), (Z.ltb_spec c b),
      (Z.ltb_spec a c), (Z.ltb_spec c a); (done || lia || auto).
  - intros x y z. specialize (N3 x y z).
    destruct (h_expires x) as [a|], (h_expires y) as [b|], (h_expires z) as [c|]; try done; try tauto.
    destruct (Z.ltb_spec a b), (Z.ltb_spec b a), (Z.ltb_spec b c), (Z.ltb_spec c b),
      (Z.ltb_spec a c), (Z.ltb_spec c a); (done || lia || auto).
Qed.

Lemma byHookName_equiv {G} (a b : Hook G) : equivb byHookName a b = true <-> Name a = Name b.
Proof. apply (str_equiv Name). Qed.

Lemma byHookExpires_equiv {G} (a b : Hook G) :
  equivb byHookExpires a b = true <-> h_expires a = h_expires b /\ Name a = Name b.
Proof.
  rewrite <- byHookName_equiv. unfold equivb, byHookExpires, byHookName, time_lt.
  destruct (h_expires a) as [x|], (h_expires b) as [y|]; try naive_solver.
  destruct (Z.ltb_spec x y), (Z.ltb_spec y x); simpl; try naive_solver lia.
  assert (x = y) as -> by lia. tauto.
Qed.

(** The boxes of the hook indexes have [float64] coordinates. *)
Definition rect_ok (r : Rect) : bool :=
  negb (IsNaN (X (Min r)) || IsNaN (Y (Min r)) || IsNaN (X (Max r)) || IsNaN (Y (Max r))).
Definition rect_meet (a b : Rect) : bool :=
  f64_le (X (Min a)) (X (Max b)) && f64_le (X (Min b)) (X (Max a)) &&
  f64_le (Y (Min a)) (Y (Max b)) && f64_le (Y (Min b)) (Y (Max a)).

(** ** The imported packages *)

Class World := {
  wG : Type;
  w_GeoJSON :: GeoJSON wG;
  w_Gjson :: Gjson;
  w_FieldsWeight :: FieldsWeight;
  wM : Type -> Type;
  w_StrMap :: StrMap wM;
  wT : forall A, (A -> A -> bool) -> Type;
  w_BTree :: BTree wT;
  wR : Type;
  w_RTree :: RTree fbox (Object wG) wR;
  wH : Type;
  w_HTree :: RTree Rect (Hook wG) wH;
  (** [geojson.NewPoint], [NewPointZ], [NewRect] and [Parse] with the server's options *)
  NewPoint : Point -> wG;
  NewPointZ : Point -> float64 -> wG;
  NewRect : Rect -> wG;
  geo_Parse : string -> result string wG;
  (** [geohash.EncodeWithPrecision(lat, lng, chars)] and [geohash.Decode] *)
  EncodeWithPrecision : float64 -> float64 -> Z -> string;
  Decode : string -> float64 * float64;
  (** [gjson.Get(json, path)] and [gjson.Parse(json)] as [String()] and [Raw], [None] when
      the result does not exist; [sjson.Set], [SetRaw] and [Delete] *)
  gjson_result : string -> string -> option (string * string);
  gjson_parse : string -> option (string * string);
  sjson_Set : string -> string -> string -> result string string;
  sjson_SetRaw : string -> string -> string -> result string string;
  sjson_Delete : string -> string -> result string string;
  (** [LeftMost], [BottomMost], [RightMost] and [TopMost] of the spatial index *)
  LeftMost : wR -> option (Object wG);
  BottomMost : wR -> option (Object wG);
  RightMost : wR -> option (Object wG);
  TopMost : wR -> option (Object wG);
}.

(** [pick t] is an item whose box has the least [coord], for the order [le]. *)
Definition extreme `{World} (coord : fbox -> spec_float) (le : spec_float -> spec_float -> bool)
    (pick : wR -> option (Object wG)) : Prop :=
  forall t, Forall (fun p => box_ok p.1 = true) (rt_items t) ->
  match pick t with
  | None => rt_items t = []
  | Some o => exists b, (b, o) ∈ rt_items t /\
      forall p, p ∈ rt_items t -> le (coord b) (coord p.1) = true
  end.

Class WorldLaws `{World} := {
  w_StrMapLaws :: StrMapLaws wM;
  w_BTreeLaws :: BTreeLaws wT;
  w_RTreeLaws :: RTreeLaws fbox (Object wG) wR box_ok box_meet;
  w_HTreeLaws :: RTreeLaws Rect (Hook wG) wH rect_ok rect_meet;
  w_LeftMost : extreme (fun b => (bmin b).1) f64_le LeftMost;
  w_BottomMost : extreme (fun b => (bmin b).2) f64_le BottomMost;
  w_RightMost : extreme (fun b => (bmax b).1) (flip f64_le) RightMost;
  w_TopMost : extreme (fun b => (bmax b).2) (flip f64_le) TopMost;
}.

(** ** Replies and failures *)

(** [resp.Value]; [RZero] is [resp.Value{}]. *)
Inductive respValue :=
| RZero
| RNull
| RString (s : string)
| RSimple (s : string)
| RInt (n : Z)
| RFloat (f : float64)
| RBool (b : bool)
| RArray (l : list respValue).

(** An error a command returns, by its text, a nil dereference, an index or length out of
    range, a failed type assertion, or the panic of a deadline. *)
Inductive failure := Error (msg : string) | NilDeref | OutOfRange | BadAssertion | DeadlineHit.

#[global] Instance failure_eq_dec : EqDecision failure.
Proof. solve_decision. Defined.

Definition errInvalidNumberOfArguments := Error "invalid number of arguments".
Definition errKeyNotFound := Error "key not found".
Definition errIDNotFound := Error "id not found".
Definition errIDAlreadyExists := Error "id already exists".
Definition errPathNotFound := Error "path not found".
Definition errKeyHasHooksSet := Error "key has hooks set".
Definition errKeyHasChannelsSet := Error "key has channels set".
Definition errOOM := Error "OOM command not allowed when used memory > 'maxmemory'".
Definition errInvalidArgument (arg : string) := Error ("invalid argument '" +:+ arg +:+ "'").
Definition errDuplicateArgument (arg : string) := Error ("duplicate argument '" +:+ arg +:+ "'").

(** JSON text in the source uses double quotes; here it is written with apostrophes,
    which [js] turns into double quotes. *)
Fixpoint js (s : string) : string :=
  match s with
  | EmptyString => ""
  | String c s => String (if (c =? "'")%char then dquote else c) (js s)
  end.

(** ** Messages *)

Inductive outType := OutJSON | OutRESP | OutOther.
#[global] Instance outType_eq_dec : EqDecision outType.
Proof. solve_decision. Defined.
Definition is_JSON (t : outType) : bool := match t with OutJSON => true | _ => false end.
Definition is_RESP (t : outType) : bool := match t with OutRESP => true | _ => false end.

Record Message := mkMessage {
  Args : list string; OutputType : outType; Deadline_ : option (Deadline * (Z -> Z)) }.

(** What a command reads from the clock: [start] and the later [time.Now()] in
    nanoseconds, and the text of [time.Since(start)]. *)
Record clock := mkClock { c_start : Z; c_now : Z; c_elapsed : string }.

(** [strings.ToLower(s) == w] for a lower-case ASCII word [w]. *)
Definition kw (s w : string) : bool :=
  match ToLower s with Some l => l =s w | None => false end.

(** ** The server *)

Section server.
Context `{World}.

Abbreviation Coll := (Collection wG wM wT wR).
Abbreviation Obj := (Object wG).
Abbreviation hook := (Hook wG).

(** The members of [Server] that hold the data set. *)
Record Server := mkServer {
  cols : wM Coll;
  hooks : wT hook byHookName;
  hooksOut : wT hook byHookName;
  hookExpires : wT hook byHookExpires;
  hookTree : wH;
  hookCross : wH;
  grps : groups wT;
  maxMemory : Z;
  outOfMemory : bool }.

(** [children] of a details record have no children themselves. *)
Record commandDetail := mkDetail {
  d_command : string;
  d_key : string;
  d_newKey : string;
  d_obj : option Obj;
  d_old : option Obj;
  d_updated : bool;
  d_timestamp : Z }.
Record commandDetails := mkDetails {
  detail : commandDetail;
  d_parent : bool;
  d_pattern : string;
  d_children : list commandDetail }.

Definition noDetail : commandDetail := mkDetail "" "" "" None None false 0.
Definition noDetails : commandDetails := mkDetails noDetail false "" [].
Definition single (d : commandDetail) : commandDetails := mkDetails d false "" [].

(** What a write command returns: the server, and a reply with details or a failure. *)
Definition wresult : Type := Server * result failure (respValue * commandDetails).
Definition rresult : Type := result failure respValue.

Definition with_cols (s : Server) (m : wM Coll) : Server :=
  mkServer m (hooks s) (hooksOut s) (hookExpires s) (hookTree s) (hookCross s) (grps s)
    (maxMemory s) (outOfMemory s).
Definition with_grps (s : Server) (g : groups wT) : Server :=
  mkServer (cols s) (hooks s) (hooksOut s) (hookExpires s) (hookTree s) (hookCross s) g
    (maxMemory s) (outOfMemory s).

(** The server at start. *)
Definition newServer (maxMemory : Z) : Server :=
  mkServer sm_empty (bt_new _ _) (bt_new _ _) (bt_new _ _) rt_empty rt_empty groups_init
    maxMemory false.

(** The reply [{"ok":true,"elapsed":...}] and [OKMessage]. *)
Definition okJSON (ck : clock) : string :=
  js "{'ok':true,'elapsed':'" +:+ c_elapsed ck +:+ js "'}".
Definition OKMessage (msg : Message) (ck : clock) : respValue :=
  match OutputType msg with
  | OutJSON => RString (okJSON ck)
  | OutRESP => RSimple "OK"
  | OutOther => RSimple ""
  end.
Definition NOMessage : respValue := RSimple "".

Definition isReservedFieldName (field : string) : bool :=
  (field =s "z") || (field =s "lat") || (field =s "lon").

(** [tokenval]. *)
Definition tokenval (vs : list string) : option (string * list string) :=
  match vs with [] => None | t :: nvs => Some (t, nvs) end.

(** [tokenval] followed by the test for an absent or empty token. *)
Definition token1 (vs : list string) : result failure (string * list string) :=
  match vs with
  | t :: nvs => if t =s "" then Err errInvalidNumberOfArguments else Ok (t, nvs)
  | [] => Err errInvalidNumberOfArguments
  end.

End server.
Arguments Server {_}.
Arguments commandDetails {_}.
Arguments commandDetail {_}.

(** ** An example world: lists, and rectangles for geometries *)
Module ExampleWorld.

#[global] Instance hook_eq_dec : EqDecision (Hook Rect).
Proof.
  assert (EqDecision (geometry Rect)) as HG.
  { intros [s|r] [s'|r']; try (right; congruence).
    - destruct (decide (s = s')); [left|right]; congruence.
    - destruct (decide (r = r')); [left|right]; congruence. }
  assert (EqDecision (fence Rect)) as HF by solve_decision.
  solve_decision.
Defined.

Definition gjson : Gjson := {|
  gjson_Valid := fun s => negb (s =s "");
  gjson_Parse := fun s => (String_, s);
  gjson_Get := fun _ _ => None;
  gjson_JSONString := Marshal;
  pretty_Ugly := fun s => s |}.

#[global] Instance ht : RTree Rect (Hook Rect) (list (Rect * Hook Rect)) :=
  LBoxes.list_RTree rect_meet.

(** The item with the least coordinate of a list. *)
Fixpoint least (coord : fbox -> spec_float) (le : spec_float -> spec_float -> bool)
    (l : list (fbox * Object Rect)) : option (fbox * Object Rect) :=
  match l with
  | [] => None
  | p :: l =>
    match least coord le l with
    | Some q => Some (if le (coord p.1) (coord q.1) then p else q)
    | None => Some p
    end
  end.
Definition pick coord le l : option (Object Rect) := snd <$> least coord le l.

(** Enough of gjson for flat objects: the text between the quotes after the name. *)
Fixpoint after (p s : string) : option string :=
  if has_prefix s p then Some (str_drop (String.length p) s)
  else match s with EmptyString => None | String _ s => after p s end.
Fixpoint upto_quote (s : string) : string :=
  match s with
  | EmptyString => ""
  | String c s => if (c =? dquote)%char then "" else String c (upto_quote s)
  end.
Definition member (path text : string) : option string :=
  upto_quote <$> after (js "'" +:+ path +:+ js "':'") text.

(** The one geometry that is read. *)
Definition unitBox : Rect := Boxes.box 0 0 1 1.

#[global] Instance world : World := {|
  wG := Rect;
  w_GeoJSON := Boxes.rect_GeoJSON;
  w_Gjson := gjson;
  w_FieldsWeight := Example.fw;
  wM := gmap string;
  w_StrMap := GMap.gmap_StrMap;
  wT := LTree.tree;
  w_BTree := LTree.tree_BTree;
  wR := list (fbox * Object Rect);
  w_RTree := Example.rt;
  wH := list (Rect * Hook Rect);
  w_HTree := ht;
  NewPoint := fun p => mkRect p p;
  NewPointZ := fun p _ => mkRect p p;
  NewRect := fun r => r;
  geo_Parse := fun s => if s =s "box" then Ok unitBox else Err "invalid data";
  EncodeWithPrecision := fun _ _ _ => "";
  Decode := fun _ => (f64_zero, f64_zero);
  gjson_result := fun text path => (fun v => (v, v)) <$> member path text;
  gjson_parse := fun s => Some (s, s);
  sjson_Set := fun _ _ v => Ok v;
  sjson_SetRaw := fun _ _ v => Ok v;
  sjson_Delete := fun _ _ => Ok "";
  LeftMost := pick (fun b => (bmin b).1) f64_le;
  BottomMost := pick (fun b => (bmin b).2) f64_le;
  RightMost := pick (fun b => (bmax b).1) (flip f64_le);
  TopMost := pick (fun b => (bmax b).2) (flip f64_le) |}.

Lemma f64_le_refl x : IsNaN x = false -> f64_le x x = true.
Proof. intros Nx. by rewrite f64_le_lt, Nx, f64_lt_irrefl. Qed.

Section extremes.
Context (coord : fbox -> spec_float) (le : spec_float -> spec_float -> bool).
Hypothesis Hc : forall b, box_ok b = true -> IsNaN (coord b) = false.
Hypothesis Ht : forall x y z, le x y = true -> le y z = true -> le x z = true.
Hypothesis Htot :
  forall x y, IsNaN x = false -> IsNaN y = false -> le x y = false -> le y x = true.
Hypothesis Hr : forall x, IsNaN x = false -> le x x = true.

Lemma least_spec l :
  Forall (fun p => box_ok p.1 = true) l ->
  match least coord le l with
  | None => l = []
  | Some q => q ∈ l /\ forall p, p ∈ l -> le (coord q.1) (coord p.1) = true
  end.
Proof.
  induction 1 as [|p l Hp Hl IH]; [done|]. simpl.
  destruct (least coord le l) as [q|].
  - destruct IH as [Hq Hmin]. rewrite Forall_forall in Hl.
    destruct (le (coord p.1) (coord q.1)) eqn:E.
    + split; [apply list_elem_of_here|]. intros r [->|Hin]%elem_of_cons; eauto.
    + split; [by apply list_elem_of_further|]. intros r [->|Hin]%elem_of_cons; eauto.
  - subst l. split; [apply list_elem_of_here|].
    intros r [->|[]%not_elem_of_nil]%elem_of_cons. eauto.
Qed.

Lemma least_extreme : extreme coord le (pick coord le).
Proof.
  intros l Hl. unfold pick. apply least_spec in Hl.
  change (rt_items l) with l in *.
  destruct (least coord le l) as [[b o]|]; simpl; [|done]. by exists b.
Qed.
End extremes.

#[global] Instance world_laws : WorldLaws.
Proof.
  split; simpl.
  - apply GMap.gmap_StrMapLaws.
  - apply LTree.tree_BTreeLaws.
  - apply Example.rt_laws.
  - apply LBoxes.list_RTreeLaws.
  - apply least_extreme; [|eauto using f64_le_trans, f64_le_total, f64_le_refl..].
    intros [[] []]; unfold box_ok; simpl; do 2 boolify; tauto.
  - apply least_extreme; [|eauto using f64_le_trans, f64_le_total, f64_le_refl..].
    intros [[] []]; unfold box_ok; simpl; do 2 boolify; tauto.
  - apply least_extreme; [|unfold flip; eauto using f64_le_trans, f64_le_total, f64_le_refl..].
    intros [[] []]; unfold box_ok; simpl; do 2 boolify; tauto.
  - apply least_extreme; [|unfold flip; eauto using f64_le_trans, f64_le_total, f64_le_refl..].
    intros [[] []]; unfold box_ok; simpl; do 2 boolify; tauto.
Qed.

End ExampleWorld.
