(* ===== verification/Hooks.v ===== *)
(** * Hooks and channels ([src/internal/legacy/server/hooks.go])

    A hook watches one collection through a fence. The server keeps its hooks by name,
    those that detect "outside" in a second set, those with an expiration in a third, and
    the areas of the fences in two spatial indexes. This file has the operations on these
    five indexes and the proof that they always describe the same hooks. *)

From Stdlib Require Import Ascii String ZArith Lia Bool SpecFloat.
From stdpp Require Import base list strings option sorting sets gmap.
From S2P Require Import Prelude GoStd Strconv Glob GlobFacts Json Containers Field Geo.
From S2P Require Import Object Collection CollectionScan Group World.
Import Glob.

Local Open Scope Z_scope.

Section hooks.
Context `{World}.
Abbreviation hook := (Hook wG).
Implicit Types (s : Server) (h : hook) (msg : Message) (ck : clock).

(** A hook with a name only, for lookups. *)
Definition named (n : string) : hook := mkHook "" n [] [] (mkFence "" None None None [] false false None) [] false None.

Definition Equals_ h (hk : hook) : bool :=
  (Key h =s Key hk) && (Name h =s Name hk) &&
  bool_decide (h_expires h = h_expires hk) &&
  bool_decide (Endpoints h = Endpoints hk) && bool_decide (Metas h = Metas hk) &&
  bool_decide (h_args h = h_args hk).

(** Assignments to the hook indexes. *)
Definition with_hooks s hk out ex tr cr : Server :=
  mkServer (cols s) hk out ex tr cr (grps s) (maxMemory s) (outOfMemory s).

Definition set_hookExpires s h : Server :=
  match h_expires h with
  | Some _ => with_hooks s (hooks s) (hooksOut s) (bt_set (hookExpires s) h) (hookTree s) (hookCross s)
  | None => s
  end.

(** Out of the maps by name and by expiration. *)
Definition unlist s h : Server :=
  with_hooks s (bt_delete (hooks s) h) (bt_delete (hooksOut s) h)
    (match h_expires h with Some _ => bt_delete (hookExpires s) h | None => hookExpires s end)
    (hookTree s) (hookCross s).

(** Out of the spatial indexes, and into them. *)
Definition unplace s h : Server :=
  match f_obj (Fence h) with
  | None => s
  | Some o =>
    let rect := RectOf o in
    with_hooks s (hooks s) (hooksOut s) (hookExpires s) (rt_delete (hookTree s) rect h)
      (if detects (Fence h) "cross" then rt_delete (hookCross s) rect h else hookCross s)
  end.

Definition place s h : Server :=
  match f_obj (Fence h) with
  | None => s
  | Some o =>
    let rect := RectOf o in
    with_hooks s (hooks s) (hooksOut s) (hookExpires s) (rt_insert (hookTree s) rect h)
      (if detects (Fence h) "cross" then rt_insert (hookCross s) rect h else hookCross s)
  end.

(** Whether a fence is among those that detect "outside". *)
Definition detects_out h : bool :=
  match f_detect (Fence h) with None => true | Some _ => detects (Fence h) "outside" end.

Definition cmdDELHOOKop s (name : string) (ch : bool) : Server * bool :=
  match bt_get (hooks s) (named name) with
  | Some h =>
    if Bool.eqb (channel h) ch then
      let s := unlist s h in
      let s := with_grps s (groupDisconnectHook (grps s) (Name h)) in
      (unplace s h, true)
    else (s, false)
  | None => (s, false)
  end.

(** The part of [cmdSetHook] after the hook was built from the arguments. *)
Definition addHook s (prev : option hook) h : Server :=
  let out := if detects_out h then bt_set (hooksOut s) h else hooksOut s in
  let s := with_hooks s (bt_set (hooks s) h) out (hookExpires s) (hookTree s) (hookCross s) in
  let s := match prev with Some p => unplace s p | None => s end in
  set_hookExpires (place s h) h.

Definition setReply msg ck (n : Z) : respValue :=
  match OutputType msg with
  | OutJSON => OKMessage msg ck
  | OutRESP => RInt n
  | OutOther => NOMessage
  end.

Definition hookDetails (updated : bool) (now : Z) : commandDetails :=
  single (mkDetail "" "" "" None None updated now).

Definition setHook s msg ck h : wresult :=
  match bt_get (hooks s) (named (Name h)) with
  | None => (addHook s None h, Ok (setReply msg ck 1, hookDetails true (c_now ck)))
  | Some prev =>
    if negb (Bool.eqb (channel prev) (channel h)) then
      (s, Err (Error "hooks and channels cannot share the same name"))
    else
      let same := Equals_ prev h in
      let s := if same then set_hookExpires s h else s in
      if same && match OutputType msg with OutOther => false | _ => true end then
        (s, Ok (setReply msg ck 0, noDetails))
      else
        let s := unlist s prev in
        let s := with_grps s (groupDisconnectHook (grps s) (Name h)) in
        (addHook s (Some prev) h, Ok (setReply msg ck 1, hookDetails true (c_now ck)))
  end.

Definition cmdDelHook s msg ck : wresult :=
  match Args msg with
  | [] => (s, Err errInvalidNumberOfArguments)
  | c :: vs =>
    match token1 vs with
    | Err e => (s, Err e)
    | Ok (name, vs) =>
      match vs with
      | _ :: _ => (s, Err errInvalidNumberOfArguments)
      | [] =>
        let '(s, updated) := cmdDELHOOKop s name (kw c "delchan") in
        let reply := match OutputType msg with
                     | OutJSON => OKMessage msg ck
                     | OutRESP => RInt (if updated then 1 else 0)
                     | OutOther => RZero
                     end in
        (s, Ok (reply, hookDetails updated (c_now ck)))
      end
    end
  end.

(** [forEachHookByPattern]: the callback updates a state and says whether to go on. *)
Definition forEachHookByPattern {S} s (pattern : string) (ch : bool)
    (iter : S -> hook -> S * bool) (x : S) : S :=
  let '(l0, l1) := Limits (Parse pattern false) in
  let hasUpperLimit := negb (l1 =s "") in
  iter_while (fun x h =>
      if hasUpperLimit && (l1 <s Name h) then (x, false)
      else if Bool.eqb (channel h) ch then
        if matches pattern (Name h) then iter x h else (x, true)
      else (x, true))
    x (bt_ascend (hooks s) (named l0)).

Definition collect (hs : list hook) h : list hook * bool := (hs ++ [h], true).

Definition cmdPDelHook s msg ck : wresult :=
  match Args msg with
  | [] => (s, Err errInvalidNumberOfArguments)
  | c :: vs =>
    match token1 vs with
    | Err e => (s, Err e)
    | Ok (pattern, vs) =>
      match vs with
      | _ :: _ => (s, Err errInvalidNumberOfArguments)
      | [] =>
        let ch := kw c "pdelchan" in
        let hs := forEachHookByPattern s pattern ch collect [] in
        let '(s, updated, count) :=
          foldl (fun '(s, updated, count) h =>
              if Bool.eqb (channel h) ch
              then ((cmdDELHOOKop s (Name h) ch).1, true, count + 1)
              else (s, updated, count))
            (s, false, 0) hs in
        let reply := match OutputType msg with
                     | OutJSON => OKMessage msg ck
                     | OutRESP => RInt count
                     | OutOther => RZero
                     end in
        (s, Ok (reply, hookDetails updated (c_now ck)))
      end
    end
  end.

(** ** The five indexes describe the same hooks *)

Context `{!WorldLaws}.

Definition hook_rect_ok h : bool :=
  match f_obj (Fence h) with Some o => rect_ok (RectOf o) | None => true end.

(** The entries of a spatial index for the hooks [l] that [P] selects. *)
Definition areas (P : hook -> bool) (l : list hook) : list (Rect * hook) :=
  omap (fun h => if P h then (fun o => (RectOf o, h)) <$> f_obj (Fence h) else None) l.
Definition crossing h : bool := detects (Fence h) "cross".

Record placed s (l : list hook) : Prop := {
  pl_tree : rt_items (hookTree s) ≡ₚ areas (fun _ => true) l;
  pl_cross : rt_items (hookCross s) ≡ₚ areas crossing l;
  pl_ok : Forall (fun h => hook_rect_ok h = true) l;
}.

(** The set by expiration holds, for each hook that expires, an entry with its name, time
    and kind. *)
Definition same_expiry h (e : hook) : Prop :=
  Name e = Name h /\ h_expires e = h_expires h /\ channel e = channel h.

Record listed s : Prop := {
  li_out : forall h, h ∈ bt_items (hooksOut s) <-> h ∈ bt_items (hooks s) /\ detects_out h = true;
  li_entry : forall e, e ∈ bt_items (hookExpires s) ->
    h_expires e <> None /\ exists h, h ∈ bt_items (hooks s) /\ same_expiry h e;
  li_timed : forall h, h ∈ bt_items (hooks s) -> h_expires h <> None ->
    exists e, e ∈ bt_items (hookExpires s) /\ same_expiry h e;
}.

Record hooks_ok s : Prop := {
  ho_listed : listed s;
  ho_placed : placed s (bt_items (hooks s));
}.

#[global] Instance areas_perm P : Proper ((≡ₚ) ==> (≡ₚ)) (areas P).
Proof. intros l k Hl. unfold areas. by rewrite Hl. Qed.

#[global] Instance placed_perm s : Proper ((≡ₚ) ==> iff) (placed s).
Proof.
  assert (forall l k, l ≡ₚ k -> placed s l -> placed s k) as Hw.
  { intros l k Hl [P1 P2 P3]. split; [by rewrite <- Hl..|by rewrite <- Hl]. }
  intros l k Hl. by split; apply Hw.
Qed.

Lemma areas_ok P l :
  Forall (fun h => hook_rect_ok h = true) l ->
  Forall (fun p : Rect * hook => rect_ok p.1 = true) (areas P l).
Proof.
  unfold areas. induction 1 as [|h l Hh Hl IH]; simpl; [constructor|].
  destruct (P h); [|done]. unfold hook_rect_ok in Hh.
  destruct (f_obj (Fence h)); [by constructor|done].
Qed.

(** One index: removing and adding the entry of a hook. *)
Lemma area_remove P h l (t : wH) :
  rt_items t ≡ₚ areas P (h :: l) -> Forall (fun h => hook_rect_ok h = true) (h :: l) ->
  rt_items (match f_obj (Fence h) with
            | Some o => if P h then rt_delete t (RectOf o) h else t
            | None => t end) ≡ₚ areas P l.
Proof.
  intros Ht Hok. pose proof (areas_ok P _ Hok) as Hr. rewrite <- Ht in Hr.
  unfold areas in *. simpl in Ht. destruct (P h), (f_obj (Fence h)) as [o|]; simpl in Ht; try done.
  apply (Permutation_cons_inv (a := (RectOf o, h))). rewrite <- Ht. symmetry.
  apply rt_items_delete; [done|]. rewrite Ht. apply list_elem_of_here.
Qed.

Lemma area_add P h l (t : wH) :
  rt_items t ≡ₚ areas P l ->
  rt_items (match f_obj (Fence h) with
            | Some o => if P h then rt_insert t (RectOf o) h else t
            | None => t end) ≡ₚ areas P (h :: l).
Proof.
  intros Ht. unfold areas in *. simpl. destruct (P h), (f_obj (Fence h)) as [o|]; simpl; try done.
  by rewrite rt_items_insert, Ht.
Qed.

Lemma unplace_placed s h l : placed s (h :: l) -> placed (unplace s h) l.
Proof.
  intros [P1 P2 P3]. pose proof (area_remove _ _ _ _ P1 P3) as A1.
  pose proof (area_remove _ _ _ _ P2 P3) as A2. unfold unplace, crossing in *.
  inversion P3; subst. destruct (f_obj (Fence h)); split; simpl; try done.
Qed.

Lemma place_placed s h l : placed s l -> hook_rect_ok h = true -> placed (place s h) (h :: l).
Proof.
  intros [P1 P2 P3] Hh. pose proof (area_add _ h _ _ P1) as A1.
  pose proof (area_add _ h _ _ P2) as A2. unfold place, crossing in *.
  destruct (f_obj (Fence h)); split; simpl; try done; by constructor.
Qed.

Lemma unplace_hooks s h :
  hooks (unplace s h) = hooks s /\ hooksOut (unplace s h) = hooksOut s /\
  hookExpires (unplace s h) = hookExpires s /\ grps (unplace s h) = grps s /\
  cols (unplace s h) = cols s.
Proof. unfold unplace. by destruct (f_obj (Fence h)). Qed.
Lemma place_hooks s h :
  hooks (place s h) = hooks s /\ hooksOut (place s h) = hooksOut s /\
  hookExpires (place s h) = hookExpires s /\ grps (place s h) = grps s /\
  cols (place s h) = cols s.
Proof. unfold place. by destruct (f_obj (Fence h)). Qed.
Lemma set_hookExpires_rest s h :
  hooks (set_hookExpires s h) = hooks s /\ hooksOut (set_hookExpires s h) = hooksOut s /\
  hookTree (set_hookExpires s h) = hookTree s /\ hookCross (set_hookExpires s h) = hookCross s /\
  grps (set_hookExpires s h) = grps s /\ cols (set_hookExpires s h) = cols s.
Proof. unfold set_hookExpires. by destruct (h_expires h). Qed.

(** Lookup by name. *)
Lemma get_named s n h :
  bt_get (hooks s) (named n) = Some h <-> h ∈ bt_items (hooks s) /\ Name h = n.
Proof.
  rewrite bt_get_spec by apply _. rewrite byHookName_equiv. simpl. naive_solver.
Qed.

Lemma get_named_None s n :
  bt_get (hooks s) (named n) = None <-> forall h, h ∈ bt_items (hooks s) -> Name h <> n.
Proof.
  split.
  - intros Hn h Hh He. assert (bt_get (hooks s) (named n) = Some h) by by apply get_named. congruence.
  - intros Hn. destruct (bt_get (hooks s) (named n)) as [h|] eqn:E; [|done].
    apply get_named in E as [Hh He]. by apply Hn in Hh.
Qed.

Lemma hook_name_inj s h h' :
  h ∈ bt_items (hooks s) -> h' ∈ bt_items (hooks s) -> Name h = Name h' -> h = h'.
Proof. intros H1 H2 He. apply (bt_equiv_eq byHookName (hooks s)); [done..|]. by apply byHookName_equiv. Qed.

Lemma elem_delete_hook s (h h' : hook) :
  h' ∈ bt_items (bt_delete (hooks s) h) <-> h' ∈ bt_items (hooks s) /\ Name h <> Name h'.
Proof. rewrite bt_elem_delete by apply _. by rewrite <- not_true_iff_false, byHookName_equiv. Qed.

Lemma unlist_listed s p :
  listed s -> p ∈ bt_items (hooks s) -> listed (unlist s p).
Proof.
  intros [L1 L2 L3] Hp. unfold unlist. split; cbn [hooks hooksOut hookExpires with_hooks].
  - intros h. rewrite elem_delete_hook, bt_elem_delete by apply _.
    rewrite <- not_true_iff_false, byHookName_equiv, L1. tauto.
  - intros e He. assert (e ∈ bt_items (hookExpires s) /\
      ~ (h_expires p = h_expires e /\ Name p = Name e)) as [He' Hne].
    { destruct (h_expires p) as [t|] eqn:Et.
      - rewrite bt_elem_delete in He by apply _.
        rewrite <- not_true_iff_false, byHookExpires_equiv, Et in He. done.
      - split; [done|]. intros [E _]. by apply L2 in He as [? _]. }
    destruct (L2 e He') as (Hx & h & Hh & Hs). split; [done|]. exists h. split; [|done].
    apply elem_delete_hook. split; [done|]. intros E. destruct Hs as (S1 & S2 & S3).
    assert (p = h) as -> by by eapply hook_name_inj. destruct Hne. by rewrite S1, S2.
  - intros h [Hh Hne]%elem_delete_hook Hx. destruct (L3 h Hh Hx) as (e & He & Hs).
    exists e. split; [|done]. destruct Hs as (S1 & S2 & S3).
    destruct (h_expires p) as [t|] eqn:Et; [|done].
    rewrite bt_elem_delete by apply _. split; [done|].
    rewrite <- not_true_iff_false, byHookExpires_equiv. intros [_ E]. congruence.
Qed.

Lemma set_hookExpires_listed s h :
  (forall x, x ∈ bt_items (hooksOut s) <-> x ∈ bt_items (hooks s) /\ detects_out x = true) ->
  (forall e, e ∈ bt_items (hookExpires s) ->
    h_expires e <> None /\ exists x, x ∈ bt_items (hooks s) /\ same_expiry x e) ->
  (forall x, x ∈ bt_items (hooks s) -> h_expires x <> None ->
    same_expiry x h \/ exists e, e ∈ bt_items (hookExpires s) /\ same_expiry x e) ->
  (exists x, x ∈ bt_items (hooks s) /\ same_expiry x h) -> listed (set_hookExpires s h).
Proof.
  intros L1 L2 L3 L4. unfold set_hookExpires.
  destruct (h_expires h) as [t|] eqn:Et; split; cbn [hooks hooksOut hookExpires with_hooks]; try done.
  - intros e [->|[He _]]%bt_elem_set; [|by apply L2|apply _]. split; [congruence|done].
  - intros x Hx Hn. destruct (L3 x Hx Hn) as [Hs|(e & He & Hs)].
    + exists h. rewrite bt_elem_set by apply _. auto.
    + destruct (equivb byHookExpires h e) eqn:E.
      * apply byHookExpires_equiv in E as [E1 E2]. exists h.
        rewrite bt_elem_set by apply _. split; [by left|].
        destruct L4 as (y & Hy & Y1 & Y2 & Y3), Hs as (S1 & S2 & S3).
        assert (x = y) as <- by (eapply hook_name_inj; [done..|congruence]). done.
      * exists e. rewrite bt_elem_set by apply _. auto.
  - intros x Hx Hn. destruct (L3 x Hx Hn) as [(S1 & S2 & S3)|?]; [|done]. congruence.
Qed.

Lemma addHook_rest s prev h :
  hooks (addHook s prev h) = bt_set (hooks s) h /\ cols (addHook s prev h) = cols s /\
  grps (addHook s prev h) = grps s.
Proof.
  unfold addHook. cbv zeta.
  set (s1 := with_hooks s _ _ _ _ _). set (s2 := match prev with Some p => unplace s1 p | None => s1 end).
  destruct (set_hookExpires_rest (place s2 h) h) as (-> & _ & _ & _ & -> & ->).
  destruct (place_hooks s2 h) as (-> & _ & _ & -> & ->).
  subst s2. destruct prev as [p|]; [|done].
  by destruct (unplace_hooks s1 p) as (-> & _ & _ & -> & ->).
Qed.

Lemma addHook_ok s prev h :
  listed s -> (forall x, x ∈ bt_items (hooks s) -> Name x <> Name h) ->
  placed s (match prev with Some p => p :: bt_items (hooks s) | None => bt_items (hooks s) end) ->
  hook_rect_ok h = true -> hooks_ok (addHook s prev h).
Proof.
  intros [L1 L2 L3] Hnew Hpl Hh. assert (forall x, x ∈ bt_items (hooks s) ->
    equivb byHookName h x = false) as Hne.
  { intros x Hx. apply not_true_iff_false. rewrite byHookName_equiv. intros E. by apply (Hnew x). }
  split.
  - unfold addHook. cbv zeta. set (s1 := with_hooks s _ _ _ _ _).
    set (s2 := match prev with Some p => unplace s1 p | None => s1 end).
    assert (hooks (place s2 h) = hooks s1 /\ hooksOut (place s2 h) = hooksOut s1 /\
      hookExpires (place s2 h) = hookExpires s1) as (E1 & E2 & E3).
    { destruct (place_hooks s2 h) as (-> & -> & -> & _). subst s2.
      destruct prev as [p|]; [|done]. by destruct (unplace_hooks s1 p) as (-> & -> & -> & _). }
    apply set_hookExpires_listed; rewrite ?E1, ?E2, ?E3; subst s1; cbn [hooks hooksOut hookExpires with_hooks].
    + intros x. rewrite bt_elem_set by apply _. destruct (detects_out h) eqn:Eo.
      * rewrite bt_elem_set, L1 by apply _. naive_solver.
      * rewrite L1. split; [intros [Hx Hd]; auto|intros [[->|[Hx _]] Hd]; [congruence|done]].
    + intros e He. destruct (L2 e He) as (Hx & x & Hin & Hs). split; [done|].
      exists x. rewrite bt_elem_set by apply _. auto.
    + intros x [->|[Hx _]]%bt_elem_set Hn; [by left; split| |apply _]. right. by apply L3.
    + exists h. rewrite bt_elem_set by apply _. split; [by left|done].
  - destruct (addHook_rest s prev h) as (-> & _). rewrite (bt_items_insert byHookName) by done.
    unfold addHook. cbv zeta. set (s1 := with_hooks s _ _ _ _ _).
    set (s2 := match prev with Some p => unplace s1 p | None => s1 end).
    assert (placed s2 (bt_items (hooks s))) as P2.
    { subst s2. destruct prev as [p|]; [apply unplace_placed|]; destruct Hpl as [P1 P2 P3]; by split. }
    destruct (place_placed _ _ _ P2 Hh) as [Q1 Q2 Q3].
    destruct (set_hookExpires_rest (place s2 h) h) as (_ & _ & E1 & E2 & _).
    split; rewrite ?E1, ?E2; done.
Qed.

Lemma listed_grps s g : listed (with_grps s g) <-> listed s.
Proof. split; intros [L1 L2 L3]; by split. Qed.
Lemma placed_grps s g l : placed (with_grps s g) l <-> placed s l.
Proof. split; intros [L1 L2 L3]; by split. Qed.
Lemma placed_unlist s h l : placed (unlist s h) l <-> placed s l.
Proof. split; intros [L1 L2 L3]; by split. Qed.

Lemma delete_hook_perm s h :
  h ∈ bt_items (hooks s) -> bt_items (hooks s) ≡ₚ h :: bt_items (bt_delete (hooks s) h).
Proof. intros Hh. apply bt_items_delete; [apply _|done|]. by apply byHookName_equiv. Qed.

Lemma cmdDELHOOKop_ok s n ch : hooks_ok s -> hooks_ok (cmdDELHOOKop s n ch).1.
Proof.
  intros [HL HP]. unfold cmdDELHOOKop.
  destruct (bt_get (hooks s) (named n)) as [h|] eqn:E; [|done].
  apply get_named in E as [Hh _]. destruct (Bool.eqb _ _); [|done]. cbn [fst].
  set (s1 := with_grps _ _). assert (hooks (unplace s1 h) = bt_delete (hooks s) h) as Eh.
  { by rewrite (proj1 (unplace_hooks s1 h)). }
  split.
  - pose proof (unlist_listed _ _ HL Hh) as HL'. apply (listed_grps _ (groupDisconnectHook (grps s) (Name h))) in HL'.
    fold s1 in HL'. unfold unplace. destruct (f_obj (Fence h)); [|done].
    destruct HL' as [L1 L2 L3]. by split.
  - rewrite Eh. apply unplace_placed. unfold s1. rewrite placed_grps, placed_unlist.
    by rewrite <- delete_hook_perm.
Qed.

Lemma setHook_ok s msg ck h :
  hooks_ok s -> hook_rect_ok h = true -> hooks_ok (setHook s msg ck h).1.
Proof.
  intros [HL HP] Hh. unfold setHook. destruct (bt_get (hooks s) (named (Name h))) as [prev|] eqn:E.
  - apply get_named in E as [Hp En].
    destruct (Bool.eqb (channel prev) (channel h)) eqn:Ec; [|by split]. simpl.
    apply eqb_prop in Ec. set (s1 := if Equals_ prev h then set_hookExpires s h else s).
    assert (hooks s1 = hooks s /\ grps s1 = grps s) as [E1 _].
    { subst s1. destruct (Equals_ prev h); [|done].
      by destruct (set_hookExpires_rest s h) as (-> & _ & _ & _ & -> & _). }
    assert (hooks_ok s1) as [HL1 HP1].
    { subst s1. destruct (Equals_ prev h) eqn:Eq; [|by split]. unfold Equals_ in Eq.
      boolify. rewrite !bool_decide_eq_true in Eq. destruct Eq as [[[[[Q1 Q2] Q3] Q4] Q5] Q6].
      assert (same_expiry prev h) as Hs by (split_and!; congruence).
      split.
      - destruct HL as [L1 L2 L3]. apply set_hookExpires_listed; [done..| |by exists prev].
        intros x Hx Hn. right. by apply L3.
      - destruct (set_hookExpires_rest s h) as (-> & _ & T1 & T2 & _). destruct HP as [P1 P2 P3].
        split; by rewrite ?T1, ?T2. }
    destruct (_ && _); [by split|]. cbn [fst]. rewrite <- E1 in Hp.
    set (s2 := unlist s1 prev). apply addHook_ok; [| | |done].
    + by apply listed_grps, unlist_listed.
    + intros x. cbn [hooks with_grps]. unfold s2, unlist. cbn [hooks with_hooks].
      intros [Hx Hn]%elem_delete_hook He. congruence.
    + rewrite placed_grps. unfold s2. rewrite placed_unlist. cbn [hooks with_grps unlist with_hooks].
      by rewrite <- delete_hook_perm.
  - apply addHook_ok; [done| |done|done]. by apply get_named_None.
Qed.

Lemma setHook_groups_ok s msg ck h :
  groups_ok (grps s) -> groups_ok (grps (setHook s msg ck h).1).
Proof.
  intros Hg. unfold setHook. destruct (bt_get _ _) as [p|].
  - destruct (negb _); [done|]. cbv zeta. set (s1 := if Equals_ p h then set_hookExpires s h else s).
    assert (grps s1 = grps s) as E1.
    { subst s1. destruct (Equals_ p h); [|done]. by destruct (set_hookExpires_rest s h) as (_ & _ & _ & _ & -> & _). }
    destruct (_ && _); cbn [fst]; [by rewrite E1|].
    destruct (addHook_rest (with_grps (unlist s1 p) (groupDisconnectHook (grps (unlist s1 p)) (Name h)))
      (Some p) h) as (_ & _ & ->). cbn [grps with_grps unlist with_hooks]. rewrite E1. by apply deleteGroups_ok.
  - cbn [fst]. by destruct (addHook_rest s None h) as (_ & _ & ->).
Qed.

(** ** Patterns *)

Definition selects (pattern : string) (ch : bool) h : bool :=
  Bool.eqb (channel h) ch && matches pattern (Name h).

Lemma name_sorted s : StronglySorted (fun a b => (Name a <s Name b) = true) (bt_items (hooks s)).
Proof. apply (bt_sorted _ byHookName (hooks s) _). Qed.

(** The walk over the range of the pattern visits what the pattern selects. *)
Lemma forEach_filter {S} s p ch (iter : S -> hook -> S * bool) x :
  rangeable p ->
  forEachHookByPattern s p ch iter x =
  iter_while iter x (filter (fun h => selects p ch h = true) (bt_items (hooks s))).
Proof.
  intros Hr. unfold forEachHookByPattern.
  assert (forall h, selects p ch h = true -> let '(lo, hi) := Limits (Parse p false) in
    (lo = "" /\ hi = "") \/ ((Name h <s lo) = false /\ (Name h <s hi) = true)) as Hin.
  { intros h [_ Hm%matches_Ok]%andb_true_iff. by apply limits_asc. }
  destruct (Limits (Parse p false)) as [l0 l1].
  set (ok := fun h => negb (negb (l1 =s "") && (l1 <s Name h))).
  rewrite (iter_while_ext _ (fun x h =>
    if ok h then (if selects p ch h then iter x h else (x, true)) else (x, false))).
  2:{ intros y h. unfold ok, selects. destruct (negb (l1 =s "") && _); [done|]. simpl.
      by destruct (Bool.eqb _ _), (matches _ _). }
  rewrite (guarded_until ok (fun x h => if selects p ch h then iter x h else (x, true))).
  rewrite iter_while_filter. f_equal. unfold bt_ascend.
  rewrite until_filter.
  - rewrite !list_filter_filter. apply list_filter_iff'. intros h _.
    split; [tauto|]. intros Hs.
    assert (negb (ok h) = false /\ byHookName h (named l0) = false); [|tauto].
    unfold ok, byHookName. rewrite negb_involutive.
    destruct (Hin h Hs) as [[-> ->]|[H1 H2]].
    + split; [done|]. simpl. by destruct (Name h).
    + by rewrite (str_ltb_asym _ _ H2), andb_false_r.
  - apply sorted_filter. eapply sorted_impl; [|apply name_sorted]. unfold ok. intros a b Hab.
    rewrite !negb_involutive. boolify. intros [H1 H2]. split; [done|].
    by apply (str_ltb_trans _ (Name a)).
Qed.

Lemma collect_all l hs : iter_while collect hs l = hs ++ l.
Proof.
  rewrite iter_while_all by done. unfold collect. simpl. revert hs.
  induction l as [|h l IH]; intros hs; simpl; [by rewrite app_nil_r|]. by rewrite IH, <- app_assoc.
Qed.

(** ** What deletions do *)

Lemma DELHOOKop_hooks s n ch h :
  h ∈ bt_items (hooks (cmdDELHOOKop s n ch).1) <->
  h ∈ bt_items (hooks s) /\ ~ (Name h = n /\ channel h = ch).
Proof.
  unfold cmdDELHOOKop. destruct (bt_get (hooks s) (named n)) as [p|] eqn:E.
  - apply get_named in E as [Hp <-]. destruct (Bool.eqb (channel p) ch) eqn:Ec; simpl.
    + apply eqb_prop in Ec. destruct (unplace_hooks (with_grps (unlist s p)
        (groupDisconnectHook (grps s) (Name p))) p) as (-> & _). simpl.
      rewrite elem_delete_hook. split; intros [Hh Hn]; (split; [done|]).
      * intros [? _]. congruence.
      * intros He. apply Hn. split; [done|].
        assert (p = h) as <- by by eapply hook_name_inj. done.
    + apply eqb_false_iff in Ec. split; [|tauto]. intros Hh. split; [done|].
      intros [Hn Hc]. assert (p = h) as <- by by eapply hook_name_inj. done.
  - rewrite get_named_None in E. split; [|tauto]. intros Hh. split; [done|].
    intros [Hn _]. by apply E in Hh.
Qed.

Lemma DELHOOKop_rest s n ch :
  cols (cmdDELHOOKop s n ch).1 = cols s /\
  (groups_ok (grps s) -> groups_ok (grps (cmdDELHOOKop s n ch).1)).
Proof.
  unfold cmdDELHOOKop. destruct (bt_get _ _) as [p|]; [|done].
  destruct (Bool.eqb _ _); [|done]. cbn [fst].
  set (s1 := with_grps _ _). destruct (unplace_hooks s1 p) as (_ & _ & _ & -> & ->).
  subst s1. split; [done|]. cbn [grps with_grps unlist with_hooks]. apply deleteGroups_ok.
Qed.

Lemma DELHOOKop_groups s n ch g :
  groups_ok (grps s) ->
  g ∈ connected (grps (cmdDELHOOKop s n ch).1) <->
  g ∈ connected (grps s) /\ ((cmdDELHOOKop s n ch).2 = true -> hookName g <> n).
Proof.
  intros Hg. unfold cmdDELHOOKop. destruct (bt_get _ _) as [p|] eqn:E; [|naive_solver].
  apply get_named in E as [_ <-].
  destruct (Bool.eqb _ _); [|naive_solver]. cbn [fst snd].
  set (s1 := with_grps _ _). destruct (unplace_hooks s1 p) as (_ & _ & _ & -> & _).
  subst s1. cbn [grps with_grps]. rewrite disconnectHook_elem by done. naive_solver.
Qed.

(** Deleting a list of hooks of one kind, as [cmdPDelHook] does. *)
Definition delAll ch (x : Server * bool * Z) (hs : list hook) : Server * bool * Z :=
  foldl (fun '(s, updated, count) h =>
      if Bool.eqb (channel h) ch
      then ((cmdDELHOOKop s (Name h) ch).1, true, count + 1)
      else (s, updated, count)) x hs.

Lemma delAll_server ch s u n hs :
  Forall (fun h => channel h = ch) hs ->
  delAll ch (s, u, n) hs =
    (foldl (fun s h => (cmdDELHOOKop s (Name h) ch).1) s hs,
     if hs then u else true, n + Z.of_nat (length hs)).
Proof.
  intros Hf. revert s u n. induction Hf as [|h hs Hc Hf IH]; intros s u n; simpl.
  { f_equal. lia. }
  rewrite Hc, eqb_reflx. rewrite IH. f_equal; [|lia]. f_equal. by destruct hs.
Qed.

Lemma delAll_ok ch s hs :
  hooks_ok s -> groups_ok (grps s) ->
  let s' := foldl (fun s h => (cmdDELHOOKop s (Name h) ch).1) s hs in
  hooks_ok s' /\ groups_ok (grps s') /\ cols s' = cols s /\
  (forall h, h ∈ bt_items (hooks s') <->
    h ∈ bt_items (hooks s) /\ ~ (Name h ∈ Name <$> hs /\ channel h = ch)).
Proof.
  revert s. induction hs as [|x hs IH]; intros s Hok Hg; simpl.
  { split_and!; [done..|]. set_solver. }
  destruct (DELHOOKop_rest s (Name x) ch) as [Hc Hg'].
  destruct (IH _ (cmdDELHOOKop_ok s (Name x) ch Hok) (Hg' Hg)) as (I1 & I2 & I3 & I4).
  split_and!; [done..|congruence|]. intros h. rewrite I4, DELHOOKop_hooks, elem_of_cons. tauto.
Qed.

(** The operations on the hooks of a server. *)
Inductive hook_op := SetHook msg ck h | DelHook (n : string) (ch : bool).
Definition hook_step s (op : hook_op) : Server :=
  match op with
  | SetHook msg ck h => (setHook s msg ck h).1
  | DelHook n ch => (cmdDELHOOKop s n ch).1
  end.
Definition op_ok (op : hook_op) : Prop :=
  match op with SetHook _ _ h => hook_rect_ok h = true | DelHook _ _ => True end.

Lemma newServer_hooks_ok mm : hooks_ok (newServer mm).
Proof.
  split; [split|]; unfold newServer; cbn [hooks hooksOut hookExpires].
  - intros h. rewrite !bt_items_new. set_solver.
  - intros e. rewrite bt_items_new. set_solver.
  - intros h. rewrite bt_items_new. set_solver.
  - rewrite bt_items_new. split; cbn [hookTree hookCross];
      [by rewrite (rt_items_empty (RTreeLaws := w_HTreeLaws))..|constructor].
Qed.

(** C13. After any sequence of hook definitions and deletions the five indexes describe
    the same hooks: the second set holds those that detect "outside", the third an entry
    for each that expires and no other, and the two spatial indexes the areas of the
    fences and of those that detect "cross". *)
Theorem hooks_indexed mm ops :
  Forall op_ok ops ->
  let s := foldl hook_step (newServer mm) ops in
  (forall h, h ∈ bt_items (hooksOut s) <-> h ∈ bt_items (hooks s) /\ detects_out h = true) /\
  (forall h, h ∈ bt_items (hooks s) -> h_expires h <> None ->
    exists e, e ∈ bt_items (hookExpires s) /\ same_expiry h e) /\
  (forall e, e ∈ bt_items (hookExpires s) ->
    exists h, h ∈ bt_items (hooks s) /\ same_expiry h e) /\
  rt_items (hookTree s) ≡ₚ areas (fun _ => true) (bt_items (hooks s)) /\
  rt_items (hookCross s) ≡ₚ areas crossing (bt_items (hooks s)).
Proof.
  intros Hops s. assert (hooks_ok s) as [[L1 L2 L3] [P1 P2 _]].
  { subst s. generalize (newServer_hooks_ok mm). generalize (newServer mm).
    induction Hops as [|op ops Hop Hops IH]; intros s Hs; simpl; [done|]. apply IH.
    destruct op; [by apply setHook_ok|by apply cmdDELHOOKop_ok]. }
  split_and!; [done..| |done|done]. intros e He. by apply L2.
Qed.

(** PDELHOOK (PDELCHAN) deletes exactly the hooks (channels) whose name the pattern
    matches, reports their number, and leaves the indexes consistent and the collections
    alone. *)
Theorem cmdPDelHook_spec s c p out ck :
  hooks_ok s -> groups_ok (grps s) -> p <> "" -> rangeable p ->
  let ch := kw c "pdelchan" in
  let hit := filter (fun h => selects p ch h = true) (bt_items (hooks s)) in
  exists s' r d, cmdPDelHook s (mkMessage [c; p] out None) ck = (s', Ok (r, d)) /\
    hooks_ok s' /\ groups_ok (grps s') /\ cols s' = cols s /\
    (forall h, h ∈ bt_items (hooks s') <-> h ∈ bt_items (hooks s) /\ selects p ch h = false) /\
    (d_updated (detail d) = true <-> hit <> []) /\
    (out = OutRESP -> r = RInt (Z.of_nat (length hit))).
Proof.
  intros Hok Hg Hp Hr ch hit. unfold cmdPDelHook. cbn [Args token1].
  rewrite (proj2 (String.eqb_neq _ _)) by done. rewrite forEach_filter by done.
  rewrite collect_all. fold ch hit. simpl app.
  fold (delAll ch (s, false, 0) hit). rewrite delAll_server.
  2:{ apply Forall_forall. intros h [[Hc%eqb_prop _]%andb_true_iff _]%list_elem_of_filter. done. }
  destruct (delAll_ok ch s hit Hok Hg) as (D1 & D2 & D3 & D4).
  eexists _, _, _. split; [reflexivity|]. split_and!; [done..| | |].
  - intros h. rewrite D4. split; intros [Hh Hn]; (split; [done|]).
    + apply not_true_iff_false. intros Hs. apply Hn. split.
      * apply list_elem_of_fmap_2, list_elem_of_filter. done.
      * by apply andb_true_iff in Hs as [?%eqb_prop _].
    + intros [(x & Ex & [Hx Hin]%list_elem_of_filter)%list_elem_of_fmap Hc].
      assert (h = x) as -> by by eapply hook_name_inj. congruence.
  - simpl. by destruct hit.
  - by intros ->.
Qed.

(** Lookups of a name agree when the hooks of that name are the same. *)
Lemma get_other s s' n :
  (forall x, Name x = n -> x ∈ bt_items (hooks s') <-> x ∈ bt_items (hooks s)) ->
  bt_get (hooks s') (named n) = bt_get (hooks s) (named n).
Proof.
  intros Hx. apply option_eq. intros x. rewrite !get_named. split; intros [Hin He];
    (split; [by apply Hx|done]).
Qed.

(** SETHOOK of an accepted hook: either an equal hook is defined and nothing but the
    expiration entry is touched, or afterwards the name has the new hook, every other name
    what it had, and the groups of a hook that was replaced are gone. *)
Theorem setHook_effect s msg ck h r d :
  hooks_ok s -> groups_ok (grps s) -> (setHook s msg ck h).2 = Ok (r, d) ->
  let s' := (setHook s msg ck h).1 in
  cols s' = cols s /\
  (d_updated (detail d) = false ->
    hooks s' = hooks s /\ grps s' = grps s /\
    exists p, bt_get (hooks s) (named (Name h)) = Some p /\ Equals_ p h = true) /\
  (d_updated (detail d) = true ->
    bt_get (hooks s') (named (Name h)) = Some h /\
    (forall n, n <> Name h -> bt_get (hooks s') (named n) = bt_get (hooks s) (named n)) /\
    (forall g, g ∈ connected (grps s') <-> g ∈ connected (grps s) /\
      (bt_get (hooks s) (named (Name h)) <> None -> hookName g <> Name h))).
Proof.
  intros Hok Hg Hr s'. subst s'. unfold setHook in *.
  destruct (bt_get (hooks s) (named (Name h))) as [p|] eqn:E.
  - destruct (Bool.eqb (channel p) (channel h)); [|done]. simpl in *.
    set (s1 := if Equals_ p h then set_hookExpires s h else s) in *.
    assert (hooks s1 = hooks s /\ grps s1 = grps s /\ cols s1 = cols s) as (E1 & E2 & E3).
    { subst s1. destruct (Equals_ p h); [|done].
      by destruct (set_hookExpires_rest s h) as (-> & _ & _ & _ & -> & ->). }
    destruct (Equals_ p h && _) eqn:Eq; simpl in *; simplify_eq.
    + split_and!; [done| |done]. intros _. apply andb_true_iff in Eq as [Eq _]. eauto.
    + match goal with |- context [addHook ?x _ _] => set (s2 := x) end.
      destruct (addHook_rest s2 (Some p) h) as (Eh & Ec & Eg). rewrite Ec, Eg.
      split_and!; [done|done|]. intros _. cbn [s2 grps with_grps unlist with_hooks]. rewrite E2.
      split_and!.
      * apply get_named. rewrite Eh, bt_elem_set by apply _. auto.
      * intros n Hn. apply get_other. intros x Hx. rewrite Eh.
        cbn [s2 hooks with_grps unlist with_hooks].
        apply get_named in E as [_ En].
        rewrite bt_elem_set, elem_delete_hook, E1 by apply _.
        rewrite <- not_true_iff_false, byHookName_equiv. split; [naive_solver|].
        intros Hin. right. split; [split; [done|]|]; congruence.
      * intros g. rewrite disconnectHook_elem by done. naive_solver.
  - simpl in *. simplify_eq. destruct (addHook_rest s None h) as (Eh & Ec & Eg).
    split_and!; [done|done|]. intros _. split_and!.
    + apply get_named. rewrite Eh, bt_elem_set by apply _. auto.
    + intros n Hn. apply get_other. intros x Hx. rewrite Eh, bt_elem_set by apply _.
      rewrite <- not_true_iff_false, byHookName_equiv. split; [naive_solver|].
      intros Hin. right. split; [done|]. congruence.
    + intros g. rewrite Eg. naive_solver.
Qed.
End hooks.

(** ** Witnesses *)
Module HooksExample.
Import ExampleWorld.

Definition area : fence Rect :=
  mkFence "within" (Some (Geom (Boxes.box 0 0 10 10))) (Some ["enter"; "cross"]) None [] false false None.
Definition yard : Hook Rect :=
  mkHook "fleet" "yard" ["http://host/"] ["within"; "fleet"; "fence"] area [] false (Some 50).
Definition yard2 : Hook Rect :=
  mkHook "fleet" "yard" ["http://other/"] ["within"; "fleet"; "fence"] area [] false None.
Definition gate : Hook Rect := mkHook "fleet" "gate" ["local://gate"] [] area [] true None.

Definition req : Message := mkMessage [] OutRESP None.
Definition ck : clock := mkClock 1 2 "3ms".
Definition ops : list (hook_op (H := world)) :=
  [SetHook (H := world) req ck yard; SetHook (H := world) req ck gate].
Definition srv : Server (H := world) := foldl hook_step (newServer 0) ops.

Lemma srv_hooks_ok : hooks_ok srv.
Proof.
  apply setHook_ok; [|by vm_compute]. apply setHook_ok; [|by vm_compute]. apply newServer_hooks_ok.
Qed.
Lemma srv_groups_ok : groups_ok (grps srv).
Proof. do 2 apply setHook_groups_ok. apply groups_init_ok. Qed.

Lemma hooks_indexed_witness :
  rt_items (hookTree srv) ≡ₚ areas (fun _ => true) (bt_items (hooks srv)).
Proof.
  destruct (hooks_indexed 0 ops) as (_ & _ & _ & Ht & _).
  { constructor; [by vm_compute|]. constructor; [by vm_compute|constructor]. }
  exact Ht.
Defined.

Lemma cmdPDelHook_spec_witness :
  exists s' r d, cmdPDelHook srv (mkMessage ["PDELHOOK"; "ya*"] OutRESP None) ck = (s', Ok (r, d)) /\
    hooks_ok s' /\ groups_ok (grps s') /\ cols s' = cols srv /\
    (forall h, h ∈ bt_items (hooks s') <->
      h ∈ bt_items (hooks srv) /\ selects "ya*" (kw "PDELHOOK" "pdelchan") h = false) /\
    (d_updated (detail d) = true <->
      filter (fun h => selects "ya*" (kw "PDELHOOK" "pdelchan") h = true) (bt_items (hooks srv)) <> []) /\
    (OutRESP = OutRESP -> r = RInt (Z.of_nat (length
      (filter (fun h => selects "ya*" (kw "PDELHOOK" "pdelchan") h = true) (bt_items (hooks srv)))))).
Proof.
  apply (cmdPDelHook_spec srv "PDELHOOK" "ya*" OutRESP ck srv_hooks_ok srv_groups_ok).
  - done.
  - apply (bool_decide_unpack _). by vm_compute.
Defined.

Lemma setHook_effect_witness :
  bt_get (hooks (setHook srv req ck yard2).1) (named "yard") = Some yard2.
Proof.
  destruct (setHook_effect srv req ck yard2 (RInt 1) (hookDetails true 2)
    srv_hooks_ok srv_groups_ok) as (_ & _ & Hu).
  - reflexivity.
  - destruct (Hu eq_refl) as (Hg & _). exact Hg.
Defined.

End HooksExample.
