(* ===== verification/Crud.v ===== *)
(** * Commands on objects ([src/internal/legacy/server/crud.go])

    One definition per command handler. A write command maps the server to a server and
    a reply with details, or a failure; a read command to a reply or a failure. A
    collection is a pointer in the source: what a handler does to it is written back
    under its key, which is the only place that refers to it. *)

From Stdlib Require Import Ascii String ZArith Lia Bool SpecFloat.
From stdpp Require Import base list strings option sorting sets gmap.
From S2P Require Import Prelude GoStd Strconv Glob GlobFacts Json Containers Field FieldList.
From S2P Require Import FieldBinary Geo Object Collection CollectionScan Group World Hooks.
Import Glob.

Local Open Scope Z_scope.

(** ** Text *)

Fixpoint join (l : list string) : string :=
  match l with
  | [] => ""
  | [x] => x
  | x :: l => x +:+ "," +:+ join l
  end.

(** [math.Max]. *)
Definition f64_max (x y : float64) : float64 :=
  if IsInf x 1 || IsInf y 1 then f64_pinf
  else if IsNaN x || IsNaN y then S754_nan
  else if f64_eq x f64_zero && f64_eq x y then
    match x with S754_zero true => y | _ => x end
  else if f64_gt x y then x else y.

(** [time.Second] as a float. *)
Definition second : float64 := f64_of_Z 1000000000.

Inductive okind := KObject | KPoint | KHash | KBounds.

Section crud.
Context `{World}.
Abbreviation Coll := (Collection wG wM wT wR).
Abbreviation Obj := (Object wG).
Implicit Types (s : Server) (msg : Message) (ck : clock) (o : Obj) (col : Coll).

Definition appendJSONSimpleBounds (g : geometry wG) : string :=
  let bbox := RectOf g in
  js "{'sw':{'lat':" +:+ FormatFloat (Y (Min bbox)) +:+ js ",'lon':" +:+ FormatFloat (X (Min bbox)) +:+
  js "},'ne':{'lat':" +:+ FormatFloat (Y (Max bbox)) +:+ js ",'lon':" +:+ FormatFloat (X (Max bbox)) +:+
  "}}".

Definition appendJSONSimplePoint (g : geometry wG) : string :=
  let point := Center g in
  let z := extractZCoordinate g in
  js "{'lat':" +:+ FormatFloat (Y point) +:+ js ",'lon':" +:+ FormatFloat (X point) +:+
  (if negb (f64_eq z f64_zero) then js ",'z':" +:+ FormatFloat z else "") +:+ "}".

Definition elapsed ck : string := js ",'elapsed':'" +:+ c_elapsed ck +:+ js "'}".

(** ** Read commands *)

(** [Collection.Bounds]. *)
Definition Bounds col : Rect :=
  match LeftMost (spatial col), BottomMost (spatial col), RightMost (spatial col), TopMost (spatial col) with
  | Some l, Some b, Some r, Some t =>
    mkRect (mkPoint (X (Min (RectOf (Geo l)))) (Y (Min (RectOf (Geo b)))))
           (mkPoint (X (Max (RectOf (Geo r)))) (Y (Max (RectOf (Geo t)))))
  | _, _, _, _ => zeroRect
  end.

Definition cmdBOUNDS s msg ck : rresult :=
  match Args msg with
  | [_; key] =>
    match sm_get (cols s) key with
    | None => if is_RESP (OutputType msg) then Ok RNull else Err errKeyNotFound
    | Some col =>
      let b := Bounds col in
      if is_JSON (OutputType msg) then
        Ok (RString (js "{'ok':true" +:+ js ",'bounds':" +:+ geo_JSON (NewRect b) +:+ elapsed ck))
      else
        Ok (RArray [RArray [RFloat (X (Min b)); RFloat (Y (Min b))];
                    RArray [RFloat (X (Max b)); RFloat (Y (Max b))]])
    end
  | _ => Err errInvalidNumberOfArguments
  end.

Definition cmdTYPE s msg ck : rresult :=
  match Args msg with
  | [_; key] =>
    match sm_get (cols s) key with
    | None => if is_RESP (OutputType msg) then Ok (RSimple "none") else Err errKeyNotFound
    | Some _ =>
      if is_JSON (OutputType msg)
      then Ok (RString (js "{'ok':true,'type':" +:+ jsonString "hash" +:+ elapsed ck))
      else Ok (RSimple "hash")
    end
  | _ => Err errInvalidNumberOfArguments
  end.

(** The precision argument of HASH. *)
Definition hashPrecision (arg : string) : result failure Z :=
  match ParseInt arg with
  | Some p => if (p <? 1) || (12 <? p) then Err (errInvalidArgument arg) else Ok p
  | None => Err (errInvalidArgument arg)
  end.

Fixpoint getArgs (args : list string) (withfields : bool) (kind : okind) (precision : Z)
    : result failure (bool * okind * Z) :=
  match args with
  | [] => Ok (withfields, kind, precision)
  | a :: args =>
    if kw a "withfields" then getArgs args true kind precision
    else if kw a "object" then getArgs args withfields KObject precision
    else if kw a "point" then getArgs args withfields KPoint precision
    else if kw a "bounds" then getArgs args withfields KBounds precision
    else if kw a "hash" then
      match args with
      | [] => Err errInvalidNumberOfArguments
      | p :: args => let? precision := hashPrecision p in getArgs args withfields KHash precision
      end
    else Err errInvalidNumberOfArguments
  end.

Definition floatText (f : float64) : respValue := RString (FormatFloat f).

(** The value of an object in the asked form: as JSON text, and as a reply. *)
Definition kindJSON o (kind : okind) (precision : Z) : string :=
  match kind with
  | KObject => js ",'object':" +:+ JSON (Geo o)
  | KPoint => js ",'point':" +:+ appendJSONSimplePoint (Geo o)
  | KHash =>
    let center := Center (Geo o) in
    js ",'hash':" +:+ quoted (EncodeWithPrecision (Y center) (X center) precision)
  | KBounds => js ",'bounds':" +:+ appendJSONSimpleBounds (Geo o)
  end.

Definition kindValue o (kind : okind) (precision : Z) : respValue :=
  match kind with
  | KObject => RString (StringOf (Geo o))
  | KPoint =>
    let point := Center (Geo o) in
    let z := extractZCoordinate (Geo o) in
    RArray ([floatText (Y point); floatText (X point)] ++
            if negb (f64_eq z f64_zero) then [floatText z] else [])
  | KHash =>
    let center := Center (Geo o) in
    RString (EncodeWithPrecision (Y center) (X center) precision)
  | KBounds =>
    let bbox := RectOf (Geo o) in
    RArray [RArray [RFloat (Y (Min bbox)); RFloat (X (Min bbox))];
            RArray [RFloat (Y (Max bbox)); RFloat (X (Max bbox))]]
  end.

Definition fieldsJSON (fs : list Field) : string :=
  join ((fun f => jsonString (name f) +:+ ":" +:+ value_JSON (value f)) <$> fs).
Definition fieldValues (fs : list Field) : list respValue :=
  flat_map (fun f => [RString (name f); RString (data (value f))]) fs.

Definition buildObjectResponse msg o ck (kind : okind) (precision : Z) (withfields : bool)
    : respValue :=
  let fields := match Fields o with [] => false | _ => withfields end in
  if is_JSON (OutputType msg) then
    RString (js "{'ok':true" +:+ kindJSON o kind precision +:+
      (if fields then js ",'fields':{" +:+ fieldsJSON (Fields o) +:+ "}" else "") +:+ elapsed ck)
  else
    let v := kindValue o kind precision in
    if withfields
    then RArray (v :: if fields then [RArray (fieldValues (Fields o))] else [])
    else v.

(** The object a read command looks up, or the failure for a missing key or id. *)
Definition findObject s (key id : string) : result failure Obj :=
  match sm_get (cols s) key with
  | None => Err errKeyNotFound
  | Some col => match Get col id with None => Err errIDNotFound | Some o => Ok o end
  end.

Definition cmdGET s msg ck : rresult :=
  match Args msg with
  | _ :: key :: id :: opts =>
    let? (withfields, kind, precision) := getArgs opts false KObject 0 in
    match findObject s key id with
    | Err e => if is_RESP (OutputType msg) then Ok RNull else Err e
    | Ok o => Ok (buildObjectResponse msg o ck kind precision withfields)
    end
  | _ => Err errInvalidNumberOfArguments
  end.

Definition cmdFGET s msg ck : rresult :=
  match Args msg with
  | _ :: key :: id :: field :: _ =>
    let? o := findObject s key id in
    let f := fl_get (Fields o) field in
    Ok (match OutputType msg with
        | OutJSON => RString (js "{'ok':true" +:+ js ",'value':" +:+ value_JSON (value f) +:+ elapsed ck)
        | OutRESP => RString (data (value f))
        | OutOther => NOMessage
        end)
  | _ => Err errInvalidNumberOfArguments
  end.

Definition cmdTTL s msg ck : rresult :=
  match Args msg with
  | [_; key; id] =>
    match findObject s key id with
    | Err e => if is_JSON (OutputType msg) then Err e else Ok (RInt (-2))
    | Ok o =>
      let ttl :=
        if Expires o =? 0 then f64_of_Z (-1)
        else f64_max (f64_div (f64_of_Z (int64 (Expires o - c_start ck))) second) f64_zero in
      let n := int64_of_f64 ttl in
      if is_JSON (OutputType msg)
      then Ok (RSimple (js "{'ok':true,'ttl':" +:+ FormatInt n +:+ elapsed ck))
      else Ok (RInt n)
    end
  | _ => Err errInvalidNumberOfArguments
  end.

Definition existsReply msg ck (exists_ : bool) : respValue :=
  if is_JSON (OutputType msg)
  then RSimple (js "{'ok':true,'exists':" +:+ (if exists_ then "true" else "false") +:+ elapsed ck)
  else RBool exists_.

Definition cmdEXISTS s msg ck : rresult :=
  match Args msg with
  | [_; key; id] =>
    match sm_get (cols s) key with
    | None => Err errKeyNotFound
    | Some col => Ok (existsReply msg ck (is_some (Get col id)))
    end
  | _ => Err errInvalidNumberOfArguments
  end.

Definition cmdFEXISTS s msg ck : rresult :=
  match Args msg with
  | [_; key; id; field] =>
    let? o := findObject s key id in
    let f := fl_get (Fields o) field in
    Ok (existsReply msg ck (negb (name f =s "")))
  | _ => Err errInvalidNumberOfArguments
  end.

(** ** Write commands *)

(** A reply by output type, the zero value for a type that is neither. *)
Definition reply3 msg (json resp : respValue) : respValue :=
  match OutputType msg with OutJSON => json | OutRESP => resp | OutOther => RZero end.
Definition ok_JSON ck : respValue := RString (okJSON ck).
Definition int_of_bool (b : bool) : respValue := RInt (if b then 1 else 0).

Definition set_col s (key : string) col : Server := with_cols s (sm_set (cols s) key col).
Definition del_col s (key : string) : Server := with_cols s (sm_delete (cols s) key).

Fixpoint delArgs (opts : list string) (erron404 : bool) : result failure bool :=
  match opts with
  | [] => Ok erron404
  | a :: opts => if kw a "erron404" then delArgs opts true else Err (errInvalidArgument a)
  end.

Definition delDone s msg ck (key id : string) (old : option Obj) : wresult :=
  let s := with_grps s (groupDisconnectObject (grps s) key id) in
  let updated := is_some old in
  (s, Ok (reply3 msg (ok_JSON ck) (int_of_bool updated),
          single (mkDetail "del" key "" old None updated (c_now ck)))).

Definition cmdDEL s msg ck : wresult :=
  match Args msg with
  | _ :: key :: id :: opts =>
    match delArgs opts false with
    | Err e => (s, Err e)
    | Ok erron404 =>
      match sm_get (cols s) key with
      | Some col =>
        let '(col, old) := Delete col id in
        match old with
        | Some _ =>
          delDone (if Count col =? 0 then del_col s key else set_col s key col) msg ck key id old
        | None =>
          let s := set_col s key col in
          if erron404 then (s, Err errIDNotFound) else delDone s msg ck key id None
        end
      | None => if erron404 then (s, Err errKeyNotFound) else delDone s msg ck key id None
      end
    end
  | _ => (s, Err errInvalidNumberOfArguments)
  end.

(** The callback that collects the ids a pattern matches. *)
Definition pdelIter (pattern : string) (ids : list string) o : list string * bool :=
  (if matches pattern (ID o) then ids ++ [ID o] else ids, true).

(** The ids in the range of the pattern. *)
Definition pdelScan col (pattern : string) dl : scan (list string) :=
  let '(l0, l1) := Limits (Parse pattern false) in
  if (l0 =s "") && (l1 =s "") then Scan col false None dl (pdelIter pattern) []
  else ScanRange col l0 l1 false None dl (pdelIter pattern) [].

Definition pdelStep (key : string) (now : Z) (x : Coll * groups wT * list commandDetail)
    (id : string) : Coll * groups wT * list commandDetail :=
  let '(col, g, children) := x in
  let '(col, obj) := Delete col id in
  (col, groupDisconnectObject g key id,
   children ++ [mkDetail "del" key "" obj None true now]).

Definition cmdPDEL s msg ck : wresult :=
  match Args msg with
  | [_; key; pattern] =>
    let finish s (children : list commandDetail) : wresult :=
      let updated := match children with [] => false | _ => true end in
      (s, Ok (reply3 msg (ok_JSON ck) (RInt (Z.of_nat (length children))),
              mkDetails (mkDetail "pdel" key "" None None updated (c_now ck))
                true pattern children)) in
    match sm_get (cols s) key with
    | None => finish s []
    | Some col =>
      let r := pdelScan col pattern (Deadline_ msg) in
      if timeout r then (s, Err DeadlineHit)
      else
        let '(col, g, children) := foldl (pdelStep key (c_now ck)) (col, grps s, []) (st r) in
        let s := with_grps s g in
        finish (if Count col =? 0 then del_col s key else set_col s key col) children
    end
  | _ => (s, Err errInvalidNumberOfArguments)
  end.

Definition cmdDROPop s (key : string) : Server * option Coll :=
  let col := sm_get (cols s) key in
  let s := match col with Some _ => del_col s key | None => s end in
  (with_grps s (groupDisconnectCollection (grps s) key), col).

Definition cmdDROP s msg ck : wresult :=
  match Args msg with
  | [_; key] =>
    let '(s, col) := cmdDROPop s key in
    let updated := is_some col in
    (s, Ok (reply3 msg (ok_JSON ck) (int_of_bool updated),
            single (mkDetail "drop" key "" None None updated (c_now ck))))
  | _ => (s, Err errInvalidNumberOfArguments)
  end.

(** Whether a hook, and whether a channel, watches one of two keys. *)
Definition watching s (key newKey : string) : bool * bool :=
  foldl (fun '(hasHook, hasChannel) (h : Hook wG) =>
      if (Key h =s key) || (Key h =s newKey)
      then if channel h then (hasHook, true) else (true, hasChannel)
      else (hasHook, hasChannel))
    (false, false) (bt_items (hooks s)).

Definition cmdRENAME s msg ck : wresult :=
  match Args msg with
  | [c; key; newKey] =>
    let nx := kw c "renamenx" in
    match sm_get (cols s) key with
    | None => (s, Err errKeyNotFound)
    | Some col =>
      let '(hasHook, hasChannel) := watching s key newKey in
      if hasHook then (s, Err errKeyHasHooksSet)
      else if hasChannel then (s, Err errKeyHasChannelsSet)
      else
        let '(s, updated) :=
          match sm_get (cols s) newKey with
          | None => (s, true)
          | Some _ => if negb nx then (del_col s newKey, true) else (s, false)
          end in
        let s := if updated then set_col (del_col s key) newKey col else s in
        (s, Ok (reply3 msg (ok_JSON ck) (if negb nx then RSimple "OK" else int_of_bool updated),
                single (mkDetail "rename" key newKey None None updated (c_now ck))))
    end
  | _ => (s, Err errInvalidNumberOfArguments)
  end.

(** The names of the hooks, or of the channels. *)
Definition hookNames s (ch : bool) : list string :=
  foldl (fun names (h : Hook wG) => if Bool.eqb (channel h) ch then names ++ [Name h] else names)
    [] (bt_items (hooks s)).

Definition cmdFLUSHDB s msg ck : wresult :=
  match Args msg with
  | [_] =>
    let s := foldl (fun s key => (cmdDROPop s key).1) s (sm_items (cols s)).*1 in
    let s := foldl (fun s n => (cmdDELHOOKop s n true).1) s (hookNames s true) in
    let s := foldl (fun s n => (cmdDELHOOKop s n false).1) s (hookNames s false) in
    let s := mkServer sm_empty (bt_new _ _) (bt_new _ _) (bt_new _ _) rt_empty rt_empty
               groups_init (maxMemory s) (outOfMemory s) in
    (s, Ok (if is_JSON (OutputType msg) then ok_JSON ck else RSimple "OK",
            single (mkDetail "flushdb" "" "" None None true (c_now ck))))
  | _ => (s, Err errInvalidNumberOfArguments)
  end.

(** *** SET *)

(** The options of SET, as they are after the argument loop. *)
Record setOpts := mkSetOpts {
  so_fields : list Field; so_ex : Z; so_xx : bool; so_nx : bool; so_ret : bool;
  so_withfields : bool; so_kind : okind; so_precision : Z; so_obj : option (geometry wG) }.

Definition noSetOpts : setOpts := mkSetOpts [] 0 false false false false KObject 0 None.

(** The options a RETURN argument may be followed by. *)
Record retOpts := mkRetOpts { ro_withfields : bool; ro_kind : okind; ro_precision : Z }.

(** The loop [for j := i; j < i+3; j++] after RETURN, in SET and in FSET; it moves [i] as it
    goes. Every round moves [j], which stays within the arguments. *)
Fixpoint retLoop (fuel : nat) (args : list string) (i j : nat) (ro : retOpts)
    : result failure (nat * retOpts) :=
  match fuel with
  | O => Ok (i, ro)
  | S fuel =>
    if (j <? i + 3)%nat then
      match args !! j with
      | None => Ok (i, ro)
      | Some a =>
        if kw a "withfields" then
          retLoop fuel args (i + 1) (j + 1) (mkRetOpts true (ro_kind ro) (ro_precision ro))
        else if kw a "object" then
          retLoop fuel args (i + 1) (j + 1) (mkRetOpts (ro_withfields ro) KObject (ro_precision ro))
        else if kw a "point" then
          retLoop fuel args (i + 1) (j + 1) (mkRetOpts (ro_withfields ro) KPoint (ro_precision ro))
        else if kw a "bounds" then
          retLoop fuel args (i + 1) (j + 1) (mkRetOpts (ro_withfields ro) KBounds (ro_precision ro))
        else if kw a "hash" then
          match args !! (j + 1)%nat with
          | None => Err errInvalidNumberOfArguments
          | Some p =>
            let? precision := hashPrecision p in
            retLoop fuel args (i + 2) (j + 2) (mkRetOpts (ro_withfields ro) KHash precision)
          end
        else retLoop fuel args i (j + 1) ro
      end
    else Ok (i, ro)
  end.

Definition parseFloat (arg : string) : result failure float64 :=
  let '(x, ok) := ParseFloat arg in if ok then Ok x else Err (errInvalidArgument arg).

(** [UnixNano() + int64(float64(time.Second) * x)]. *)
Definition expiry (now : Z) (x : float64) : Z := int64 (now + int64_of_f64 (f64_mul second x)).

(** POINT lat lon [z]: the geometry and how many arguments it took. *)
Definition setPoint (slat slon : string) (probe : option string) : result failure (geometry wG * nat) :=
  let z := match probe with
           | Some a => let '(z, ok) := ParseFloat a in if ok then Some z else None
           | None => None
           end in
  let? y := parseFloat slat in
  let? x := parseFloat slon in
  match z with
  | None => Ok (Geom (NewPoint (mkPoint x y)), 2%nat)
  | Some z => Ok (Geom (NewPointZ (mkPoint x y) z), 3%nat)
  end.

Definition setBounds (a0 a1 a2 a3 : string) : result failure (geometry wG) :=
  let? v0 := parseFloat a0 in
  let? v1 := parseFloat a1 in
  let? v2 := parseFloat a2 in
  let? v3 := parseFloat a3 in
  Ok (Geom (NewRect (mkRect (mkPoint v1 v0) (mkPoint v3 v2)))).

Definition so_with_obj (so : setOpts) (g : geometry wG) : setOpts :=
  mkSetOpts (so_fields so) (so_ex so) (so_xx so) (so_nx so) (so_ret so) (so_withfields so)
    (so_kind so) (so_precision so) (Some g).

(** One argument of SET at index [i] and those it takes: the options and the next index. *)
Definition setArg (args : list string) (now : Z) (i : nat) (a : string) (so : setOpts)
    : result failure (setOpts * nat) :=
  let '(mkSetOpts fields ex xx nx ret withfields kind precision oobj) := so in
  let arg k := args !! (i + k)%nat in
  if kw a "field" then
    match arg 1%nat, arg 2%nat with
    | Some fkey, Some fval =>
      if isReservedFieldName fkey then Err (errInvalidArgument fkey)
      else Ok (mkSetOpts (fields ++ [Make fkey fval]) ex xx nx ret withfields kind precision oobj,
               (i + 3)%nat)
    | _, _ => Err errInvalidNumberOfArguments
    end
  else if kw a "ex" then
    match arg 1%nat with
    | Some exval =>
      let? x := parseFloat exval in
      Ok (mkSetOpts fields (expiry now x) xx nx ret withfields kind precision oobj, (i + 2)%nat)
    | None => Err errInvalidNumberOfArguments
    end
  else if kw a "nx" then
    if xx then Err (errInvalidArgument a)
    else Ok (mkSetOpts fields ex xx true ret withfields kind precision oobj, (i + 1)%nat)
  else if kw a "xx" then
    if nx then Err (errInvalidArgument a)
    else Ok (mkSetOpts fields ex true nx ret withfields kind precision oobj, (i + 1)%nat)
  else if kw a "return" then
    if ret then Err (errInvalidArgument a)
    else
      let? (i, ro) := retLoop (S (length args)) args i i (mkRetOpts withfields kind precision) in
      Ok (mkSetOpts fields ex xx nx true (ro_withfields ro) (ro_kind ro) (ro_precision ro) oobj,
          (i + 1)%nat)
  else if kw a "string" then
    match arg 1%nat with
    | Some str => Ok (so_with_obj so (Str str), (i + 2)%nat)
    | None => Err errInvalidNumberOfArguments
    end
  else if kw a "point" then
    match arg 1%nat, arg 2%nat with
    | Some slat, Some slon =>
      let? (g, n) := setPoint slat slon (arg 3%nat) in Ok (so_with_obj so g, (i + n + 1)%nat)
    | _, _ => Err errInvalidNumberOfArguments
    end
  else if kw a "bounds" then
    match arg 1%nat, arg 2%nat, arg 3%nat, arg 4%nat with
    | Some a0, Some a1, Some a2, Some a3 =>
      let? g := setBounds a0 a1 a2 a3 in Ok (so_with_obj so g, (i + 5)%nat)
    | _, _, _, _ => Err errInvalidNumberOfArguments
    end
  else if kw a "hash" then
    match arg 1%nat with
    | Some shash =>
      let '(lat, lon) := Decode shash in
      Ok (so_with_obj so (Geom (NewPoint (mkPoint lon lat))), (i + 2)%nat)
    | None => Err errInvalidNumberOfArguments
    end
  else if kw a "object" then
    match arg 1%nat with
    | Some json =>
      match geo_Parse json with
      | Ok g => Ok (so_with_obj so (Geom g), (i + 2)%nat)
      | Err e => Err (Error e)
      end
    | None => Err errInvalidNumberOfArguments
    end
  else Err (errInvalidArgument a).

(** The argument loop; every round takes at least one argument. *)
Fixpoint setLoop (fuel : nat) (args : list string) (now : Z) (i : nat) (so : setOpts)
    : result failure setOpts :=
  match fuel with
  | O => Ok so
  | S fuel =>
    match args !! i with
    | None => Ok so
    | Some a => let? (so, i) := setArg args now i a so in setLoop fuel args now i so
    end
  end.

(** Where XX or NX excludes the operation. *)
Definition nada s msg (nx : bool) : wresult :=
  if is_JSON (OutputType msg) then (s, Err (if nx then errIDAlreadyExists else errIDNotFound))
  else (s, Ok (RNull, noDetails)).

Definition setOp s msg ck (key id : string) (so : setOpts) (oobj : geometry wG) : wresult :=
  let nx := so_nx so in
  let xx := so_xx so in
  match sm_get (cols s) key, xx with
  | None, true => nada s msg nx
  | oc, _ =>
    let '(s, col) := match oc with
                     | Some col => (s, col)
                     | None => (set_col s key New, New)
                     end in
    let present := is_some (Get col id) in
    if (xx || nx) && (if present then nx else xx) then nada s msg nx
    else
      let flist := match Get col id with Some old => Fields old | None => [] end in
      let flist := foldl fl_set flist (so_fields so) in
      let obj := Object.New id oobj (so_ex so) flist in
      let '(col, old) := Set_ col obj in
      let s := set_col s key col in
      let d := single (mkDetail "set" key "" (Some obj) old true (c_now ck)) in
      if so_ret so then
        (s, Ok (buildObjectResponse msg obj ck (so_kind so) (so_precision so) (so_withfields so), d))
      else (s, Ok (reply3 msg (ok_JSON ck) (RSimple "OK"), d))
  end.

Definition oom s : bool := (0 <? maxMemory s) && outOfMemory s.

Definition cmdSET s msg ck : wresult :=
  if oom s then (s, Err errOOM)
  else
    match Args msg with
    | _ :: key :: id :: _ =>
      match setLoop (length (Args msg)) (Args msg) (c_now ck) 3 noSetOpts with
      | Err e => (s, Err e)
      | Ok so =>
        match so_obj so with
        | None => (s, Err errInvalidNumberOfArguments)
        | Some oobj => setOp s msg ck key id so oobj
        end
      end
    | _ => (s, Err errInvalidNumberOfArguments)
    end.

(** *** FSET *)

Record fsetOpts := mkFsetOpts {
  fo_fields : list Field; fo_xx : bool; fo_ret : bool; fo_opts : retOpts }.

Fixpoint fsetLoop (fuel : nat) (args : list string) (i : nat) (fo : fsetOpts)
    : result failure fsetOpts :=
  match fuel with
  | O => Ok fo
  | S fuel =>
    match args !! i with
    | None => Ok fo
    | Some a =>
      if kw a "xx" then
        fsetLoop fuel args (i + 1) (mkFsetOpts (fo_fields fo) true (fo_ret fo) (fo_opts fo))
      else if kw a "return" then
        if fo_ret fo then Err (errInvalidArgument a)
        else
          let? (i, ro) := retLoop (S (length args)) args i i (fo_opts fo) in
          fsetLoop fuel args (i + 1) (mkFsetOpts (fo_fields fo) (fo_xx fo) true ro)
      else
        match args !! (i + 1)%nat with
        | None => Err errInvalidNumberOfArguments
        | Some fval =>
          if isReservedFieldName a then Err (errInvalidArgument a)
          else fsetLoop fuel args (i + 2)
                 (mkFsetOpts (fo_fields fo ++ [Make a fval]) (fo_xx fo) (fo_ret fo) (fo_opts fo))
        end
    end
  end.

(** The fields after the updates, and how many of these changed something. *)
Definition fsetFields (ofields : list Field) (fields : list Field) : list Field * Z :=
  foldl (fun '(ofields, count) f =>
      if negb (Equals (value (fl_get ofields (name f))) (value f))
      then (fl_set ofields f, count + 1) else (ofields, count))
    (ofields, 0) fields.

Definition cmdFSET s msg ck : wresult :=
  if oom s then (s, Err errOOM)
  else
    match Args msg with
    | _ :: key :: id :: _ :: _ :: _ =>
      match fsetLoop (length (Args msg)) (Args msg) 3
              (mkFsetOpts [] false false (mkRetOpts false KObject 0)) with
      | Err e => (s, Err e)
      | Ok fo =>
        match sm_get (cols s) key with
        | None => (s, Err errKeyNotFound)
        | Some col =>
          let respond s (obj : option Obj) (updateCount : Z) (d : commandDetails) : wresult :=
            if fo_ret fo then
              match obj with
              | None => (s, Err NilDeref)
              | Some obj =>
                let ro := fo_opts fo in
                (s, Ok (buildObjectResponse msg obj ck (ro_kind ro) (ro_precision ro) (ro_withfields ro), d))
              end
            else (s, Ok (reply3 msg (ok_JSON ck) (RInt updateCount), d)) in
          match Get col id with
          | None => if fo_xx fo then respond s None 0 noDetails else (s, Err errIDNotFound)
          | Some o =>
            let '(ofields, updateCount) := fsetFields (Fields o) (fo_fields fo) in
            let obj := Object.New id (Geo o) (Expires o) ofields in
            let s := set_col s key (Set_ col obj).1 in
            respond s (Some obj) updateCount
              (single (mkDetail "fset" key "" (Some obj) None (0 <? updateCount) (c_now ck)))
          end
        end
      end
    | _ => (s, Err errInvalidNumberOfArguments)
    end.

(** *** EXPIRE and PERSIST *)

Definition cmdEXPIRE s msg ck : wresult :=
  match Args msg with
  | [_; key; id; svalue] =>
    match parseFloat svalue with
    | Err e => (s, Err e)
    | Ok v =>
      match findObject s key id with
      | Ok o =>
        let obj := Object.New id (Geo o) (expiry (c_now ck) v) (Fields o) in
        let s := match sm_get (cols s) key with
                 | Some col => set_col s key (Set_ col obj).1
                 | None => s
                 end in
        (s, Ok (reply3 msg (ok_JSON ck) (RInt 1),
                single (mkDetail "expire" key "" (Some obj) None true (c_now ck))))
      | Err e =>
        if is_JSON (OutputType msg) then (s, Err e)
        else (s, Ok (reply3 msg RZero (RInt 0), noDetails))
      end
    end
  | _ => (s, Err errInvalidNumberOfArguments)
  end.

Definition cmdPERSIST s msg ck : wresult :=
  match Args msg with
  | [_; key; id] =>
    match findObject s key id with
    | Err e => if is_RESP (OutputType msg) then (s, Ok (RInt 0, noDetails)) else (s, Err e)
    | Ok o =>
      let cleared := negb (Expires o =? 0) in
      let obj := Object.New id (Geo o) 0 (Fields o) in
      let s := match sm_get (cols s) key with
               | Some col => if cleared then set_col s key (Set_ col obj).1 else s
               | None => s
               end in
      (s, Ok (reply3 msg (RSimple (okJSON ck)) (int_of_bool cleared),
              single (mkDetail "persist" key "" (if cleared then Some obj else None) None
                        cleared (c_now ck))))
    end
  | _ => (s, Err errInvalidNumberOfArguments)
  end.
End crud.
