(* ===== verification/CrudFacts.v ===== *)
(** * What the object commands do

    The data set as a mathematical object is the partial function [db s] from keys and
    ids to objects. The invariant [server_ok] says that every collection is consistent
    and non-empty and that the group indexes agree. Each write command preserves it and
    changes [db] as its documentation says, on every branch. *)

From Stdlib Require Import Ascii String ZArith Lia Bool SpecFloat.
From stdpp Require Import base list strings option sorting sets gmap.
From S2P Require Import Prelude GoStd Strconv Glob GlobFacts Json Containers Field FieldList.
From S2P Require Import FieldBinary Geo Object Collection CollectionScan Group World Hooks Crud.
Import Glob.

Local Open Scope Z_scope.

(** ** Argument loops have enough fuel *)

Section fuel.
Context `{World}.

(** More fuel than arguments left changes nothing. *)
Lemma retLoop_fuel f1 f2 args i j ro :
  (length args < j + f1)%nat -> (length args < j + f2)%nat ->
  retLoop f1 args i j ro = retLoop f2 args i j ro.
Proof.
  revert f2 i j ro. induction f1 as [|f1 IH]; intros f2 i j ro H1 H2.
  { destruct f2 as [|f2]; [done|]. cbn [retLoop].
    rewrite lookup_ge_None_2 by lia. by destruct (j <? i + 3)%nat. }
  destruct f2 as [|f2]; cbn [retLoop].
  { rewrite lookup_ge_None_2 by lia. by destruct (j <? i + 3)%nat. }
  destruct (j <? i + 3)%nat; [|done]. destruct (args !! j); [|done].
  repeat (match goal with |- context [if kw ?a ?w then _ else _] => destruct (kw a w) end;
    [first [apply IH; lia | idtac]|]); try (apply IH; lia).
  destruct (args !! (j + 1)%nat); [|done]. destruct (hashPrecision _); [|done].
  cbn [rbind]. apply IH; lia.
Qed.

Lemma retLoop_advances f args i j ro i' ro' :
  retLoop f args i j ro = Ok (i', ro') -> (i <= i')%nat.
Proof.
  revert i j ro. induction f as [|f IH]; intros i j ro; cbn [retLoop]; [naive_solver|].
  destruct (j <? i + 3)%nat; [|naive_solver]. destruct (args !! j); [|naive_solver].
  repeat (match goal with |- context [if kw ?a ?w then _ else _] => destruct (kw a w) end;
    [try (intros E; apply IH in E; lia)|]); try (intros E; apply IH in E; lia).
  destruct (args !! (j + 1)%nat); [|done]. destruct (hashPrecision _); [|done].
  cbn [rbind]. intros E; apply IH in E; lia.
Qed.

Lemma setArg_advances args now i a so so' i' :
  setArg args now i a so = Ok (so', i') -> (i < i')%nat.
Proof.
  destruct so as [fs ex xx nx ret wf kd pr ob]. unfold setArg, rbind. intros E.
  repeat match type of E with
  | context [retLoop ?f ?a ?i ?j ?r] =>
    destruct (retLoop f a i j r) as [[]|] eqn:Er; [apply retLoop_advances in Er|done]
  | context [match ?x with _ => _ end] => destruct x; try done
  end; simplify_eq; try lia.
Qed.

Lemma setLoop_fuel f1 f2 args now i so :
  (length args <= i + f1)%nat -> (length args <= i + f2)%nat ->
  setLoop f1 args now i so = setLoop f2 args now i so.
Proof.
  revert f2 i so. induction f1 as [|f1 IH]; intros f2 i so H1 H2.
  { destruct f2; [done|]. cbn [setLoop]. by rewrite lookup_ge_None_2 by lia. }
  destruct f2; cbn [setLoop]; [by rewrite lookup_ge_None_2 by lia|].
  destruct (args !! i); [|done].
  destruct (setArg args now i s so) as [[so' i']|] eqn:E; [|done]. cbn [rbind].
  apply setArg_advances in E. apply IH; lia.
Qed.

Lemma fsetLoop_fuel f1 f2 args i fo :
  (length args <= i + f1)%nat -> (length args <= i + f2)%nat ->
  fsetLoop f1 args i fo = fsetLoop f2 args i fo.
Proof.
  revert f2 i fo. induction f1 as [|f1 IH]; intros f2 i fo H1 H2.
  { destruct f2; [done|]. cbn [fsetLoop]. by rewrite lookup_ge_None_2 by lia. }
  destruct f2; cbn [fsetLoop]; [by rewrite lookup_ge_None_2 by lia|].
  destruct (args !! i) as [a|]; [|done]. destruct (kw a "xx"); [apply IH; lia|].
  destruct (kw a "return").
  - destruct (fo_ret fo); [done|].
    destruct (retLoop _ args i i (fo_opts fo)) as [[i' ro]|] eqn:E; [|done]. cbn [rbind].
    apply retLoop_advances in E. apply IH; lia.
  - destruct (args !! (i + 1)%nat); [|done]. destruct (isReservedFieldName a); [done|].
    apply IH; lia.
Qed.
End fuel.

(** ** The data set *)

Section facts.
Context `{WorldLaws}.
Abbreviation Coll := (Collection wG wM wT wR).
Abbreviation Obj := (Object wG).
Implicit Types (s : Server) (msg : Message) (ck : clock) (o : Obj) (c : Coll).

Definition db s (key id : string) : option Obj :=
  match sm_get (cols s) key with Some c => Get c id | None => None end.

Record server_ok s : Prop := {
  sk_cols : forall key c, sm_get (cols s) key = Some c -> coll_ok c /\ Count c <> 0;
  sk_fields : forall key id o, db s key id = Some o -> fields_ok (Fields o);
  sk_groups : groups_ok (grps s);
}.

Definition sound_fields c : Prop := forall id o, Get c id = Some o -> fields_ok (Fields o).

(** A geometry whose index box, if it gets one, has no NaN. *)
Definition geom_ok (g : geometry wG) : bool := obj_ok (Object.New "" g 0 []).

Lemma geom_obj_ok id g ex fs : obj_ok (Object.New id g ex fs) = geom_ok g.
Proof. done. Qed.
Lemma Str_ok str : geom_ok (Str str) = true.
Proof. done. Qed.

Lemma Count_Get c : coll_ok c -> Count c <> 0 <-> exists id o, Get c id = Some o.
Proof.
  intros Hok. rewrite Count_length by done. unfold Get, all. split.
  - intros Hn. destruct (sm_items (objs c)) as [|[k o] l] eqn:E; [done|].
    exists k, o. apply sm_elem_items. rewrite E. apply list_elem_of_here.
  - intros (id & o & Ho%sm_elem_items). destruct (sm_items (objs c)); [|done].
    by apply not_elem_of_nil in Ho.
Qed.

Lemma Count_zero c : coll_ok c -> Count c = 0 <-> forall id, Get c id = None.
Proof.
  intros Hok. pose proof (Count_Get c Hok) as Hc. split.
  - intros Hz id. destruct (Get c id) as [o|] eqn:E; [|done]. destruct (proj2 Hc); eauto.
  - intros Hn. destruct (decide (Count c = 0)) as [|Hne]; [done|].
    apply Hc in Hne as (id & o & Ho). congruence.
Qed.

(** A key is present exactly when it has an object. *)
Lemma key_db s key :
  server_ok s -> sm_get (cols s) key = None <-> forall id, db s key id = None.
Proof.
  intros Hok. unfold db. destruct (sm_get (cols s) key) as [c|] eqn:E; [|tauto].
  destruct (sk_cols _ Hok _ _ E) as [Hc Hn]. split; [done|].
  intros Hid. destruct Hn. by apply Count_zero.
Qed.

Lemma db_set_col s key c k i :
  db (set_col s key c) k i = if key =s k then Get c i else db s k i.
Proof. unfold db, set_col. simpl. rewrite sm_get_set. by destruct (key =s k). Qed.
Lemma db_del_col s key k i : db (del_col s key) k i = if key =s k then None else db s k i.
Proof. unfold db, del_col. simpl. rewrite sm_get_delete. by destruct (key =s k). Qed.
Lemma db_with_grps s g k i : db (with_grps s g) k i = db s k i.
Proof. done. Qed.

Lemma col_fields s key c : server_ok s -> sm_get (cols s) key = Some c -> sound_fields c.
Proof.
  intros Hok Ec id o Ho. apply (sk_fields _ Hok key id). unfold db. by rewrite Ec.
Qed.

Lemma set_col_ok s key c :
  server_ok s -> coll_ok c -> Count c <> 0 -> sound_fields c -> server_ok (set_col s key c).
Proof.
  intros [H1 H2 H3] Hc Hn Hf. split; [| |done].
  - intros k c'. simpl. rewrite sm_get_set. destruct (key =s k); [by intros [= <-]|apply H1].
  - intros k i o. rewrite db_set_col. destruct (key =s k); [apply Hf|apply H2].
Qed.
Lemma del_col_ok s key : server_ok s -> server_ok (del_col s key).
Proof.
  intros [H1 H2 H3]. split; [| |done].
  - intros k c'. simpl. rewrite sm_get_delete. destruct (key =s k); [done|apply H1].
  - intros k i o. rewrite db_del_col. destruct (key =s k); [done|apply H2].
Qed.
Lemma with_grps_ok s g : server_ok s -> groups_ok g -> server_ok (with_grps s g).
Proof. by intros [H1 H2 H3] Hg. Qed.

(** Setting an object. *)
Lemma Set_count c o : coll_ok c -> obj_ok o = true -> Count (Set_ c o).1 <> 0.
Proof.
  intros Hc Ho. apply Count_Get; [by apply Set_ok|]. exists (ID o), o.
  by rewrite Get_Set_, String.eqb_refl.
Qed.
Lemma Set_fields c o : sound_fields c -> fields_ok (Fields o) -> sound_fields (Set_ c o).1.
Proof.
  intros Hc Ho i x. rewrite Get_Set_. destruct (ID o =s i); [by intros [= <-]|apply Hc].
Qed.
Lemma set_obj_ok s key c o :
  server_ok s -> sm_get (cols s) key = Some c -> obj_ok o = true -> fields_ok (Fields o) ->
  server_ok (set_col s key (Set_ c o).1).
Proof.
  intros Hok Ec Ho Hf. destruct (sk_cols _ Hok _ _ Ec) as [Hc _].
  apply set_col_ok; [done|by apply Set_ok|by apply Set_count|].
  apply Set_fields; [by eapply col_fields|done].
Qed.
Lemma db_set_obj s key c o k i :
  sm_get (cols s) key = Some c ->
  db (set_col s key (Set_ c o).1) k i = if (key =s k) && (ID o =s i) then Some o else db s k i.
Proof.
  intros Ec. rewrite db_set_col, Get_Set_. destruct (String.eqb_spec key k) as [<-|]; [|done].
  unfold db. by rewrite Ec.
Qed.

Lemma newServer_ok mm : server_ok (newServer mm).
Proof.
  split; [| |apply groups_init_ok].
  - intros key c. simpl. by rewrite sm_get_empty.
  - intros key id o. unfold db. simpl. by rewrite sm_get_empty.
Qed.

(** The objects of a consistent server have sound geometries. *)
Lemma db_ok s key id o : server_ok s -> db s key id = Some o -> ID o = id /\ geom_ok (Geo o) = true.
Proof.
  intros Hok. unfold db. destruct (sm_get (cols s) key) as [c|] eqn:E; [|done].
  destruct (sk_cols _ Hok _ _ E) as [Hc _]. intros Hg. split; [by apply (ok_keys _ Hc)|].
  pose proof (ok_objs _ Hc) as Ho. rewrite Forall_forall in Ho. apply (Ho o).
  apply elem_of_all; [done|]. by rewrite (ok_keys _ Hc _ _ Hg).
Qed.

Lemma findObject_db s key id o : findObject s key id = Ok o <-> db s key id = Some o.
Proof.
  unfold findObject, db. destruct (sm_get (cols s) key) as [c|]; [|naive_solver].
  destruct (Get c id); naive_solver.
Qed.

(** ** SET *)

Lemma set_col_twice s key c0 c :
  server_ok s -> coll_ok c -> Count c <> 0 -> sound_fields c ->
  server_ok (set_col (set_col s key c0) key c).
Proof.
  intros [H1 H2 H3] Hc Hn Hf. split; [| |done].
  - intros k c'. simpl. rewrite !sm_get_set. destruct (key =s k); [by intros [= <-]|apply H1].
  - intros k i o. rewrite !db_set_col. destruct (key =s k); [apply Hf|apply H2].
Qed.

Lemma Get_New id : Get (New : Coll) id = None.
Proof. unfold Get, New. apply sm_get_empty. Qed.

(** The object SET stores. *)
Definition setObject s (key id : string) (so : setOpts) (g : geometry wG) : Obj :=
  Object.New id g (so_ex so)
    (foldl fl_set (match db s key id with Some old => Fields old | None => [] end) (so_fields so)).

(** XX wants the object to be there, NX wants it not to be. *)
Definition setBlocked s (key id : string) (so : setOpts) : bool :=
  match db s key id with Some _ => so_nx so | None => so_xx so end.

Definition setReply_ s msg ck (key id : string) (so : setOpts) (g : geometry wG)
    : result failure (respValue * commandDetails) :=
  let obj := setObject s key id so g in
  if setBlocked s key id so then
    if is_JSON (OutputType msg) then Err (if so_nx so then errIDAlreadyExists else errIDNotFound)
    else Ok (RNull, noDetails)
  else
    Ok (if so_ret so
        then buildObjectResponse msg obj ck (so_kind so) (so_precision so) (so_withfields so)
        else reply3 msg (ok_JSON ck) (RSimple "OK"),
        single (mkDetail "set" key "" (Some obj) (db s key id) true (c_now ck))).

Lemma setOp_eq s msg ck key id so g :
  setOp s msg ck key id so g =
    let c := match sm_get (cols s) key with Some c => c | None => New end in
    ((if setBlocked s key id so then s
      else set_col (match sm_get (cols s) key with Some _ => s | None => set_col s key New end)
             key (Set_ c (setObject s key id so g)).1),
     setReply_ s msg ck key id so g).
Proof.
  unfold setOp, setReply_, setBlocked, setObject, nada, db.
  destruct (sm_get (cols s) key) as [c|]; cbv zeta.
  - assert ((Set_ c (Object.New id g (so_ex so) (foldl fl_set
      match Get c id with Some old => Fields old | None => [] end (so_fields so)))).2 = Get c id) as E
      by done.
    destruct (Set_ c _) as [c' old]. cbn [snd] in E. subst old.
    destruct (Get c id), (so_xx so), (so_nx so), (so_ret so), (OutputType msg); done.
  - rewrite Get_New.
    assert ((Set_ (New : Coll) (Object.New id g (so_ex so) (foldl fl_set [] (so_fields so)))).2 = None) as E
      by apply sm_get_empty.
    destruct (Set_ New _) as [c' old]. cbn [snd] in E. subst old.
    destruct (so_xx so), (so_nx so), (so_ret so), (OutputType msg); done.
Qed.

(** Field values made from arguments are canonical. *)
Definition canonical_fields (fs : list Field) : Prop := Forall (fun f => canonical (value f)) fs.

Lemma fl_set_all_ok fs gs : fields_ok fs -> canonical_fields gs -> fields_ok (foldl fl_set fs gs).
Proof.
  intros Hf Hg. revert fs Hf. induction Hg as [|f gs Hc Hg IH]; intros fs Hf; [done|].
  simpl. by apply IH, fl_set_ok.
Qed.

Lemma fields_nil_ok : fields_ok [].
Proof. split; constructor. Qed.

Lemma setObject_fields s key id so g :
  server_ok s -> canonical_fields (so_fields so) -> fields_ok (Fields (setObject s key id so g)).
Proof.
  intros Hok Hc. apply fl_set_all_ok; [|done].
  destruct (db s key id) eqn:E; [by eapply sk_fields|apply fields_nil_ok].
Qed.

Lemma setArg_fields args now i a so so' i' :
  setArg args now i a so = Ok (so', i') -> canonical_fields (so_fields so) ->
  canonical_fields (so_fields so').
Proof.
  destruct so as [fs ex xx nx ret wf kd pr ob]. unfold setArg, rbind. intros E Hf.
  repeat match type of E with
  | context [match ?x with _ => _ end] => destruct x; try done
  end; simplify_eq; try done.
  apply Forall_app. split; [done|]. constructor; [apply ValueOf_canonical|constructor].
Qed.

Lemma setLoop_fields fuel args now i so so' :
  setLoop fuel args now i so = Ok so' -> canonical_fields (so_fields so) ->
  canonical_fields (so_fields so').
Proof.
  revert i so. induction fuel as [|fuel IH]; intros i so; cbn [setLoop]; [naive_solver|].
  destruct (args !! i) as [a|]; [|naive_solver].
  destruct (setArg args now i a so) as [[so1 i1]|] eqn:E; [|done]. cbn [rbind].
  intros Hl Hf. eapply IH; [done|]. by eapply setArg_fields.
Qed.

Lemma setOp_spec s msg ck key id so g :
  server_ok s -> geom_ok g = true -> canonical_fields (so_fields so) ->
  let s' := (setOp s msg ck key id so g).1 in
  server_ok s' /\
  (forall k i, db s' k i =
    if negb (setBlocked s key id so) && ((key =s k) && (id =s i))
    then Some (setObject s key id so g) else db s k i) /\
  hooks s' = hooks s /\ grps s' = grps s.
Proof.
  intros Hok Hg Hfs s'. subst s'. rewrite setOp_eq. cbv zeta. cbn [fst].
  pose proof (setObject_fields s key id so g Hok Hfs) as Hf.
  destruct (setBlocked s key id so); [done|]. cbn [negb andb].
  set (o := setObject s key id so g) in *. assert (obj_ok o = true) as Ho by done.
  destruct (sm_get (cols s) key) as [c|] eqn:Ec.
  - split_and!; [by apply set_obj_ok| |done..]. intros k i. by rewrite (db_set_obj _ _ c).
  - split_and!; [| |done..].
    + apply set_col_twice; [done|by apply Set_ok, Ho; apply New_ok|by apply Set_count; [apply New_ok|]|].
      apply Set_fields; [|done]. intros i x. by rewrite Get_New.
    + intros k i. rewrite !db_set_col, Get_Set_, Get_New.
      destruct (String.eqb_spec key k) as [<-|]; [|done]. unfold db. by rewrite Ec.
Qed.

(** What the arguments of a SET message denote. *)
Definition parseSET msg ck : result failure setOpts :=
  setLoop (length (Args msg)) (Args msg) (c_now ck) 3 noSetOpts.

Lemma cmdSET_db s msg ck cmd key id rest so g :
  server_ok s -> oom s = false -> Args msg = cmd :: key :: id :: rest ->
  parseSET msg ck = Ok so -> so_obj so = Some g -> geom_ok g = true ->
  let s' := (cmdSET s msg ck).1 in
  server_ok s' /\
  (forall k i, db s' k i =
    if negb (setBlocked s key id so) && ((key =s k) && (id =s i))
    then Some (setObject s key id so g) else db s k i) /\
  (cmdSET s msg ck).2 = setReply_ s msg ck key id so g /\
  hooks s' = hooks s /\ grps s' = grps s.
Proof.
  intros Hok Ho Ha Hp Hs Hg s'. subst s'. unfold cmdSET, parseSET in *. rewrite Ho, Ha.
  rewrite Ha in Hp. rewrite Hp, Hs.
  destruct (setOp_spec s msg ck key id so g Hok Hg) as (S1 & S2 & S3 & S4).
  { eapply setLoop_fields; [exact Hp|constructor]. }
  split_and!; [done..| |done|done]. by rewrite setOp_eq.
Qed.

(** C14. SET on every branch. Out of memory, with too few arguments, with arguments that do
    not parse and without an object it answers with the error and changes nothing. With
    arguments that parse, unless XX or NX excludes it, the id gets an object with the new
    geometry and expiration and the old fields updated by the given ones; nothing else in
    the data set changes; the server stays consistent; and the reply and the details for
    fences and log are those of the object stored. The box of the geometry has no NaN. *)
Theorem cmdSET_spec s msg ck :
  server_ok s ->
  (oom s = true -> cmdSET s msg ck = (s, Err errOOM)) /\
  (oom s = false -> (length (Args msg) < 3)%nat -> cmdSET s msg ck = (s, Err errInvalidNumberOfArguments)) /\
  forall cmd key id rest, oom s = false -> Args msg = cmd :: key :: id :: rest ->
    match parseSET msg ck with
    | Err e => cmdSET s msg ck = (s, Err e)
    | Ok so =>
      match so_obj so with
      | None => cmdSET s msg ck = (s, Err errInvalidNumberOfArguments)
      | Some g =>
        geom_ok g = true ->
        let s' := (cmdSET s msg ck).1 in
        server_ok s' /\
        (forall k i, db s' k i =
          if negb (setBlocked s key id so) && ((key =s k) && (id =s i))
          then Some (setObject s key id so g) else db s k i) /\
        (cmdSET s msg ck).2 = setReply_ s msg ck key id so g /\
        hooks s' = hooks s /\ grps s' = grps s
      end
    end.
Proof.
  intros Hok. split; [|split].
  - intros Ho. unfold cmdSET. by rewrite Ho.
  - intros Ho Hl. unfold cmdSET. rewrite Ho. destruct (Args msg) as [|? [|? [|? ?]]]; cbn in Hl; done || lia.
  - intros cmd key id rest Ho Ha. destruct (parseSET msg ck) as [so|e] eqn:Hp; [destruct (so_obj so) as [g|] eqn:Hs|].
    + intros Hg. by apply (cmdSET_db s msg ck cmd key id rest so g).
    + unfold cmdSET, parseSET in *. rewrite Ho, Ha. rewrite Ha in Hp. by rewrite Hp, Hs.
    + unfold cmdSET, parseSET in *. rewrite Ho, Ha. rewrite Ha in Hp. by rewrite Hp.
Qed.

(** ** DEL *)

Definition delOk s (key id : string) : Server :=
  match sm_get (cols s) key with
  | Some c =>
    let c' := (Delete c id).1 in
    if (Count c' =? 0) && (is_some (Get c id)) then del_col s key else set_col s key c'
  | None => s
  end.

Lemma delOk_spec s key id :
  server_ok s ->
  server_ok (delOk s key id) /\
  (forall k i, db (delOk s key id) k i = if (key =s k) && (id =s i) then None else db s k i) /\
  grps (delOk s key id) = grps s /\ hooks (delOk s key id) = hooks s.
Proof.
  intros Hok. unfold delOk. destruct (sm_get (cols s) key) as [c|] eqn:Ec.
  - destruct (sk_cols _ Hok _ _ Ec) as [Hc Hn]. pose proof (Delete_ok c id Hc) as Hc'.
    assert (forall k i, (if key =s k then Get (Delete c id).1 i else db s k i) =
      (if (key =s k) && (id =s i) then None else db s k i)) as Hdb.
    { intros k i. destruct (String.eqb_spec key k) as [<-|]; [|done]. rewrite Get_Delete.
      cbn [andb]. destruct (id =s i); [done|]. unfold db. by rewrite Ec. }
    cbv zeta. destruct (Z.eqb_spec (Count (Delete c id).1) 0) as [Ez|Ez].
    + pose proof (proj1 (Count_zero _ Hc') Ez) as Hnone.
      destruct (Get c id) as [o|] eqn:Eg; cbn [is_some andb].
      * split_and!; [by apply del_col_ok| |done..]. intros k i. rewrite db_del_col, <- Hdb.
        by rewrite Hnone.
      * destruct Hn. apply Count_zero; [done|]. intros i. pose proof (Hnone i) as Hi.
        rewrite Get_Delete in Hi. destruct (String.eqb_spec id i); congruence.
    + cbn [andb]. split_and!; [apply set_col_ok; try done| |done..].
      * intros i o. rewrite Get_Delete. destruct (id =s i); [done|]. by eapply col_fields.
      * intros k i. by rewrite db_set_col, <- Hdb.
  - split_and!; [done| |done..]. intros k i. destruct (String.eqb_spec key k) as [<-|]; [|done].
    unfold db. rewrite Ec. by destruct (id =s i).
Qed.

Lemma Delete_old c id : (Delete c id).2 = Get c id.
Proof. unfold Delete, Get. by destruct (sm_get (objs c) id). Qed.

Lemma cmdDEL_eq s msg ck cmd key id opts e4 :
  Args msg = cmd :: key :: id :: opts -> delArgs opts false = Ok e4 ->
  cmdDEL s msg ck =
  match db s key id, e4 with
  | None, true => (delOk s key id, Err (if is_some (sm_get (cols s) key) then errIDNotFound else errKeyNotFound))
  | old, _ => delDone (delOk s key id) msg ck key id old
  end.
Proof.
  intros Ha He. unfold cmdDEL, delOk, db. rewrite Ha, He.
  destruct (sm_get (cols s) key) as [c|]; [|by destruct e4].
  pose proof (Delete_old c id) as E. destruct (Delete c id) as [c' old]. cbn [fst snd] in *. subst old.
  destruct (Get c id); cbn [is_some]; [by rewrite andb_true_r; destruct e4|].
  rewrite andb_false_r. by destruct e4.
Qed.

Lemma delDone_spec s msg ck key id old :
  server_ok s ->
  let s' := (delDone s msg ck key id old).1 in
  server_ok s' /\ (forall k i, db s' k i = db s k i) /\
  (forall g, g ∈ connected (grps s') <->
    g ∈ connected (grps s) /\ ~ (colKey g = key /\ objID g = id)).
Proof.
  intros Hok s'. subst s'. unfold delDone. cbn [fst]. split_and!.
  - apply with_grps_ok; [done|]. apply deleteGroups_ok, Hok.
  - done.
  - intros g. cbn [grps with_grps]. apply disconnectObject_elem, Hok.
Qed.

(** DEL removes exactly the object of the given id, and the collection when it was the
    last (this is part of [server_ok]); the groups of the object go with it; the reply
    tells whether there was one; with ERRON404 a missing object is an error and changes
    nothing. *)
Lemma cmdDEL_spec s msg ck cmd key id opts e4 :
  server_ok s -> Args msg = cmd :: key :: id :: opts -> delArgs opts false = Ok e4 ->
  let '(s', r) := cmdDEL s msg ck in
  server_ok s' /\
  (forall k i, db s' k i = if (key =s k) && (id =s i) then None else db s k i) /\
  match db s key id, e4 with
  | None, true =>
    grps s' = grps s /\ r = Err (if is_some (sm_get (cols s) key) then errIDNotFound else errKeyNotFound)
  | old, _ =>
    (forall g, g ∈ connected (grps s') <->
      g ∈ connected (grps s) /\ ~ (colKey g = key /\ objID g = id)) /\
    r = Ok (reply3 msg (ok_JSON ck) (int_of_bool (is_some old)),
            single (mkDetail "del" key "" old None (is_some old) (c_now ck)))
  end.
Proof.
  intros Hok Ha He. rewrite (cmdDEL_eq _ _ _ _ _ _ _ _ Ha He).
  destruct (delOk_spec s key id Hok) as (D1 & D2 & D3 & D4).
  assert (forall old, let '(s', r) := delDone (delOk s key id) msg ck key id old in
    server_ok s' /\ (forall k i, db s' k i = if (key =s k) && (id =s i) then None else db s k i) /\
    (forall g, g ∈ connected (grps s') <->
      g ∈ connected (grps s) /\ ~ (colKey g = key /\ objID g = id)) /\
    r = Ok (reply3 msg (ok_JSON ck) (int_of_bool (is_some old)),
            single (mkDetail "del" key "" old None (is_some old) (c_now ck)))) as Hd.
  { intros old. destruct (delDone_spec _ msg ck key id old D1) as (E1 & E2 & E3).
    unfold delDone in *. cbn [fst] in *. split_and!; [done|exact D2| |done].
    intros g. by rewrite E3, D3. }
  destruct (db s key id) as [o|]; [apply (Hd (Some o))|]. destruct e4; [|apply (Hd None)].
  by split_and!.
Qed.

(** ** PDEL *)

Definition matching (f : string -> bool) c : list Obj := filter (fun o => f (ID o) = true) (all c).

(** The ids PDEL selects: those in the range of the pattern that it matches. *)
Definition pdelSel (p i : string) : bool :=
  let '(l0, l1) := Limits (Parse p false) in
  (((l0 =s "") && (l1 =s "")) || (negb (i <s l0) && (i <s l1))) && matches p i.

Lemma pdelIter_run p ids l :
  run (pdelIter p) ids l = (ids ++ (ID <$> filter (fun o => matches p (ID o) = true) l), true).
Proof.
  revert ids. induction l as [|o l IH]; intros ids; simpl; [by rewrite app_nil_r|].
  rewrite IH, filter_cons. destruct (matches p (ID o)); [|done]. rewrite <- app_assoc. done.
Qed.

Lemma pdelScan_spec c p :
  coll_ok c ->
  st (pdelScan c p None) = ID <$> matching (pdelSel p) c /\ timeout (pdelScan c p None) = false.
Proof.
  intros Hok. unfold pdelScan, pdelSel, matching.
  destruct (Limits (Parse p false)) as [l0 l1].
  destruct ((l0 =s "") && (l1 =s "")) eqn:E; (split; [|by apply visits_timeout]).
  - pose proof (Scan_run c false None (pdelIter p) [] ltac:(done)) as Hs.
    rewrite pdelIter_run in Hs. by injection Hs.
  - pose proof (ScanRange_run c l0 l1 false None (pdelIter p) [] Hok ltac:(done)) as Hs.
    rewrite pdelIter_run in Hs. injection Hs as -> _.
    cbn [app]. change (Z.to_nat (default 0 None)) with 0%nat. rewrite drop_0.
    unfold id_range. rewrite list_filter_filter. f_equal. apply list_filter_iff'. intros o _.
    cbn [orb]. rewrite !andb_true_iff, negb_true_iff. tauto.
Qed.

Lemma pdelSel_rangeable p i : rangeable p -> pdelSel p i = matches p i.
Proof.
  intros Hr. unfold pdelSel. pose proof (limits_asc p i) as Hl.
  destruct (Limits (Parse p false)) as [l0 l1]. destruct (matches p i) eqn:Em; [|apply andb_false_r].
  rewrite andb_true_r. destruct Hl as [[-> ->]|[-> ->]]; [done|by apply matches_Ok|done|].
  by rewrite orb_true_r.
Qed.

(** Deleting the ids of a list in turn. *)
Lemma pdelStep_fold key now ids c g ds :
  coll_ok c -> groups_ok g -> NoDup ids ->
  let '(c', g', ds') := foldl (pdelStep key now) (c, g, ds) ids in
  coll_ok c' /\ (forall i, Get c' i = if bool_decide (i ∈ ids) then None else Get c i) /\
  groups_ok g' /\
  (forall x, x ∈ connected g' <-> x ∈ connected g /\ ~ (colKey x = key /\ objID x ∈ ids)) /\
  ds' = ds ++ ((fun id => mkDetail "del" key "" (Get c id) None true now) <$> ids).
Proof.
  intros Hc Hg Hnd. revert c g ds Hc Hg. induction Hnd as [|id ids Hn Hnd IH]; intros c g ds Hc Hg.
  { simpl. rewrite app_nil_r. split_and!; [done..|set_solver|done]. }
  cbn [foldl]. unfold pdelStep at 2. pose proof (Delete_old c id) as Eo.
  pose proof (Delete_ok c id Hc) as Hc'. pose proof (Get_Delete c id) as Hget.
  destruct (Delete c id) as [c1 old]. cbn [fst snd] in *. subst old.
  specialize (IH c1 (groupDisconnectObject g key id)
    (ds ++ [mkDetail "del" key "" (Get c id) None true now]) Hc' (deleteGroups_ok _ _ Hg)).
  destruct (foldl (pdelStep key now) _ ids) as [[c' g'] ds'].
  destruct IH as (I1 & I2 & I3 & I4 & I5). split_and!; [done| |done| |].
  - intros i. rewrite I2, Hget. destruct (String.eqb_spec id i) as [<-|Hne].
    + rewrite bool_decide_eq_false_2 by done. by rewrite bool_decide_eq_true_2 by set_solver.
    + destruct (decide (i ∈ ids)); [rewrite !bool_decide_eq_true_2 by set_solver; done|].
      by rewrite !bool_decide_eq_false_2 by set_solver.
  - intros x. rewrite I4, disconnectObject_elem, elem_of_cons by done. naive_solver.
  - rewrite I5, <- app_assoc. simpl. do 2 f_equal. apply list_fmap_ext. intros j i Hi.
    f_equal. rewrite Hget. destruct (String.eqb_spec id i) as [<-|]; [|done].
    by apply list_elem_of_lookup_2 in Hi.
Qed.

Lemma matching_ids c f i :
  coll_ok c -> i ∈ ID <$> matching f c <-> is_some (Get c i) = true /\ f i = true.
Proof.
  intros Hc. unfold matching, Get. rewrite list_elem_of_fmap. split.
  - intros (o & -> & [Hm Ho]%list_elem_of_filter). apply elem_of_all in Ho; [|done]. by rewrite Ho.
  - intros [Hs Hm]. destruct (sm_get (objs c) i) as [o|] eqn:E; [|done].
    pose proof (ok_keys _ Hc _ _ E) as <-. exists o. split; [done|].
    apply list_elem_of_filter. split; [done|]. by apply elem_of_all.
Qed.

Lemma matching_NoDup c f : coll_ok c -> NoDup (ID <$> matching f c).
Proof. intros Hc. apply NoDup_fmap_filter, all_NoDup, ok_keys, Hc. Qed.

(** The ids of a key that pass a test, in order. *)
Definition matching_of s (key : string) (f : string -> bool) : list string :=
  match sm_get (cols s) key with Some c => ID <$> matching f c | None => [] end.

(** What PDEL does with any pattern. *)
Lemma cmdPDEL_sel s cmd key p out ck :
  server_ok s ->
  let ids := matching_of s key (pdelSel p) in
  let '(s', r) := cmdPDEL s (mkMessage [cmd; key; p] out None) ck in
  server_ok s' /\
  (forall k i, db s' k i = if (key =s k) && pdelSel p i then None else db s k i) /\
  (forall g, g ∈ connected (grps s') <->
    g ∈ connected (grps s) /\ ~ (colKey g = key /\ objID g ∈ ids)) /\
  r = Ok (reply3 (mkMessage [cmd; key; p] out None) (ok_JSON ck) (RInt (Z.of_nat (length ids))),
    mkDetails (mkDetail "pdel" key "" None None (negb (bool_decide (ids = []))) (c_now ck)) true p
      ((fun id => mkDetail "del" key "" (db s key id) None true (c_now ck)) <$> ids)).
Proof.
  intros Hok ids. subst ids. unfold cmdPDEL, matching_of. cbn [Args Deadline_].
  destruct (sm_get (cols s) key) as [c|] eqn:Ec.
  - destruct (sk_cols _ Hok _ _ Ec) as [Hc Hn].
    destruct (pdelScan_spec c p Hc) as [Hst ->]. rewrite Hst.
    pose proof (pdelStep_fold key (c_now ck) _ c (grps s) [] Hc (sk_groups _ Hok) (matching_NoDup c (pdelSel p) Hc)) as Hf.
    destruct (foldl _ _ _) as [[c' g'] ds']. destruct Hf as (F1 & F2 & F3 & F4 & ->).
    assert (forall k i, (if key =s k then Get c' i else db s k i) =
      (if (key =s k) && pdelSel p i then None else db s k i)) as Hdb.
    { intros k i. destruct (String.eqb_spec key k) as [<-|]; [|done]. cbn [andb]. rewrite F2.
      unfold db. rewrite Ec. pose proof (matching_ids c (pdelSel p) i Hc) as Hm.
      destruct (Get c i), (pdelSel p i); cbn [is_some] in Hm; case_bool_decide; naive_solver. }
    assert ((fun id => mkDetail "del" key "" (Get c id) None true (c_now ck)) =
      (fun id => mkDetail "del" key "" (db s key id) None true (c_now ck))) as Ed.
    { unfold db. by rewrite Ec. }
    destruct (Z.eqb_spec (Count c') 0) as [Ez|Ez].
    + pose proof (proj1 (Count_zero _ F1) Ez) as Hnone. split_and!.
      * apply del_col_ok. by apply with_grps_ok.
      * intros k i. rewrite db_del_col, <- Hdb. by rewrite Hnone.
      * done.
      * rewrite Ed. cbn [app]. rewrite length_fmap. do 3 f_equal. by destruct (ID <$> matching (pdelSel p) c).
    + split_and!.
      * apply set_col_ok; [by apply with_grps_ok|done|done|].
        intros i o. rewrite F2. case_bool_decide; [done|]. by eapply col_fields.
      * intros k i. by rewrite db_set_col, <- Hdb.
      * done.
      * rewrite Ed. cbn [app]. rewrite length_fmap. do 3 f_equal. by destruct (ID <$> matching (pdelSel p) c).
  - split_and!; [done| |set_solver|done]. intros k i.
    destruct (String.eqb_spec key k) as [<-|]; [|done]. unfold db. rewrite Ec. by destruct (pdelSel p i).
Qed.

Lemma matching_of_ext s key f g : (forall i, f i = g i) -> matching_of s key f = matching_of s key g.
Proof.
  intros Hfg. unfold matching_of, matching. destruct (sm_get _ _); [|done]. f_equal.
  apply list_filter_iff'. intros o _. by rewrite Hfg.
Qed.

(** PDEL with a pattern whose range is sound deletes exactly the objects of the key
    whose id the pattern matches, with their groups, reports how many and hands their
    deletions on in id order; the collection goes when it becomes empty. *)
Theorem cmdPDEL_spec s cmd key p out ck :
  server_ok s -> rangeable p ->
  let ids := matching_of s key (matches p) in
  let '(s', r) := cmdPDEL s (mkMessage [cmd; key; p] out None) ck in
  server_ok s' /\
  (forall k i, db s' k i = if (key =s k) && matches p i then None else db s k i) /\
  (forall g, g ∈ connected (grps s') <->
    g ∈ connected (grps s) /\ ~ (colKey g = key /\ objID g ∈ ids)) /\
  r = Ok (reply3 (mkMessage [cmd; key; p] out None) (ok_JSON ck) (RInt (Z.of_nat (length ids))),
    mkDetails (mkDetail "pdel" key "" None None (negb (bool_decide (ids = []))) (c_now ck)) true p
      ((fun id => mkDetail "del" key "" (db s key id) None true (c_now ck)) <$> ids)).
Proof.
  intros Hok Hr ids. subst ids. pose proof (cmdPDEL_sel s cmd key p out ck Hok) as Hp. cbv zeta in Hp.
  rewrite <- (matching_of_ext s key (pdelSel p) (matches p)) by (intros i; by apply pdelSel_rangeable).
  destruct (cmdPDEL _ _ _) as [s' r]. destruct Hp as (P1 & P2 & P3 & P4). split_and!; [done| |done..].
  intros k i. by rewrite P2, pdelSel_rangeable.
Qed.

(** ** DROP, RENAME, FLUSHDB *)

Lemma cmdDROPop_spec s key :
  server_ok s ->
  let s' := (cmdDROPop s key).1 in
  server_ok s' /\ (forall k i, db s' k i = if key =s k then None else db s k i) /\
  (forall g, g ∈ connected (grps s') <-> g ∈ connected (grps s) /\ colKey g <> key) /\
  hooks s' = hooks s.
Proof.
  intros Hok s'. subst s'. unfold cmdDROPop. cbn [fst].
  destruct (sm_get (cols s) key) as [c|] eqn:Ec.
  - split_and!; [| | |done].
    + apply with_grps_ok; [by apply del_col_ok|]. apply deleteGroups_ok, Hok.
    + intros k i. by rewrite db_with_grps, db_del_col.
    + intros g. cbn [grps with_grps del_col with_cols]. apply disconnectCollection_elem, Hok.
  - split_and!; [| | |done].
    + apply with_grps_ok; [done|]. apply deleteGroups_ok, Hok.
    + intros k i. rewrite db_with_grps. destruct (String.eqb_spec key k) as [<-|]; [|done].
      unfold db. by rewrite Ec.
    + intros g. cbn [grps with_grps]. apply disconnectCollection_elem, Hok.
Qed.

(** A hook or channel that watches one of the keys. *)
Definition watched s (ch : bool) (key newKey : string) : bool :=
  existsb (fun h : Hook wG => Bool.eqb (channel h) ch && ((Key h =s key) || (Key h =s newKey)))
    (bt_items (hooks s)).

Lemma watching_spec s key newKey :
  watching s key newKey = (watched s false key newKey, watched s true key newKey).
Proof.
  unfold watching, watched.
  assert (forall l a b, foldl (fun '(hasHook, hasChannel) (h : Hook wG) =>
      if (Key h =s key) || (Key h =s newKey)
      then if channel h then (hasHook, true) else (true, hasChannel)
      else (hasHook, hasChannel)) (a, b) l =
    (a || existsb (fun h : Hook wG => Bool.eqb (channel h) false && ((Key h =s key) || (Key h =s newKey))) l,
     b || existsb (fun h : Hook wG => Bool.eqb (channel h) true && ((Key h =s key) || (Key h =s newKey))) l))
    as Hw.
  { induction l as [|h l IH]; intros a b; simpl; [by rewrite !orb_false_r|].
    destruct ((Key h =s key) || (Key h =s newKey)), (channel h); rewrite IH; simpl;
      by rewrite ?orb_true_r. }
  rewrite Hw. done.
Qed.

(** RENAME moves all objects of a key to the new key, replacing what was there;
    RENAMENX does so only when the new key is free; a missing key, and a hook or channel
    on either key, is an error and changes nothing. *)
Lemma cmdRENAME_spec s cmd key newKey out ck :
  server_ok s ->
  let msg := mkMessage [cmd; key; newKey] out None in
  let nx := kw cmd "renamenx" in
  let blocked := nx && is_some (sm_get (cols s) newKey) in
  let '(s', r) := cmdRENAME s msg ck in
  server_ok s' /\
  match r with
  | Err e =>
    s' = s /\
    e = (if is_some (sm_get (cols s) key) then
           if watched s false key newKey then errKeyHasHooksSet else errKeyHasChannelsSet
         else errKeyNotFound)
  | Ok (v, d) =>
    sm_get (cols s) key <> None /\ watched s false key newKey = false /\
    watched s true key newKey = false /\
    d_updated (detail d) = negb blocked /\
    v = reply3 msg (ok_JSON ck) (if nx then int_of_bool (negb blocked) else RSimple "OK") /\
    (forall k i, db s' k i =
      if blocked then db s k i
      else if newKey =s k then db s key i else if key =s k then None else db s k i)
  end.
Proof.
  intros Hok msg nx blocked. unfold cmdRENAME. cbn [Args msg]. fold nx.
  destruct (sm_get (cols s) key) as [c|] eqn:Ec; [|done].
  rewrite watching_spec. destruct (watched s false key newKey) eqn:E1; [done|].
  destruct (watched s true key newKey) eqn:E2; [done|].
  destruct (sk_cols _ Hok _ _ Ec) as [Hc Hn].
  assert (forall s1, server_ok s1 -> (forall k i, newKey <> k -> db s1 k i = db s k i) ->
    server_ok (set_col (del_col s1 key) newKey c) /\
    (forall k i, db (set_col (del_col s1 key) newKey c) k i =
      if newKey =s k then db s key i else if key =s k then None else db s k i)) as Hmove.
  { intros s1 Hok1 Hdb1.
    split; [apply set_col_ok; [by apply del_col_ok|done|done|exact (col_fields _ _ _ Hok Ec)]|].
    intros k i. rewrite db_set_col, db_del_col. destruct (String.eqb_spec newKey k) as [|Hne].
    - unfold db. by rewrite Ec.
    - by rewrite Hdb1. }
  unfold blocked. destruct (sm_get (cols s) newKey) as [c2|] eqn:E3; cbn [is_some].
  - destruct nx; cbn [negb andb].
    + split_and!; done.
    + destruct (Hmove (del_col s newKey)) as [M1 M2].
      { by apply del_col_ok. }
      { intros k i Hne. rewrite db_del_col. by rewrite (proj2 (String.eqb_neq _ _)). }
      by split_and!.
  - rewrite andb_false_r. destruct (Hmove s Hok) as [M1 M2]; [done|].
    by destruct nx; split_and!.
Qed.

(** FLUSHDB leaves an empty data set with no hooks, channels or groups. *)
Lemma cmdFLUSHDB_spec s cmd out ck :
  let '(s', r) := cmdFLUSHDB s (mkMessage [cmd] out None) ck in
  server_ok s' /\ (forall k i, db s' k i = None) /\ hooks_ok s' /\
  bt_items (hooks s') = [] /\ connected (grps s') = [] /\
  exists v d, r = Ok (v, d) /\ d_updated (detail d) = true.
Proof.
  unfold cmdFLUSHDB. cbn [Args]. set (s3 := foldl _ _ (hookNames _ false)). clearbody s3.
  split_and!.
  - destruct (newServer_ok (maxMemory s3)) as [N1 N2 N3]. by split.
  - intros k i. unfold db. simpl. by rewrite sm_get_empty.
  - destruct (newServer_hooks_ok (maxMemory s3)) as [[L1 L2 L3] [P1 P2 P3]]. split; by split.
  - apply bt_items_new.
  - apply bt_items_new.
  - eauto.
Qed.

(** ** FSET *)

Lemma fsetFields_cons fs f gs :
  fsetFields fs (f :: gs) =
  if Equals (value (fl_get fs (name f))) (value f) then fsetFields fs gs
  else let '(r, n) := fsetFields (fl_set fs f) gs in (r, n + 1).
Proof.
  unfold fsetFields. cbn [foldl].
  assert (forall gs fs n, foldl (fun '(ofields, count) f =>
      if negb (Equals (value (fl_get ofields (name f))) (value f))
      then (fl_set ofields f, count + 1) else (ofields, count)) (fs, n) gs =
    let '(r, m) := fsetFields fs gs in (r, m + n)) as Hn.
  { clear. unfold fsetFields. induction gs as [|g gs IH]; intros fs n; simpl; [f_equal; lia|].
    destruct (Equals _ _); simpl; [apply IH|].
    rewrite (IH _ (n + 1)), (IH _ 1). destruct (foldl _ _ gs). f_equal. lia. }
  destruct (Equals _ _); simpl; [done|]. by rewrite Hn.
Qed.

Lemma fsetFields_ok fs gs :
  fields_ok fs -> canonical_fields gs ->
  fields_ok (fsetFields fs gs).1 /\ 0 <= (fsetFields fs gs).2 /\
  ((fsetFields fs gs).2 = 0 -> (fsetFields fs gs).1 = fs).
Proof.
  intros Hf Hg. revert fs Hf. induction Hg as [|f gs Hc Hg IH]; intros fs Hf; [done|].
  rewrite fsetFields_cons. destruct (Equals _ _); [by apply IH|].
  destruct (IH (fl_set fs f) (fl_set_ok _ _ Hf Hc)) as (I1 & I2 & I3).
  destruct (fsetFields (fl_set fs f) gs) as [r n]. cbn [fst snd] in *.
  split_and!; [done|lia|lia].
Qed.

Lemma fsetLoop_fields fuel args i fo fo' :
  fsetLoop fuel args i fo = Ok fo' -> canonical_fields (fo_fields fo) ->
  canonical_fields (fo_fields fo').
Proof.
  revert i fo. induction fuel as [|fuel IH]; intros i fo; cbn [fsetLoop]; [naive_solver|].
  destruct (args !! i) as [a|]; [|naive_solver]. destruct (kw a "xx"); [by intros; eapply IH|].
  destruct (kw a "return").
  - destruct (fo_ret fo); [done|]. destruct (retLoop _ _ _ _ _) as [[]|]; [|done].
    cbn [rbind]. intros E Hf. by eapply IH.
  - destruct (args !! (i + 1)%nat); [|done]. destruct (isReservedFieldName a); [done|].
    intros E Hf. eapply IH; [done|]. apply Forall_app. split; [done|].
    constructor; [apply ValueOf_canonical|constructor].
Qed.

Definition parseFSET msg : result failure fsetOpts :=
  fsetLoop (length (Args msg)) (Args msg) 3 (mkFsetOpts [] false false (mkRetOpts false KObject 0)).

(** The object FSET stores, with the number of changes. *)
Definition fsetObject o (fo : fsetOpts) : Obj * Z :=
  let '(fs, n) := fsetFields (Fields o) (fo_fields fo) in
  (Object.New (ID o) (Geo o) (Expires o) fs, n).

Definition fsetReply msg ck (fo : fsetOpts) (obj : option Obj) (n : Z) : result failure respValue :=
  if fo_ret fo then
    match obj with
    | None => Err NilDeref
    | Some obj =>
      let ro := fo_opts fo in
      Ok (buildObjectResponse msg obj ck (ro_kind ro) (ro_precision ro) (ro_withfields ro))
    end
  else Ok (reply3 msg (ok_JSON ck) (RInt n)).

Lemma cmdFSET_eq s msg ck cmd key id a b rest fo :
  server_ok s -> oom s = false -> Args msg = cmd :: key :: id :: a :: b :: rest ->
  parseFSET msg = Ok fo ->
  cmdFSET s msg ck =
  match sm_get (cols s) key with
  | None => (s, Err errKeyNotFound)
  | Some c =>
    match Get c id with
    | None =>
      (s, if fo_xx fo then rbind (fsetReply msg ck fo None 0) (fun v => Ok (v, noDetails))
          else Err errIDNotFound)
    | Some o =>
      let '(obj, n) := fsetObject o fo in
      (set_col s key (Set_ c obj).1,
       rbind (fsetReply msg ck fo (Some obj) n) (fun v =>
         Ok (v, single (mkDetail "fset" key "" (Some obj) None (0 <? n) (c_now ck)))))
    end
  end.
Proof.
  intros Hok Ho Ha Hp. unfold cmdFSET. unfold parseFSET in Hp. rewrite Ho, Ha in *. rewrite Hp.
  destruct (sm_get (cols s) key) as [c|] eqn:Ec; [|done].
  destruct (Get c id) as [o|] eqn:Eo.
  - destruct (db_ok s key id o Hok) as [Hid _]; [unfold db; by rewrite Ec|].
    unfold fsetObject. rewrite Hid. destruct (fsetFields (Fields o) (fo_fields fo)) as [fs n].
    unfold fsetReply. by destruct (fo_ret fo).
  - unfold fsetReply. by destruct (fo_xx fo), (fo_ret fo).
Qed.

(** FSET on an object that exists rewrites its fields as given, one after the other,
    skipping those that compare equal, and reports how many changed; geometry, expiration
    and all other objects stay. On a missing key or id it fails or, with XX, does
    nothing. *)
Lemma cmdFSET_spec s msg ck cmd key id a b rest fo :
  server_ok s -> oom s = false -> Args msg = cmd :: key :: id :: a :: b :: rest ->
  parseFSET msg = Ok fo ->
  let '(s', r) := cmdFSET s msg ck in
  server_ok s' /\
  match db s key id with
  | None =>
    s' = s /\ r = (if is_some (sm_get (cols s) key) then
                     if fo_xx fo then rbind (fsetReply msg ck fo None 0) (fun v => Ok (v, noDetails))
                     else Err errIDNotFound
                   else Err errKeyNotFound)
  | Some o =>
    let '(obj, n) := fsetObject o fo in
    (forall k i, db s' k i = if (key =s k) && (id =s i) then Some obj else db s k i) /\
    r = rbind (fsetReply msg ck fo (Some obj) n) (fun v =>
          Ok (v, single (mkDetail "fset" key "" (Some obj) None (0 <? n) (c_now ck))))
  end.
Proof.
  intros Hok Ho Ha Hp. rewrite (cmdFSET_eq _ _ _ _ _ _ _ _ _ _ Hok Ho Ha Hp).
  unfold db at 1. destruct (sm_get (cols s) key) as [c|] eqn:Ec; [|done].
  destruct (Get c id) as [o|] eqn:Eo; [|done].
  assert (db s key id = Some o) as Hdb by (unfold db; by rewrite Ec).
  destruct (db_ok s key id o Hok Hdb) as [Hid Hg].
  assert (fields_ok (Fields (fsetObject o fo).1)) as Hf.
  { destruct (fsetFields_ok (Fields o) (fo_fields fo)) as (F1 & _).
    - by eapply sk_fields.
    - eapply fsetLoop_fields; [exact Hp|constructor].
    - unfold fsetObject. by destruct (fsetFields _ _). }
  assert (obj_ok (fsetObject o fo).1 = true /\ ID (fsetObject o fo).1 = id) as [Hobj Hid'].
  { unfold fsetObject. by destruct (fsetFields _ _). }
  destruct (fsetObject o fo) as [obj n]. cbn [fst] in *.
  split_and!; [by apply set_obj_ok| |done]. intros k i.
  by rewrite (db_set_obj _ _ c), Hid'.
Qed.

(** ** Reading back *)

(** GET after SET: a SET that is not excluded is what GET of the same key and id shows,
    in any of the forms GET offers. *)
Theorem SET_GET s msg ck cmd key id rest so g cmd' opts out ck' wf kind prec :
  server_ok s -> oom s = false -> Args msg = cmd :: key :: id :: rest ->
  parseSET msg ck = Ok so -> so_obj so = Some g -> geom_ok g = true ->
  setBlocked s key id so = false -> getArgs opts false KObject 0 = Ok (wf, kind, prec) ->
  let msg' := mkMessage (cmd' :: key :: id :: opts) out None in
  cmdGET (cmdSET s msg ck).1 msg' ck' =
    Ok (buildObjectResponse msg' (setObject s key id so g) ck' kind prec wf).
Proof.
  intros Hok Ho Ha Hp Hs Hg Hb Hget msg'.
  destruct (cmdSET_db s msg ck cmd key id rest so g Hok Ho Ha Hp Hs Hg) as (S1 & S2 & _).
  unfold cmdGET. cbn [Args msg']. rewrite Hget. cbn [rbind].
  assert (findObject (cmdSET s msg ck).1 key id = Ok (setObject s key id so g)) as ->; [|done].
  apply findObject_db. rewrite S2, Hb, !String.eqb_refl. done.
Qed.

Lemma canonical_zero v : canonical v -> IsZero v = true -> Equals ZeroValue v = true.
Proof.
  intros [Hk Hc] Hz. unfold IsZero, value_eqb in Hz. do 2 boolify.
  destruct Hz as [[[Ek Ed] En]|[[Ek Ed] _]].
  - unfold Equals, Less, LessCase. rewrite Ek. simpl. unfold f64_eq in En.
    assert (f64_lt f64_zero (num v) = false /\ f64_lt (num v) f64_zero = false) as [-> ->]; [|done].
    destruct (num v) as [[]|[]| |[]]; done.
  - rewrite Hc, Ek in Ed. done.
Qed.

Lemma Equals_refl v : Equals v v = true.
Proof. unfold Equals, Less. by rewrite LessCase_irrefl. Qed.

(** Getting a plain name after an update of FSET. *)
Lemma fl_get_fset fs f :
  fields_ok fs -> canonical (value f) -> split_dot (name f) = None ->
  Equals (value (fl_get (fsetFields fs [f]).1 (name f))) (value f) = true.
Proof.
  intros Hf Hc Hd. rewrite fsetFields_cons.
  destruct (Equals (value (fl_get fs (name f))) (value f)) eqn:E; [done|]. cbn.
  rewrite fl_get_find by (done || by apply fl_set_ok). rewrite fl_find_set by apply Hf.
  rewrite String.eqb_refl. destruct (IsZero (value f)) eqn:Ez; [by apply canonical_zero|].
  rewrite fl_get_find in E by done. destruct (fl_find fs (name f)) as [g|]; simpl in *.
  - by rewrite E, Equals_refl.
  - apply Equals_refl.
Qed.

(** FGET after FSET: the value read compares equal to the value written, whatever the
    field held before and even where FSET stores nothing. *)
Theorem FSET_FGET s key id nm v o cmd out ck cmd' ck' :
  server_ok s -> oom s = false -> db s key id = Some o ->
  kw nm "xx" = false -> kw nm "return" = false -> isReservedFieldName nm = false ->
  TrimSpace nm = nm -> split_dot nm = None ->
  let s' := (cmdFSET s (mkMessage [cmd; key; id; nm; v] out None) ck).1 in
  exists w, cmdFGET s' (mkMessage [cmd'; key; id; nm] OutRESP None) ck' = Ok (RString (data w)) /\
    Equals w (ValueOf v) = true.
Proof.
  intros Hok Ho Hdb Hxx Hret Hres Htrim Hdot s'. subst s'.
  set (f := Make nm v). set (fo := mkFsetOpts [f] false false (mkRetOpts false KObject 0)).
  assert (parseFSET (mkMessage [cmd; key; id; nm; v] out None) = Ok fo) as Hp.
  { unfold parseFSET. cbn. by rewrite Hxx, Hret, Hres. }
  rewrite (cmdFSET_eq s (mkMessage [cmd; key; id; nm; v] out None) ck cmd key id nm v [] fo Hok Ho eq_refl Hp).
  pose proof Hdb as Hdb'. unfold db in Hdb'. destruct (sm_get (cols s) key) as [c|] eqn:Ec; [|done].
  rewrite Hdb'. destruct (db_ok s key id o Hok Hdb) as [Hid _]. subst id.
  assert (name f = nm) as Hnm by done.
  exists (value (fl_get (fsetFields (Fields o) [f]).1 nm)). split.
  - unfold fsetObject. cbn [fo_fields fo]. destruct (fsetFields (Fields o) [f]) as [fs n].
    cbn [fst]. unfold cmdFGET. cbn [Args OutputType].
    assert (findObject (set_col s key (Set_ c (Object.New (ID o) (Geo o) (Expires o) fs)).1) key (ID o) =
      Ok (Object.New (ID o) (Geo o) (Expires o) fs)) as ->; [|done].
    apply findObject_db. rewrite (db_set_obj _ _ c) by done. by rewrite !String.eqb_refl.
  - rewrite <- Hnm at 1. apply (fl_get_fset (Fields o) f); [by eapply sk_fields|apply ValueOf_canonical|].
    by rewrite Hnm.
Qed.

(** ** EXPIRE and PERSIST *)

(** An object with another expiration. *)
Definition with_expiry o (ex : Z) : Obj := Object.New (ID o) (Geo o) ex (Fields o).

Lemma set_expiry_ok s key c o ex :
  server_ok s -> sm_get (cols s) key = Some c -> Get c (ID o) = Some o ->
  server_ok (set_col s key (Set_ c (with_expiry o ex)).1).
Proof.
  intros Hok Ec Ho. assert (db s key (ID o) = Some o) as Hdb by (unfold db; by rewrite Ec).
  apply set_obj_ok; [done|done| |exact (sk_fields _ Hok _ _ _ Hdb)].
  by destruct (db_ok s key (ID o) o Hok Hdb).
Qed.

(** EXPIRE and PERSIST change the expiration of the object they name and nothing else,
    and say in the details handed to log and fences whether they did; PERSIST touches
    only an object that has an expiration. *)
Lemma expire_persist_spec s key id cmd sv v out ck :
  server_ok s -> parseFloat sv = Ok v ->
  let m1 := mkMessage [cmd; key; id; sv] out None in
  let m2 := mkMessage [cmd; key; id] out None in
  let '(s1, r1) := cmdEXPIRE s m1 ck in
  let '(s2, r2) := cmdPERSIST s m2 ck in
  server_ok s1 /\ server_ok s2 /\
  match db s key id with
  | None =>
    s1 = s /\ s2 = s /\
    (forall v d, r1 = Ok (v, d) -> d_updated (detail d) = false) /\
    (forall v d, r2 = Ok (v, d) -> d_updated (detail d) = false)
  | Some o =>
    let o1 := with_expiry o (expiry (c_now ck) v) in
    (forall k i, db s1 k i = if (key =s k) && (id =s i) then Some o1 else db s k i) /\
    (forall k i, db s2 k i = if (key =s k) && (id =s i) then Some (with_expiry o 0) else db s k i) /\
    (exists v d, r1 = Ok (v, d) /\ d_updated (detail d) = true /\ d_obj (detail d) = Some o1) /\
    (exists v d, r2 = Ok (v, d) /\ d_updated (detail d) = negb (Expires o =? 0))
  end.
Proof.
  intros Hok Hv m1 m2. unfold cmdEXPIRE, cmdPERSIST. cbn [Args m1 m2]. rewrite Hv.
  unfold findObject, db at 1. destruct (sm_get (cols s) key) as [c|] eqn:Ec.
  2:{ destruct out; split_and!; naive_solver. }
  destruct (Get c id) as [o|] eqn:Eo.
  2:{ destruct out; split_and!; naive_solver. }
  assert (db s key id = Some o) as Hdb by (unfold db; by rewrite Ec).
  destruct (db_ok s key id o Hok Hdb) as [Hid _]. subst id.
  fold (with_expiry o (expiry (c_now ck) v)). fold (with_expiry o 0).
  split; [by apply set_expiry_ok|]. split; [|split_and!].
  - destruct (negb (Expires o =? 0)); [by apply set_expiry_ok|done].
  - intros k i. by rewrite (db_set_obj _ _ c).
  - intros k i. destruct (Z.eqb_spec (Expires o) 0) as [Ez|Ez]; cbn [negb].
    + destruct ((key =s k) && (ID o =s i)) eqn:E; [|done]. boolify. destruct E as [<- <-].
      rewrite Hdb. unfold with_expiry. rewrite <- Ez. by destruct o.
    + by rewrite (db_set_obj _ _ c).
  - eauto.
  - eauto.
Qed.
End facts.

(** ** Witnesses *)
Module CrudExample.
Import ExampleWorld.
#[local] Existing Instance world.
#[local] Existing Instance world_laws.

Definition ck : clock := mkClock 1000 2000 "1ms".
Definition ask (args : list string) : Message := mkMessage args OutRESP None.

(** [SET fleet truck FIELD speed 5 POINT 1 2] and [SET fleet bus NX STRING hi] *)
Definition setTruck : Message := ask ["SET"; "fleet"; "truck"; "FIELD"; "speed"; "5"; "POINT"; "1"; "2"].
Definition setBus : Message := ask ["set"; "fleet"; "bus"; "NX"; "STRING"; "hi"].

Definition opts_of (m : Message) : setOpts :=
  match parseSET m ck with Ok so => so | Err _ => noSetOpts end.
Definition geom_of (m : Message) : geometry Rect :=
  match so_obj (opts_of m) with Some g => g | None => Str "" end.

Definition s0 : Server := newServer 0.
Definition s1 : Server := (cmdSET s0 setTruck ck).1.
Definition s2 : Server := (cmdSET s1 setBus ck).1.

Lemma setTruck_parse : parseSET setTruck ck = Ok (opts_of setTruck).
Proof. reflexivity. Qed.
Lemma setTruck_obj : so_obj (opts_of setTruck) = Some (geom_of setTruck).
Proof. reflexivity. Qed.
Lemma setTruck_geom : geom_ok (geom_of setTruck) = true.
Proof. by vm_compute. Qed.

Lemma s1_ok : server_ok s1.
Proof.
  destruct (cmdSET_db s0 setTruck ck "SET" "fleet" "truck"
    ["FIELD"; "speed"; "5"; "POINT"; "1"; "2"] (opts_of setTruck) (geom_of setTruck)) as (Hok & _);
    [apply newServer_ok|reflexivity|reflexivity|apply setTruck_parse|apply setTruck_obj|
     apply setTruck_geom|exact Hok].
Qed.
Lemma s2_ok : server_ok s2.
Proof.
  destruct (cmdSET_db s1 setBus ck "set" "fleet" "bus"
    ["NX"; "STRING"; "hi"] (opts_of setBus) (geom_of setBus)) as (Hok & _);
    [apply s1_ok|reflexivity|reflexivity|reflexivity|reflexivity|reflexivity|exact Hok].
Qed.

Definition setNothing : Message := ask ["set"; "fleet"; "bus"; "FIELD"; "speed"].

Lemma cmdSET_spec_witness :
  (cmdSET s1 setBus ck).2 = setReply_ s1 setBus ck "fleet" "bus" (opts_of setBus) (geom_of setBus) /\
  db (cmdSET s1 setBus ck).1 "fleet" "bus" =
    Some (setObject s1 "fleet" "bus" (opts_of setBus) (geom_of setBus)) /\
  cmdSET s1 setNothing ck = (s1, Err errInvalidNumberOfArguments).
Proof.
  destruct (cmdSET_spec s1 setBus ck s1_ok) as (_ & _ & Hs).
  destruct (Hs "set" "fleet" "bus" ["NX"; "STRING"; "hi"] eq_refl eq_refl eq_refl) as (_ & Hd & Hr & _).
  destruct (cmdSET_spec s1 setNothing ck s1_ok) as (_ & _ & He).
  split; [exact Hr|]. split; [exact (Hd "fleet" "bus")|].
  exact (He "set" "fleet" "bus" ["FIELD"; "speed"] eq_refl eq_refl).
Defined.

Lemma cmdDEL_spec_witness :
  let '(s', r) := cmdDEL s2 (ask ["DEL"; "fleet"; "truck"; "erron404"]) ck in server_ok s'.
Proof.
  pose proof (cmdDEL_spec s2 (ask ["DEL"; "fleet"; "truck"; "erron404"]) ck "DEL" "fleet" "truck"
    ["erron404"] true s2_ok eq_refl eq_refl) as Hd.
  destruct (cmdDEL s2 _ ck) as [s' r]. destruct Hd as [Hok _]. exact Hok.
Defined.

Lemma cmdPDEL_spec_witness :
  let '(s', r) := cmdPDEL s2 (ask ["PDEL"; "fleet"; "tr*"]) ck in server_ok s'.
Proof.
  pose proof (cmdPDEL_spec s2 "PDEL" "fleet" "tr*" OutRESP ck s2_ok) as Hd. cbv zeta in Hd.
  unfold ask. destruct (cmdPDEL s2 _ ck) as [s' r]. destruct Hd as [Hok _]; [|exact Hok].
  apply (bool_decide_unpack _). by vm_compute.
Defined.

Lemma cmdRENAME_spec_witness :
  let '(s', r) := cmdRENAME s2 (ask ["RENAMENX"; "fleet"; "depot"]) ck in server_ok s'.
Proof.
  pose proof (cmdRENAME_spec s2 "RENAMENX" "fleet" "depot" OutRESP ck s2_ok) as Hd. cbv zeta in Hd.
  unfold ask. destruct (cmdRENAME s2 _ ck) as [s' r]. destruct Hd as [Hok _]. exact Hok.
Defined.

Definition fsetTruck : Message := ask ["FSET"; "fleet"; "truck"; "xx"; "speed"; "9"].
Definition fopts : fsetOpts :=
  match parseFSET fsetTruck with Ok fo => fo | Err _ => mkFsetOpts [] false false (mkRetOpts false KObject 0) end.

Lemma cmdFSET_spec_witness :
  let '(s', r) := cmdFSET s2 fsetTruck ck in server_ok s'.
Proof.
  pose proof (cmdFSET_spec s2 fsetTruck ck "FSET" "fleet" "truck" "xx" "speed" ["9"] fopts
    s2_ok eq_refl eq_refl eq_refl) as Hd.
  destruct (cmdFSET s2 _ ck) as [s' r]. destruct Hd as [Hok _]. exact Hok.
Defined.

Lemma SET_GET_witness :
  cmdGET (cmdSET s0 setTruck ck).1 (mkMessage ["GET"; "fleet"; "truck"; "WITHFIELDS"; "POINT"] OutJSON None) ck =
  Ok (buildObjectResponse (mkMessage ["GET"; "fleet"; "truck"; "WITHFIELDS"; "POINT"] OutJSON None)
        (setObject s0 "fleet" "truck" (opts_of setTruck) (geom_of setTruck)) ck KPoint 0 true).
Proof.
  apply (SET_GET s0 setTruck ck "SET" "fleet" "truck" ["FIELD"; "speed"; "5"; "POINT"; "1"; "2"]
    (opts_of setTruck) (geom_of setTruck) "GET" ["WITHFIELDS"; "POINT"] OutJSON ck true KPoint 0);
    [apply newServer_ok|reflexivity|reflexivity|apply setTruck_parse|apply setTruck_obj|
     apply setTruck_geom|reflexivity|reflexivity].
Defined.

Definition truckObj : Object Rect := setObject s0 "fleet" "truck" (opts_of setTruck) (geom_of setTruck).
Lemma truck_in : db s1 "fleet" "truck" = Some truckObj.
Proof. reflexivity. Qed.

Lemma FSET_FGET_witness :
  let s' := (cmdFSET s1 (mkMessage ["FSET"; "fleet"; "truck"; "speed"; "9"] OutRESP None) ck).1 in
  exists w, cmdFGET s' (mkMessage ["FGET"; "fleet"; "truck"; "speed"] OutRESP None) ck = Ok (RString (data w)) /\
    Equals w (ValueOf "9") = true.
Proof.
  apply (FSET_FGET s1 "fleet" "truck" "speed" "9" truckObj "FSET" OutRESP ck "FGET" ck s1_ok);
    [reflexivity|apply truck_in|reflexivity|reflexivity|reflexivity|reflexivity|reflexivity].
Defined.

Lemma expire_persist_spec_witness :
  let '(s1', r1) := cmdEXPIRE s1 (mkMessage ["EXPIRE"; "fleet"; "truck"; "10"] OutRESP None) ck in
  server_ok s1'.
Proof.
  pose proof (expire_persist_spec s1 "fleet" "truck" "EXPIRE" "10" (f64_of_Z 10) OutRESP ck s1_ok) as Hd.
  cbv zeta in Hd. destruct (cmdEXPIRE s1 _ ck) as [s1' r1]. destruct (cmdPERSIST s1 _ ck) as [s2' r2].
  destruct Hd as [Hok _]; [reflexivity|exact Hok].
Defined.

End CrudExample.
