(* ===== verification/JsonCmd.v ===== *)
(** * JSON documents ([cmdJget], [cmdJset], [cmdJdel] of [src/internal/legacy/server/json.go])

    JGET reads a path of the text of an object, JSET and JDEL rewrite it. The path
    operations are those of the imported [gjson] and [sjson] packages. An object with a
    geometry is rewritten through SET; anything else becomes a string object. *)

From Stdlib Require Import Ascii String ZArith Lia Bool SpecFloat.
From stdpp Require Import base list strings option sorting sets gmap.
From S2P Require Import Prelude GoStd Strconv Json Containers Field FieldList FieldBinary Geo.
From S2P Require Import Object Collection CollectionScan Group World Hooks Crud CrudFacts.

Local Open Scope Z_scope.

Section json.
Context `{World}.
Implicit Types (s : Server) (msg : Message) (ck : clock).

(** The options after the id: path, and whether the raw text is wanted. *)
Definition jgetArgs (opts : list string) : result failure (option string * bool) :=
  match opts with
  | [] => Ok (None, false)
  | [path] => Ok (Some path, false)
  | [path; r] => if kw r "raw" then Ok (Some path, true) else Err (errInvalidArgument r)
  | _ => Err errInvalidNumberOfArguments
  end.

Definition cmdJget s msg ck : rresult :=
  match Args msg with
  | _ :: key :: id :: opts =>
    let? (path, raw) := jgetArgs opts in
    match findObject s key id with
    | Err e => if is_RESP (OutputType msg) then Ok RNull else Err e
    | Ok o =>
      let text := StringOf (Geo o) in
      let res := match path with Some p => gjson_result text p | None => gjson_parse text end in
      let val := (fun r : string * string => if raw then r.2 else r.1) <$> res in
      match OutputType msg with
      | OutJSON =>
        Ok (RString (js "{'ok':true" +:+
          match val with Some v => js ",'value':" +:+ jsonString v | None => "" end +:+ elapsed ck))
      | OutRESP => Ok (match val with Some v => RString v | None => RNull end)
      | OutOther => Ok NOMessage
      end
    end
  | _ => Err errInvalidNumberOfArguments
  end.

(** Whether the value is set as raw JSON: by the last argument, or by its look. *)
Definition jsetRaw (opts : list string) (val : string) : result failure bool :=
  match opts with
  | [] => Ok ((val =s "true") || (val =s "false") || (val =s "null") || isJSONNumber val)
  | [o] => if kw o "raw" then Ok true else if kw o "str" then Ok false else Err (errInvalidArgument o)
  | _ => Err errInvalidNumberOfArguments
  end.

(** The text of an object and its fields, and whether it has a geometry. *)
Definition docOf (o : option (Object wG)) : bool * string * list Field :=
  match o with
  | Some o => (IsSpatial (Geo o), StringOf (Geo o), Fields o)
  | None => (false, "", [])
  end.

Definition jsonDone s msg ck (key id json : string) (fields : list Field)
    (col : Collection wG wM wT wR) (resp : respValue) : wresult :=
  let obj := Object.New id (Str json) 0 fields in
  let s := set_col s key (Set_ col obj).1 in
  (s, Ok (match OutputType msg with OutJSON => ok_JSON ck | OutRESP => resp | OutOther => NOMessage end,
          single (mkDetail "" key "" (Some obj) None true (c_now ck)))).

(** [SET key id OBJECT json] in place of the command. *)
Definition setObjectJSON s msg ck (key id json : string) : wresult :=
  cmdSET s (mkMessage ["SET"; key; id; "OBJECT"; json] (OutputType msg) (Deadline_ msg)) ck.

Definition cmdJset s msg ck : wresult :=
  match Args msg with
  | _ :: key :: id :: path :: val :: opts =>
    match jsetRaw opts val with
    | Err e => (s, Err e)
    | Ok raw =>
      let '(createcol, col) := match sm_get (cols s) key with
                               | Some col => (false, col)
                               | None => (true, New)
                               end in
      let '(geoobj, json, fields) := docOf (Get col id) in
      match (if raw then sjson_SetRaw json path val else sjson_Set json path val) with
      | Err e => (s, Err (Error e))
      | Ok json =>
        if (geoobj : bool) then setObjectJSON s msg ck key id json
        else jsonDone (if (createcol : bool) then set_col s key col else s) msg ck key id json fields
               col (RSimple "OK")
      end
    end
  | _ => (s, Err errInvalidNumberOfArguments)
  end.

Definition cmdJdel s msg ck : wresult :=
  match Args msg with
  | [_; key; id; path] =>
    match sm_get (cols s) key with
    | None => if is_RESP (OutputType msg) then (s, Ok (RInt 0, noDetails)) else (s, Err errKeyNotFound)
    | Some col =>
      let '(geoobj, json, fields) := docOf (Get col id) in
      match sjson_Delete json path with
      | Err e => (s, Err (Error e))
      | Ok njson =>
        if njson =s json then
          match OutputType msg with
          | OutJSON => (s, Err errPathNotFound)
          | OutRESP => (s, Ok (RInt 0, noDetails))
          | OutOther => (s, Ok (NOMessage, noDetails))
          end
        else if (geoobj : bool) then setObjectJSON s msg ck key id njson
        else jsonDone s msg ck key id njson fields col (RInt 1)
      end
    end
  | _ => (s, Err errInvalidNumberOfArguments)
  end.
End json.

(** ** What they do *)

Section facts.
Context `{WorldLaws}.
Implicit Types (s : Server) (msg : Message) (ck : clock).

Lemma setObjectJSON_eq s msg ck key id json :
  setObjectJSON s msg ck key id json =
  if oom s then (s, Err errOOM)
  else match geo_Parse json with
       | Err e => (s, Err (Error e))
       | Ok g => setOp s (mkMessage ["SET"; key; id; "OBJECT"; json] (OutputType msg) (Deadline_ msg))
                   ck key id (so_with_obj noSetOpts (Geom g)) (Geom g)
       end.
Proof.
  unfold setObjectJSON, cmdSET. destruct (oom s); [done|]. cbn -[setOp].
  by destruct (geo_Parse json).
Qed.

(** A document stored as a string. *)
Lemma jsonDone_spec s msg ck key id json fields col resp :
  server_ok s -> (forall c, sm_get (cols s) key = Some c -> c = col) ->
  (sm_get (cols s) key = None -> col = New) -> fields_ok fields ->
  let s' := (jsonDone (if is_some (sm_get (cols s) key) then s else set_col s key col)
               msg ck key id json fields col resp).1 in
  server_ok s' /\
  (forall k i, db s' k i =
    if (key =s k) && (id =s i) then Some (Object.New id (Str json) 0 fields) else db s k i) /\
  hooks s' = hooks s /\ grps s' = grps s.
Proof.
  intros Hok Hc1 Hc2 Hf s'. subst s'. unfold jsonDone. cbn [fst].
  set (o := Object.New id (Str json) 0 fields).
  destruct (sm_get (cols s) key) as [c|] eqn:Ec; cbn [is_some].
  - rewrite <- (Hc1 c eq_refl). split_and!; [by apply set_obj_ok| |done..].
    intros k i. by rewrite (db_set_obj _ _ c).
  - rewrite (Hc2 eq_refl). split_and!; [| |done..].
    + apply set_col_twice; [done|apply Set_ok; [apply New_ok|done]|apply Set_count; [apply New_ok|done]|].
      apply Set_fields; [|done]. intros i x. by rewrite Get_New.
    + intros k i. rewrite !db_set_col, Get_Set_, Get_New.
      destruct (String.eqb_spec key k) as [<-|]; [|done]. unfold db. by rewrite Ec.
Qed.

(** The geometry a rewritten document gets. *)
Definition docGeom (geoobj : bool) (json : string) : option (geometry wG) :=
  if geoobj then match geo_Parse json with Ok g => Some (Geom g) | Err _ => None end
  else Some (Str json).

(** [db s'] is [db s] with one object replaced, and the rest of the state is untouched. *)
Definition stored s s' (key id : string) (o : Object wG) : Prop :=
  server_ok s' /\ (forall k i, db s' k i = if (key =s k) && (id =s i) then Some o else db s k i) /\
  hooks s' = hooks s /\ grps s' = grps s.

(** Both commands end alike: through SET for a geometry, else as a string. *)
Lemma rewrite_spec s msg ck key id json fields g col resp geoobj text :
  server_ok s -> oom s = false -> docOf (db s key id) = (geoobj, text, fields) ->
  docGeom geoobj json = Some g -> geom_ok g = true ->
  (forall c, sm_get (cols s) key = Some c -> c = col) -> (sm_get (cols s) key = None -> col = New) ->
  let r := if geoobj then setObjectJSON s msg ck key id json
           else jsonDone (if is_some (sm_get (cols s) key) then s else set_col s key col)
                  msg ck key id json fields col resp in
  stored s r.1 key id (Object.New id g 0 fields) /\
  exists v d, r.2 = Ok (v, d) /\ d_updated (detail d) = true /\ d_key (detail d) = key /\
    d_obj (detail d) = Some (Object.New id g 0 fields).
Proof.
  intros Hok Ho Hd Hg Hgo Hc1 Hc2 r. subst r. unfold docGeom in Hg. destruct geoobj.
  - destruct (geo_Parse json) as [g0|] eqn:Ep; [|done]. injection Hg as <-.
    rewrite setObjectJSON_eq, Ho, Ep.
    set (m := mkMessage _ _ _). set (so := so_with_obj noSetOpts (Geom g0)).
    destruct (setOp_spec s m ck key id so (Geom g0) Hok Hgo) as (S1 & S2 & S3 & S4); [constructor|].
    assert (setBlocked s key id so = false) as Hb by (unfold setBlocked; by destruct (db s key id)).
    assert (setObject s key id so (Geom g0) = Object.New id (Geom g0) 0 fields) as Eo.
    { unfold setObject, so. cbn. f_equal. unfold docOf in Hd. destruct (db s key id); naive_solver. }
    split; [split_and!; try done|].
    + intros k i. rewrite S2, Hb, Eo. done.
    + rewrite setOp_eq. cbn [snd]. unfold setReply_. rewrite Hb, Eo. eauto 10.
  - injection Hg as <-.
    destruct (jsonDone_spec s msg ck key id json fields col resp Hok Hc1 Hc2) as (S1 & S2 & S3 & S4).
    { unfold docOf in Hd. destruct (db s key id) as [o|] eqn:E; simplify_eq;
        [by eapply sk_fields|apply fields_nil_ok]. }
    split; [done|]. unfold jsonDone. cbn [snd]. eauto 10.
Qed.

Lemma docOf_col s key id :
  docOf (Get (match sm_get (cols s) key with Some c => c | None => New end) id) = docOf (db s key id).
Proof. unfold db. destruct (sm_get (cols s) key); [done|]. by rewrite Get_New. Qed.

(** JSET stores under the id the document with the path set, creating key and object
    as needed: a geometry again if the object had one, otherwise a string. JDEL stores
    the document with the path removed, and does nothing if there was none. Fields are
    kept and the expiration is cleared. *)
Lemma jset_jdel_spec s msg ck cmd key id path val opts raw text fields geoobj json g :
  server_ok s -> oom s = false -> docOf (db s key id) = (geoobj, text, fields) ->
  docGeom geoobj json = Some g -> geom_ok g = true ->
  (Args msg = cmd :: key :: id :: path :: val :: opts -> jsetRaw opts val = Ok raw ->
   (if raw then sjson_SetRaw text path val else sjson_Set text path val) = Ok json ->
   stored s (cmdJset s msg ck).1 key id (Object.New id g 0 fields) /\
   exists v d, (cmdJset s msg ck).2 = Ok (v, d) /\ d_updated (detail d) = true) /\
  (Args msg = [cmd; key; id; path] -> sjson_Delete text path = Ok json ->
   is_some (sm_get (cols s) key) = true ->
   if json =s text then (cmdJdel s msg ck).1 = s
   else stored s (cmdJdel s msg ck).1 key id (Object.New id g 0 fields) /\
     exists v d, (cmdJdel s msg ck).2 = Ok (v, d) /\ d_updated (detail d) = true).
Proof.
  intros Hok Ho Hd Hg Hgo. split.
  - intros Ha Hr Hs. unfold cmdJset. rewrite Ha, Hr.
    assert ((match sm_get (cols s) key with Some col => (false, col) | None => (true, New) end) =
      (negb (is_some (sm_get (cols s) key)), match sm_get (cols s) key with Some c => c | None => New end)) as ->.
    { by destruct (sm_get (cols s) key). }
    rewrite docOf_col, Hd, Hs.
    destruct (rewrite_spec s msg ck key id json fields g
      (match sm_get (cols s) key with Some c => c | None => New end) (RSimple "OK") geoobj text)
      as (R1 & v & d & R2 & R3 & _); try done.
    { intros c ->. done. } { intros ->. done. }
    destruct geoobj; [eauto|]. destruct (sm_get (cols s) key); eauto.
  - intros Ha Hs Hk. unfold cmdJdel. rewrite Ha.
    destruct (sm_get (cols s) key) as [c|] eqn:Ec; [|done].
    assert (docOf (Get c id) = (geoobj, text, fields)) as ->.
    { rewrite <- Hd. unfold db. by rewrite Ec. }
    rewrite Hs. destruct (json =s text); [by destruct (OutputType msg)|].
    destruct (rewrite_spec s msg ck key id json fields g c (RInt 1) geoobj text)
      as (R1 & v & d & R2 & R3 & _); try done.
    { rewrite Ec. congruence. } { by rewrite Ec. }
    rewrite Ec in R1, R2. destruct geoobj; eauto.
Qed.
End facts.

Module JsonExample.
Import ExampleWorld CrudExample.
#[local] Existing Instance world.
#[local] Existing Instance world_laws.

Lemma jset_jdel_spec_witness :
  stored s1 (cmdJset s1 (ask ["JSET"; "fleet"; "memo"; "a.b"; "17"]) ck).1 "fleet" "memo"
    (Object.New "memo" (Str "17") 0 []).
Proof.
  destruct (jset_jdel_spec s1 (ask ["JSET"; "fleet"; "memo"; "a.b"; "17"]) ck "JSET" "fleet" "memo"
    "a.b" "17" [] true "" [] false "17" (Str "17")) as [Hs _];
    [apply s1_ok|reflexivity|reflexivity|reflexivity|reflexivity|].
  destruct Hs as [Hst _]; [reflexivity|reflexivity|reflexivity|exact Hst].
Defined.
End JsonExample.
