(* ===== verification/Keys.v ===== *)
(** * KEYS and expiration ([src/internal/legacy/server/keys.go], [expire.go])

    KEYS lists the keys a pattern matches. The background task collects the objects and
    the hooks whose time has come and deletes them through DEL, DELHOOK and DELCHAN. *)

From Stdlib Require Import Ascii String ZArith Lia Bool SpecFloat.
From stdpp Require Import base list strings option sorting sets gmap.
From S2P Require Import Prelude GoStd Strconv Glob GlobFacts Json Containers Field FieldList.
From S2P Require Import FieldBinary Geo Object Collection CollectionScan Group World Hooks Crud.
From S2P Require Import CrudFacts.
Import Glob.

Local Open Scope Z_scope.

Section keys.
Context `{World}.
Implicit Types (s : Server) (msg : Message) (ck : clock).

(** The callback of both walks. *)
Definition keysIter {A} (pattern : string) (keys : list string) (kv : string * A)
    : list string * bool :=
  (if matches pattern kv.1 then keys ++ [kv.1] else keys, true).

Definition keysScan s (pattern : string) : list string :=
  let '(l0, l1) := Limits (Parse pattern false) in
  let everything := (l0 =s "") && (l1 =s "") in
  if everything then iter_while (keysIter pattern) [] (sm_items (cols s))
  else iter_while (fun keys kv => if l1 <s kv.1 then (keys, false) else keysIter pattern keys kv)
         [] (sm_ascend (cols s) l0).

Definition cmdKEYS s msg ck : rresult :=
  match Args msg with
  | [_; pattern] =>
    let keys := keysScan s pattern in
    if is_JSON (OutputType msg) then
      Ok (RString (js "{'ok':true,'keys':" +:+ "[" +:+ join (Marshal <$> keys) +:+ "]" +:+ elapsed ck))
    else Ok (RArray (RString <$> keys))
  | _ => Err errInvalidNumberOfArguments
  end.

(** ** Expiration *)

(** The objects that have expired at time [nano], as the DEL messages for them. *)
Definition expireIter (nano : Z) (key : string) (msgs : list Message) (o : Object wG)
    : list Message * bool :=
  if nano <? Expires o then (msgs, false)
  else (msgs ++ [mkMessage ["del"; key; ID o] OutOther None], true).

Definition expiredObjects s (nano : Z) : list Message :=
  iter_while (fun msgs (kv : string * Collection wG wM wT wR) =>
      (ScanExpires kv.2 (expireIter nano kv.1) msgs, true))
    [] (sm_items (cols s)).

(** [writeAOF]: what the log gets. *)
Definition writeAOF (log : list (list string)) (args : list string) (d : commandDetails)
    : list (list string) :=
  if negb (d_updated (detail d)) then log else log ++ [args].

(** The loops over the collected messages. [L] is what [writeAOF] writes to: the log and
    the hook queue; [write] is the call of [writeAOF], [None] where it returns an error,
    which only [queueHooks] does. [None] as the result stands for [log.Fatal]. *)
Definition runMsgs {L} (cmd : Server -> Message -> clock -> Server * result failure (respValue * commandDetails))
    (write : L -> list string -> commandDetails -> option L) ck (acc : option (Server * L)) msg
    : option (Server * L) :=
  match acc with
  | None => None
  | Some (s, log) =>
    match cmd s msg ck with
    | (_, Err _) => None
    | (s, Ok (_, d)) =>
      match write log (Args msg) d with
      | Some log => Some (s, log)
      | None => None
      end
    end
  end.

Definition backgroundExpireObjects {L} (write : L -> list string -> commandDetails -> option L)
    s (log : L) ck : option (Server * L) :=
  foldl (runMsgs cmdDEL write ck) (Some (s, log)) (expiredObjects s (c_start ck)).

Definition expiredHooks s (now : Z) : list Message :=
  iter_while (fun msgs (h : Hook wG) =>
      match h_expires h with
      | Some t =>
        if now <? t then (msgs, false)
        else (msgs ++ [mkMessage [if channel h then "delchan" else "delhook"; Name h] OutOther None], true)
      | None => (msgs ++ [mkMessage [if channel h then "delchan" else "delhook"; Name h] OutOther None], true)
      end)
    [] (bt_items (hookExpires s)).

Definition backgroundExpireHooks {L} (write : L -> list string -> commandDetails -> option L)
    s (log : L) ck : option (Server * L) :=
  foldl (runMsgs cmdDelHook write ck) (Some (s, log)) (expiredHooks s (c_start ck)).
End keys.

Section facts.
Context `{WorldLaws}.
Implicit Types (s : Server) (msg : Message) (ck : clock).

Lemma keysIter_all {A} p keys (l : list (string * A)) :
  iter_while (keysIter p) keys l = keys ++ (filter (fun kv => matches p kv.1 = true) l).*1.
Proof.
  rewrite iter_while_all by done. revert keys. induction l as [|kv l IH]; intros keys.
  { by rewrite app_nil_r. }
  cbn [foldl]. rewrite IH, filter_cons. unfold keysIter. cbn [fst].
  destruct (matches p kv.1); [|done]. rewrite <- app_assoc. done.
Qed.

Lemma keysScan_spec s p :
  rangeable p -> keysScan s p = (filter (fun kv => matches p kv.1 = true) (sm_items (cols s))).*1.
Proof.
  intros Hr. unfold keysScan.
  assert (forall k, matches p k = true -> let '(lo, hi) := Limits (Parse p false) in
    (lo = "" /\ hi = "") \/ ((k <s lo) = false /\ (k <s hi) = true)) as Hin.
  { intros k Hm%matches_Ok. by apply limits_asc. }
  destruct (Limits (Parse p false)) as [l0 l1].
  destruct ((l0 =s "") && (l1 =s "")) eqn:E; [by rewrite keysIter_all|].
  rewrite (iter_while_ext _ (fun keys kv =>
    if negb (l1 <s kv.1) then keysIter p keys kv else (keys, false))).
  2:{ intros x kv. by destruct (l1 <s kv.1). }
  rewrite (guarded_until (fun kv => negb (l1 <s kv.1)) (keysIter p)), keysIter_all. cbn [app].
  f_equal. rewrite until_filter.
  - unfold sm_ascend. rewrite !list_filter_filter. apply list_filter_iff'. intros kv _.
    split; [tauto|]. intros Hm.
    assert (negb (negb (l1 <s kv.1)) = false /\ (kv.1 <s l0) = false); [|tauto].
    rewrite negb_involutive. destruct (Hin _ Hm) as [[-> ->]|[H1 H2]]; [done|].
    by rewrite (str_ltb_asym _ _ H2).
  - apply sorted_filter. eapply sorted_impl; [|apply sm_sorted]. intros a b Hab.
    rewrite !negb_involutive. intros Ha. by apply (str_ltb_trans _ a.1).
Qed.

(** KEYS lists, in order, exactly the keys the pattern matches. *)
Theorem cmdKEYS_spec s cmd p ck :
  rangeable p ->
  cmdKEYS s (mkMessage [cmd; p] OutRESP None) ck =
    Ok (RArray (RString <$> (filter (fun kv => matches p kv.1 = true) (sm_items (cols s))).*1)).
Proof. intros Hr. unfold cmdKEYS. cbn [Args OutputType is_JSON]. by rewrite keysScan_spec. Qed.

(** ** Expiration *)

Definition delMsg (ki : string * string) : Message := mkMessage ["del"; ki.1; ki.2] OutOther None.

(** The expired ids of a collection, in the order of their times. *)
Definition expired_ids (nano : Z) (c : Collection wG wM wT wR) : list string :=
  ID <$> filter (fun o => (nano <? Expires o) = false) (bt_items (expires c)).

Lemma ScanExpires_msgs nano key c msgs :
  ScanExpires c (expireIter nano key) msgs =
  msgs ++ (delMsg <$> ((key,.) <$> expired_ids nano c)).
Proof.
  unfold ScanExpires. rewrite (iter_while_ext _ (fun msgs o =>
    if negb (nano <? Expires o) then (msgs ++ [delMsg (key, ID o)], true) else (msgs, false))).
  2:{ intros m o. unfold expireIter. by destruct (nano <? Expires o). }
  rewrite (guarded_until (fun o => negb (nano <? Expires o)) (fun msgs o => (msgs ++ [delMsg (key, ID o)], true))).
  unfold expired_ids. rewrite until_filter.
  - rewrite (list_filter_iff' (fun o => negb (negb (nano <? Expires o)) = false)
      (fun o => (nano <? Expires o) = false)) by (intros; by rewrite negb_involutive).
    rewrite iter_while_all by done. cbn [fst]. revert msgs.
    induction (filter _ (bt_items (expires c))) as [|o l IH]; intros msgs; cbn [foldl fmap list_fmap].
    { by rewrite app_nil_r. }
    rewrite IH, <- app_assoc. done.
  - eapply sorted_impl; [|apply (bt_sorted _ byExpires (expires c) _)]. intros a b Hab.
    rewrite !negb_involutive, !Z.ltb_lt. unfold byExpires in Hab.
    destruct (Z.ltb_spec (Expires a) (Expires b)); [lia|].
    destruct (Z.ltb_spec (Expires b) (Expires a)); [done|lia].
Qed.

Definition expired_pairs s (nano : Z) : list (string * string) :=
  flat_map (fun kv => (kv.1,.) <$> expired_ids nano kv.2) (sm_items (cols s)).

Lemma expiredObjects_msgs s nano : expiredObjects s nano = delMsg <$> expired_pairs s nano.
Proof.
  unfold expiredObjects, expired_pairs. rewrite iter_while_all by done. cbn [fst].
  change (delMsg <$> ?l) with ([] ++ (delMsg <$> l)). generalize (@nil Message).
  induction (sm_items (cols s)) as [|kv l IH]; intros msgs; cbn [foldl flat_map].
  { by rewrite app_nil_r. }
  rewrite IH, ScanExpires_msgs, fmap_app, app_assoc. done.
Qed.

(** An object whose time has come. *)
Definition is_expired (nano : Z) (o : Object wG) : bool :=
  negb (Expires o =? 0) && negb (nano <? Expires o).

Lemma elem_expired s nano k i :
  server_ok s ->
  (k, i) ∈ expired_pairs s nano <-> exists o, db s k i = Some o /\ is_expired nano o = true.
Proof.
  intros Hok. unfold expired_pairs, is_expired. rewrite list_elem_of_In, in_flat_map. split.
  - intros ([k' c] & Hin & Hki). apply list_elem_of_In in Hin, Hki.
    apply list_elem_of_fmap in Hki as (i' & [= <- <-] & Hi). cbn [fst snd] in *.
    apply list_elem_of_fmap in Hi as (o & -> & [Hn Ho]%list_elem_of_filter).
    apply sm_elem_items in Hin. destruct (sk_cols _ Hok _ _ Hin) as [Hc _].
    apply (ix_expires _ _ (ok_indexed _ Hc)) in Ho as [Ho Hz]. exists o.
    unfold db, Get. rewrite Hin. split; [by apply elem_of_all in Ho|].
    rewrite Hn. by rewrite (proj2 (Z.eqb_neq _ _)).
  - intros (o & Hdb & He). boolify. destruct He as [Hz Hn]. unfold db in Hdb.
    destruct (sm_get (cols s) k) as [c|] eqn:Ec; [|done]. exists (k, c).
    split; [by apply list_elem_of_In, sm_elem_items|]. apply list_elem_of_In, list_elem_of_fmap.
    exists i. split; [done|]. destruct (sk_cols _ Hok _ _ Ec) as [Hc _].
    pose proof (ok_keys _ Hc _ _ Hdb) as <-. apply list_elem_of_fmap. exists o. split; [done|].
    apply list_elem_of_filter. split; [by apply Z.ltb_ge|].
    apply (ix_expires _ _ (ok_indexed _ Hc)). split; [|done]. by apply elem_of_all.
Qed.

Lemma cmdDEL_plain s ki ck :
  server_ok s ->
  exists s' v d, cmdDEL s (delMsg ki) ck = (s', Ok (v, d)) /\ server_ok s' /\
  (forall k i, db s' k i = if (ki.1 =s k) && (ki.2 =s i) then None else db s k i) /\
  d_command (detail d) = "del" /\ d_key (detail d) = ki.1 /\ d_obj (detail d) = db s ki.1 ki.2 /\
  d_updated (detail d) = is_some (db s ki.1 ki.2).
Proof.
  intros Hok. destruct ki as [key id].
  rewrite (cmdDEL_eq s (delMsg (key, id)) ck "del" key id [] false eq_refl eq_refl).
  destruct (delOk_spec s key id Hok) as (D1 & D2 & D3 & _).
  assert (forall old, exists s' v d, delDone (delOk s key id) (delMsg (key, id)) ck key id old = (s', Ok (v, d)) /\
    server_ok s' /\ (forall k i, db s' k i = if (key =s k) && (id =s i) then None else db s k i) /\
    d_command (detail d) = "del" /\ d_key (detail d) = key /\ d_obj (detail d) = old /\
    d_updated (detail d) = is_some old) as Hd.
  { intros old. destruct (delDone_spec _ (delMsg (key, id)) ck key id old D1) as (E1 & E2 & _).
    unfold delDone in *. do 3 eexists. split; [reflexivity|]. split_and!; try done. }
  cbn [fst snd]. destruct (db s key id); apply Hd.
Qed.

Lemma flat_pairs_NoDup {A} (f : A -> list string) (l : list (string * A)) :
  NoDup l.*1 -> (forall kv, kv ∈ l -> NoDup (f kv.2)) ->
  NoDup (flat_map (fun kv => (kv.1,.) <$> f kv.2) l).
Proof.
  intros Hnd Hf. induction l as [|[k x] l IH]; [constructor|].
  cbn in Hnd. apply NoDup_cons in Hnd as [Hk Hnd]. cbn [flat_map fst snd]. apply NoDup_app. split_and!.
  - apply NoDup_fmap_2; [by intros ? ? [= ->]|]. apply (Hf (k, x)). by left.
  - intros [k' i] (i' & [= -> ->] & _)%list_elem_of_fmap Hin. apply Hk.
    apply list_elem_of_In, in_flat_map in Hin as ([k2 y] & Hin & Hi). apply list_elem_of_In in Hin, Hi.
    apply list_elem_of_fmap in Hi as (i2 & [= -> ->] & _). apply list_elem_of_fmap. by exists (k2, y).
  - apply IH; [done|]. intros kv Hkv. apply Hf. by right.
Qed.

Lemma expired_NoDup s nano : server_ok s -> NoDup (expired_pairs s nano).
Proof.
  intros Hok. unfold expired_pairs. apply (flat_pairs_NoDup (expired_ids nano)); [apply keys_NoDup|].
  intros [k c] Hin%sm_elem_items. destruct (sk_cols _ Hok _ _ Hin) as [Hc _]. cbn [snd].
  unfold expired_ids. apply NoDup_fmap_filter.
  assert (forall o, o ∈ bt_items (expires c) -> sm_get (objs c) (ID o) = Some o) as Hg.
  { intros o [Ho _]%(ix_expires _ _ (ok_indexed _ Hc)). by apply elem_of_all. }
  pose proof (bt_NoDup byExpires (expires c)) as Hnd. revert Hg Hnd.
  induction (bt_items (expires c)) as [|o l IH]; intros Hg Hnd; [constructor|].
  apply NoDup_cons in Hnd as [Ho Hnd]. cbn. constructor.
  - intros (o' & E & Ho')%list_elem_of_fmap. apply Ho.
    assert (Some o = Some o') as [= ->]; [|done].
    rewrite <- (Hg o) by by left. rewrite <- (Hg o') by by right. by rewrite E.
  - apply IH; [|done]. intros. apply Hg. by right.
Qed.

(** What [writeAOF] is given for an expired object. *)
Definition expiredDetails s (ki : string * string) (d : commandDetails) : Prop :=
  d_command (detail d) = "del" /\ d_key (detail d) = ki.1 /\ d_obj (detail d) = db s ki.1 ki.2 /\
  d_updated (detail d) = true.

Definition writes {L} (write : L -> list string -> commandDetails -> option L)
    (log : option L) (x : (string * string) * commandDetails) : option L :=
  log ≫= fun log => write log ["del"; x.1.1; x.1.2] x.2.

Lemma foldl_None {L A} (f : option L -> A -> option L) l :
  (forall a, f None a = None) -> foldl f None l = None.
Proof. intros Hf. induction l as [|a l IH]; cbn; [done|]. by rewrite Hf. Qed.

Lemma expire_fold s l ck :
  server_ok s -> NoDup l -> (forall k i, (k, i) ∈ l -> is_Some (db s k i)) ->
  exists s' ds, server_ok s' /\
  (forall k i, db s' k i = if bool_decide ((k, i) ∈ l) then None else db s k i) /\
  Forall2 (expiredDetails s) l ds /\
  forall L (write : L -> list string -> commandDetails -> option L) log,
    foldl (runMsgs cmdDEL write ck) (Some (s, log)) (delMsg <$> l) =
    (s',.) <$> foldl (writes write) (Some log) (zip l ds).
Proof.
  revert s. induction l as [|[key id] l IH]; intros s Hok Hnd Hl.
  { exists s, []. done. }
  apply NoDup_cons in Hnd as [Hx Hnd].
  destruct (cmdDEL_plain s (key, id) ck Hok) as (s1 & v & d & E & Hok1 & Hdb & Hd). cbn [fst snd] in Hdb.
  assert (forall k i, (k, i) ∈ l -> db s1 k i = db s k i) as Hsame.
  { intros k i Hin. rewrite Hdb.
    destruct (String.eqb_spec key k) as [<-|], (String.eqb_spec id i) as [<-|]; done. }
  destruct (IH s1 Hok1 Hnd) as (s' & ds & Hok' & Hdb' & Hds & Hrun).
  { intros k i Hin. rewrite Hsame by done. apply Hl. by right. }
  exists s', (d :: ds). split; [done|]. split; [|split].
  - intros k i. rewrite Hdb', Hdb. destruct (decide ((k, i) ∈ l)) as [Hin|Hin].
    { rewrite !bool_decide_eq_true_2 by (try apply elem_of_cons; auto). done. }
    rewrite (bool_decide_eq_false_2 ((k, i) ∈ l)) by done.
    destruct (String.eqb_spec key k) as [<-|Hk], (String.eqb_spec id i) as [<-|Hi]; cbn [andb];
      try (rewrite bool_decide_eq_false_2; [done|]; rewrite elem_of_cons; naive_solver).
    by rewrite bool_decide_eq_true_2 by (apply elem_of_cons; auto).
  - constructor.
    { destruct Hd as (D1 & D2 & D3 & D4). split_and!; [done..|]. rewrite D4.
      cbn [fst snd]. destruct (Hl key id ltac:(by left)) as [o ->]. done. }
    clear Hrun. assert (forall ki, ki ∈ l -> db s1 ki.1 ki.2 = db s ki.1 ki.2) as Hsame'.
    { intros [k i]. apply Hsame. }
    clear -Hds Hsame'. induction Hds as [|ki d' l ds Hk Hds IH]; constructor.
    + unfold expiredDetails in *. by rewrite <- Hsame' by by left.
    + apply IH. intros. apply Hsame'. by right.
  - intros L write log. cbn [foldl fmap list_fmap zip zip_with]. unfold runMsgs at 2. rewrite E.
    unfold writes at 2. cbn [mbind option_bind fst snd Args delMsg].
    destruct (write log ["del"; key; id] d) as [log1|]; [apply Hrun|].
    rewrite !foldl_None by done. done.
Qed.

Lemma writes_log l ds s log :
  Forall2 (expiredDetails s) l ds ->
  foldl (writes (fun log args d => Some (writeAOF log args d))) (Some log) (zip l ds) =
  Some (log ++ ((fun ki => ["del"; ki.1; ki.2]) <$> l)).
Proof.
  intros Hl. revert log. induction Hl as [|ki d l ds Hk Hl IH]; intros log; cbn; [by rewrite app_nil_r|].
  unfold writeAOF. destruct Hk as (_ & _ & _ & ->). cbn. by rewrite IH, <- app_assoc.
Qed.

(** C16. A round of background expiration deletes exactly the objects whose expiration is
    not later than the time of the round and keeps the server consistent. For each of them,
    once, it calls [writeAOF] with the DEL of the object and details that name the deleted
    object and are marked as updated, so that the log gets exactly these DELs, one for each;
    the round fails only when a call of [writeAOF] does, whatever [writeAOF] does. *)
Theorem backgroundExpireObjects_spec s ck :
  server_ok s ->
  exists s' gone ds, server_ok s' /\
  (forall k i, db s' k i =
    match db s k i with
    | Some o => if is_expired (c_start ck) o then None else Some o
    | None => None
    end) /\
  NoDup gone /\
  (forall k i, (k, i) ∈ gone <-> exists o, db s k i = Some o /\ is_expired (c_start ck) o = true) /\
  Forall2 (expiredDetails s) gone ds /\
  (forall L (write : L -> list string -> commandDetails -> option L) log,
    backgroundExpireObjects write s log ck =
    (s',.) <$> foldl (writes write) (Some log) (zip gone ds)) /\
  (forall log, backgroundExpireObjects (fun log args d => Some (writeAOF log args d)) s log ck =
    Some (s', log ++ ((fun ki => ["del"; ki.1; ki.2]) <$> gone))).
Proof.
  intros Hok. pose proof (fun k i => elem_expired s (c_start ck) k i Hok) as He.
  destruct (expire_fold s (expired_pairs s (c_start ck)) ck Hok) as (s' & ds & Hok' & Hdb & Hds & Hrun).
  { by apply expired_NoDup. }
  { intros k i (o & -> & _)%He. done. }
  exists s', (expired_pairs s (c_start ck)), ds. split; [done|]. split; [|split; [by apply expired_NoDup|]].
  { intros k i. rewrite Hdb. case_bool_decide as Hin.
    - apply He in Hin as (o & -> & ->). done.
    - destruct (db s k i) as [o|] eqn:Eo; [|done].
      destruct (is_expired (c_start ck) o) eqn:Ex; [|done]. destruct Hin. apply He. eauto. }
  split; [done|]. split; [done|]. unfold backgroundExpireObjects. rewrite expiredObjects_msgs.
  split; [done|]. intros log. rewrite Hrun, (writes_log _ _ s) by done. done.
Qed.
End facts.

Module KeysExample.
Import ExampleWorld CrudExample.
#[local] Existing Instance world.
#[local] Existing Instance world_laws.

Lemma cmdKEYS_spec_witness :
  cmdKEYS s2 (mkMessage ["KEYS"; "fl*"] OutRESP None) ck =
    Ok (RArray (RString <$> (filter (fun kv => matches "fl*" kv.1 = true) (sm_items (cols s2))).*1)).
Proof. apply (cmdKEYS_spec s2 "KEYS" "fl*" ck). apply (bool_decide_unpack _). by vm_compute. Defined.

(** [SET fleet van EX 1 STRING late], and a round two seconds after it. *)
Definition setVan : Message := ask ["SET"; "fleet"; "van"; "EX"; "1"; "STRING"; "late"].
Definition s3 : Server := (cmdSET s2 setVan ck).1.
Definition later : clock := mkClock 2000002000 2000003000 "1ms".

Lemma setVan_parse : parseSET setVan ck = Ok (opts_of setVan).
Proof.
  assert (match parseSET setVan ck with Ok _ => true | Err _ => false end = true) as E by by vm_compute.
  unfold opts_of. by destruct (parseSET setVan ck).
Qed.

Lemma s3_ok : server_ok s3.
Proof.
  destruct (cmdSET_db s2 setVan ck "SET" "fleet" "van"
    ["EX"; "1"; "STRING"; "late"] (opts_of setVan) (geom_of setVan)) as (Hok & _);
    [apply s2_ok|reflexivity|reflexivity|apply setVan_parse|reflexivity|reflexivity|exact Hok].
Qed.

Lemma backgroundExpireObjects_spec_witness :
  exists s', server_ok s' /\ db s' "fleet" "van" = None /\ db s' "fleet" "bus" = db s3 "fleet" "bus" /\
    is_some (db s3 "fleet" "van") = true /\ is_some (db s3 "fleet" "bus") = true /\
    backgroundExpireObjects (fun log args d => Some (writeAOF log args d)) s3 [["ping"]] later =
      Some (s', [["ping"]; ["del"; "fleet"; "van"]]).
Proof.
  destruct (backgroundExpireObjects_spec s3 later s3_ok)
    as (s' & gone & ds & Hok & Hdb & Hnd & Hgone & _ & _ & Hlog).
  exists s'. split; [exact Hok|]. split; [rewrite Hdb; by vm_compute|].
  split; [rewrite Hdb; by vm_compute|]. split; [by vm_compute|]. split; [by vm_compute|].
  specialize (Hlog [["ping"]]). rewrite Hlog.
  assert (snd <$> backgroundExpireObjects (fun log args d => Some (writeAOF log args d)) s3 [["ping"]] later =
    Some [["ping"]; ["del"; "fleet"; "van"]]) as E by by vm_compute.
  rewrite Hlog in E. injection E as ->. reflexivity.
Defined.
End KeysExample.
