(* ===== verification/Command.v ===== *)
(** * Command dispatch ([command] and [handleInputCommand] of [src/internal/legacy/server/server.go])

    [command] selects the handler by the lower-cased first argument. [handleInputCommand]
    puts in front of it the checks on the role of the server and behind it the write to
    the log, both by a fixed classification of the commands. *)

From Stdlib Require Import Ascii String ZArith Lia Bool SpecFloat.
From stdpp Require Import base list strings option sorting sets gmap.
From S2P Require Import Prelude GoStd Strconv Glob GlobFacts Json Containers Field FieldList.
From S2P Require Import FieldBinary Geo Object Collection CollectionScan Group World Hooks Crud.
From S2P Require Import CrudFacts JsonCmd Keys.

Local Open Scope Z_scope.

Section command.
Context `{World}.
Implicit Types (s : Server) (msg : Message) (ck : clock).

Definition reading s (r : rresult) : wresult := (s, rbind r (fun v => Ok (v, noDetails))).

(** The handlers modelled so far; [None] for a command that is not among them. *)
Definition command s msg ck : option wresult :=
  match Args msg with
  | [] => None
  | c :: _ =>
    let cmd w := kw c w in
    if cmd "set" then Some (cmdSET s msg ck)
    else if cmd "fset" then Some (cmdFSET s msg ck)
    else if cmd "del" then Some (cmdDEL s msg ck)
    else if cmd "pdel" then Some (cmdPDEL s msg ck)
    else if cmd "drop" then Some (cmdDROP s msg ck)
    else if cmd "flushdb" then Some (cmdFLUSHDB s msg ck)
    else if cmd "rename" || cmd "renamenx" then Some (cmdRENAME s msg ck)
    else if cmd "delhook" || cmd "delchan" then Some (cmdDelHook s msg ck)
    else if cmd "pdelhook" || cmd "pdelchan" then Some (cmdPDelHook s msg ck)
    else if cmd "expire" then Some (cmdEXPIRE s msg ck)
    else if cmd "persist" then Some (cmdPERSIST s msg ck)
    else if cmd "ttl" then Some (reading s (cmdTTL s msg ck))
    else if cmd "bounds" then Some (reading s (cmdBOUNDS s msg ck))
    else if cmd "get" then Some (reading s (cmdGET s msg ck))
    else if cmd "fget" then Some (reading s (cmdFGET s msg ck))
    else if cmd "jget" then Some (reading s (cmdJget s msg ck))
    else if cmd "jset" then Some (cmdJset s msg ck)
    else if cmd "jdel" then Some (cmdJdel s msg ck)
    else if cmd "type" then Some (reading s (cmdTYPE s msg ck))
    else if cmd "keys" then Some (reading s (cmdKEYS s msg ck))
    else if cmd "exists" then Some (reading s (cmdEXISTS s msg ck))
    else if cmd "fexists" then Some (reading s (cmdFEXISTS s msg ck))
    else None
  end.

(** The commands [handleInputCommand] takes the write lock for, refuses on a follower or a
    read-only server, and logs. *)
Definition isWrite (c : string) : bool :=
  existsb (kw c) ["set"; "del"; "drop"; "fset"; "flushdb"; "setchan"; "pdelchan"; "delchan";
    "sethook"; "pdelhook"; "delhook"; "expire"; "persist"; "jset"; "pdel"; "rename"; "renamenx"].

(** The commands that wait for a follower to have caught up once. *)
Definition isRead (c : string) : bool :=
  existsb (kw c) ["get"; "keys"; "scan"; "nearby"; "within"; "intersects"; "hooks"; "chans";
    "search"; "ttl"; "bounds"; "server"; "info"; "type"; "jget"; "evalro"; "evalrosha"; "role";
    "fget"; "exists"; "fexists"; "healthz"].

Record config := mkConfig { followHost : string; readOnly : bool; caughtUpOnce : bool }.

Definition handleInputCommand (cf : config) s (log : list (list string)) msg ck
    : option (Server * list (list string) * result failure respValue) :=
  match Args msg with
  | [] => None
  | c :: _ =>
    let write := isWrite c in
    if write && negb (followHost cf =s "") then Some (s, log, Err (Error "not the leader"))
    else if write && readOnly cf then Some (s, log, Err (Error "read only"))
    else if isRead c && negb (followHost cf =s "") && negb (caughtUpOnce cf) then
      Some (s, log, Err (Error "catching up to leader"))
    else if write && is_some (Deadline_ msg) then
      Some (s, log, Err (Error ("timeout not supported for '" +:+ default "" (ToLower c) +:+ "'")))
    else
      match command s msg ck with
      | None => None
      | Some (s, Err e) => Some (s, log, Err e)
      | Some (s, Ok (v, d)) => Some (s, if write then writeAOF log (Args msg) d else log, Ok v)
      end
  end.
End command.

(** JDEL is neither in the list of write commands nor in that of reads: whatever it does
    to the data set, the log stays as it was. *)
Lemma jdel_unlogged `{World} cf s log key id path out ck :
  handleInputCommand cf s log (mkMessage ["jdel"; key; id; path] out None) ck =
  match cmdJdel s (mkMessage ["jdel"; key; id; path] out None) ck with
  | (s', Ok (v, _)) => Some (s', log, Ok v)
  | (s', Err e) => Some (s', log, Err e)
  end.
Proof.
  unfold handleInputCommand, command. cbn -[cmdJdel]. by destruct (cmdJdel _ _ _) as [s' [[]|]].
Qed.

Module CommandExample.
Import ExampleWorld CrudExample.
#[local] Existing Instance world.
#[local] Existing Instance world_laws.

(** And it does change the data set. *)
Lemma jdel_changes :
  (StringOf ∘ Geo <$> db s2 "fleet" "bus") = Some "hi" /\
  (StringOf ∘ Geo <$> db (cmdJdel s2 (ask ["jdel"; "fleet"; "bus"; "a"]) ck).1 "fleet" "bus") = Some "".
Proof. split; by vm_compute. Qed.
End CommandExample.
