(* ===== verification/Dataset.v ===== *)
(** * The data set as a nested finite map

    The reference semantics of the write commands: a finite map from keys to finite maps
    from ids to a geometry and its fields, with none of the indexes, pointers, replies and
    expiration times of the server. [dataset] abstracts a server to it, [aexec] runs a
    command on it, and [command_refines] says that the handlers implement it. *)

From Stdlib Require Import Ascii String ZArith Lia Bool SpecFloat.
From stdpp Require Import base list strings option sorting sets gmap.
From S2P Require Import Prelude GoStd Strconv Glob GlobFacts Json Containers Field FieldList.
From S2P Require Import FieldBinary Geo Object Collection CollectionScan Group World Hooks Crud.
From S2P Require Import CrudFacts JsonCmd Keys Command.
Import Glob.

Local Open Scope Z_scope.

Section dataset.
Context `{World}.
Implicit Types (args : list string).

(** What a client can see of an object, its expiration apart. *)
Abbreviation aobj := (geometry wG * list Field)%type.
Abbreviation adb := (gmap string (gmap string aobj)).
Implicit Types (m : adb).

Definition aget m (key id : string) : option aobj := m !! key ≫= lookup id.
Definition aput m (key id : string) (x : aobj) : adb :=
  <[key := <[id := x]> (default ∅ (m !! key))]> m.

(** A key whose map has become empty goes away. *)
Definition store m (key : string) (c : gmap string aobj) : adb :=
  if decide (c = ∅) then delete key m else <[key := c]> m.
Definition aremove m (key : string) (f : string -> bool) : adb :=
  match m !! key with
  | None => m
  | Some c => store m key (filter (fun p => f p.1 = false) c)
  end.

(** Commands. A command that fails leaves the data set alone. *)

Definition aset m (key id : string) (so : setOpts) (g : geometry wG) : adb :=
  let old := aget m key id in
  if match old with Some _ => so_nx so | None => so_xx so end then m
  else aput m key id (g, foldl fl_set (match old with Some (_, fs) => fs | None => [] end) (so_fields so)).

Definition aSET m args : result failure adb :=
  match args with
  | _ :: key :: id :: _ =>
    let? so := setLoop (length args) args 0 3 noSetOpts in
    match so_obj so with
    | None => Err errInvalidNumberOfArguments
    | Some g => Ok (aset m key id so g)
    end
  | _ => Err errInvalidNumberOfArguments
  end.

Definition aFSET m args : result failure adb :=
  match args with
  | _ :: key :: id :: _ :: _ :: _ =>
    let? fo := fsetLoop (length args) args 3 (mkFsetOpts [] false false (mkRetOpts false KObject 0)) in
    match aget m key id with
    | Some (g, fs) => Ok (aput m key id (g, (fsetFields fs (fo_fields fo)).1))
    | None =>
      if is_some (m !! key) then
        if fo_xx fo then if fo_ret fo then Err NilDeref else Ok m else Err errIDNotFound
      else Err errKeyNotFound
    end
  | _ => Err errInvalidNumberOfArguments
  end.

Definition aDEL m args : result failure adb :=
  match args with
  | _ :: key :: id :: opts =>
    let? _ := delArgs opts false in Ok (aremove m key (fun i => id =s i))
  | _ => Err errInvalidNumberOfArguments
  end.

Definition aPDEL m args : result failure adb :=
  match args with
  | [_; key; pattern] => Ok (aremove m key (pdelSel pattern))
  | _ => Err errInvalidNumberOfArguments
  end.

Definition aDROP m args : result failure adb :=
  match args with
  | [_; key] => Ok (delete key m)
  | _ => Err errInvalidNumberOfArguments
  end.

Definition aRENAME m args : result failure adb :=
  match args with
  | [c; key; newKey] =>
    match m !! key with
    | None => Err errKeyNotFound
    | Some col =>
      if kw c "renamenx" && is_some (m !! newKey) then Ok m
      else Ok (<[newKey := col]> (delete key m))
    end
  | _ => Err errInvalidNumberOfArguments
  end.

Definition aFLUSHDB m args : result failure adb :=
  match args with [_] => Ok ∅ | _ => Err errInvalidNumberOfArguments end.

(** EXPIRE and PERSIST only touch the expiration. *)
Definition aEXPIRE m args : result failure adb :=
  match args with
  | [_; key; id; v] => let? _ := parseFloat v in Ok m
  | _ => Err errInvalidNumberOfArguments
  end.
Definition aPERSIST m args : result failure adb :=
  match args with [_; _; _] => Ok m | _ => Err errInvalidNumberOfArguments end.

(** Commands on hooks do not touch the objects. *)
Definition aHOOK m args : result failure adb :=
  match args with
  | [_; n] => if n =s "" then Err errInvalidNumberOfArguments else Ok m
  | _ => Err errInvalidNumberOfArguments
  end.

Definition aJSET m args : result failure adb :=
  match args with
  | _ :: key :: id :: path :: val :: opts =>
    let? raw := jsetRaw opts val in
    let '(spatial, text, fields) :=
      match aget m key id with
      | Some (g, fs) => (IsSpatial g, StringOf g, fs)
      | None => (false, "", [])
      end in
    match (if raw then sjson_SetRaw text path val else sjson_Set text path val) with
    | Err e => Err (Error e)
    | Ok json =>
      if (spatial : bool) then
        match geo_Parse json with
        | Ok g => Ok (aput m key id (Geom g, fields))
        | Err e => Err (Error e)
        end
      else Ok (aput m key id (Str json, fields))
    end
  | _ => Err errInvalidNumberOfArguments
  end.

(** The write commands; any other command is an error here. *)
Definition aexec m args : result failure adb :=
  match args with
  | [] => Err (Error "empty")
  | c :: _ =>
    if kw c "set" then aSET m args
    else if kw c "fset" then aFSET m args
    else if kw c "del" then aDEL m args
    else if kw c "pdel" then aPDEL m args
    else if kw c "drop" then aDROP m args
    else if kw c "flushdb" then aFLUSHDB m args
    else if kw c "rename" || kw c "renamenx" then aRENAME m args
    else if kw c "delhook" || kw c "delchan" then aHOOK m args
    else if kw c "pdelhook" || kw c "pdelchan" then aHOOK m args
    else if kw c "expire" then aEXPIRE m args
    else if kw c "persist" then aPERSIST m args
    else if kw c "jset" then aJSET m args
    else Err (Error "not a write command")
  end.

(** The abstraction. *)
Definition core (o : Object wG) : aobj := (Geo o, Fields o).
Definition acoll (c : Collection wG wM wT wR) : gmap string aobj :=
  list_to_map ((fun p => (p.1, core p.2)) <$> sm_items (objs c)).
Definition dataset (s : Server) : adb :=
  list_to_map ((fun p => (p.1, acoll p.2)) <$> sm_items (cols s)).

(** No key with an empty map. *)
Definition pruned m : Prop := forall k c, m !! k = Some c -> c <> ∅.

(** ** Pointwise *)

Lemma aget_put m key id x k i :
  aget (aput m key id x) k i = if (key =s k) && (id =s i) then Some x else aget m k i.
Proof.
  unfold aget, aput. destruct (String.eqb_spec key k) as [<-|Hk]; cbn [andb].
  - rewrite lookup_insert_eq. cbn [mbind option_bind].
    destruct (String.eqb_spec id i) as [<-|Hi]; [by rewrite lookup_insert_eq|].
    rewrite lookup_insert_ne by done. by destruct (m !! key).
  - by rewrite lookup_insert_ne.
Qed.

Lemma aget_store m key c k i :
  aget (store m key c) k i = if key =s k then c !! i else aget m k i.
Proof.
  unfold aget, store. destruct (decide (c = ∅)) as [->|]; destruct (String.eqb_spec key k) as [<-|].
  - by rewrite lookup_delete_eq.
  - by rewrite lookup_delete_ne.
  - by rewrite lookup_insert_eq.
  - by rewrite lookup_insert_ne.
Qed.

Lemma aget_remove m key f k i :
  aget (aremove m key f) k i = if (key =s k) && f i then None else aget m k i.
Proof.
  unfold aremove. destruct (m !! key) as [c|] eqn:E.
  - rewrite aget_store. destruct (String.eqb_spec key k) as [<-|]; [|done]. cbn [andb].
    rewrite map_lookup_filter. unfold aget. rewrite E. cbn [mbind option_bind].
    destruct (c !! i) as [x|]; cbn [mbind option_bind]; [|by destruct (f i)].
    destruct (f i) eqn:Ef; case_guard as Hc; simpl in Hc; congruence || done.
  - destruct (String.eqb_spec key k) as [<-|]; [|done]. unfold aget. rewrite E. by destruct (f i).
Qed.

Lemma aget_delete m key k i : aget (delete key m) k i = if key =s k then None else aget m k i.
Proof.
  unfold aget. destruct (String.eqb_spec key k) as [<-|];
    [by rewrite lookup_delete_eq|by rewrite lookup_delete_ne].
Qed.

Lemma put_pruned m key id x : pruned m -> pruned (aput m key id x).
Proof.
  intros Hm k c. unfold aput. destruct (decide (key = k)) as [<-|].
  - rewrite lookup_insert_eq. intros [= <-]. apply insert_non_empty.
  - rewrite lookup_insert_ne by done. apply Hm.
Qed.
Lemma delete_pruned m key : pruned m -> pruned (delete key m).
Proof. intros Hm k c. rewrite lookup_delete_Some. intros [_ Hk]. by eapply Hm. Qed.
Lemma insert_pruned m key c : pruned m -> c <> ∅ -> pruned (<[key := c]> m).
Proof. intros Hm Hc k c'. rewrite lookup_insert_Some. intros [[_ <-]|[_ Hk]]; [done|by eapply Hm]. Qed.
Lemma remove_pruned m key f : pruned m -> pruned (aremove m key f).
Proof.
  intros Hm. unfold aremove. destruct (m !! key); [|done]. unfold store.
  destruct (decide _); [by apply delete_pruned|by apply insert_pruned].
Qed.

(** Pruned data sets are equal when they agree on all objects. *)
Lemma adb_eq m1 m2 :
  pruned m1 -> pruned m2 -> (forall k i, aget m1 k i = aget m2 k i) -> m1 = m2.
Proof.
  intros P1 P2 Hg. apply map_eq. intros k. specialize (Hg k). unfold aget in Hg.
  destruct (m1 !! k) as [c1|] eqn:E1, (m2 !! k) as [c2|] eqn:E2; cbn [mbind option_bind] in Hg.
  - f_equal. by apply map_eq.
  - destruct (P1 _ _ E1). by apply map_empty.
  - destruct (P2 _ _ E2). apply map_empty. intros i. by rewrite <- Hg.
  - done.
Qed.
End dataset.

(** ** The abstraction *)

Section abstraction.
Context `{WorldLaws}.
Abbreviation aobj := (geometry wG * list Field)%type.
Abbreviation adb := (gmap string (gmap string aobj)).
Implicit Types (s : Server) (m : adb).

Lemma sm_keys_NoDup {A} (t : wM A) : NoDup (sm_items t).*1.
Proof.
  pose proof (sm_sorted _ t) as Hs. induction Hs as [|x l _ IH Hx]; [constructor|].
  cbn. constructor; [|done]. intros (y & Ey & Hy)%list_elem_of_fmap.
  rewrite Forall_forall in Hx. apply Hx in Hy. unfold key_lt in Hy.
  rewrite Ey, str_ltb_irrefl in Hy. done.
Qed.

(** The map made of the items of a container. *)
Lemma lookup_items {A B} (f : A -> B) (t : wM A) k :
  (list_to_map ((fun p => (p.1, f p.2)) <$> sm_items t) : gmap string B) !! k = f <$> sm_get t k.
Proof.
  assert (((fun p => (p.1, f p.2)) <$> sm_items t).*1 = (sm_items t).*1) as Ek.
  { rewrite <- list_fmap_compose. done. }
  destruct (sm_get t k) as [a|] eqn:Ea; cbn [fmap option_fmap option_map].
  - apply elem_of_list_to_map; [rewrite Ek; apply sm_keys_NoDup|].
    apply list_elem_of_fmap. exists (k, a). by rewrite sm_elem_items.
  - apply not_elem_of_list_to_map. rewrite Ek. intros ([k' a] & -> & Hin)%list_elem_of_fmap.
    apply sm_elem_items in Hin. simpl in *. congruence.
Qed.

Lemma lookup_dataset s k : dataset s !! k = acoll <$> sm_get (cols s) k.
Proof. apply lookup_items. Qed.

Lemma aget_dataset s k i : aget (dataset s) k i = core <$> db s k i.
Proof.
  unfold aget, db. rewrite lookup_dataset. destruct (sm_get (cols s) k) as [c|]; [|done].
  apply lookup_items.
Qed.

Lemma dataset_pruned s : server_ok s -> pruned (dataset s).
Proof.
  intros Hok k c. rewrite lookup_dataset. destruct (sm_get (cols s) k) as [c0|] eqn:E; [|done].
  intros [= <-] He. destruct (sk_cols _ Hok _ _ E) as [Hc Hn].
  apply Count_Get in Hn as (i & o & Ho); [|done].
  pose proof (lookup_items core (objs c0) i) as Hl. fold (acoll c0) in Hl. rewrite He in Hl.
  unfold Get in Ho. by rewrite Ho, lookup_empty in Hl.
Qed.

Lemma dataset_eq s m :
  server_ok s -> pruned m -> (forall k i, aget m k i = core <$> db s k i) -> dataset s = m.
Proof.
  intros Hok Hm Hg. apply adb_eq; [by apply dataset_pruned|done|].
  intros k i. by rewrite aget_dataset, Hg.
Qed.

(** The data set depends on the objects only. *)
Lemma dataset_same s s' :
  server_ok s -> server_ok s' -> (forall k i, core <$> db s' k i = core <$> db s k i) ->
  dataset s' = dataset s.
Proof.
  intros Hok Hok' Hdb. apply dataset_eq; [done|by apply dataset_pruned|].
  intros k i. by rewrite aget_dataset, Hdb.
Qed.

Lemma dataset_put s s' key id o :
  server_ok s -> server_ok s' ->
  (forall k i, db s' k i = if (key =s k) && (id =s i) then Some o else db s k i) ->
  dataset s' = aput (dataset s) key id (core o).
Proof.
  intros Hok Hok' Hdb. apply dataset_eq; [done|by apply put_pruned, dataset_pruned|].
  intros k i. rewrite aget_put, aget_dataset, Hdb. by destruct ((key =s k) && (id =s i)).
Qed.

Lemma dataset_remove s s' key f :
  server_ok s -> server_ok s' ->
  (forall k i, db s' k i = if (key =s k) && f i then None else db s k i) ->
  dataset s' = aremove (dataset s) key f.
Proof.
  intros Hok Hok' Hdb. apply dataset_eq; [done|by apply remove_pruned, dataset_pruned|].
  intros k i. rewrite aget_remove, aget_dataset, Hdb. by destruct ((key =s k) && f i).
Qed.

Lemma dataset_key s k : is_some (dataset s !! k) = is_some (sm_get (cols s) k).
Proof. rewrite lookup_dataset. by destruct (sm_get (cols s) k). Qed.
End abstraction.

(** ** The clock only matters for expirations *)

Section clock.
Context `{World}.

Definition forget (so : setOpts) : setOpts :=
  mkSetOpts (so_fields so) 0 (so_xx so) (so_nx so) (so_ret so) (so_withfields so) (so_kind so)
    (so_precision so) (so_obj so).
Definition rmap {E A B} (f : A -> B) (r : result E A) : result E B := rbind r (fun a => Ok (f a)).

Lemma setArg_clock args n1 n2 i a so1 so2 :
  forget so1 = forget so2 ->
  rmap (prod_map forget id) (setArg args n1 i a so1) = rmap (prod_map forget id) (setArg args n2 i a so2).
Proof.
  destruct so1 as [f1 e1 x1 y1 r1 w1 k1 p1 o1], so2 as [f2 e2 x2 y2 r2 w2 k2 p2 o2].
  unfold forget. cbn. intros [= -> -> -> -> -> -> -> ->]. unfold setArg, rmap, rbind.
  repeat match goal with
  | |- context [match ?x with _ => _ end] =>
    lazymatch x with context [match _ with _ => _ end] => fail | _ => destruct x; try reflexivity end
  end.
Qed.

Lemma setLoop_clock fuel args n1 n2 i so1 so2 :
  forget so1 = forget so2 ->
  rmap forget (setLoop fuel args n1 i so1) = rmap forget (setLoop fuel args n2 i so2).
Proof.
  revert i so1 so2. induction fuel as [|fuel IH]; intros i so1 so2 Hs; cbn [setLoop].
  { unfold rmap. cbn. by rewrite Hs. }
  destruct (args !! i) as [a|]; [|unfold rmap; cbn; by rewrite Hs].
  pose proof (setArg_clock args n1 n2 i a so1 so2 Hs) as Ha.
  destruct (setArg args n1 i a so1) as [[s1 i1]|e1], (setArg args n2 i a so2) as [[s2 i2]|e2];
    unfold rmap in Ha; cbn in Ha; simplify_eq; [|done].
  apply IH. unfold forget. congruence.
Qed.

(** The options of SET at any time are those at time zero, the expiration apart. *)
Lemma parseSET_clock msg ck so :
  parseSET msg ck = Ok so ->
  exists so0, setLoop (length (Args msg)) (Args msg) 0 3 noSetOpts = Ok so0 /\ forget so = forget so0.
Proof.
  intros Hp. pose proof (setLoop_clock (length (Args msg)) (Args msg) (c_now ck) 0 3
    noSetOpts noSetOpts eq_refl) as Hc.
  unfold parseSET in Hp. rewrite Hp in Hc. destruct (setLoop _ _ 0 _ _) as [so0|]; [|done].
  injection Hc as Hc. eexists. split; [done|]. unfold forget. congruence.
Qed.

Lemma parseSET_clock_err msg ck e :
  parseSET msg ck = Err e -> setLoop (length (Args msg)) (Args msg) 0 3 noSetOpts = Err e.
Proof.
  intros Hp. pose proof (setLoop_clock (length (Args msg)) (Args msg) (c_now ck) 0 3
    noSetOpts noSetOpts eq_refl) as Hc.
  unfold parseSET in Hp. rewrite Hp in Hc. destruct (setLoop _ _ 0 _ _) as [so0|]; [done|]. cbn in Hc. congruence.
Qed.
End clock.

(** ** The handlers implement the reference semantics *)

(** [commandErrIsFatal]: the errors that loading the log does not ignore. *)
Definition is_ok {E A} (r : result E A) : bool := match r with Ok _ => true | Err _ => false end.
Definition commandErrIsFatal (e : failure) : bool :=
  negb (bool_decide (e = errKeyNotFound) || bool_decide (e = errIDNotFound)).

Section refinement.
Context `{WorldLaws}.
Abbreviation aobj := (geometry wG * list Field)%type.
Abbreviation adb := (gmap string (gmap string aobj)).
Implicit Types (s : Server) (msg : Message) (ck : clock) (m : adb).

(** A consistent server without hooks. *)
Record quiet s : Prop := { q_ok : server_ok s; q_hooks : bt_items (hooks s) = [] }.

(** A command that succeeds has the effect the reference gives it, and when it reports no
    update it has none; a command that fails has none, and where the reference succeeds it
    only fails with an error that loading ignores, or for want of memory. *)
Definition refines s msg (ao : result failure adb) (r : wresult) : Prop :=
  quiet r.1 /\ oom r.1 = oom s /\
  match r.2 with
  | Ok (_, d) =>
    ao = Ok (dataset r.1) /\ (d_updated (detail d) = false -> dataset r.1 = dataset s)
  | Err e =>
    dataset r.1 = dataset s /\
    (OutputType msg = OutOther -> oom s = false -> forall m, ao = Ok m ->
     commandErrIsFatal e = false /\ m = dataset s)
  end.

Lemma refines_err s msg ao e :
  quiet s ->
  (OutputType msg = OutOther -> oom s = false -> forall m, ao = Ok m ->
   commandErrIsFatal e = false /\ m = dataset s) ->
  refines s msg ao (s, Err e).
Proof. by intros Hq He. Qed.

Lemma refines_same s msg v d :
  quiet s -> d_updated (detail d) = false -> refines s msg (Ok (dataset s)) (s, Ok (v, d)).
Proof. done. Qed.

Lemma refines_ok s msg s' v d m :
  server_ok s' -> hooks s' = hooks s -> oom s' = oom s -> quiet s -> dataset s' = m ->
  d_updated (detail d) = true -> refines s msg (Ok m) (s', Ok (v, d)).
Proof.
  intros H1 H2 H3 Hq <- Hd. unfold refines. cbn [fst snd].
  split_and!; [split; [done|rewrite H2; apply Hq]|done|done|congruence].
Qed.

(** SET *)

Lemma setOp_oom s msg ck key id so g : oom (setOp s msg ck key id so g).1 = oom s.
Proof. rewrite setOp_eq. cbn [fst]. by destruct (setBlocked _ _ _ _), (sm_get (cols s) key). Qed.

Lemma setOp_refines s msg ck key id so so0 g :
  quiet s -> geom_ok g = true -> canonical_fields (so_fields so) -> forget so = forget so0 ->
  refines s msg (Ok (aset (dataset s) key id so0 g)) (setOp s msg ck key id so g).
Proof.
  intros Hq Hg Hc Hf. destruct (setOp_spec s msg ck key id so g (q_ok _ Hq) Hg Hc) as (S1 & S2 & S3 & _).
  pose proof (setOp_oom s msg ck key id so g) as S4.
  pose proof (f_equal snd (setOp_eq s msg ck key id so g)) as S5. cbv zeta in S5. cbn [snd] in S5.
  destruct (setOp s msg ck key id so g) as [s' r]. cbn [fst snd] in *. subst r. unfold setReply_.
  assert (so_nx so = so_nx so0 /\ so_xx so = so_xx so0 /\ so_fields so = so_fields so0) as (N & X & F).
  { unfold forget in Hf. by injection Hf. }
  assert ((match aget (dataset s) key id with Some _ => so_nx so0 | None => so_xx so0 end) =
    setBlocked s key id so) as Eb.
  { unfold setBlocked. rewrite aget_dataset, N, X. by destruct (db s key id). }
  unfold aset. rewrite Eb. destruct (setBlocked s key id so); cbn [negb andb] in S2.
  - assert (dataset s' = dataset s) as Es by (apply dataset_same; [apply Hq|done|intros; by rewrite S2]).
    assert (quiet s') as Hq' by (split; [done|rewrite S3; apply Hq]).
    unfold refines. cbn [fst snd]. split; [done|]. split; [done|].
    destruct (OutputType msg) eqn:Eo; cbn [is_JSON]; rewrite Es; by split; [|congruence].
  - apply refines_ok; [done..| |by destruct (so_ret so)].
    rewrite (dataset_put s s' key id _ (q_ok _ Hq) S1 S2). f_equal. unfold setObject, core. cbn.
    rewrite aget_dataset, F. by destruct (db s key id).
Qed.

Definition set_ok msg : Prop :=
  forall so g, setLoop (length (Args msg)) (Args msg) 0 3 noSetOpts = Ok so -> so_obj so = Some g ->
  geom_ok g = true.

Lemma cmdSET_refines s msg ck :
  quiet s -> set_ok msg -> refines s msg (aSET (dataset s) (Args msg)) (cmdSET s msg ck).
Proof.
  intros Hq Hg. unfold cmdSET, aSET. destruct (oom s) eqn:Eo.
  { apply refines_err; [done|]. congruence. }
  unfold set_ok in Hg. destruct (Args msg) as [|c [|key [|id rest]]] eqn:Ea;
    try (apply refines_err; [done|naive_solver]).
  rewrite <- Ea in *. fold (parseSET msg ck). destruct (parseSET msg ck) as [so|e] eqn:Ep.
  - destruct (parseSET_clock msg ck so Ep) as (so0 & E0 & Hf). rewrite E0. cbn [rbind].
    assert (so_obj so = so_obj so0) as -> by (unfold forget in Hf; by injection Hf).
    destruct (so_obj so0) as [g|] eqn:Eg; [|apply refines_err; [done|naive_solver]].
    apply setOp_refines; [done|by eapply Hg| |done].
    eapply setLoop_fields; [exact Ep|constructor].
  - rewrite (parseSET_clock_err _ _ _ Ep). apply refines_err; [done|naive_solver].
Qed.

(** FSET *)

Lemma cmdFSET_refines s msg ck :
  quiet s -> refines s msg (aFSET (dataset s) (Args msg)) (cmdFSET s msg ck).
Proof.
  intros Hq. destruct (oom s) eqn:Eo.
  { unfold cmdFSET. rewrite Eo. apply refines_err; [done|]. congruence. }
  unfold aFSET. destruct (Args msg) as [|c [|key [|id [|a [|b rest]]]]] eqn:Ea;
    try (unfold cmdFSET; rewrite Eo, Ea; apply refines_err; [done|naive_solver]).
  rewrite <- Ea. fold (parseFSET msg). destruct (parseFSET msg) as [fo|e] eqn:Ep.
  2:{ unfold parseFSET in Ep. unfold cmdFSET. rewrite Eo, Ep, Ea.
      apply refines_err; [done|naive_solver]. }
  pose proof (cmdFSET_spec s msg ck c key id a b rest fo (q_ok _ Hq) Eo Ea Ep) as Hs.
  pose proof (cmdFSET_eq s msg ck c key id a b rest fo (q_ok _ Hq) Eo Ea Ep) as He.
  cbn [rbind]. rewrite aget_dataset, dataset_key.
  destruct (cmdFSET s msg ck) as [s' r]. destruct Hs as [Hok Hs].
  destruct (db s key id) as [o|] eqn:Eb; cbn [fmap option_fmap option_map].
  - assert (hooks s' = hooks s /\ oom s' = oom s) as [Hh Hm].
    { unfold db in Eb. destruct (sm_get (cols s) key) as [col|]; [|done]. rewrite Eb in He.
      destruct (fsetObject o fo). by injection He as -> _. }
    destruct (fsetFields_ok (Fields o) (fo_fields fo)) as (F1 & F2 & F3).
    { by eapply sk_fields; [apply Hq|]. } { eapply fsetLoop_fields; [exact Ep|constructor]. }
    unfold core. unfold fsetObject in Hs. destruct (fsetFields (Fields o) (fo_fields fo)) as [fs n]. cbn [fst snd] in *.
    destruct Hs as [Hs ->].
    assert (dataset s' = aput (dataset s) key id (Geo o, fs)) as Ed.
    { by rewrite (dataset_put s s' key id _ (q_ok _ Hq) Hok Hs). }
    assert (quiet s') as Hq' by (split; [done|rewrite Hh; apply Hq]).
    unfold fsetReply. destruct (fo_ret fo); cbn [rbind]; unfold refines; cbn [fst snd];
      (split; [done|]; split; [done|]; split; [by rewrite Ed|]); cbn;
      (destruct (Z.ltb_spec 0 n) as [|Hz]; [done|]); intros _;
      (rewrite (dataset_same s s' (q_ok _ Hq) Hok); [done|]); intros k i; rewrite Hs;
      (destruct ((key =s k) && (id =s i)) eqn:Eki; [|done]); boolify; destruct Eki as [<- <-];
      rewrite Eb; unfold core; cbn; by rewrite F3 by lia.
  - destruct Hs as [-> ->]. destruct (is_some _); [|by apply refines_err].
    destruct (fo_xx fo); [|by apply refines_err].
    unfold fsetReply. destruct (fo_ret fo); cbn [rbind]; [by apply refines_err|by apply refines_same].
Qed.

(** DEL, PDEL, DROP and FLUSHDB *)

Lemma cmdDEL_refines s msg ck :
  quiet s -> refines s msg (aDEL (dataset s) (Args msg)) (cmdDEL s msg ck).
Proof.
  intros Hq. unfold aDEL. destruct (Args msg) as [|c [|key [|id opts]]] eqn:Ea;
    try (unfold cmdDEL; rewrite Ea; apply refines_err; [done|naive_solver]).
  destruct (delArgs opts false) as [e4|e] eqn:Eo; cbn [rbind].
  2:{ unfold cmdDEL. rewrite Ea, Eo. apply refines_err; [done|naive_solver]. }
  rewrite (cmdDEL_eq s msg ck c key id opts e4 Ea Eo).
  destruct (delOk_spec s key id (q_ok _ Hq)) as (D1 & D2 & _ & D4).
  assert (oom (delOk s key id) = oom s) as D5.
  { unfold delOk. destruct (sm_get (cols s) key); [|done]. cbv zeta. by destruct (_ && _). }
  assert (quiet (delOk s key id)) as Q1 by (split; [done|rewrite D4; apply Hq]).
  pose proof (dataset_remove s (delOk s key id) key (fun i => id =s i) (q_ok _ Hq) D1 D2) as Ed.
  assert (refines s msg (Ok (aremove (dataset s) key (fun i => id =s i)))
    (delDone (delOk s key id) msg ck key id (db s key id))) as Hdone.
  { destruct (delDone_spec (delOk s key id) msg ck key id (db s key id) D1) as (E1 & E2 & _).
    unfold delDone in *. cbn [fst] in *. unfold refines. cbn [fst snd].
    split; [by split; [|apply Q1]|]. split; [done|].
    assert (dataset (with_grps (delOk s key id) (groupDisconnectObject (grps (delOk s key id)) key id)) =
      dataset (delOk s key id)) as -> by done.
    split; [by rewrite Ed|]. cbn. intros Hn. apply dataset_same; [apply Hq|done|].
    intros k i. rewrite D2. destruct ((key =s k) && (id =s i)) eqn:Eki; [|done]. boolify.
    destruct Eki as [<- <-]. by destruct (db s key id). }
  destruct (db s key id) eqn:Eb; [done|]. destruct e4; [|done].
  unfold refines. cbn [fst snd]. split; [done|]. split; [done|]. split.
  - apply dataset_same; [apply Hq|done|]. intros k i. rewrite D2.
    destruct ((key =s k) && (id =s i)) eqn:Eki; [|done]. boolify. destruct Eki as [<- <-]. by rewrite Eb.
  - intros _ _ m [= <-]. rewrite <- Ed. split; [by destruct (is_some _)|].
    apply dataset_same; [apply Hq|done|]. intros k i. rewrite D2.
    destruct ((key =s k) && (id =s i)) eqn:Eki; [|done]. boolify. destruct Eki as [<- <-]. by rewrite Eb.
Qed.

Lemma cmdPDEL_rest s msg ck :
  hooks (cmdPDEL s msg ck).1 = hooks s /\ oom (cmdPDEL s msg ck).1 = oom s.
Proof.
  unfold cmdPDEL. destruct (Args msg) as [|? [|key [|p [|]]]]; try done.
  destruct (sm_get (cols s) key); [|done]. destruct (timeout _); [done|].
  destruct (foldl _ _ _) as [[c' g'] ds]. by destruct (Count c' =? 0).
Qed.

Lemma cmdPDEL_refines s msg ck :
  quiet s -> Deadline_ msg = None -> refines s msg (aPDEL (dataset s) (Args msg)) (cmdPDEL s msg ck).
Proof.
  intros Hq Hd. destruct msg as [args out dl]. cbn in Hd. subst dl. cbn [Args].
  unfold aPDEL. destruct args as [|c [|key [|p [|]]]]; try (by apply refines_err).
  destruct (cmdPDEL_rest s (mkMessage [c; key; p] out None) ck) as [R1 R2].
  pose proof (cmdPDEL_sel s c key p out ck (q_ok _ Hq)) as Hp. cbv zeta in Hp.
  destruct (cmdPDEL s _ ck) as [s' r]. destruct Hp as (P1 & P2 & _ & ->). cbn [fst] in *.
  pose proof (dataset_remove s s' key (pdelSel p) (q_ok _ Hq) P1 P2) as Ed.
  unfold refines. cbn [fst snd]. split; [split; [done|rewrite R1; apply Hq]|]. split; [done|].
  split; [by rewrite Ed|]. cbn. rewrite negb_false_iff, bool_decide_eq_true. intros Hn.
  apply dataset_same; [apply Hq|done|]. intros k i. rewrite P2.
  destruct ((key =s k) && pdelSel p i) eqn:Eki; [|done]. boolify. destruct Eki as [<- Hsel].
  unfold matching_of in Hn. unfold db. destruct (sm_get (cols s) key) as [col|] eqn:Ec; [|done].
  destruct (sk_cols _ (q_ok _ Hq) _ _ Ec) as [Hc _].
  pose proof (matching_ids col (pdelSel p) i Hc) as Hm. rewrite Hn in Hm.
  destruct (Get col i); [|done]. destruct (not_elem_of_nil i). by apply Hm.
Qed.

Lemma cmdDROP_refines s msg ck :
  quiet s -> refines s msg (aDROP (dataset s) (Args msg)) (cmdDROP s msg ck).
Proof.
  intros Hq. unfold aDROP, cmdDROP. destruct (Args msg) as [|c [|key [|]]]; try (by apply refines_err).
  destruct (cmdDROPop_spec s key (q_ok _ Hq)) as (D1 & D2 & _ & D4).
  assert (oom (cmdDROPop s key).1 = oom s) as D5.
  { unfold cmdDROPop. by destruct (sm_get (cols s) key). }
  assert ((cmdDROPop s key).2 = sm_get (cols s) key) as D6 by done.
  destruct (cmdDROPop s key) as [s' col]. cbn [fst snd] in *. subst col.
  assert (dataset s' = delete key (dataset s)) as Ed.
  { apply dataset_eq; [done|by apply delete_pruned, dataset_pruned, Hq|].
    intros k i. rewrite aget_delete, aget_dataset, D2. by destruct (key =s k). }
  unfold refines. cbn [fst snd]. split; [split; [done|rewrite D4; apply Hq]|]. split; [done|].
  split; [by rewrite Ed|]. cbn. intros Hn. rewrite Ed. apply delete_id.
  rewrite lookup_dataset. by destruct (sm_get (cols s) key).
Qed.

Lemma foldl_oom {A} (f : Server -> A -> Server) s l :
  (forall s a, oom (f s a) = oom s) -> oom (foldl f s l) = oom s.
Proof. intros Hf. revert s. induction l as [|a l IH]; intros s; [done|]. cbn [foldl]. by rewrite IH. Qed.

Lemma DROPop_oom s key : oom (cmdDROPop s key).1 = oom s.
Proof. unfold cmdDROPop. by destruct (sm_get (cols s) key). Qed.

Lemma DELHOOKop_oom s n ch : oom (cmdDELHOOKop s n ch).1 = oom s.
Proof.
  unfold cmdDELHOOKop. destruct (bt_get _ _) as [h|]; [|done]. destruct (Bool.eqb _ _); [|done].
  cbn [fst]. unfold unplace. by destruct (f_obj (Fence h)).
Qed.

Lemma cmdFLUSHDB_refines s msg ck :
  quiet s -> refines s msg (aFLUSHDB (dataset s) (Args msg)) (cmdFLUSHDB s msg ck).
Proof.
  intros Hq. unfold aFLUSHDB, cmdFLUSHDB. destruct (Args msg) as [|c [|]]; try (by apply refines_err).
  set (s1 := foldl (fun s key => (cmdDROPop s key).1) s (sm_items (cols s)).*1).
  set (s2 := foldl _ s1 (hookNames s1 true)). set (s3 := foldl _ s2 (hookNames s2 false)).
  assert (oom s3 = oom s) as Hm.
  { unfold s3. rewrite foldl_oom by (intros; apply DELHOOKop_oom).
    unfold s2. rewrite foldl_oom by (intros; apply DELHOOKop_oom).
    apply foldl_oom. intros. apply DROPop_oom. }
  clearbody s1 s2 s3. destruct (newServer_ok (maxMemory s3)) as [N1 N2 N3].
  unfold refines. cbn [fst snd]. split; [split; [by split|apply bt_items_new]|]. split; [done|].
  split; [|done]. f_equal. symmetry. apply dataset_eq; [by split| |].
  - intros k x. by rewrite lookup_empty.
  - intros k i. unfold aget, db. cbn [cols]. by rewrite lookup_empty, sm_get_empty.
Qed.

(** RENAME *)

Lemma cmdRENAME_refines s msg ck :
  quiet s -> refines s msg (aRENAME (dataset s) (Args msg)) (cmdRENAME s msg ck).
Proof.
  intros Hq. destruct msg as [args out dl]. cbn [Args]. unfold aRENAME.
  destruct args as [|c [|key [|newKey [|]]]]; try (by apply refines_err).
  assert (cmdRENAME s (mkMessage [c; key; newKey] out dl) ck =
    cmdRENAME s (mkMessage [c; key; newKey] out None) ck) as -> by done.
  assert (hooks (cmdRENAME s (mkMessage [c; key; newKey] out None) ck).1 = hooks s /\
    oom (cmdRENAME s (mkMessage [c; key; newKey] out None) ck).1 = oom s) as [R1 R2].
  { unfold cmdRENAME. cbn [Args]. destruct (sm_get (cols s) key); [|done].
    destruct (watching _ _ _) as [[] []]; try done. by destruct (sm_get (cols s) newKey), (kw c _). }
  assert (is_some (sm_get (cols s) key) = true ->
    is_ok (cmdRENAME s (mkMessage [c; key; newKey] out None) ck).2 = true) as R3.
  { unfold cmdRENAME, watching. cbn [Args]. rewrite (q_hooks _ Hq). destruct (sm_get (cols s) key); [|done].
    by destruct (sm_get (cols s) newKey), (kw c _). }
  pose proof (cmdRENAME_spec s c key newKey out ck (q_ok _ Hq)) as Hs. cbv zeta in Hs.
  destruct (cmdRENAME s _ ck) as [s' r]. cbn [fst] in *. destruct Hs as [Hok Hs].
  assert (quiet s') as Hq' by (split; [done|rewrite R1; apply Hq]).
  unfold refines. cbn [fst snd]. split; [done|]. split; [done|].
  rewrite dataset_key. destruct r as [[v d]|e].
  - destruct Hs as (K & _ & _ & U & _ & Hdb). rewrite lookup_dataset.
    destruct (sm_get (cols s) key) as [col|] eqn:Ec; [|done]. cbn [fmap option_fmap option_map].
    destruct (kw c "renamenx" && is_some (sm_get (cols s) newKey)).
    + assert (dataset s' = dataset s) as -> by (apply dataset_same; [apply Hq|done|]; intros; by rewrite Hdb).
      done.
    + split; [|rewrite U; done]. f_equal. symmetry. apply dataset_eq; [done| |].
      * apply insert_pruned; [by apply delete_pruned, dataset_pruned, Hq|].
        apply (dataset_pruned s (q_ok _ Hq) key). by rewrite lookup_dataset, Ec.
      * intros k i. rewrite Hdb. unfold aget. destruct (String.eqb_spec newKey k) as [<-|Hne].
        -- rewrite lookup_insert_eq. cbn [mbind option_bind]. unfold db. rewrite Ec. apply lookup_items.
        -- rewrite lookup_insert_ne by done. fold (aget (delete key (dataset s)) k i).
           rewrite aget_delete, aget_dataset. by destruct (key =s k).
  - destruct Hs as [-> ->]. split; [done|]. intros _ _ m Hm. rewrite lookup_dataset in Hm.
    destruct (sm_get (cols s) key); [by discriminate R3|done].
Qed.

(** EXPIRE and PERSIST *)

Lemma cmdEXPIRE_refines s msg ck :
  quiet s -> refines s msg (aEXPIRE (dataset s) (Args msg)) (cmdEXPIRE s msg ck).
Proof.
  intros Hq. destruct msg as [args out dl]. cbn [Args]. unfold aEXPIRE.
  destruct args as [|c [|key [|id [|v [|]]]]]; try (by apply refines_err).
  destruct (parseFloat v) as [x|e] eqn:Ep; cbn [rbind];
    [|unfold cmdEXPIRE; cbn [Args]; rewrite Ep; by apply refines_err].
  assert (cmdEXPIRE s (mkMessage [c; key; id; v] out dl) ck =
    cmdEXPIRE s (mkMessage [c; key; id; v] out None) ck) as -> by done.
  pose proof (expire_persist_spec s key id c v x out ck (q_ok _ Hq) Ep) as Hs. cbv zeta in Hs.
  assert (hooks (cmdEXPIRE s (mkMessage [c; key; id; v] out None) ck).1 = hooks s /\
    oom (cmdEXPIRE s (mkMessage [c; key; id; v] out None) ck).1 = oom s) as [R1 R2].
  { unfold cmdEXPIRE. cbn [Args OutputType]. rewrite Ep. destruct (findObject _ _ _); [|by destruct (is_JSON _)].
    by destruct (sm_get (cols s) key). }
  assert (forall e, (cmdEXPIRE s (mkMessage [c; key; id; v] out None) ck).2 = Err e ->
    commandErrIsFatal e = false) as R3.
  { unfold cmdEXPIRE, findObject. cbn [Args OutputType]. rewrite Ep. intros e.
    destruct (sm_get (cols s) key) as [col|]; [destruct (Get col id)|]; destruct out; cbn; naive_solver. }
  destruct (cmdEXPIRE s _ ck) as [s' r]. destruct (cmdPERSIST s _ ck) as [s2 r2].
  destruct Hs as (Hok & _ & Hs). cbn [fst snd] in *.
  assert (dataset s' = dataset s /\ forall v d, r = Ok (v, d) -> d_updated (detail d) = false -> dataset s' = dataset s)
    as [Ed _].
  { destruct (db s key id) as [o|] eqn:Eb; [|destruct Hs as [-> _]; done].
    assert (dataset s' = dataset s); [|done]. apply dataset_same; [apply Hq|done|]. intros k i.
    destruct Hs as (-> & _). destruct ((key =s k) && (id =s i)) eqn:Eki; [|done].
    boolify. destruct Eki as [<- <-]. by rewrite Eb. }
  unfold refines. cbn [fst snd OutputType]. rewrite Ed.
  split; [split; [done|rewrite R1; apply Hq]|]. split; [done|].
  destruct r as [[w d]|e]; (split; [done|]); [done|]. intros _ _ m [= <-]. eauto.
Qed.

Lemma cmdPERSIST_refines s msg ck :
  quiet s -> refines s msg (aPERSIST (dataset s) (Args msg)) (cmdPERSIST s msg ck).
Proof.
  intros Hq. unfold aPERSIST, cmdPERSIST.
  destruct (Args msg) as [|c [|key [|id [|]]]]; try (by apply refines_err).
  destruct (findObject s key id) as [o|e] eqn:Ef.
  - apply findObject_db in Ef as Eb. assert (ID o = id) as Hid by (eapply db_ok; [apply Hq|done]).
    unfold findObject in Ef. destruct (sm_get (cols s) key) as [col|] eqn:Ec; [|done].
    destruct (Get col id) as [o'|] eqn:Eg; [|done]. injection Ef as ->.
    destruct (Expires o =? 0) eqn:Ex; cbn [negb].
    { unfold refines. cbn [fst snd]. by split_and!. }
    assert (server_ok (set_col s key (Set_ col (Object.New id (Geo o) 0 (Fields o))).1)) as Hok.
    { rewrite <- Hid. apply (set_expiry_ok s key col o 0); [apply Hq|done|]. by rewrite Hid. }
    unfold refines. cbn [fst snd]. split; [split; [done|apply Hq]|]. split; [done|].
    assert (dataset (set_col s key (Set_ col (Object.New id (Geo o) 0 (Fields o))).1) = dataset s) as ->; [|done].
    apply dataset_same; [apply Hq|done|]. intros k i. rewrite (db_set_obj _ _ col) by done. change (ID (Object.New id (Geo o) 0 (Fields o))) with id.
    destruct ((key =s k) && (id =s i)) eqn:Eki; [|done]. boolify. destruct Eki as [<- <-]. by rewrite Eb.
  - assert (commandErrIsFatal e = false) as He.
    { unfold findObject in Ef. destruct (sm_get (cols s) key) as [col|]; [destruct (Get col id)|]; naive_solver. }
    destruct (is_RESP (OutputType msg)); [by apply refines_same|apply refines_err; [done|]; by intros _ _ m [= <-]].
Qed.

(** Commands on hooks, where there are none *)

Lemma cmdDelHook_refines s msg ck :
  quiet s -> refines s msg (aHOOK (dataset s) (Args msg)) (cmdDelHook s msg ck).
Proof.
  intros Hq. unfold aHOOK, cmdDelHook. destruct (Args msg) as [|c [|n vs]]; try (by apply refines_err).
  cbn [token1]. destruct (n =s ""); [destruct vs; by apply refines_err|].
  destruct vs; [|by apply refines_err]. unfold cmdDELHOOKop.
  assert (bt_get (hooks s) (named n) = None) as ->; [|by apply refines_same].
  apply get_named_None. intros h. rewrite (q_hooks _ Hq). by intros ?%not_elem_of_nil.
Qed.

Lemma cmdPDelHook_refines s msg ck :
  quiet s -> refines s msg (aHOOK (dataset s) (Args msg)) (cmdPDelHook s msg ck).
Proof.
  intros Hq. unfold aHOOK, cmdPDelHook. destruct (Args msg) as [|c [|n vs]]; try (by apply refines_err).
  cbn [token1]. destruct (n =s ""); [destruct vs; by apply refines_err|].
  destruct vs; [|by apply refines_err]. unfold forEachHookByPattern, bt_ascend.
  destruct (Limits _) as [l0 l1]. rewrite (q_hooks _ Hq). by apply refines_same.
Qed.

(** JSET *)

(** What a message may bring in has a box without NaN: what SET parses, and whatever the
    JSON parser returns. *)
Definition parses_ok : Prop := forall json g, geo_Parse json = Ok g -> geom_ok (Geom g) = true.

Lemma jsonDone_oom s msg ck key id json fields col resp :
  oom (jsonDone s msg ck key id json fields col resp).1 = oom s.
Proof. done. Qed.

Lemma cmdJset_refines s msg ck :
  quiet s -> parses_ok -> refines s msg (aJSET (dataset s) (Args msg)) (cmdJset s msg ck).
Proof.
  intros Hq Hp. unfold aJSET, cmdJset.
  destruct (Args msg) as [|c [|key [|id [|path [|val opts]]]]]; try (by apply refines_err).
  destruct (jsetRaw opts val) as [raw|]; cbn [rbind]; [|by apply refines_err].
  set (col := match sm_get (cols s) key with Some c => c | None => New end).
  assert ((match sm_get (cols s) key with Some col => (false, col) | None => (true, New) end) =
    (negb (is_some (sm_get (cols s) key)), col)) as -> by (unfold col; by destruct (sm_get (cols s) key)).
  rewrite aget_dataset. unfold col at 1. rewrite docOf_col.
  assert ((match core <$> db s key id with Some (g, fs) => (IsSpatial g, StringOf g, fs) | None => (false, "", []) end)
    = docOf (db s key id)) as -> by (by destruct (db s key id)).
  destruct (docOf (db s key id)) as [[geoobj text] fields] eqn:Ed.
  destruct (if raw then _ else _) as [json|]; [|by apply refines_err].
  assert (fields_ok fields) as Hf.
  { unfold docOf in Ed. destruct (db s key id) as [o|] eqn:E; simplify_eq;
      [eapply sk_fields; [apply Hq|done]|apply fields_nil_ok]. }
  destruct geoobj.
  - rewrite setObjectJSON_eq. destruct (oom s) eqn:Eo; [apply refines_err; [done|congruence]|].
    destruct (geo_Parse json) as [g|] eqn:Eg; [|by apply refines_err].
    pose proof (setOp_refines s (mkMessage ["SET"; key; id; "OBJECT"; json] (OutputType msg) (Deadline_ msg))
      ck key id (so_with_obj noSetOpts (Geom g)) (so_with_obj noSetOpts (Geom g)) (Geom g) Hq) as Hs.
    specialize (Hs (Hp _ _ Eg) ltac:(constructor) eq_refl).
    assert (aset (dataset s) key id (so_with_obj noSetOpts (Geom g)) (Geom g) =
      aput (dataset s) key id (Geom g, fields)) as Ea; [|by rewrite <- Ea].
    unfold aset, docOf in *. rewrite aget_dataset. cbn. destruct (db s key id); naive_solver.
  - destruct (jsonDone_spec s msg ck key id json fields col (RSimple "OK") (q_ok _ Hq)) as (J1 & J2 & J3 & _);
      [intros c' E; unfold col; by rewrite E|intros E; unfold col; by rewrite E|done|].
    assert ((if negb (is_some (sm_get (cols s) key)) then set_col s key col else s) =
      (if is_some (sm_get (cols s) key) then s else set_col s key col)) as -> by (by destruct (is_some _)).
    set (s0 := if is_some (sm_get (cols s) key) then s else set_col s key col) in *.
    assert (oom s0 = oom s) as Ho by (unfold s0; by destruct (is_some _)).
    pose proof (jsonDone_oom s0 msg ck key id json fields col (RSimple "OK")) as J4.
    unfold jsonDone in *. cbn [fst] in *. apply refines_ok; [done|done|congruence|done| |done].
    by rewrite (dataset_put s _ key id _ (q_ok _ Hq) J1 J2).
Qed.

(** ** Dispatch *)

(** What has to hold of a message for its geometry to be sound. *)
Definition msg_ok msg : Prop :=
  Deadline_ msg = None /\ match Args msg with c :: _ => kw c "set" = true -> set_ok msg | [] => True end.

Lemma kw_word c w : kw c w = true -> forall w', kw c w' = (w =s w').
Proof. unfold kw. destruct (ToLower c) as [l|]; [|done]. by intros ->%String.eqb_eq. Qed.

(** A write command through the dispatcher. *)
Lemma command_refines_ s msg ck c rest r :
  quiet s -> parses_ok -> msg_ok msg -> Args msg = c :: rest -> isWrite c = true ->
  command s msg ck = Some r -> refines s msg (aexec (dataset s) (Args msg)) r.
Proof.
  intros Hq Hp [Hd Hm] Ha Hw. rewrite Ha in Hm. unfold command, aexec. rewrite Ha, <- Ha.
  unfold isWrite in Hw. cbn [existsb] in Hw.
  destruct (kw c "set"); [intros [= <-]; by apply cmdSET_refines; [|apply Hm]|].
  destruct (kw c "fset"); [intros [= <-]; by apply cmdFSET_refines|].
  destruct (kw c "del"); [intros [= <-]; by apply cmdDEL_refines|].
  destruct (kw c "pdel"); [intros [= <-]; by apply cmdPDEL_refines|].
  destruct (kw c "drop"); [intros [= <-]; by apply cmdDROP_refines|].
  destruct (kw c "flushdb"); [intros [= <-]; by apply cmdFLUSHDB_refines|].
  destruct (kw c "rename" || kw c "renamenx") eqn:E1; [intros [= <-]; by apply cmdRENAME_refines|].
  destruct (kw c "delhook" || kw c "delchan") eqn:E2; [intros [= <-]; by apply cmdDelHook_refines|].
  destruct (kw c "pdelhook" || kw c "pdelchan") eqn:E3; [intros [= <-]; by apply cmdPDelHook_refines|].
  destruct (kw c "expire"); [intros [= <-]; by apply cmdEXPIRE_refines|].
  destruct (kw c "persist"); [intros [= <-]; by apply cmdPERSIST_refines|].
  destruct (kw c "jset") eqn:E4.
  - rewrite !(kw_word _ _ E4). cbn. intros [= <-]. by apply cmdJset_refines.
  - apply orb_false_iff in E1 as [E1 E1']. apply orb_false_iff in E2 as [E2 E2'].
    apply orb_false_iff in E3 as [E3 E3']. rewrite E1, E1', E2, E2', E3, E3' in Hw. cbn [orb] in Hw.
    repeat (apply orb_true_iff in Hw as [Hw|Hw]; [by rewrite !(kw_word _ _ Hw)|]). done.
Qed.

(** C3. On a consistent server without hooks, each of SET, FSET, DEL, PDEL, DROP, FLUSHDB,
    RENAME, RENAMENX, DELHOOK, DELCHAN, PDELHOOK, PDELCHAN, EXPIRE, PERSIST and JSET, as
    the server dispatches it, implements the reference semantics (SETHOOK and SETCHAN are
    the write commands left out): when it succeeds, the data set, that is, the geometry
    and fields of every object, becomes what the reference gives, and is unchanged if no
    update was reported; when it fails, the data set is unchanged. For a message as the
    log loader sends it, with no output type, and with memory to spare, it fails where the
    reference succeeds only with an error the loader ignores and only where the reference
    changes nothing. Consistency of all indexes is kept. Geometries that are set or parsed
    have no NaN in their box. *)
Theorem command_refines s msg ck c rest r :
  quiet s -> parses_ok -> msg_ok msg -> Args msg = c :: rest -> isWrite c = true ->
  command s msg ck = Some r -> refines s msg (aexec (dataset s) (Args msg)) r.
Proof. apply command_refines_. Qed.
End refinement.

Module DatasetExample.
Import ExampleWorld CrudExample.
#[local] Existing Instance world.
#[local] Existing Instance world_laws.

Lemma box_parse : parses_ok.
Proof.
  intros json g. unfold geo_Parse, world. destruct (json =s "box"); [|done]. intros [= <-]. vm_compute. reflexivity.
Qed.

Lemma setBus_msg : msg_ok setBus.
Proof.
  split; [done|]. intros _ so g E Eg.
  assert (setLoop (length (Args setBus)) (Args setBus) 0 3 noSetOpts = Ok (opts_of setBus)) as E0
    by reflexivity.
  rewrite E0 in E. injection E as <-. by injection Eg as <-.
Qed.

Lemma command_refines_witness :
  refines s1 setBus (aexec (dataset s1) (Args setBus)) (cmdSET s1 setBus ck).
Proof.
  apply (command_refines s1 setBus ck "set" ["fleet"; "bus"; "NX"; "STRING"; "hi"]);
    [split; [apply s1_ok|reflexivity]|apply box_parse|apply setBus_msg|reflexivity..].
Defined.
End DatasetExample.
