(* ===== verification/Aof.v ===== *)
(** * The append-only file ([src/internal/legacy/server/aof.go])

    Commands are logged as RESP arrays. The reader of the imported [redcon] package is a
    parameter with its documented behaviour: it finds a whole command at the front of a
    packet, and asks for more on a proper prefix of one. [loadAOF] reads the file in
    pieces of any size, skips stray zero bytes, executes the commands and cuts off an
    incomplete tail. The function that executes a command is a parameter here. *)

From Stdlib Require Import Ascii String ZArith Lia Bool.
From stdpp Require Import base list strings option.
From S2P Require Import Prelude GoStd Strconv Json Containers Field Geo Object Collection.
From S2P Require Import CollectionScan Group World Hooks Crud CrudFacts JsonCmd Keys.
From S2P Require Import Command Dataset.

Local Open Scope Z_scope.

(** ** The encoding *)

Definition crlf : list ascii := [chr 13; chr 10].
(** A line with a count: ['*'] or ['$'], the number, and the line end. *)
Definition header (c : ascii) (n : nat) : list ascii := c :: bytes_of (FormatInt (Z.of_nat n)) ++ crlf.
Definition bulk (value : string) : list ascii :=
  header "$" (String.length value) ++ bytes_of value ++ crlf.

(** One command, as [aofshrink] appends it to its buffer. *)
Definition appendCommand (aofbuf : list ascii) (values : list string) : list ascii :=
  foldl (fun b v => b ++ bulk v) (aofbuf ++ header "*" (length values)) values.
Definition encode (values : list string) : list ascii := appendCommand [] values.
#[global] Arguments encode : simpl never.

(** Lengths fit an [int]. *)
Definition sized (args : list string) : Prop :=
  args <> [] /\ is_int64 (Z.of_nat (length args)) /\
  Forall (fun v => is_int64 (Z.of_nat (String.length v))) args.

Class Redcon := {
  AppendArray : list ascii -> nat -> list ascii;
  AppendBulkString : list ascii -> string -> list ascii;
  (** complete, arguments, leftover; or a protocol error *)
  ReadNextCommand : list ascii -> result string (bool * list string * list ascii);
}.

Class RedconLaws `{Redcon} := {
  rc_array : forall b n, AppendArray b n = b ++ header "*" n;
  rc_bulk : forall b v, AppendBulkString b v = b ++ bulk v;
  rc_complete : forall args rest, sized args ->
    ReadNextCommand (encode args ++ rest) = Ok (true, args, rest);
  rc_incomplete : forall args p q, sized args -> encode args = p ++ q -> q <> [] ->
    ReadNextCommand p = Ok (false, [], p);
}.

(** ** The log of the server *)

(** The members of [Server] for the file: [aof] is [None] where the log is disabled. *)
Record logState := mkLog {
  aof : option (list ascii); aofbuf : list ascii; aofsz : Z; shrinking : bool;
  shrinklog : list (list string) }.

Section log.
Context `{Redcon}.

(** The part of [writeAOF] that logs: [updated] is [None] for nil details. *)
Definition writeLog (l : logState) (args : list string) (updated : option bool) : logState :=
  if match updated with Some u => negb u | None => false end then l
  else
    let l := if shrinking l
             then mkLog (aof l) (aofbuf l) (aofsz l) (shrinking l) (shrinklog l ++ [args]) else l in
    match aof l with
    | None => l
    | Some _ =>
      let buf := foldl AppendBulkString (AppendArray (aofbuf l) (length args)) args in
      mkLog (aof l) buf (aofsz l + (Z.of_nat (length buf) - Z.of_nat (length (aofbuf l))))
        (shrinking l) (shrinklog l)
    end.

Definition flushAOF (l : logState) : logState :=
  match aof l with
  | Some f => mkLog (Some (f ++ aofbuf l)) [] (aofsz l) (shrinking l) (shrinklog l)
  | None => l
  end.

(** Loading. *)
Context {St : Type} (exec : St -> list string -> St * option failure).

(** The inner loop over the bytes at hand; every round takes at least one of them. *)
Fixpoint parseLoop (fuel : nat) (st : St) (data : list ascii) : St * result failure (list ascii) :=
  match fuel with
  | O => (st, Ok data)
  | S fuel =>
    if match data with c :: _ => code c =? 0 | [] => false end then parseLoop fuel st (drop 1 data)
    else
      match ReadNextCommand data with
      | Err e => (st, Err (Error e))
      | Ok (false, _, data) => (st, Ok data)
      | Ok (true, [], data) => parseLoop fuel st data
      | Ok (true, args, data) =>
        match exec st args with
        | (st, Some e) => if commandErrIsFatal e then (st, Err e) else parseLoop fuel st data
        | (st, None) => parseLoop fuel st data
        end
      end
  end.

(** The loop over the pieces [s.aof.Read] returns: the size counted, the bytes carried over
    and, at the end of the file, the cut. *)
Fixpoint loadLoop (chunks : list (list ascii)) (buf : list ascii) (sz : Z) (st : St)
    : St * Z * option failure :=
  match chunks with
  | [] => (st, if (0 <? length buf)%nat then sz - Z.of_nat (length buf) else sz, None)
  | chunk :: chunks =>
    let sz := sz + Z.of_nat (length chunk) in
    let data := if (0 <? length buf)%nat then buf ++ chunk else chunk in
    match parseLoop (S (length data)) st data with
    | (st, Err e) => (st, sz, Some e)
    | (st, Ok data) => loadLoop chunks data sz st
    end
  end.

(** [loadAOF] on a file that is read in the given pieces: the state, the log with the file
    cut to [aofsz], and an error. *)
Definition loadAOF (chunks : list (list ascii)) (st : St) : St * logState * option failure :=
  let '(st, sz, e) := loadLoop chunks [] 0 st in
  let file := concat chunks in
  let file := match e with None => take (Z.to_nat sz) file | Some _ => file end in
  (st, mkLog (Some file) [] sz false [], e).

(** Executing commands in turn, up to the first fatal error. *)
Fixpoint replay (st : St) (cmds : list (list string)) : St * option failure :=
  match cmds with
  | [] => (st, None)
  | args :: cmds =>
    match exec st args with
    | (st, Some e) => if commandErrIsFatal e then (st, Some e) else replay st cmds
    | (st, None) => replay st cmds
    end
  end.
End log.

(** ** Facts about the encoding *)

Lemma appendCommand_eq b values :
  appendCommand b values = b ++ header "*" (length values) ++ concat (bulk <$> values).
Proof.
  unfold appendCommand. rewrite app_assoc. generalize (b ++ header "*" (length values)).
  clear b. induction values as [|v values IH]; intros b; cbn; [by rewrite app_nil_r|].
  by rewrite IH, <- app_assoc.
Qed.

Lemma appendCommand_encode b values : appendCommand b values = b ++ encode values.
Proof. unfold encode. by rewrite !appendCommand_eq. Qed.

Lemma encode_head values : exists t, encode values = "*"%char :: t.
Proof. unfold encode. rewrite appendCommand_eq. eexists. reflexivity. Qed.

(** A file: commands, each after some zero bytes, and an incomplete one at the end. *)
Definition zeros (k : nat) : list ascii := replicate k (chr 0).
Definition render (items : list (nat * list string)) : list ascii :=
  concat ((fun it => zeros it.1 ++ encode it.2) <$> items).
Definition partial (p : list ascii) : Prop :=
  exists args q, sized args /\ encode args = p ++ q /\ q <> [].

Lemma partial_nil : partial [].
Proof.
  exists [""], (encode [""]). split_and!; [|done|done]. split; [done|].
  split; [done|]. by repeat constructor.
Qed.
Lemma partial_prefix p q : partial (p ++ q) -> partial p.
Proof.
  intros (args & r & Hs & He & Hr). exists args, (q ++ r). split_and!; [done|by rewrite app_assoc|].
  by destruct q.
Qed.

Lemma zeros_app a b d rest :
  a ++ b = zeros d ++ rest ->
  (exists d1 d2, a = zeros d1 /\ b = zeros d2 ++ rest /\ d = (d1 + d2)%nat) \/
  (exists z, a = zeros d ++ z /\ rest = z ++ b).
Proof.
  intros [(k & Ha & Hb)|(k & Ha & Hb)]%app_eq_inv.
  - right. eauto.
  - left. exists (length a), (length k). unfold zeros in *.
    assert (d = (length a + length k)%nat) as Hd.
    { rewrite <- (length_replicate d (chr 0)), Ha, length_app. done. }
    subst d. rewrite replicate_add in Ha.
    apply app_inj_1 in Ha as [Ha1 Ha2]; [|by rewrite length_replicate].
    by rewrite Ha1, Ha2.
Qed.

(** Any cut of a file: what is before it is again commands and an incomplete one, which
    together with what is after it makes the rest. *)
Lemma render_cut d rest items k p :
  d ++ rest = render items ++ zeros k ++ p -> Forall (fun it => sized it.2) items -> partial p ->
  exists items1 k1 p1 items2 k2,
    d = render items1 ++ zeros k1 ++ p1 /\ partial p1 /\
    p1 ++ rest = render items2 ++ zeros k2 ++ p /\ items.*2 = items1.*2 ++ items2.*2 /\
    Forall (fun it => sized it.2) items1 /\ Forall (fun it => sized it.2) items2.
Proof.
  intros Hd Hs Hp. revert d Hd. induction Hs as [|[k0 args] items Ha Hs IH]; intros d Hd.
  - cbn in Hd. apply zeros_app in Hd as [(d1 & d2 & -> & -> & ->)|(z & -> & ->)].
    + exists [], d1, [], [], d2. cbn. rewrite app_nil_r. split_and!; eauto using partial_nil.
    + exists [], k, z, [], 0%nat. cbn. split_and!; eauto using partial_prefix.
  - unfold render in Hd. cbn in Hd. fold (render items) in Hd. rewrite <- !app_assoc in Hd.
    apply zeros_app in Hd as [(d1 & d2 & -> & -> & ->)|(z & -> & Hz)].
    + exists [], d1, [], ((d2, args) :: items), k. cbn. rewrite app_nil_r.
      unfold render. cbn. rewrite <- !app_assoc. split_and!; eauto using partial_nil.
    + symmetry in Hz. apply app_eq_inv in Hz as [(w & -> & Hw)|(y & Hy & Hrest)].
      * destruct (IH w (eq_sym Hw)) as (i1 & k1 & p1 & i2 & k2 & -> & I1 & I2 & I3 & I4 & I5).
        exists ((k0, args) :: i1), k1, p1, i2, k2. unfold render. cbn. rewrite <- !app_assoc.
        split_and!; eauto. by rewrite I3.
      * destruct y as [|c y].
        -- destruct (IH [] Hrest) as (i1 & k1 & p1 & i2 & k2 & E1 & I1 & I2 & I3 & I4 & I5).
           exists ((k0, args) :: i1), k1, p1, i2, k2. unfold render. cbn. rewrite <- !app_assoc.
           rewrite app_nil_r in Hy. fold (render i1). rewrite <- E1, app_nil_r, Hy.
           split_and!; eauto. by rewrite I3.
        -- exists [], k0, z, ((0%nat, args) :: items), k. unfold render. cbn. rewrite <- !app_assoc.
           split_and!; eauto.
           { exists args, (c :: y). done. }
           rewrite Hrest, Hy, <- !app_assoc. done.
Qed.

Section laws.
Context `{RedconLaws}.
Context {St : Type} (exec : St -> list string -> St * option failure).

(** A whole command at the front is not an incomplete one. *)
Lemma partial_no_command p args rest : partial p -> sized args -> p <> encode args ++ rest.
Proof.
  intros (a & q & Ha & He & Hq) Hs ->.
  pose proof (rc_incomplete a _ q Ha He Hq) as H1. rewrite rc_complete in H1 by done. done.
Qed.

Lemma partial_head p : partial p -> p = [] \/ exists t, p = "*"%char :: t.
Proof.
  intros (a & q & _ & He & _). destruct (encode_head a) as [t Ht]. rewrite Ht in He.
  destruct p as [|c p]; [by left|right]. injection He as <- ->. eauto.
Qed.

Lemma partial_end items k p p' :
  partial p' -> Forall (fun it => sized it.2) items -> p' = render items ++ zeros k ++ p ->
  items = [] /\ k = 0%nat /\ p' = p.
Proof.
  intros Hp Hs E. destruct (partial_head _ Hp) as [->|[t Ht]].
  - destruct Hs as [|[k0 a] items _ _].
    + destruct k; [|done]. done.
    + unfold render in E. cbn in E. destruct (encode_head a) as [t Ht]. rewrite Ht in E. by destruct k0.
  - destruct Hs as [|[k0 a] items Ha _].
    + destruct k as [|k]; [done|]. rewrite E in Ht. done.
    + exfalso. unfold render in E. cbn in E. fold (render items) in E. rewrite <- !app_assoc in E.
      destruct k0 as [|k0]; [|rewrite E in Ht; done]. by apply (partial_no_command p' a) in E.
Qed.

Lemma parseLoop_render fuel st items k p :
  (length (render items ++ zeros k ++ p) < fuel)%nat ->
  Forall (fun it => sized it.2) items -> partial p ->
  parseLoop exec fuel st (render items ++ zeros k ++ p) =
    (let '(st, e) := replay exec st items.*2 in
     (st, match e with None => Ok p | Some e => Err e end)).
Proof.
  intros Hf Hs Hp. revert fuel st Hf. induction Hs as [|[k0 args] items Ha Hs IH]; intros fuel st Hf.
  - cbn [fmap list_fmap replay]. cbn in *. revert fuel Hf. induction k as [|k IHk]; intros fuel Hf.
    + destruct fuel; [cbn in Hf; lia|]. cbn. destruct Hp as (a & q & H1 & H2 & H3).
      rewrite (rc_incomplete a p q H1 H2 H3).
      destruct (partial_head p) as [->|[t ->]]; [by exists a, q|done|done].
    + destruct fuel; [cbn in Hf; lia|]. apply IHk. cbn in Hf. unfold zeros. lia.
  - unfold render in *. cbn in *. fold (render items) in *. rewrite <- !app_assoc in *.
    revert fuel Hf. induction k0 as [|k0 IHk]; intros fuel Hf.
    + destruct fuel; [lia|]. cbn in *. destruct (encode_head args) as [t Ht].
      assert (parseLoop exec (S fuel) st (encode args ++ render items ++ zeros k ++ p) =
        match ReadNextCommand (encode args ++ render items ++ zeros k ++ p) with
        | Err e => (st, Err (Error e))
        | Ok (false, _, data) => (st, Ok data)
        | Ok (true, [], data) => parseLoop exec fuel st data
        | Ok (true, args, data) =>
          match exec st args with
          | (st, Some e) => if commandErrIsFatal e then (st, Err e) else parseLoop exec fuel st data
          | (st, None) => parseLoop exec fuel st data
          end
        end) as E by (rewrite Ht; done).
      etrans; [exact E|]. rewrite rc_complete by done. destruct args as [|a args]; [by destruct Ha|].
      rewrite Ht, !length_app in Hf. cbn in Hf.
      destruct (exec st (a :: args)) as [st' [e|]].
      * destruct (commandErrIsFatal e); [done|]. apply IH. rewrite !length_app. lia.
      * apply IH. rewrite !length_app. lia.
    + destruct fuel; [lia|]. apply IHk. cbn in Hf. unfold zeros in *. lia.
Qed.

Lemma loadLoop_render chunks buf sz st items k p :
  buf ++ concat chunks = render items ++ zeros k ++ p ->
  Forall (fun it => sized it.2) items -> partial p -> partial buf ->
  let '(st', sz', e) := loadLoop exec chunks buf sz st in
  (st', e) = replay exec st items.*2 /\
  (e = None -> sz' = sz + Z.of_nat (length (concat chunks)) - Z.of_nat (length p)).
Proof.
  revert buf sz st items k. induction chunks as [|c chunks IH]; intros buf sz st items k Hd Hs Hp Hb.
  - cbn in Hd. rewrite app_nil_r in Hd. destruct (partial_end items k p buf Hb Hs Hd) as (-> & -> & ->).
    cbn. split; [done|]. intros _. destruct p; cbn; lia.
  - cbn in Hd. rewrite app_assoc in Hd.
    destruct (render_cut _ _ _ _ _ Hd Hs Hp) as (i1 & k1 & p1 & i2 & k2 & E1 & P1 & E2 & Ei & S1 & S2).
    cbn [loadLoop].
    assert ((if (0 <? length buf)%nat then buf ++ c else c) = buf ++ c) as -> by (by destruct buf).
    rewrite E1. rewrite parseLoop_render by (done || lia). rewrite Ei.
    assert (forall l1 l2, replay exec st (l1 ++ l2) =
      let '(st, e) := replay exec st l1 in
      match e with None => replay exec st l2 | Some e => (st, Some e) end) as Happ.
    { clear. intros l1. revert st. induction l1 as [|a l1 IH]; intros st l2; [done|]. cbn.
      destruct (exec st a) as [st' [e|]]; [|apply IH]. destruct (commandErrIsFatal e); [done|apply IH]. }
    rewrite Happ. destruct (replay exec st i1.*2) as [st' [e|]]; [done|].
    specialize (IH p1 (sz + Z.of_nat (length c)) st' i2 k2 E2 S2 Hp P1).
    destruct (loadLoop exec chunks p1 _ st') as [[st2 sz2] e2]. destruct IH as [I1 I2].
    split; [done|]. intros He. rewrite I2 by done. cbn. rewrite length_app. lia.
Qed.
End laws.

(** ** What is written *)

Section written.
Context `{RedconLaws}.

(** [aofsz] counts what the file and the buffer hold. *)
Definition log_ok (l : logState) (bytes : list ascii) : Prop :=
  exists f, aof l = Some f /\ f ++ aofbuf l = bytes /\ aofsz l = Z.of_nat (length bytes).

(** The functions of the package append the same bytes. *)
Lemma redcon_append b args :
  foldl AppendBulkString (AppendArray b (length args)) args = b ++ encode args.
Proof.
  rewrite <- appendCommand_encode, rc_array. unfold appendCommand.
  generalize (b ++ header "*" (length args)). clear b.
  induction args as [|v args IH]; intros b; [done|]. cbn. by rewrite rc_bulk.
Qed.

Lemma writeLog_ok l bytes args u :
  log_ok l bytes ->
  log_ok (writeLog l args u) (if match u with Some u => u | None => true end then bytes ++ encode args else bytes).
Proof.
  intros (f & Ef & Eb & Es). unfold writeLog.
  destruct u as [[]|]; cbn [negb]; [| by exists f|].
  all: set (l1 := if shrinking l then _ else l);
    assert (aof l1 = aof l /\ aofbuf l1 = aofbuf l /\ aofsz l1 = aofsz l) as (E1 & E2 & E3)
      by (unfold l1; by destruct (shrinking l)); clearbody l1.
  all: rewrite E1, Ef, E2, E3; exists f; cbn [aof aofbuf aofsz].
  all: rewrite redcon_append, !length_app, Es, <- Eb, !length_app; (split; [done|]; split; [by rewrite app_assoc|]; lia).
Qed.

Lemma flushAOF_ok l bytes :
  log_ok l bytes -> log_ok (flushAOF l) bytes /\ aof (flushAOF l) = Some bytes /\ aofbuf (flushAOF l) = [].
Proof.
  intros (f & Ef & Eb & Es). unfold flushAOF. rewrite Ef. cbn. rewrite Eb. split; [|done].
  exists bytes. by rewrite app_nil_r.
Qed.

Context {St : Type} (exec : St -> list string -> St * option failure).

(** Loading. *)
Lemma loadAOF_render chunks st items k p :
  concat chunks = render items ++ zeros k ++ p ->
  Forall (fun it => sized it.2) items -> partial p ->
  let '(st', l, e) := loadAOF exec chunks st in
  (st', e) = replay exec st items.*2 /\
  (e = None -> log_ok l (render items ++ zeros k)).
Proof.
  intros Hd Hs Hp. unfold loadAOF.
  pose proof (loadLoop_render exec chunks [] 0 st items k p Hd Hs Hp partial_nil) as Hl.
  destruct (loadLoop exec chunks [] 0 st) as [[st' sz] e]. destruct Hl as [Hl1 Hl2].
  split; [done|]. intros ->. specialize (Hl2 eq_refl).
  assert (sz = Z.of_nat (length (render items ++ zeros k))) as ->.
  { rewrite Hl2, Hd, app_assoc, length_app. lia. }
  eexists. split; [done|]. cbn. rewrite app_nil_r. split; [|done].
  by rewrite Nat2Z.id, Hd, app_assoc, take_app_length.
Qed.

(** C9. Loading a file executes its complete commands, in order and up to the first fatal
    error, in whatever pieces the file is read; zero bytes between commands are skipped;
    an incomplete command at the end is cut off, in the file and in the size counted. *)
Theorem loadAOF_spec chunks st items k p :
  concat chunks = render items ++ zeros k ++ p ->
  Forall (fun it => sized it.2) items -> partial p ->
  let '(st', l, e) := loadAOF exec chunks st in
  (st', e) = replay exec st items.*2 /\
  (e = None -> log_ok l (render items ++ zeros k)).
Proof. apply loadAOF_render. Qed.

(** A prefix of a log: whole commands, then the beginning of the next. *)
Lemma log_cut cmds d lost :
  concat (encode <$> cmds) = d ++ lost ->
  exists done_ rest p, cmds = done_ ++ rest /\ d = concat (encode <$> done_) ++ p /\
    match rest with [] => p = [] | a :: _ => exists q, encode a = p ++ q /\ q <> [] end.
Proof.
  revert d. induction cmds as [|a cmds IH]; intros d Hd.
  - cbn in Hd. symmetry in Hd. apply app_eq_nil in Hd as [-> ->]. by exists [], [], [].
  - cbn in Hd. symmetry in Hd. apply app_eq_inv in Hd as [(z & -> & Hz)|(y & Hy & ->)].
    + destruct (IH z Hz) as (d1 & rest & p & -> & -> & Hp).
      exists (a :: d1), rest, p. cbn. by rewrite <- app_assoc.
    + destruct y as [|c y].
      * rewrite app_nil_r in Hy. destruct (IH [] eq_refl) as (d1 & rest & p & -> & E & Hp).
        symmetry in E. apply app_eq_nil in E as [E ->].
        exists (a :: d1), rest, []. cbn. by rewrite E, !app_nil_r.
      * exists [], (a :: cmds), d. eauto.
Qed.

(** Whatever part of the written log survives a crash: it holds a number of whole
    commands and perhaps the beginning of one more, loading it executes these whole
    commands and no other, and leaves a log of exactly these. *)
Lemma crash_recovery cmds chunks lost st :
  concat (encode <$> cmds) = concat chunks ++ lost -> Forall sized cmds ->
  exists kept rest, cmds = kept ++ rest /\
    (length (concat (encode <$> kept)) <= length (concat chunks))%nat /\
    match rest with
    | [] => concat chunks = concat (encode <$> kept)
    | next :: _ => (length (concat chunks) < length (concat (encode <$> kept ++ [next])))%nat
    end /\
    let '(st', l, e) := loadAOF exec chunks st in
    (st', e) = replay exec st kept /\ (e = None -> log_ok l (concat (encode <$> kept))).
Proof.
  intros Hc Hs. destruct (log_cut _ _ _ Hc) as (kept & rest & p & -> & Ed & Hp).
  apply Forall_app in Hs as [Hs1 Hs2]. exists kept, rest. split; [done|].
  split; [rewrite Ed, length_app; lia|]. split.
  { destruct rest as [|a rest]; [by rewrite Ed, Hp, app_nil_r|]. destruct Hp as (q & Hq & Hn).
    rewrite Ed, fmap_app, concat_app, !length_app. cbn. rewrite app_nil_r, Hq, length_app.
    destruct q; [done|]. cbn. lia. }
  assert (partial p) as Hpp.
  { destruct rest as [|a rest]; [subst p; apply partial_nil|]. destruct Hp as (q & Hq & Hn).
    exists a, q. inversion Hs2; subst. done. }
  assert (render ((fun c => (0%nat, c)) <$> kept) = concat (encode <$> kept)) as Er.
  { unfold render. rewrite <- list_fmap_compose. done. }
  pose proof (loadAOF_render chunks st ((fun c => (0%nat, c)) <$> kept) 0 p) as Hl.
  rewrite Er, app_nil_r in Hl. rewrite <- list_fmap_compose in Hl.
  assert ((snd ∘ (fun c : list string => (0%nat, c))) <$> kept = kept) as Ek by apply list_fmap_id.
  rewrite Ek in Hl. apply Hl; [done| |done]. by apply Forall_fmap.
Qed.
End written.

(** ** A reader with these laws *)

Module Resp.

Inductive read (A : Type) := Got (a : A) (rest : list ascii) | More | Bad.
Arguments Got {A}.
Arguments More {A}.
Arguments Bad {A}.

Definition read_bind {A B} (r : read A) (k : A -> list ascii -> read B) : read B :=
  match r with Got a rest => k a rest | More => More | Bad => Bad end.

(** The bytes before the first line end. *)
Fixpoint line (b : list ascii) : option (list ascii * list ascii) :=
  match b with
  | [] => None
  | c :: b' =>
    if (c =? chr 13)%char then
      match b' with
      | d :: rest => if (d =? chr 10)%char then Some ([], rest) else None
      | [] => None
      end
    else match line b' with Some (l, rest) => Some (c :: l, rest) | None => None end
  end.

Definition number (c0 : ascii) (b : list ascii) : read Z :=
  match b with
  | [] => More
  | c :: b =>
    if (c =? c0)%char then
      match line b with
      | None => More
      | Some (ds, rest) => match ParseInt (string_of ds) with Some n => Got n rest | None => Bad end
      end
    else Bad
  end.

Definition value (b : list ascii) : read string :=
  read_bind (number "$" b) (fun n b =>
    let k := Z.to_nat n in
    if (length b <? k + 2)%nat then More else Got (string_of (take k b)) (drop (k + 2) b)).

Fixpoint values (n : nat) (b : list ascii) : read (list string) :=
  match n with
  | O => Got [] b
  | S n => read_bind (value b) (fun v b => read_bind (values n b) (fun vs b => Got (v :: vs) b))
  end.

Definition next (b : list ascii) : result string (bool * list string * list ascii) :=
  match read_bind (number "*" b) (fun n b => values (Z.to_nat n) b) with
  | Got vs rest => Ok (true, vs, rest)
  | More => Ok (false, [], b)
  | Bad => Err "Protocol error"
  end.

#[global] Instance reader : Redcon := {|
  AppendArray := fun b n => b ++ header "*" n;
  AppendBulkString := fun b v => b ++ bulk v;
  ReadNextCommand := next |}.

Definition plain (ds : list ascii) : Prop := Forall (fun c => (c =? chr 13)%char = false) ds.

Lemma line_plain ds rest : plain ds -> line (ds ++ crlf ++ rest) = Some (ds, rest).
Proof. induction 1 as [|c ds Hc _ IH]; [done|]. cbn [app line]. by rewrite Hc, IH. Qed.

Lemma line_prefix ds p q : plain ds -> ds ++ crlf = p ++ q -> q <> [] -> line p = None.
Proof.
  intros Hds. revert p. induction Hds as [|c ds Hc _ IH]; intros p Hp Hq.
  - destruct p as [|c [|d p]]; [done| |].
    + cbn in Hp. by injection Hp as <- _.
    + cbn in Hp. injection Hp as <- <- Hp. destruct p; [by destruct q|done].
  - destruct p as [|c' p]; [done|]. cbn in Hp. injection Hp as <- Hp.
    cbn [line]. by rewrite Hc, (IH p Hp Hq).
Qed.

Lemma digits_plain n : 0 <= n -> plain (bytes_of (FormatInt n)).
Proof.
  intros Hn. unfold FormatInt. destruct (Z.ltb_spec n 0); [lia|].
  eapply Forall_impl; [|exact (FormatUint_digits n Hn)]. intros c Hc.
  destruct (Ascii.eqb_spec c (chr 13)) as [->|]; done.
Qed.

Lemma number_header c n rest :
  is_int64 (Z.of_nat n) -> number c (header c n ++ rest) = Got (Z.of_nat n) rest.
Proof.
  intros Hn. cbn [header app number]. rewrite Ascii.eqb_refl, <- app_assoc.
  rewrite line_plain by (apply digits_plain; lia). by rewrite string_of_bytes, Parse_FormatInt.
Qed.

Lemma number_prefix c n p q : header c n = p ++ q -> q <> [] -> number c p = More.
Proof.
  intros Hp Hq. destruct p as [|c' p]; [done|]. cbn in Hp. injection Hp as <- Hp.
  cbn. rewrite Ascii.eqb_refl. rewrite (line_prefix (bytes_of (FormatInt (Z.of_nat n))) p q); [done| |done|done].
  apply digits_plain. lia.
Qed.

Lemma value_bulk v rest :
  is_int64 (Z.of_nat (String.length v)) -> value (bulk v ++ rest) = Got v rest.
Proof.
  intros Hv. unfold value, bulk. rewrite <- !app_assoc, number_header by done. cbn [read_bind].
  rewrite Nat2Z.id, <- length_bytes_of, !length_app.
  destruct (Nat.ltb_spec (length (bytes_of v) + (length crlf + length rest)) (length (bytes_of v) + 2)) as [Hl|_];
    [cbn in Hl; lia|].
  rewrite take_app_length, string_of_bytes. f_equal.
  rewrite <- drop_drop, drop_app_length. done.
Qed.

Lemma value_prefix v p q :
  is_int64 (Z.of_nat (String.length v)) -> bulk v = p ++ q -> q <> [] -> value p = More.
Proof.
  intros Hv Hp Hq. unfold bulk in Hp. symmetry in Hp.
  apply app_eq_inv in Hp as [(z & -> & Hz)|(y & Hy & _)].
  - unfold value. rewrite number_header by done. cbn [read_bind].
    rewrite Nat2Z.id, <- length_bytes_of. apply (f_equal length) in Hz.
    rewrite !length_app in Hz. cbn in Hz. destruct q; [done|]. cbn in Hz.
    destruct (Nat.ltb_spec (length z) (length (bytes_of v) + 2)); [done|lia].
  - unfold value. destruct y as [|c y].
    + rewrite app_nil_r in Hy. subst p. rewrite <- (app_nil_r (header _ _)), number_header by done.
      cbn [read_bind]. rewrite Nat2Z.id. cbn. by destruct (String.length v).
    + by rewrite (number_prefix _ _ _ _ Hy).
Qed.

Lemma values_bulks vs rest :
  Forall (fun v => is_int64 (Z.of_nat (String.length v))) vs ->
  values (length vs) (concat (bulk <$> vs) ++ rest) = Got vs rest.
Proof.
  induction 1 as [|v vs Hv _ IH]; [done|]. cbn [length values fmap list_fmap concat]. rewrite <- app_assoc, value_bulk by done.
  cbn [read_bind]. by rewrite IH.
Qed.

Lemma values_prefix vs p q :
  Forall (fun v => is_int64 (Z.of_nat (String.length v))) vs ->
  concat (bulk <$> vs) = p ++ q -> q <> [] -> values (length vs) p = More.
Proof.
  intros Hvs. revert p. induction Hvs as [|v vs Hv _ IH]; intros p Hp Hq.
  - cbn in Hp. symmetry in Hp. by apply app_eq_nil in Hp as [_ ->].
  - cbn [fmap list_fmap concat] in Hp. symmetry in Hp. cbn [length values].
    apply app_eq_inv in Hp as [(z & -> & Hz)|(y & Hy & Hy')].
    + rewrite value_bulk by done. cbn [read_bind]. by rewrite (IH z Hz Hq).
    + destruct y as [|c y].
      * rewrite app_nil_r in Hy. subst p. rewrite <- (app_nil_r (bulk v)), value_bulk by done.
        cbn [read_bind]. by rewrite (IH [] (eq_sym Hy') Hq).
      * by rewrite (value_prefix v p _ Hv Hy).
Qed.

#[global] Instance reader_laws : RedconLaws.
Proof.
  split; [done|done| |].
  - intros args rest (Hn & Hl & Hv). cbn. unfold next, encode. rewrite appendCommand_eq. cbn [app].
    rewrite <- app_assoc, number_header by done. cbn [read_bind].
    by rewrite Nat2Z.id, values_bulks.
  - intros args p q (Hn & Hl & Hv) Hp Hq. cbn. unfold next. unfold encode in Hp.
    rewrite appendCommand_eq in Hp. cbn [app] in Hp. symmetry in Hp.
    assert (read_bind (number "*" p) (fun n b => values (Z.to_nat n) b) = More) as ->; [|done].
    apply app_eq_inv in Hp as [(z & -> & Hz)|(y & Hy & Hy')].
    + rewrite number_header by done. cbn [read_bind]. rewrite Nat2Z.id. by apply (values_prefix args z q).
    + destruct y as [|c y].
      * rewrite app_nil_r in Hy. subst p. rewrite <- (app_nil_r (header _ _)), number_header by done.
        cbn [read_bind]. rewrite Nat2Z.id. by apply (values_prefix args [] q).
      * by rewrite (number_prefix _ _ _ _ Hy).
Qed.
End Resp.

Module AofExample.
Import Resp.

(** Executing a command notes it. *)
Definition note (st : list (list string)) (args : list string) : list (list string) * option failure :=
  (st ++ [args], None).

(** Two commands, zero bytes before the second, and the beginning of a third, in two pieces. *)
Definition items : list (nat * list string) := [(0%nat, ["DROP"; "fleet"]); (3%nat, ["FLUSHDB"])].
Definition tail_ : list ascii := take 9 (encode ["DROP"; "k"]).
Definition file : list ascii := render items ++ zeros 1 ++ tail_.

Lemma loadAOF_spec_witness :
  (loadAOF note [take 20 file; drop 20 file] []).1.1 = [["DROP"; "fleet"]; ["FLUSHDB"]].
Proof.
  pose proof (loadAOF_spec note [take 20 file; drop 20 file] [] items 1 tail_) as Hl.
  destruct (loadAOF note _ []) as [[st l] e].
  destruct Hl as [Hl _]; [by vm_compute|by repeat constructor|..].
  - exists ["DROP"; "k"], (drop 9 (encode ["DROP"; "k"])). split_and!; [by repeat constructor|by vm_compute|done].
  - by injection Hl.
Defined.
End AofExample.
