(* ===== verification/Replay.v ===== *)
(** * The log and the data set

    A server that serves requests ([handleInputCommand]) and expires objects in the
    background keeps a log of the commands that changed something. Run on the reference
    semantics the log gives the data set of the server, at every moment; loaded by
    [loadAOF] into a fresh server it gives it back, at whatever time and in whatever
    pieces the file is read, and a crash loses only commands at the end of the log. This is
    for a server without hooks, and for requests other than JDEL, which the code leaves out
    of the log. *)

From Stdlib Require Import Ascii String ZArith Lia Bool SpecFloat.
From stdpp Require Import base list strings option sorting sets gmap.
From S2P Require Import Prelude GoStd Strconv Glob GlobFacts Json Containers Field FieldList.
From S2P Require Import FieldBinary Geo Object Collection CollectionScan Group World Hooks Crud.
From S2P Require Import CrudFacts JsonCmd Keys Command Dataset Aof.

Local Open Scope Z_scope.

Section replay.
Context `{WorldLaws}.
Abbreviation aobj := (geometry wG * list Field)%type.
Abbreviation adb := (gmap string (gmap string aobj)).
Implicit Types (s t : Server) (msg : Message) (ck : clock) (m : adb) (log : list (list string)).

(** What happens to a server. *)
Inductive event :=
| Request (cf : config) (msg : Message) (ck : clock)
| ExpireTick (ck : clock).

Definition serve (x : option (Server * list (list string))) (ev : event)
    : option (Server * list (list string)) :=
  match x with
  | None => None
  | Some (s, log) =>
    match ev with
    | Request cf msg ck =>
      match handleInputCommand cf s log msg ck with
      | Some (s, log, _) => Some (s, log)
      | None => None
      end
    | ExpireTick ck =>
      backgroundExpireObjects (fun log args d => Some (writeAOF log args d)) s log ck
    end
  end.

(** A log on the reference semantics. *)
Definition aexecs (m : adb) log : result failure adb :=
  foldl (fun r args => rbind r (fun m => aexec m args)) (Ok m) log.

(** JDEL is left out: it is not logged. *)
Definition event_ok (ev : event) : Prop :=
  match ev with
  | Request _ msg _ => msg_ok msg /\ match Args msg with c :: _ => kw c "jdel" = false | [] => True end
  | ExpireTick _ => True
  end.

Lemma aexecs_app m l1 l2 : aexecs m (l1 ++ l2) = rbind (aexecs m l1) (fun m => aexecs m l2).
Proof.
  unfold aexecs. rewrite foldl_app. destruct (foldl _ (Ok m) l1) as [m1|e]; [done|]. cbn [rbind].
  induction l2 as [|a l2 IH]; [done|]. exact IH.
Qed.

(** The entries of a log. *)
Definition logged (args : list string) : Prop :=
  exists c rest, args = c :: rest /\ isWrite c = true /\ msg_ok (mkMessage args OutOther None).

(** What every step keeps: the log denotes the data set. *)
Record denotes s log : Prop := {
  dn_quiet : quiet s;
  dn_log : aexecs ∅ log = Ok (dataset s);
  dn_entries : Forall logged log;
}.

(** Commands that are neither logged nor JDEL do not touch the server. *)
Lemma command_reads s msg ck c rest s' r :
  Args msg = c :: rest -> isWrite c = false -> kw c "jdel" = false ->
  command s msg ck = Some (s', r) -> s' = s.
Proof.
  intros Ha Hw Hj. unfold isWrite in Hw. cbn [existsb] in Hw. unfold command. rewrite Ha.
  repeat (apply orb_false_iff in Hw as [? Hw]).
  repeat match goal with E : kw c ?w = false |- _ => rewrite E; clear E end. cbn [orb].
  repeat (match goal with |- context [if kw ?a ?w then _ else _] => destruct (kw a w) end;
    [by intros [= <- _]|]). done.
Qed.

Lemma msg_ok_output args out out' :
  msg_ok (mkMessage args out None) -> msg_ok (mkMessage args out' None).
Proof. done. Qed.

Lemma denotes_write s log msg ck c rest s' r :
  denotes s log -> parses_ok -> msg_ok msg -> Args msg = c :: rest -> isWrite c = true ->
  command s msg ck = Some (s', r) ->
  oom s' = oom s /\
  denotes s' (match r with Ok (_, d) => writeAOF log (Args msg) d | Err _ => log end).
Proof.
  intros [Hq Hl He] Hp Hm Ha Hw Hc.
  destruct (command_refines_ s msg ck c rest _ Hq Hp Hm Ha Hw Hc) as (Q & O & R). cbn [fst snd] in *.
  split; [done|]. destruct r as [[v d]|e].
  - destruct R as [R1 R2]. unfold writeAOF. destruct (d_updated (detail d)); cbn [negb].
    + split; [done| |].
      * rewrite aexecs_app, Hl. cbn. by rewrite R1.
      * apply Forall_app. split; [done|]. constructor; [|constructor]. exists c, rest.
        split_and!; [done..|]. destruct msg as [args out dl]. cbn in Ha. destruct Hm as [Hd Hm].
        cbn in Hd, Hm. by subst dl.
    + split; [done| |done]. by rewrite R2.
  - destruct R as [R1 _]. split; [done| |done]. by rewrite R1.
Qed.

(** Background expiration is a sequence of DELs. *)
Lemma delMsg_ok ki : msg_ok (delMsg ki).
Proof. split; [done|]. cbn. done. Qed.

Lemma denotes_dels s log l ck s' log' :
  denotes s log -> parses_ok ->
  foldl (runMsgs cmdDEL (fun log args d => Some (writeAOF log args d)) ck) (Some (s, log)) (delMsg <$> l) =
    Some (s', log') ->
  oom s' = oom s /\ denotes s' log'.
Proof.
  intros Hd Hp. revert s log Hd. induction l as [|ki l IH]; intros s log Hd.
  { cbn. by intros [= <- <-]. }
  cbn [fmap list_fmap foldl]. unfold runMsgs at 2.
  assert (command s (delMsg ki) ck = Some (cmdDEL s (delMsg ki) ck)) as Hc by done.
  destruct (cmdDEL s (delMsg ki) ck) as [s1 [[v d]|e]].
  - destruct (denotes_write s log (delMsg ki) ck "del" [ki.1; ki.2] s1 _ Hd Hp (delMsg_ok ki)
      eq_refl eq_refl Hc) as [O1 D1].
    intros Hf. destruct (IH s1 _ D1 Hf) as (O2 & D2). split; [congruence|done].
  - by rewrite foldl_None.
Qed.

Lemma denotes_step s log ev s' log' :
  denotes s log -> parses_ok -> event_ok ev -> serve (Some (s, log)) ev = Some (s', log') ->
  oom s' = oom s /\ denotes s' log'.
Proof.
  intros Hd Hp Hev. destruct ev as [cf msg ck|ck]; cbn [serve].
  - destruct Hev as [Hm Hj]. unfold handleInputCommand.
    destruct (Args msg) as [|c rest] eqn:Ea; [done|].
    destruct (isWrite c && negb (followHost cf =s "")); [by intros [= <- <-]|].
    destruct (isWrite c && readOnly cf); [by intros [= <- <-]|].
    destruct (isRead c && _ && _); [by intros [= <- <-]|].
    destruct (isWrite c && is_some _); [by intros [= <- <-]|].
    destruct (command s msg ck) as [[s1 r]|] eqn:Ec; [|done]. destruct (isWrite c) eqn:Ew.
    + destruct (denotes_write s log msg ck c rest s1 r Hd Hp Hm Ea Ew Ec) as [O D].
      rewrite Ea in D. destruct r as [[v d]|e]; by intros [= <- <-].
    + rewrite (command_reads s msg ck c rest s1 r Ea Ew Hj Ec).
      destruct r as [[v d]|e]; by intros [= <- <-].
  - unfold backgroundExpireObjects. rewrite expiredObjects_msgs. by apply denotes_dels.
Qed.

Lemma serve_denotes s log evs s' log' :
  denotes s log -> parses_ok -> Forall event_ok evs ->
  foldl serve (Some (s, log)) evs = Some (s', log') -> oom s' = oom s /\ denotes s' log'.
Proof.
  intros Hd Hp Hev. revert s log Hd. induction Hev as [|ev evs He Hev IH]; intros s log Hd.
  { by intros [= <- <-]. }
  cbn [foldl]. destruct (serve (Some (s, log)) ev) as [[s1 log1]|] eqn:E.
  - destruct (denotes_step s log ev s1 log1 Hd Hp He E) as [O1 D1].
    intros Hf. destruct (IH s1 log1 D1 Hf) as [O2 D2]. split; [congruence|done].
  - intros Hf. exfalso. revert Hf. clear. induction evs as [|e evs IH]; [done|exact IH].
Qed.

Lemma newServer_denotes mm : denotes (newServer mm) [].
Proof.
  split; [split; [apply newServer_ok|apply bt_items_new]| |constructor].
  cbn. f_equal. unfold dataset, newServer. cbn [cols]. by rewrite sm_items_empty.
Qed.

(** ** Loading a log into a server *)

(** [s.command] as [loadAOF] calls it; the [n]-th call reads the clock [clk n]. *)
Definition execCmd (clk : nat -> clock) (x : Server * nat) (args : list string)
    : Server * nat * option failure :=
  let '(t, n) := x in
  match command t (mkMessage args OutOther None) (clk n) with
  | Some (t, Ok _) => ((t, S n), None)
  | Some (t, Err e) => ((t, S n), Some e)
  | None => ((t, S n), Some (Error "unknown command"))
  end.

(** The handlers of the write commands a server without SETHOOK logs. *)
Lemma command_some s args c rest ck :
  args = c :: rest -> aexec (dataset s) args <> Err (Error "not a write command") ->
  is_some (command s (mkMessage args OutOther None) ck) = true.
Proof.
  intros ->. unfold command, aexec. cbn [Args].
  repeat match goal with |- context [if ?b then _ else _] => destruct b; [done|] end.
  intros Hn. by destruct Hn.
Qed.

Lemma replay_log clk t n log m :
  quiet t -> oom t = false -> parses_ok -> Forall logged log ->
  aexecs (dataset t) log = Ok m ->
  exists t' n', replay (execCmd clk) (t, n) log = ((t', n'), None) /\ quiet t' /\ dataset t' = m.
Proof.
  intros Hq Ho Hp Hl. revert t n Hq Ho. induction Hl as [|args log Ha Hl IH]; intros t n Hq Ho Hm.
  { injection Hm as <-. by exists t, n. }
  assert (aexecs (dataset t) ([args] ++ log) = Ok m) as Hm' by done.
  rewrite aexecs_app in Hm'. cbn in Hm'.
  destruct (aexec (dataset t) args) as [m1|e] eqn:Ea; [|done]. cbn [rbind] in Hm'.
  destruct Ha as (c & rest & Ec & Hw & Hmsg).
  pose proof (command_some t args c rest (clk n) Ec) as Hs. rewrite Ea in Hs. specialize (Hs ltac:(done)).
  cbn [replay execCmd]. destruct (command t (mkMessage args OutOther None) (clk n)) as [[t1 r]|] eqn:Et; [|done].
  destruct (command_refines_ t _ (clk n) c rest _ Hq Hp Hmsg Ec Hw Et) as (Q & O & R). cbn [fst snd Args] in *.
  rewrite Ea in R.
  assert (dataset t1 = m1 -> exists t' n', replay (execCmd clk) (t1, S n) log = ((t', n'), None) /\
    quiet t' /\ dataset t' = m) as Hnext.
  { intros <-. apply IH; [done|congruence|done]. }
  destruct r as [[v d]|e].
  - destruct R as [[= R1] _]. by apply Hnext.
  - destruct R as [R1 R2]. destruct (R2 eq_refl Ho m1 eq_refl) as [-> ->]. by apply Hnext.
Qed.

(** C2. At every moment the log of a server, run on the reference semantics from the empty
    data set, gives the data set of the server, that is, the geometry and the fields of
    every object; and the server is consistent. The server starts empty and serves any
    sequence of the modelled requests and of rounds of background expiration, with two
    exceptions: JDEL, which the code does not log ([jdel_unlogged]), and SETHOOK and
    SETCHAN, so it has no hooks. The log is the one [writeAOF] appends to, before
    [aofshrink] rewrites it, and no geometry that is set has a NaN in its box. *)
Theorem log_denotes mm evs s log :
  parses_ok -> Forall event_ok evs ->
  foldl serve (Some (newServer mm, [])) evs = Some (s, log) ->
  server_ok s /\ aexecs ∅ log = Ok (dataset s).
Proof.
  intros Hp Hev Hs. destruct (serve_denotes _ _ evs s log (newServer_denotes mm) Hp Hev Hs) as [_ [Q L _]].
  split; [apply Q|done].
Qed.

Context `{!Redcon} `{!RedconLaws}.

(** C1. Durability, for the requests and the log of [log_denotes] (modelled commands other
    than JDEL, no hooks, a log that was not rewritten): whatever part of the log file is on
    disk after a crash, and in whatever pieces and at whatever times it is read back,
    loading it into a fresh server succeeds; it gives the data set of a prefix of the
    logged commands, as long as the part on disk allows; the log is cut to this prefix;
    and if all of it is on disk, the data set is that of the server before the crash. The
    arguments of the commands are of a size that fits the length fields of the file. *)
Theorem durability mm mm' evs s log clk chunks lost :
  parses_ok -> Forall event_ok evs -> Forall sized log ->
  foldl serve (Some (newServer mm, [])) evs = Some (s, log) ->
  concat (encode <$> log) = concat chunks ++ lost ->
  exists kept rest t n l,
    loadAOF (execCmd clk) chunks (newServer mm', 0%nat) = ((t, n), l, None) /\
    log = kept ++ rest /\
    match rest with
    | [] => concat chunks = concat (encode <$> log)
    | next :: _ => (length (concat chunks) < length (concat (encode <$> kept ++ [next])))%nat
    end /\
    server_ok t /\ aexecs ∅ kept = Ok (dataset t) /\ log_ok l (concat (encode <$> kept)) /\
    (lost = [] -> dataset t = dataset s).
Proof.
  intros Hp Hev Hsz Hs Hc.
  destruct (serve_denotes _ _ evs s log (newServer_denotes mm) Hp Hev Hs) as [_ [_ L E]].
  destruct (crash_recovery (execCmd clk) log chunks lost (newServer mm', 0%nat) Hc Hsz)
    as (kept & rest & -> & Hle & Hn & Hl).
  destruct (newServer_denotes mm') as [Q0 L0 _].
  assert (dataset (newServer mm') = ∅) as E0 by (cbn in L0; congruence).
  rewrite aexecs_app in L. destruct (aexecs ∅ kept) as [mk|] eqn:Ek; [|done]. cbn [rbind] in L.
  apply Forall_app in E as [E1 _].
  destruct (replay_log clk (newServer mm') 0 kept mk Q0) as (t & n & Hr & Qt & <-); [|done|done|by rewrite E0|].
  { unfold oom. cbn. apply andb_false_r. }
  rewrite Hr in Hl. destruct (loadAOF _ chunks _) as [[x l] e]. destruct Hl as [[= -> ->] Hl].
  exists kept, rest, t, n, l. split; [done|]. split; [done|]. split.
  { destruct rest; [by rewrite app_nil_r|done]. }
  split; [apply Qt|]. split; [done|]. split; [by apply Hl|].
  intros ->. rewrite app_nil_r in Hc. destruct rest as [|a rest].
  - cbn in L. congruence.
  - exfalso. rewrite <- Hc, !fmap_app, !concat_app, !length_app in Hn. cbn in Hn.
    rewrite app_nil_r in Hn. rewrite length_app in Hn. lia.
Qed.
End replay.

(** ** Witnesses *)

Module ReplayExample.
Import ExampleWorld CrudExample KeysExample DatasetExample.
#[local] Existing Instance world.
#[local] Existing Instance world_laws.

Definition cf : config := mkConfig "" false true.
Definition setZone : Message := ask ["SET"; "fleet"; "zone"; "OBJECT"; "box"].
(** A point, a text, a parsed geometry, an object that expires, a deletion, and a round of
    expiration that removes an object. *)
Definition evs : list event :=
  [Request cf setTruck ck; Request cf setBus ck; Request cf setZone ck; Request cf setVan ck;
   Request cf (ask ["DEL"; "fleet"; "truck"]) ck; ExpireTick later].
Definition ran : option (Server * list (list string)) := foldl serve (Some (newServer 0, [])) evs.
Definition log : list (list string) :=
  [Args setTruck; Args setBus; Args setZone; Args setVan; ["DEL"; "fleet"; "truck"]; ["del"; "fleet"; "van"]].

Lemma ran_log : snd <$> ran = Some log.
Proof. by vm_compute. Qed.
Lemma ran_some : exists s, ran = Some (s, log).
Proof.
  pose proof ran_log as E. destruct ran as [[s l]|]; [|discriminate E].
  injection E as ->. by exists s.
Qed.

(** A message whose geometry is sound when the one of its parsed arguments is. *)
Lemma parsed_ok args out so g :
  setLoop (length args) args 0 3 noSetOpts = Ok so -> so_obj so = Some g -> geom_ok g = true ->
  msg_ok (mkMessage args out None).
Proof.
  intros E Eg Hg. split; [done|]. cbn [Args]. destruct args as [|c rest]; [done|]. intros _ so' g' E' Eg'.
  cbn [Args] in E'. congruence.
Qed.

Definition opts_of0 (m : Message) : setOpts :=
  match setLoop (length (Args m)) (Args m) 0 3 noSetOpts with Ok so => so | Err _ => noSetOpts end.

Lemma setLoop_opts m :
  match setLoop (length (Args m)) (Args m) 0 3 noSetOpts with Ok _ => true | Err _ => false end = true ->
  setLoop (length (Args m)) (Args m) 0 3 noSetOpts = Ok (opts_of0 m).
Proof. unfold opts_of0. by destruct (setLoop _ _ _ _ _). Qed.

Lemma evs_ok : Forall event_ok evs.
Proof.
  assert (msg_ok setTruck) as H1.
  { apply (parsed_ok _ _ (opts_of setTruck) (geom_of setTruck));
      [reflexivity|reflexivity|apply setTruck_geom]. }
  pose proof setBus_msg as H2.
  assert (msg_ok setZone) as H3.
  { apply (parsed_ok _ _ (opts_of setZone) (geom_of setZone)); [reflexivity|reflexivity|by vm_compute]. }
  assert (msg_ok setVan) as H4.
  { apply (parsed_ok _ _ (opts_of0 setVan) (Str "late")); [|reflexivity|reflexivity].
    apply (setLoop_opts setVan). by vm_compute. }
  repeat constructor; try done; try apply H1; try apply H3; try apply H4; apply H2.
Qed.

Lemma log_denotes_witness :
  exists s, ran = Some (s, log) /\ server_ok s /\ aexecs ∅ log = Ok (dataset s).
Proof.
  destruct ran_some as [s E]. exists s. split; [exact E|].
  exact (log_denotes 0 evs s log box_parse evs_ok E).
Defined.

Definition bytes : list ascii := concat (encode <$> log).
(** The log without its last ten bytes, in three pieces. *)
Definition pieces : list (list ascii) :=
  [take 7 bytes; drop 7 (take 60 bytes); drop 60 (take (length bytes - 10) bytes)].
Definition cut : list ascii := drop (length bytes - 10) bytes.

Lemma durability_witness :
  exists kept rest t n l,
    loadAOF (execCmd (fun _ => ck)) pieces (newServer 0, 0%nat) = ((t, n), l, None) /\
    log = kept ++ rest /\ server_ok t /\ aexecs ∅ kept = Ok (dataset t).
Proof.
  destruct ran_some as [s E].
  destruct (durability 0 0 evs s log (fun _ => ck) pieces cut box_parse evs_ok) as
    (kept & rest & t & n & l & D1 & D2 & _ & D3 & D4 & _).
  - repeat constructor; done.
  - exact E.
  - apply (bool_decide_unpack _). by vm_compute.
  - exists kept, rest, t, n, l. split_and!; assumption.
Defined.
End ReplayExample.
