(* ===== verification/Shrink.v ===== *)
(** * Rewriting the log ([src/internal/legacy/server/aofshrink.go])

    [aofshrink] writes a new log that sets every object of the data set, reading keys and
    objects in batches, and appends what was logged meanwhile. Each batch is one step here,
    taken under the lock of the server; between two steps the server may change, so a run
    is a list of the servers, and times, the steps see. *)

From Stdlib Require Import Ascii String ZArith Lia Bool SpecFloat.
From stdpp Require Import base list strings option sorting sets gmap.
From S2P Require Import Prelude GoStd Strconv Glob GlobFacts Json Containers Field FieldList.
From S2P Require Import FieldBinary Geo Object Collection CollectionScan Group World Hooks Crud.
From S2P Require Import CrudFacts JsonCmd Keys Command Dataset Aof Replay.

Local Open Scope Z_scope.

(** [strconv.FormatFloat(f, 'f', 1, 64)]: rounded to the nearest tenth, ties to even. *)
Definition FormatFloat1 (f : float64) : string :=
  match f with
  | S754_nan => "NaN"
  | S754_infinity false => "+Inf"
  | S754_infinity true => "-Inf"
  | S754_zero s => (if s then "-" else "") +:+ "0.0"
  | S754_finite s m e =>
    let '(num, den) := if 0 <=? e then (Z.pos m * 2 ^ e, 1) else (Z.pos m, 2 ^ (- e)) in
    let q := num * 10 / den in
    let r := 2 * (num * 10 mod den) in
    let d := if (den <? r) || ((r =? den) && Z.odd q) then q + 1 else q in
    (if s then "-" else "") +:+ fixedPoint d (-1)
  end.

Example format1 : FormatFloat1 (ParseFloat "12.25").1 = "12.2" /\ FormatFloat1 (ParseFloat "0.96").1 = "1.0".
Proof. by vm_compute. Qed.

(** [time.Time.Sub], the difference of two times, saturates. *)
Definition Duration (d : Z) : Z := Z.max (- 2 ^ 63) (Z.min (2 ^ 63 - 1) d).

(** [strings.Join] *)
Fixpoint Join (l : list string) (sep : string) : string :=
  match l with
  | [] => ""
  | [x] => x
  | x :: l => x +:+ sep +:+ Join l sep
  end.

Definition maxkeys : nat := 8.
Definition maxids : nat := 32.

Section shrink.
Context `{World}.
Implicit Types (s : Server) (o : Object wG).

Definition tenth : float64 := (ParseFloat "0.1").1.
Definition ten : float64 := f64_of_Z 10.

(** The remaining seconds, to a tenth, and never less than a tenth. *)
Definition shrinkTTL (now : Z) o : float64 :=
  let ttl := f64_div (f64_floor (f64_mul (f64_div (f64_of_Z (int64 (Expires o - now))) second) ten)) ten in
  if f64_lt ttl tenth then tenth else ttl.

Definition fieldArgs (fs : list Field) : list string :=
  flat_map (fun f => if IsZero (value f) then [] else ["field"; name f; value_JSON (value f)]) fs.

(** The command that sets an object again. *)
Definition shrinkSet (now : Z) (key : string) o : list string :=
  ["set"; key; ID o] ++ fieldArgs (Fields o) ++
  (if Expires o =? 0 then [] else ["ex"; FormatFloat (shrinkTTL now o)]) ++
  (if IsSpatial (Geo o) then ["object"; JSON (Geo o)] else ["string"; StringOf (Geo o)]).

(** One batch of keys: the keys, the next one, and whether these are all. *)
Definition keyIter {A} (x : list string * string * bool) (kv : string * A)
    : list string * string * bool * bool :=
  let '(keys, nextkey, keysdone) := x in
  if (length keys =? maxkeys)%nat then ((keys, kv.1, false), false)
  else ((keys ++ [kv.1], nextkey, keysdone), true).

(** One batch of objects. *)
Record idBatch := mkIdBatch {
  ib_count : nat; ib_next : string; ib_done : bool; ib_out : list (list string) }.

Definition idIter (now : Z) (key : string) (x : idBatch) o : idBatch * bool :=
  if (ib_count x =? maxids)%nat then (mkIdBatch (ib_count x) (ID o) false (ib_out x), false)
  else (mkIdBatch (ib_count x + 1) (ib_next x) (ib_done x) (ib_out x ++ [shrinkSet now key o]), true).

(** The variables of the two loops, and the commands written so far. *)
Record shrinkState := mkShrink {
  sh_keys : list string; sh_nextkey : string; sh_keysdone : bool;
  sh_nextid : string; sh_idsdone : bool; sh_out : list (list string) }.

Definition shrinkInit : shrinkState := mkShrink [] "" false "" false [].

(** One round, under the lock; [None] after the last. *)
Definition shrinkStep (now : Z) s (x : shrinkState) : option shrinkState :=
  let '(mkShrink keys nextkey keysdone nextid idsdone out) := x in
  match keys with
  | [] =>
    if keysdone then None
    else
      let '(keys, nextkey, keysdone) :=
        iter_while keyIter ([], nextkey, true) (sm_ascend (cols s) nextkey) in
      Some (mkShrink keys nextkey keysdone "" false out)
  | key :: keys' =>
    if idsdone then Some (mkShrink keys' nextkey keysdone "" false out)
    else
      match sm_get (cols s) key with
      | None => Some (mkShrink keys nextkey keysdone nextid true out)
      | Some col =>
        let b := st (ScanGreaterOrEqual col nextid false None None (idIter now key)
                       (mkIdBatch 0 nextid true out)) in
        Some (mkShrink keys nextkey keysdone (ib_next b) (ib_done b) (ib_out b))
      end
  end.

(** The rounds on the servers they see; [None] if these are too few. *)
Fixpoint shrinkTrace (ss : list (Z * Server)) (x : shrinkState) : option (list (list string)) :=
  match ss with
  | [] => None
  | (now, s) :: ss =>
    match shrinkStep now s x with
    | None => Some (sh_out x)
    | Some x => shrinkTrace ss x
    end
  end.

(** The names of the hooks are read first; each hook is then looked up under the lock, and
    may be gone. *)
Definition shrinkHookNames s : list string := Name <$> bt_items (hooks s).

Definition shrinkHook (now : Z) s (name : string) : option (list string) :=
  match bt_get (hooks s) (named name) with
  | None => None
  | Some h => Some (
      (if channel h then ["setchan"; name] else ["sethook"; name; Join (Endpoints h) ","]) ++
      flat_map (fun m => ["meta"; m.1; m.2]) (Metas h) ++
      match h_expires h with
      | None => []
      | Some ex => ["ex"; FormatFloat1 (f64_div (f64_of_Z (Duration (ex - now))) second)]
      end ++ h_args h)
  end.

Definition shrinkHooks (ss : list (Z * Server)) (hnames : list string) : list (list string) :=
  concat (zip_with (fun y name => option_list (shrinkHook y.1 y.2 name)) ss hnames).

(** The swap of the files: the new log is the snapshot and what was logged since. *)
Definition shrinkSwap (snapshot : list (list string)) (l : logState) : logState :=
  let file := foldl appendCommand (foldl appendCommand [] snapshot) (shrinklog l) in
  mkLog (Some file) [] (Z.of_nat (length file)) false [].
End shrink.

(** ** Batches *)

Section batches.
Context `{WorldLaws}.
Implicit Types (s : Server) (o : Object wG).

Lemma keyIter_run {A} (l : list (string * A)) keys nk kd :
  (length keys <= maxkeys)%nat ->
  iter_while keyIter (keys, nk, kd) l =
    (keys ++ (take (maxkeys - length keys) l).*1,
     match drop (maxkeys - length keys) l with [] => nk | kv :: _ => kv.1 end,
     match drop (maxkeys - length keys) l with [] => kd | _ :: _ => false end).
Proof.
  revert keys. induction l as [|kv l IH]; intros keys Hk.
  { cbn. rewrite take_nil, drop_nil. by rewrite app_nil_r. }
  cbn [iter_while]. unfold keyIter at 1. destruct (Nat.eqb_spec (length keys) maxkeys) as [E|E].
  - rewrite E, Nat.sub_diag. cbn. by rewrite app_nil_r.
  - rewrite IH by (rewrite length_app; cbn; lia). rewrite length_app. cbn [length].
    replace (maxkeys - length keys)%nat with (S (maxkeys - (length keys + 1)))%nat by lia.
    cbn [take drop fmap list_fmap]. by rewrite <- app_assoc.
Qed.

Lemma idIter_run now key l n nx d out :
  (n <= maxids)%nat ->
  (run (idIter now key) (mkIdBatch n nx d out) l).1 =
    mkIdBatch (n + length (take (maxids - n) l))
      (match drop (maxids - n) l with [] => nx | o :: _ => ID o end)
      (match drop (maxids - n) l with [] => d | _ :: _ => false end)
      (out ++ (shrinkSet now key <$> take (maxids - n) l)).
Proof.
  revert n out. induction l as [|o l IH]; intros n out Hn.
  { cbn. rewrite take_nil, drop_nil. cbn. by rewrite app_nil_r, Nat.add_0_r. }
  cbn [run]. unfold idIter at 1. cbn [ib_count ib_next ib_done ib_out].
  destruct (Nat.eqb_spec n maxids) as [->|E].
  - rewrite Nat.sub_diag. cbn. by rewrite app_nil_r.
  - rewrite IH by lia. replace (maxids - n)%nat with (S (maxids - (n + 1)))%nat by lia.
    cbn [take drop fmap list_fmap length]. rewrite <- app_assoc. f_equal. lia.
Qed.

(** What is at or after the head of a tail of a sorted list is that tail. *)
Lemma sorted_from {A} (f : A -> string) (l1 l2 : list A) x :
  StronglySorted (fun a b => (f a <s f b) = true) (l1 ++ x :: l2) ->
  filter (fun a => (f a <s f x) = false) (l1 ++ x :: l2) = x :: l2.
Proof.
  induction l1 as [|a l1 IH]; cbn [app]; intros Hs.
  - apply StronglySorted_inv in Hs as [_ Hf]. rewrite filter_cons_True by apply str_ltb_irrefl.
    f_equal. apply filter_all. eapply Forall_impl; [exact Hf|]. intros b. apply str_ltb_asym.
  - apply StronglySorted_inv in Hs as [Hs Hf]. rewrite Forall_forall in Hf.
    rewrite filter_cons_False; [by apply IH|].
    assert ((f a <s f x) = true) as ->; [|done]. apply Hf. set_solver.
Qed.
End batches.

(** ** A run without changes in between *)

Section snapshot.
Context `{WorldLaws}.
Implicit Types (s : Server) (o : Object wG).

(** After [n] rounds on the server [s] the state satisfies [Q]. *)
Definition leads s (n : nat) (x : shrinkState) (Q : shrinkState -> Prop) : Prop :=
  forall ss, Forall (fun y => y.2 = s) ss -> (n <= length ss)%nat ->
  exists x', Q x' /\ shrinkTrace ss x = shrinkTrace (drop n ss) x'.

Lemma leads_step s x n (Q : shrinkState -> Prop) :
  (forall now, exists x', shrinkStep now s x = Some x' /\ leads s n x' Q) -> leads s (S n) x Q.
Proof.
  intros Hs ss Hf Hn. destruct Hf as [|[now s'] ss Ex Hf]; [cbn in Hn; lia|]. cbn in Ex. subst s'.
  destruct (Hs now) as (x1 & E1 & L). cbn [length] in Hn.
  destruct (L ss Hf ltac:(lia)) as (x' & HQ & Et). exists x'. split; [done|].
  cbn [shrinkTrace drop]. by rewrite E1.
Qed.

Lemma leads_here s x (Q : shrinkState -> Prop) : Q x -> leads s 0 x Q.
Proof. intros HQ ss _ _. by exists x. Qed.

Lemma leads_trans s x n m (Q R : shrinkState -> Prop) :
  leads s n x Q -> (forall x', Q x' -> leads s m x' R) -> leads s (n + m) x R.
Proof.
  intros L1 L2 ss Hf Hn. destruct (L1 ss Hf ltac:(lia)) as (x1 & Q1 & E1).
  destruct (L2 x1 Q1 (drop n ss)) as (x2 & R2 & E2); [by apply Forall_drop|rewrite length_drop; lia|].
  exists x2. split; [done|]. by rewrite E1, E2, drop_drop.
Qed.

(** The commands for the objects of a key, each made at some time. *)
Definition sets (key : string) (l : list (Object wG)) (cmds : list (list string)) : Prop :=
  Forall2 (fun o cmd => exists now, cmd = shrinkSet now key o) l cmds.

(** The objects of a collection from an id on. *)
Definition from (c : Collection wG wM wT wR) (id : string) : list (Object wG) :=
  filter (fun o => (ID o <s id) = false) (all c).

Lemma all_sorted (c : Collection wG wM wT wR) :
  coll_ok c -> StronglySorted (fun a b => (ID a <s ID b) = true) (all c).
Proof.
  intros Hc. pose proof (sm_sorted _ (objs c)) as Hs. unfold all.
  assert (Forall (fun kv => ID kv.2 = kv.1) (sm_items (objs c))) as Hk.
  { apply Forall_forall. intros [k o] Hin%sm_elem_items. by apply (ok_keys _ Hc). }
  induction Hs as [|x l Hs IH Hf]; [constructor|]. apply Forall_cons in Hk as [Hx Hl].
  cbn. constructor; [by apply IH|]. apply Forall_fmap. apply Forall_forall. intros y Hy. cbn.
  rewrite Forall_forall in Hf, Hl. rewrite Hx, (Hl y Hy). by apply Hf.
Qed.

Lemma from_next (c : Collection wG wM wT wR) id l1 o l2 :
  coll_ok c -> from c id = l1 ++ o :: l2 -> from c (ID o) = o :: l2.
Proof.
  intros Hc E. pose proof (all_sorted c Hc) as Hs.
  assert (from c (ID o) = filter (fun a => (ID a <s ID o) = false) (from c id)) as ->.
  { unfold from. rewrite list_filter_filter. apply list_filter_iff'. intros a _.
    split; [|tauto]. intros Ha. split; [done|].
    assert (o ∈ from c id) as Ho by (rewrite E; set_solver).
    apply list_elem_of_filter in Ho as [Ho _]. by eapply str_ltb_false_trans. }
  rewrite E. apply sorted_from. rewrite <- E. by apply sorted_filter.
Qed.

(** All objects of the key at the front, from [nextid] on. *)
Lemma ids_phase s key keys nk kd c :
  sm_get (cols s) key = Some c -> coll_ok c ->
  forall n nextid, (length (from c nextid) <= n)%nat ->
  exists k, forall out,
    leads s k (mkShrink (key :: keys) nk kd nextid false out)
      (fun x => exists cmds, sets key (from c nextid) cmds /\
        x = mkShrink keys nk kd "" false (out ++ cmds)).
Proof.
  intros Ec Hc n. induction n as [n IH] using lt_wf_ind. intros nextid Hn.
  assert (forall now out, shrinkStep now s (mkShrink (key :: keys) nk kd nextid false out) =
    Some (mkShrink (key :: keys) nk kd
      (match drop maxids (from c nextid) with [] => nextid | o :: _ => ID o end)
      (match drop maxids (from c nextid) with [] => true | _ :: _ => false end)
      (out ++ (shrinkSet now key <$> take maxids (from c nextid))))) as Hstep.
  { intros now out. cbn [shrinkStep]. rewrite Ec.
    pose proof (ScanGreaterOrEqual_run c nextid false None (idIter now key) (mkIdBatch 0 nextid true out)
      Hc ltac:(done)) as Hr. cbn [default] in Hr. change (Z.to_nat 0) with 0%nat in Hr.
    rewrite drop_0 in Hr. apply (f_equal fst) in Hr. rewrite idIter_run in Hr by (cbn; lia).
    unfold outcome in Hr. cbn [fst] in Hr. unfold dir in Hr. fold (from c nextid) in Hr.
    rewrite Hr. by rewrite Nat.sub_0_r. }
  destruct (drop maxids (from c nextid)) as [|o l2] eqn:Ed.
  - exists 2%nat. intros out. apply leads_step. intros now. eexists. split; [apply Hstep|].
    apply leads_step. intros now'. eexists. split; [reflexivity|]. apply leads_here.
    exists (shrinkSet now key <$> take maxids (from c nextid)). split; [|done].
    assert (take maxids (from c nextid) = from c nextid) as ->.
    { rewrite <- (take_drop maxids (from c nextid)) at 2. by rewrite Ed, app_nil_r. }
    apply Forall2_fmap_r, Forall_Forall2_diag, Forall_true. eauto.
  - set (l1 := take maxids (from c nextid)) in *.
    assert (from c nextid = l1 ++ o :: l2) as El by (unfold l1; by rewrite <- Ed, take_drop).
    pose proof (from_next c nextid l1 o l2 Hc El) as Hf.
    assert (length (from c (ID o)) < n)%nat as Hlt.
    { apply (f_equal length) in El, Ed. rewrite length_app in El. rewrite length_drop in Ed.
      rewrite Hf. unfold maxids in Ed. cbn [length] in *. lia. }
    destruct (IH _ Hlt (ID o) (le_n _)) as [k Hk]. exists (S k). intros out. apply leads_step. intros now.
    eexists. split; [apply Hstep|]. intros ss Hss Hle.
    destruct (Hk (out ++ (shrinkSet now key <$> l1)) ss Hss Hle) as (x' & (cmds & Hs & ->) & Et).
    exists (mkShrink keys nk kd "" false (out ++ (shrinkSet now key <$> l1) ++ cmds)).
    split; [|by rewrite Et, <- app_assoc]. eexists. split; [|reflexivity].
    rewrite El, <- Hf. apply Forall2_app; [|done].
    apply Forall2_fmap_r, Forall_Forall2_diag, Forall_true. eauto.
Qed.

(** The objects of some keys, and the commands for them. *)
Definition pairs_of (kvs : list (string * Collection wG wM wT wR)) : list (string * Object wG) :=
  flat_map (fun kv => (kv.1,.) <$> all kv.2) kvs.
Definition emits (kvs : list (string * Collection wG wM wT wR)) (cmds : list (list string)) : Prop :=
  Forall2 (fun ko cmd => exists now, cmd = shrinkSet now ko.1 ko.2) (pairs_of kvs) cmds.

Lemma from_empty (c : Collection wG wM wT wR) : from c "" = all c.
Proof. apply filter_all, Forall_true. intros o. by destruct (ID o). Qed.

Lemma keys_phase s nk kd kvs :
  server_ok s -> (forall kv, kv ∈ kvs -> sm_get (cols s) kv.1 = Some kv.2) ->
  exists n, forall out,
    leads s n (mkShrink kvs.*1 nk kd "" false out)
      (fun x => exists cmds, emits kvs cmds /\ x = mkShrink [] nk kd "" false (out ++ cmds)).
Proof.
  intros Hok. induction kvs as [|[key c] kvs IH]; intros Hin.
  { exists 0%nat. intros out. apply leads_here. exists []. split; [constructor|]. by rewrite app_nil_r. }
  assert (sm_get (cols s) key = Some c) as Ec by (apply (Hin (key, c)); set_solver).
  destruct (sk_cols _ Hok _ _ Ec) as [Hc _].
  destruct (ids_phase s key kvs.*1 nk kd c Ec Hc _ "" (le_n _)) as [n1 H1].
  destruct IH as [n2 H2]; [intros kv Hkv; apply Hin; set_solver|].
  exists (n1 + n2)%nat. intros out. eapply leads_trans; [apply H1|]. cbv beta.
  intros x (cmds & Hs & ->) ss Hss Hle.
  destruct (H2 (out ++ cmds) ss Hss Hle) as (x' & (cmds2 & He & ->) & Et).
  eexists. split; [|exact Et]. exists (cmds ++ cmds2). split; [|by rewrite app_assoc].
  unfold emits, pairs_of. cbn. apply Forall2_app; [|done]. apply Forall2_fmap_l.
  rewrite from_empty in Hs. exact Hs.
Qed.

Lemma ascend_next {A} (t : wM A) k l1 kv l2 :
  sm_ascend t k = l1 ++ kv :: l2 -> sm_ascend t kv.1 = kv :: l2.
Proof.
  intros E. pose proof (sm_sorted _ t) as Hs. unfold sm_ascend in *.
  assert (filter (fun a : string * A => (a.1 <s kv.1) = false) (sm_items t) =
    filter (fun a => (a.1 <s kv.1) = false) (filter (fun a => (a.1 <s k) = false) (sm_items t))) as ->.
  { rewrite list_filter_filter. apply list_filter_iff'. intros a _. split; [|tauto]. intros Ha. split; [done|].
    assert (kv ∈ filter (fun a : string * A => (a.1 <s k) = false) (sm_items t)) as Hkv by (rewrite E; set_solver).
    apply list_elem_of_filter in Hkv as [Hkv _]. by eapply str_ltb_false_trans. }
  rewrite E. apply sorted_from. rewrite <- E. by apply sorted_filter.
Qed.

Lemma all_phase s :
  server_ok s -> forall n nextkey, (length (sm_ascend (cols s) nextkey) <= n)%nat ->
  exists k, forall out,
    leads s k (mkShrink [] nextkey false "" false out)
      (fun x => exists cmds nk, emits (sm_ascend (cols s) nextkey) cmds /\
        x = mkShrink [] nk true "" false (out ++ cmds)).
Proof.
  intros Hok n. induction n as [n IH] using lt_wf_ind. intros nextkey Hn.
  set (l := sm_ascend (cols s) nextkey) in *. set (l1 := take maxkeys l).
  assert (forall kv, kv ∈ l -> sm_get (cols s) kv.1 = Some kv.2) as Hl.
  { intros [k c] [_ Hin]%list_elem_of_filter. by apply sm_elem_items in Hin. }
  assert (forall kv, kv ∈ l1 -> sm_get (cols s) kv.1 = Some kv.2) as Hl1.
  { intros kv Hin. apply Hl. rewrite <- (take_drop maxkeys l). set_solver. }
  assert (forall now out, shrinkStep now s (mkShrink [] nextkey false "" false out) =
    Some (mkShrink l1.*1 (match drop maxkeys l with [] => nextkey | kv :: _ => kv.1 end)
      (match drop maxkeys l with [] => true | _ :: _ => false end) "" false out)) as Hstep.
  { intros now out. cbn [shrinkStep]. rewrite keyIter_run by (cbn; lia). done. }
  destruct (drop maxkeys l) as [|kv l2] eqn:Ed.
  - destruct (keys_phase s nextkey true l1 Hok Hl1) as [k Hk].
    exists (S k). intros out. apply leads_step. intros now. eexists. split; [apply Hstep|].
    intros ss Hss Hle. destruct (Hk out ss Hss Hle) as (x & (cmds & He & ->) & Et).
    eexists. split; [|exact Et]. exists cmds, nextkey. split; [|done].
    assert (l1 = l) as El; [|by rewrite <- El].
    rewrite <- (take_drop maxkeys l). unfold l1. by rewrite Ed, app_nil_r.
  - assert (l = l1 ++ kv :: l2) as El by (unfold l1; by rewrite <- Ed, take_drop).
    pose proof (ascend_next _ _ _ _ _ El) as Ea.
    assert (length (sm_ascend (cols s) kv.1) < n)%nat as Hlt.
    { rewrite Ea. apply (f_equal length) in Ed. rewrite length_drop in Ed.
      unfold maxkeys in Ed. cbn [length] in *. lia. }
    destruct (IH _ Hlt kv.1 (le_n _)) as [k2 H2]. rewrite Ea in H2.
    destruct (keys_phase s kv.1 false l1 Hok Hl1) as [k1 H1].
    exists (S (k1 + k2))%nat. intros out. apply leads_step. intros now. eexists. split; [apply Hstep|].
    eapply leads_trans; [apply H1|]. cbv beta. intros x (cmds & He & ->) ss Hss Hle.
    destruct (H2 (out ++ cmds) ss Hss Hle) as (x' & (cmds2 & nk & He2 & ->) & Et).
    eexists. split; [|exact Et]. exists (cmds ++ cmds2), nk. split; [|by rewrite app_assoc].
    unfold emits, pairs_of in *. rewrite El, flat_map_app. by apply Forall2_app.
Qed.

(** The snapshot ends, and has one command for every object, in order. *)
Lemma shrink_snapshot s :
  server_ok s ->
  exists n, forall ss, Forall (fun y => y.2 = s) ss -> (n <= length ss)%nat ->
  exists cmds, shrinkTrace ss shrinkInit = Some cmds /\ emits (sm_items (cols s)) cmds.
Proof.
  intros Hok. destruct (all_phase s Hok _ "" (le_n _)) as [k Hk]. exists (S k). intros ss Hss Hle.
  destruct (Hk [] ss Hss ltac:(lia)) as (x & (cmds & nk & He & ->) & Et).
  exists cmds. unfold shrinkInit. rewrite Et. destruct (drop k ss) as [|[now s'] ss'] eqn:Ed.
  - apply (f_equal length) in Ed. rewrite length_drop in Ed. cbn in Ed. lia.
  - split; [done|]. revert He. unfold sm_ascend. rewrite filter_all; [done|].
    apply Forall_true. intros [key c]. by destruct key.
Qed.
End snapshot.

(** ** What the commands of a snapshot do *)

Section rebuild.
Context `{WorldLaws}.
Abbreviation aobj := (geometry wG * list Field)%type.
Abbreviation adb := (gmap string (gmap string aobj)).
Implicit Types (s : Server) (o : Object wG) (m : adb) (f : Field).

(** A field whose name SET accepts and whose value reads back from its JSON. *)
Definition field_reads f : Prop :=
  isReservedFieldName (name f) = false /\ TrimSpace (name f) = name f /\
  ValueOf (value_JSON (value f)) = value f.

(** An object that SET can read back: its fields, its expiration, and its geometry, which is
    the one the parser makes of its JSON. *)
Record obj_reads o : Prop := {
  or_fields : Forall field_reads (Fields o);
  or_ttl : Expires o <> 0 -> forall now, (ParseFloat (FormatFloat (shrinkTTL now o))).2 = true;
  or_geo : match Geo o with Str _ => True | Geom g => geo_Parse (JSON (Geo o)) = Ok g end;
}.

Lemma fl_set_last fs f :
  Forall (fun g => name_lt g f) fs -> IsZero (value f) = false -> fl_set fs f = fs ++ [f].
Proof.
  intros Hf Hz. induction Hf as [|g fs Hg _ IH]; cbn; [by rewrite Hz|]. unfold name_lt in Hg.
  rewrite (str_ltb_asym _ _ Hg).
  destruct (String.eqb_spec (name g) (name f)) as [E|_]; [by rewrite E, str_ltb_irrefl in Hg|].
  by rewrite IH.
Qed.

(** Setting the fields of a list one after the other rebuilds the list. *)
Lemma fl_set_rebuild fs : fields_ok fs -> foldl fl_set [] fs = fs.
Proof.
  intros [Hs Hz]. assert (forall l1 l2, sorted_fields (l1 ++ l2) ->
    Forall (fun f => canonical (value f) /\ IsZero (value f) = false) l2 -> foldl fl_set l1 l2 = l1 ++ l2) as Hg;
    [|by apply (Hg [])].
  clear. intros l1 l2. revert l1. induction l2 as [|f l2 IH]; intros l1 Hs Hz; [by rewrite app_nil_r|].
  apply Forall_cons in Hz as [[_ Hzf] Hz]. cbn. rewrite fl_set_last; [|clear -Hs|done].
  - rewrite IH; [by rewrite <- app_assoc|by rewrite <- app_assoc|done].
  - induction l1 as [|g l1 IH]; [constructor|]. cbn in Hs. apply StronglySorted_inv in Hs as [Hs Hf].
    constructor; [|by apply IH]. rewrite Forall_forall in Hf. apply Hf. set_solver.
Qed.

Lemma lookup_past {A} (pre l : list A) k : (pre ++ l) !! (length pre + k)%nat = l !! k.
Proof. rewrite lookup_app_r by lia. f_equal. lia. Qed.
Lemma lookup_here {A} (pre l : list A) : (pre ++ l) !! length pre = head l.
Proof. rewrite lookup_app_r, Nat.sub_diag by lia. by destruct l. Qed.

Definition add_fields (so : setOpts) (fs : list Field) : setOpts :=
  mkSetOpts (so_fields so ++ fs) (so_ex so) (so_xx so) (so_nx so) (so_ret so) (so_withfields so)
    (so_kind so) (so_precision so) (so_obj so).

(** The FIELD arguments of a rewritten object. *)
Lemma setLoop_fieldArgs fs pre l now so fuel :
  Forall field_reads fs -> Forall (fun f => IsZero (value f) = false) fs ->
  setLoop (length fs + fuel) (pre ++ fieldArgs fs ++ l) now (length pre) so =
  setLoop fuel ((pre ++ fieldArgs fs) ++ l) now (length (pre ++ fieldArgs fs)) (add_fields so fs).
Proof.
  intros Hr. revert pre so. induction Hr as [|f fs (R1 & R2 & R3) Hr IH]; intros pre so Hz.
  { destruct so. unfold add_fields. cbn. by rewrite !app_nil_r. }
  apply Forall_cons in Hz as [Hz1 Hz]. unfold fieldArgs. cbn [flat_map]. rewrite Hz1. fold (fieldArgs fs).
  cbn [length Nat.add app setLoop]. rewrite lookup_here. cbn [head].
  assert (setArg (pre ++ "field" :: name f :: value_JSON (value f) :: fieldArgs fs ++ l) now (length pre)
    "field" so = Ok (add_fields so [f], (length pre + 3)%nat)) as ->.
  { destruct so. unfold setArg. change (kw "field" "field") with true. cbv iota beta zeta.
    rewrite !lookup_past. cbn [lookup list_lookup]. rewrite R1.
    unfold add_fields, Make. cbn. rewrite R2, R3. by destruct f. }
  cbn [rbind]. specialize (IH (pre ++ ["field"; name f; value_JSON (value f)]) (add_fields so [f]) Hz).
  rewrite <- !app_assoc in IH. rewrite length_app in IH. cbn [app length] in IH. rewrite IH.
  rewrite <- !app_assoc. cbn [app]. unfold add_fields. cbn. by rewrite <- app_assoc.
Qed.

Lemma aset_new m key id (so : setOpts) g :
  so_xx so = false -> aget m key id = None -> aset m key id so g = aput m key id (g, foldl fl_set [] (so_fields so)).
Proof. intros Hx Hn. unfold aset. by rewrite Hn, Hx. Qed.

(** The arguments after the fields: the expiration, if any, and the geometry. *)
Lemma setLoop_tail pre now o so fuel :
  (Expires o <> 0 -> forall now, (ParseFloat (FormatFloat (shrinkTTL now o))).2 = true) ->
  match Geo o with Str _ => True | Geom g => geo_Parse (JSON (Geo o)) = Ok g end ->
  let tail := (if Expires o =? 0 then [] else ["ex"; FormatFloat (shrinkTTL now o)]) ++
    (if IsSpatial (Geo o) then ["object"; JSON (Geo o)] else ["string"; StringOf (Geo o)]) in
  exists so', setLoop (S (S (S fuel))) (pre ++ tail) 0 (length pre) so = Ok so' /\
    so_obj so' = Some (Geo o) /\ so_fields so' = so_fields so /\ so_xx so' = so_xx so.
Proof.
  intros Ht Hg tail.
  assert (forall pre so fuel, exists so', setLoop (S (S fuel)) (pre ++
    (if IsSpatial (Geo o) then ["object"; JSON (Geo o)] else ["string"; StringOf (Geo o)])) 0 (length pre) so = Ok so' /\
    so_obj so' = Some (Geo o) /\ so_fields so' = so_fields so /\ so_xx so' = so_xx so) as Hgeo.
  { clear pre so fuel tail. intros pre so fuel. destruct so as [fs ex xx nx ret wf kd pr ob].
    destruct (Geo o) as [str|g] eqn:Eg; cbn [IsSpatial].
    - cbn [setLoop]. rewrite lookup_here. cbn [head]. unfold setArg.
      change (kw "string" "field") with false. change (kw "string" "ex") with false.
      change (kw "string" "nx") with false. change (kw "string" "xx") with false.
      change (kw "string" "return") with false. change (kw "string" "string") with true.
      cbv iota beta zeta. rewrite lookup_past. cbn [lookup list_lookup rbind].
      rewrite lookup_past. cbn [lookup list_lookup]. eexists. split; [reflexivity|]. done.
    - cbn [setLoop]. rewrite lookup_here. cbn [head]. unfold setArg.
      change (kw "object" "field") with false. change (kw "object" "ex") with false.
      change (kw "object" "nx") with false. change (kw "object" "xx") with false.
      change (kw "object" "return") with false. change (kw "object" "string") with false.
      change (kw "object" "point") with false. change (kw "object" "bounds") with false.
      change (kw "object" "hash") with false. change (kw "object" "object") with true.
      cbv iota beta zeta. rewrite lookup_past. cbn [lookup list_lookup]. rewrite Hg. cbn [rbind].
      rewrite lookup_past. cbn [lookup list_lookup]. eexists. split; [reflexivity|]. done. }
  unfold tail. clear tail. destruct (Z.eqb_spec (Expires o) 0) as [|Hex]; cbn [app]; [apply (Hgeo pre so (S fuel))|].
  set (gl := if IsSpatial (Geo o) then _ else _) in *.
  cbn [setLoop]. rewrite lookup_here. cbn [head].
  assert (exists so1, setArg (pre ++ "ex" :: FormatFloat (shrinkTTL now o) :: gl) 0 (length pre) "ex" so =
    Ok (so1, (length pre + 2)%nat) /\ so_fields so1 = so_fields so /\ so_xx so1 = so_xx so) as (so1 & -> & F1 & X1).
  { destruct so. unfold setArg. change (kw "ex" "field") with false. change (kw "ex" "ex") with true.
    cbv iota beta zeta. rewrite lookup_past. cbn [lookup list_lookup]. unfold parseFloat.
    pose proof (Ht Hex now) as Htn. destruct (ParseFloat _) as [x ok]. cbn in Htn. subst ok. cbn [rbind].
    eexists. split; [reflexivity|]. done. }
  cbn [rbind]. destruct (Hgeo (pre ++ ["ex"; FormatFloat (shrinkTTL now o)]) so1 fuel) as (so' & E & G & F & X).
  rewrite <- app_assoc, length_app in E. cbn [app length] in E. exists so'. split; [exact E|].
  split; [done|]. split; congruence.
Qed.

(** The command for an object puts it where there is none. *)
Lemma aexec_shrinkSet m now key o :
  obj_reads o -> fields_ok (Fields o) -> aget m key (ID o) = None ->
  aexec m (shrinkSet now key o) = Ok (aput m key (ID o) (core o)).
Proof.
  intros [Hf Ht Hg] Hok Hn. unfold aexec, shrinkSet. cbn [app].
  change (kw "set" "set") with true. cbv iota. unfold aSET.
  set (tail := (if Expires o =? 0 then [] else ["ex"; FormatFloat (shrinkTTL now o)]) ++
    (if IsSpatial (Geo o) then ["object"; JSON (Geo o)] else ["string"; StringOf (Geo o)])).
  set (args := "set" :: key :: ID o :: fieldArgs (Fields o) ++ tail).
  assert (exists so, setLoop (length args) args 0 3 noSetOpts = Ok so /\ so_obj so = Some (Geo o) /\
    so_fields so = Fields o /\ so_xx so = false) as (so & -> & Eg & Ef & Ex).
  2:{ cbn [rbind]. rewrite Eg, aset_new by done. by rewrite Ef, fl_set_rebuild. }
  rewrite (setLoop_fuel _ (length (Fields o) + length args)) by lia.
  assert (Forall (fun f => IsZero (value f) = false) (Fields o)) as Hz.
  { destruct Hok as [_ Hz]. eapply Forall_impl; [exact Hz|]. cbn. tauto. }
  pose proof (setLoop_fieldArgs (Fields o) ["set"; key; ID o] tail 0 noSetOpts (length args) Hf Hz) as E.
  cbn [app length] in E. fold args in E. rewrite E. clear E.
  set (so0 := add_fields noSetOpts (Fields o)).
  destruct (setLoop_tail ("set" :: key :: ID o :: fieldArgs (Fields o)) now o so0
    (length (fieldArgs (Fields o) ++ tail)) Ht Hg) as (so & Es & R).
  exists so. split; [exact Es|]. destruct R as (-> & -> & ->). done.
Qed.

(** Putting objects one after the other. *)
Definition aputs m (l : list (string * Object wG)) : adb :=
  foldl (fun m ko => aput m ko.1 (ID ko.2) (core ko.2)) m l.

Lemma aget_aputs_other m l k i :
  (k, i) ∉ (fun ko => (ko.1, ID ko.2)) <$> l -> aget (aputs m l) k i = aget m k i.
Proof.
  revert m. induction l as [|ko l IH]; intros m Hn; [done|].
  cbn in Hn. apply not_elem_of_cons in Hn as [Hne Hn]. cbn. fold (aputs (aput m ko.1 (ID ko.2) (core ko.2)) l).
  rewrite IH, aget_put by done.
  destruct (String.eqb_spec ko.1 k) as [<-|], (String.eqb_spec (ID ko.2) i) as [<-|]; done.
Qed.

Lemma aget_aputs m l k o :
  NoDup ((fun ko => (ko.1, ID ko.2)) <$> l) -> (k, o) ∈ l -> aget (aputs m l) k (ID o) = Some (core o).
Proof.
  revert m. induction l as [|ko l IH]; intros m Hnd Hin; [by apply not_elem_of_nil in Hin|].
  cbn in Hnd. apply NoDup_cons in Hnd as [Hni Hnd]. cbn. fold (aputs (aput m ko.1 (ID ko.2) (core ko.2)) l).
  apply elem_of_cons in Hin as [<-|Hin]; [|by apply IH].
  rewrite aget_aputs_other by done. rewrite aget_put. cbn. by rewrite !String.eqb_refl.
Qed.

Lemma aputs_pruned m l : pruned m -> pruned (aputs m l).
Proof. revert m. induction l as [|ko l IH]; intros m Hm; [done|]. apply IH. by apply put_pruned. Qed.

Lemma aexecs_emits m l cmds :
  Forall2 (fun ko cmd => exists now, cmd = shrinkSet now ko.1 ko.2) l cmds ->
  Forall (fun ko => obj_reads ko.2 /\ fields_ok (Fields ko.2)) l -> NoDup ((fun ko => (ko.1, ID ko.2)) <$> l) ->
  (forall ko, ko ∈ l -> aget m ko.1 (ID ko.2) = None) -> aexecs m cmds = Ok (aputs m l).
Proof.
  intros He. revert m. induction He as [|ko cmd l cmds [now ->] He IH]; intros m Hr Hnd Hn; [done|].
  apply Forall_cons in Hr as [[Hr1 Hr2] Hr]. cbn in Hnd. apply NoDup_cons in Hnd as [Hni Hnd].
  change (shrinkSet now ko.1 ko.2 :: cmds) with ([shrinkSet now ko.1 ko.2] ++ cmds).
  rewrite aexecs_app. unfold aexecs at 1. cbn [foldl rbind].
  rewrite aexec_shrinkSet by (done || apply Hn; set_solver). cbn [rbind]. apply IH; [done|done|].
  intros ko' Hko'. rewrite aget_put. destruct ((ko.1 =s ko'.1) && (ID ko.2 =s ID ko'.2)) eqn:E.
  - boolify. destruct E as [E1 E2]. destruct Hni. apply list_elem_of_fmap. exists ko'.
    by rewrite E1, E2.
  - apply Hn. set_solver.
Qed.

Lemma elem_of_pairs s k o :
  server_ok s -> (k, o) ∈ pairs_of (sm_items (cols s)) <-> db s k (ID o) = Some o.
Proof.
  intros Hok. unfold pairs_of. rewrite list_elem_of_In, in_flat_map. split.
  - intros ([k' c] & Hin & Hki). apply list_elem_of_In in Hin, Hki. apply sm_elem_items in Hin.
    apply list_elem_of_fmap in Hki as (o' & [= -> ->] & Ho). unfold db. cbn in Hin. rewrite Hin.
    destruct (sk_cols _ Hok _ _ Hin) as [Hc _]. by apply elem_of_all in Ho.
  - unfold db. destruct (sm_get (cols s) k) as [c|] eqn:Ec; [|done]. intros Ho. exists (k, c).
    split; [by apply list_elem_of_In, sm_elem_items|]. apply list_elem_of_In, list_elem_of_fmap.
    exists o. split; [done|]. destruct (sk_cols _ Hok _ _ Ec) as [Hc _]. by apply elem_of_all.
Qed.

Lemma pairs_NoDup s :
  server_ok s -> NoDup ((fun ko => (ko.1, ID ko.2)) <$> pairs_of (sm_items (cols s))).
Proof.
  intros Hok. assert (forall kv, kv ∈ sm_items (cols s) -> coll_ok kv.2) as Hc.
  { intros [k c] Hin%sm_elem_items. by eapply sk_cols. }
  pose proof (sm_keys_NoDup (cols s)) as Hnd. revert Hc Hnd.
  induction (sm_items (cols s)) as [|[k c] l IH]; intros Hc Hnd; [constructor|].
  cbn in Hnd. apply NoDup_cons in Hnd as [Hk Hnd]. unfold pairs_of. cbn [flat_map]. fold (pairs_of l).
  rewrite fmap_app. apply NoDup_app. split; [|split].
  - rewrite <- list_fmap_compose. cbn. apply (NoDup_fmap_1 snd). rewrite <- list_fmap_compose.
    apply all_NoDup. intros k0 o0 Hg. pose proof (Hc (k, c) ltac:(set_solver)) as Hcc. by eapply ok_keys in Hg.
  - intros [k' i] (ko & E & Hko)%list_elem_of_fmap (ko' & E' & Hko')%list_elem_of_fmap.
    apply list_elem_of_fmap in Hko as (o & -> & _). cbn in E. injection E as -> ->.
    injection E' as -> E'. apply Hk. apply list_elem_of_In, in_flat_map in Hko' as ([k2 c2] & Hin & Hko2).
    apply list_elem_of_In in Hin, Hko2. apply list_elem_of_fmap in Hko2 as (o2 & -> & _).
    apply list_elem_of_fmap. exists (k2, c2). done.
  - apply IH; [|done]. intros kv Hkv. apply Hc. set_solver.
Qed.

(** Every hook is written, once, when the hooks do not change. *)
Lemma shrinkHooks_all s ss :
  server_ok s -> Forall (fun y => y.2 = s) ss -> length ss = length (shrinkHookNames s) ->
  Forall2 (fun h cmd => exists now, shrinkHook now s (Name h) = Some cmd /\ nth 1 cmd "" = Name h)
    (bt_items (hooks s)) (shrinkHooks ss (shrinkHookNames s)).
Proof.
  intros Hok Hss Hlen. unfold shrinkHooks, shrinkHookNames in *. rewrite length_fmap in Hlen.
  assert (forall h, h ∈ bt_items (hooks s) -> bt_get (hooks s) (named (Name h)) = Some h) as Hget.
  { intros h Hh. apply bt_get_spec; [apply byHookName_sw|]. split; [done|]. by apply byHookName_equiv. }
  revert ss Hss Hlen Hget. induction (bt_items (hooks s)) as [|h l IH]; intros ss Hss Hlen Hget.
  { destruct ss; [constructor|done]. }
  destruct ss as [|y ss]; [done|]. apply Forall_cons in Hss as [E Hss]. cbn [fmap list_fmap zip_with concat].
  assert (exists cmd, shrinkHook y.1 s (Name h) = Some cmd /\ nth 1 cmd "" = Name h) as (cmd & Ec & En).
  { unfold shrinkHook. rewrite (Hget h) by set_solver. eexists. split; [done|]. by destruct (channel h). }
  rewrite E, Ec. cbn. constructor; [by exists y.1|]. apply IH; [done|by injection Hlen|].
  intros. apply Hget. set_solver.
Qed.

Lemma shrinkSwap_ok cmds l : log_ok (shrinkSwap cmds l) (concat (encode <$> cmds ++ shrinklog l)).
Proof.
  assert (forall b cs, foldl appendCommand b cs = b ++ concat (encode <$> cs)) as Hf.
  { intros b cs. revert b. induction cs as [|c cs IH]; intros b; cbn; [by rewrite app_nil_r|].
    by rewrite IH, appendCommand_encode, <- app_assoc. }
  unfold shrinkSwap. rewrite !Hf. cbn [app]. rewrite fmap_app, concat_app.
  eexists. split; [reflexivity|]. cbn. by rewrite app_nil_r.
Qed.

(** The commands of a snapshot rebuild the data set if every object reads back. *)
Lemma emits_rebuild s cmds :
  server_ok s -> (forall k i o, db s k i = Some o -> obj_reads o) ->
  emits (sm_items (cols s)) cmds -> aexecs ∅ cmds = Ok (dataset s).
Proof.
  intros Hok Hr He. rewrite (aexecs_emits ∅ _ cmds He).
  - f_equal. symmetry. apply dataset_eq; [done|by apply aputs_pruned; intros k c|].
    intros k i. destruct (db s k i) as [o|] eqn:Eo.
    + destruct (db_ok s k i o Hok Eo) as [<- _].
      apply aget_aputs; [by apply pairs_NoDup|]. by apply elem_of_pairs.
    + rewrite aget_aputs_other; [done|]. intros ([k' o] & [= -> ->] & Hin)%list_elem_of_fmap.
      apply elem_of_pairs in Hin; [|done]. cbn in Eo. congruence.
  - apply Forall_forall. intros [k o] Hin. apply elem_of_pairs in Hin; [|done]. cbn. split; [by eapply Hr|by eapply sk_fields].
  - by apply pairs_NoDup.
  - intros ko _. done.
Qed.

(** C4. Rewriting the log of a server that does not change while it is rewritten: the
    rounds come to an end; they write one SET for every object, none twice and none left
    out, with the fields, the remaining time and the geometry of the object; then the
    command of every hook, in the order of the names; and the new file holds these commands
    followed by what was logged since. If moreover each object reads back, that is, its
    field names are none of the reserved ones, its field values and its time to live are
    read from the text they are written as, and the parser returns its geometry from its
    JSON, then the commands, run on the reference semantics from the empty data set, give
    the data set of the server. *)
Theorem shrink_rebuilds s l hh :
  server_ok s ->
  Forall (fun y => y.2 = s) hh -> length hh = length (shrinkHookNames s) ->
  exists n, forall ss, Forall (fun y => y.2 = s) ss -> (n <= length ss)%nat ->
  exists objs cmds, shrinkTrace ss shrinkInit = Some cmds /\
    NoDup ((fun ko => (ko.1, ID ko.2)) <$> objs) /\
    (forall k o, (k, o) ∈ objs <-> db s k (ID o) = Some o) /\
    Forall2 (fun ko cmd => exists now, cmd = shrinkSet now ko.1 ko.2) objs cmds /\
    ((forall k i o, db s k i = Some o -> obj_reads o) -> aexecs ∅ cmds = Ok (dataset s)) /\
    let hs := shrinkHooks hh (shrinkHookNames s) in
    Forall2 (fun h cmd => exists now, shrinkHook now s (Name h) = Some cmd /\ nth 1 cmd "" = Name h)
      (bt_items (hooks s)) hs /\
    log_ok (shrinkSwap (cmds ++ hs) l) (concat (encode <$> cmds ++ hs ++ shrinklog l)).
Proof.
  intros Hok Hh Hlen. destruct (shrink_snapshot s Hok) as [n Hn]. exists n. intros ss Hss Hle.
  destruct (Hn ss Hss Hle) as (cmds & Et & He). exists (pairs_of (sm_items (cols s))), cmds.
  split; [done|]. split; [by apply pairs_NoDup|]. split; [intros; by apply elem_of_pairs|].
  split; [exact He|]. split; [intros Hr; by apply emits_rebuild|].
  split; [by apply shrinkHooks_all|]. rewrite app_assoc. apply shrinkSwap_ok.
Qed.
End rebuild.

(** ** An example run *)

Module ShrinkExample.
Import ExampleWorld CrudExample.
#[local] Existing Instance world.
#[local] Existing Instance world_laws.

Definition sets_ (l : list (list string)) : Server :=
  foldl (fun s args => (cmdSET s (ask args) ck).1) s0 l.

(** A text with a field, and a geometry. *)
Definition setText : Message := ask ["set"; "fleet"; "bus"; "field"; "speed"; "5"; "string"; "hi"].
Definition setArea : Message := ask ["set"; "fleet"; "area"; "object"; "box"].
Definition text : Server := (cmdSET s0 setText ck).1.
Definition both : Server := (cmdSET text setArea ck).1.

Lemma text_db :
  server_ok text /\ forall k i, db text k i = if ("fleet" =s k) && ("bus" =s i)
    then Some (setObject s0 "fleet" "bus" (opts_of setText) (geom_of setText)) else None.
Proof.
  destruct (cmdSET_db s0 setText ck "set" "fleet" "bus" ["field"; "speed"; "5"; "string"; "hi"]
    (opts_of setText) (geom_of setText)) as (Hok & Hd & _);
    [apply newServer_ok|reflexivity|reflexivity|reflexivity|reflexivity|reflexivity|].
  split; [exact Hok|exact Hd].
Qed.
Lemma both_db :
  server_ok both /\ forall k i, db both k i = if ("fleet" =s k) && ("area" =s i)
    then Some (setObject text "fleet" "area" (opts_of setArea) (geom_of setArea)) else db text k i.
Proof.
  destruct (cmdSET_db text setArea ck "set" "fleet" "area" ["object"; "box"]
    (opts_of setArea) (geom_of setArea)) as (Hok & Hd & _);
    [apply text_db|reflexivity|reflexivity|reflexivity|reflexivity|by vm_compute|].
  split; [exact Hok|exact Hd].
Qed.

Definition trace_of (s : Server) : option (list (list string)) :=
  shrinkTrace (replicate 20 (1000, s)) shrinkInit.

Lemma both_snapshot : trace_of both =
  Some [["set"; "fleet"; "area"; "object"; "box"]; ["set"; "fleet"; "bus"; "field"; "speed"; "5"; "string"; "hi"]].
Proof. by vm_compute. Qed.

Lemma both_reads k i o : db both k i = Some o -> obj_reads o.
Proof.
  destruct both_db as [_ ->], text_db as [_ Hd]. destruct (_ && _).
  - intros [= <-]. split; [constructor|done|reflexivity].
  - rewrite Hd. destruct (_ && _); [|done]. intros [= <-].
    split; [repeat constructor|done|done].
Qed.

Definition idle : logState := mkLog None [] 0 true [["del"; "fleet"; "bus"]].

Lemma shrink_rebuilds_witness :
  is_some (db both "fleet" "bus") && is_some (db both "fleet" "area") = true /\
  exists n cmds, shrinkTrace (replicate n (1000, both)) shrinkInit = Some cmds /\
    aexecs ∅ cmds = Ok (dataset both).
Proof.
  split; [by vm_compute|].
  destruct (shrink_rebuilds both idle [] (proj1 both_db) (Forall_nil_2 _) eq_refl) as [n Hn].
  destruct (Hn (replicate n (1000, both))) as (objs & cmds & T & _ & _ & _ & A & _).
  - apply Forall_replicate. reflexivity.
  - rewrite length_replicate. apply le_n.
  - exists n, cmds. split; [exact T|exact (A both_reads)].
Defined.

(** The data set is not always kept when it changes between two rounds. *)
Definition two : Server := sets_ [["set"; "a"; "x"; "string"; "old"]; ["set"; "c"; "y"; "string"; "new"]].
Definition renamed : Server := (cmdRENAME two (ask ["rename"; "c"; "a"]) ck).1.
Definition meanwhile : logState := mkLog None [] 0 true [["rename"; "c"; "a"]].

(** What a server that reads the new log holds under ["a"], and the error, if any. *)
Definition reloaded (snapshot : option (list (list string))) (l : logState) : bool * bool * bool :=
  match snapshot with
  | None => (false, false, false)
  | Some cmds =>
    let file := concat (encode <$> cmds ++ shrinklog l) in
    let '((t, _), _, err) := loadAOF (execCmd (fun _ => ck)) [file] (newServer 0, 0%nat) in
    (is_some (db t "a" "x"), is_some (db t "a" "y"), is_some err)
  end.

(** ["c"] is renamed to ["a"] when ["a"] was already read: the server holds [y] under ["a"],
    the new log reads as [x]. *)
Lemma shrink_rename_loses :
  (is_some (db renamed "a" "x"), is_some (db renamed "a" "y")) = (false, true) /\
  reloaded (shrinkTrace (replicate 2 (1000, two) ++ replicate 20 (1000, renamed)) shrinkInit) meanwhile
  = (true, false, false).
Proof. by vm_compute. Qed.

(** A field whose name is reserved once trimmed is stored, and its log cannot be read. *)
Definition spaced : Server := sets_ [["set"; "a"; "x"; "field"; " z"; "5"; "string"; "v"]].
Lemma shrink_reserved_unreadable :
  trace_of spaced = Some [["set"; "a"; "x"; "field"; "z"; "5"; "string"; "v"]] /\
  reloaded (trace_of spaced) (mkLog None [] 0 true []) = (false, false, true).
Proof. by vm_compute. Qed.
End ShrinkExample.
