(* ===== verification/Token.v ===== *)
(** * Search arguments ([src/internal/legacy/server/token.go])

    SCAN, SEARCH, NEARBY, WITHIN and INTERSECTS, and the fences of hooks, share one list
    of options. This file has the filters on field values, the parser of the options with
    its errors, and the proof of what the parser guarantees to the commands. *)

From Stdlib Require Import Ascii String ZArith Lia Bool SpecFloat.
From stdpp Require Import base list strings option sorting sets gmap.
From S2P Require Import Prelude GoStd Strconv Json Containers Field Geo Object Collection.
From S2P Require Import CollectionScan Group World.

Local Open Scope Z_scope.

(** [strings.ToLower] on any text: Go's Unicode tables are a parameter, which agrees with
    [ToLower] where the result is ASCII. *)
Class Unicode := lowerText : string -> string.
Class UnicodeLaws `{Unicode} : Prop :=
  lowerText_ascii : forall s l, ToLower s = Some l -> lowerText s = l.

Definition upper_byte (c : ascii) : ascii :=
  if (0x61 <=? code c) && (code c <=? 0x7A) then chr (code c - 32) else c.
(** [strings.ToUpper] on a word whose lower case is ASCII. *)
Fixpoint ToUpper (s : string) : string :=
  match s with "" => "" | String c s => String (upper_byte c) (ToUpper s) end.

(** [strings.Split(s, ",")] *)
Fixpoint splitComma (s : string) : list string :=
  match s with
  | "" => [""]
  | String c s =>
    if (c =? ",")%char then "" :: splitComma s
    else match splitComma s with
         | [] => [String c ""]
         | x :: l => String c x :: l
         end
  end.

Example split_ex : splitComma "set,,del" = ["set"; ""; "del"].
Proof. reflexivity. Qed.

(** ** Filters on fields *)

(** [whereT]; an expression when [w_expr]. *)
Record whereT := mkWhere {
  w_expr : bool; w_name : string; minx : bool; w_min : Value; maxx : bool; w_max : Value }.

Definition mLT (a b : Value) : bool := Less a b.
Definition mLTE (a b : Value) : bool := negb (mLT b a).
Definition mGT (a b : Value) : bool := mLT b a.
Definition mGTE (a b : Value) : bool := negb (mLT a b).
Definition mEQ (a b : Value) : bool := Equals a b.

Definition matchField (w : whereT) (value : Value) : bool :=
  let op := data (w_min w) in
  if op =s "<" then mLT value (w_max w)
  else if op =s "<=" then mLTE value (w_max w)
  else if op =s ">" then mGT value (w_max w)
  else if op =s ">=" then mGTE value (w_max w)
  else if op =s "==" then mEQ value (w_max w)
  else if op =s "!=" then negb (mEQ value (w_max w))
  else if (if negb (minx w) then mLT value (w_min w) else mLTE value (w_min w)) then false
  else if (if negb (maxx w) then mGT value (w_max w) else mGTE value (w_max w)) then false
  else true.

(** [whereinT] *)
Record whereinT := mkWherein { wi_name : string; valArr : list Value }.
Definition wherein_match (w : whereinT) (value : Value) : bool :=
  existsb (fun val => mEQ val value) (valArr w).

(** ** The options *)

Inductive outputT :=
| outputIDs | outputObjects | outputCount | outputPoints | outputHashes | outputBounds.
#[global] Instance outputT_eq_dec : EqDecision outputT.
Proof. solve_decision. Defined.

Definition defaultSearchOutput : outputT := outputObjects.

(** What the server's script store and the Lua package answer: a free interpreter,
    a compiled script with its arguments (from a digest when the flag is set), and
    its verdict on the fields, the id and the properties of an object. *)
Class Scripts := {
  script : Type;
  luapool_Get : option failure;
  script_load : bool -> string -> list string -> result failure script;
  script_match : script -> list (string * Value) -> string -> string -> result failure bool;
}.

Section parse.
Context `{World} `{Unicode} `{Scripts}.

(** [searchScanBaseTokens]; nil maps are [None]. *)
Record tokens := mkTokens {
  t_key : string; t_cursor : Z; t_output : outputT; t_precision : Z;
  t_fence : bool; t_distance : bool; t_nodwell : bool;
  t_detect : option (list string); t_accept : option (list string);
  t_globs : list string; t_wheres : list whereT; t_whereins : list whereinT;
  t_whereevals : list script; t_nofields : bool; t_ulimit : bool; t_limit : Z;
  t_usparse : bool; t_sparse : Z; t_desc : bool; t_clip : bool; t_buffer : option float64 }.

(** The zero value, with [fence] as given. *)
Definition noTokens (fence : bool) : tokens :=
  mkTokens "" 0 defaultSearchOutput 0 fence false false None None [] [] [] [] false false 0
    false 0 false false None.

(** The variables of the loop. *)
Record parsing := mkParsing {
  p_t : tokens; slimit : string; ssparse : string; scursor : string; p_asc : bool }.

(** Assignments. *)
Definition on_t (p : parsing) (t : tokens) : parsing :=
  mkParsing t (slimit p) (ssparse p) (scursor p) (p_asc p).
Definition flags (t : tokens) (fence distance nodwell nofields desc clip : bool) : tokens :=
  mkTokens (t_key t) (t_cursor t) (t_output t) (t_precision t) fence distance nodwell
    (t_detect t) (t_accept t) (t_globs t) (t_wheres t) (t_whereins t) (t_whereevals t) nofields
    (t_ulimit t) (t_limit t) (t_usparse t) (t_sparse t) desc clip (t_buffer t).
Definition filters (t : tokens) detect accept globs wheres whereins whereevals buffer : tokens :=
  mkTokens (t_key t) (t_cursor t) (t_output t) (t_precision t) (t_fence t) (t_distance t)
    (t_nodwell t) detect accept globs wheres whereins whereevals (t_nofields t)
    (t_ulimit t) (t_limit t) (t_usparse t) (t_sparse t) (t_desc t) (t_clip t) buffer.
Definition results (t : tokens) key cursor output precision ulimit limit usparse sparse : tokens :=
  mkTokens key cursor output precision (t_fence t) (t_distance t) (t_nodwell t) (t_detect t)
    (t_accept t) (t_globs t) (t_wheres t) (t_whereins t) (t_whereevals t) (t_nofields t)
    ulimit limit usparse sparse (t_desc t) (t_clip t) (t_buffer t).
Definition add_where (t : tokens) (w : whereT) : tokens :=
  filters t (t_detect t) (t_accept t) (t_globs t) (t_wheres t ++ [w]) (t_whereins t) (t_whereevals t)
    (t_buffer t).

(** [tokenval] where only an absent token is an error. *)
Definition need (vs : list string) : result failure (string * list string) :=
  match vs with t :: nvs => Ok (t, nvs) | [] => Err errInvalidNumberOfArguments end.

Definition is_letter (c : ascii) : bool := in_range 0x61 0x7A c || in_range 0x41 0x5A c.

(** [detectExprToken]: [v[0]] is out of range when the second of three arguments is empty. *)
Definition detectExprToken (vs : list string) : result failure bool :=
  match vs with
  | [] => Ok false
  | [_] | [_; ""] => Ok true
  | _ :: "" :: _ => Err OutOfRange
  | _ :: String c v :: _ =>
    if is_letter c then
      Ok (negb (((c =? "i")%char || (c =? "I")%char) && kw (String c v) "inf"))
    else Ok false
  end.

Definition isOp (s : string) : bool :=
  existsb (fun op => s =s op) ["<"; "<="; ">"; ">="; "=="; "!="].

(** WHERE *)
Definition whereArgs (t : tokens) (vs : list string) : result failure (tokens * list string) :=
  let? expr := detectExprToken vs in
  if expr : bool then
    let? (e, vs) := need vs in
    Ok (add_where t (mkWhere true e false emptyValue false emptyValue), vs)
  else
    let? (name, vs) := need vs in
    let? (smin, vs) := need vs in
    let? (smax, vs) := need vs in
    let smin := lowerText smin in
    let smax := lowerText smax in
    let smax := if (smax =s "+inf") || (smax =s "inf") then "inf" else smax in
    let minx := negb (isOp smin) && has_prefix smin "(" in
    let maxx := negb (isOp smin) && has_prefix smax "(" in
    let smin := if minx then str_drop 1 smin else smin in
    let smax := if maxx then str_drop 1 smax else smax in
    Ok (add_where t (mkWhere false name minx (ValueOf smin) maxx (ValueOf smax)), vs).

(** [n] tokens; none of them empty when [full]. *)
Fixpoint readArgs (full : bool) (n : Z) (vs : list string) : result failure (list string * list string) :=
  if n <=? 0 then Ok ([], vs)
  else
    match vs with
    | [] => Err errInvalidNumberOfArguments
    | v :: vs =>
      if full && (v =s "") then Err errInvalidNumberOfArguments
      else let? (l, vs) := readArgs full (n - 1) vs in Ok (v :: l, vs)
    end.

Definition parseUint (s : string) : result failure Z :=
  match ParseUint s with Some n => Ok n | None => Err (errInvalidArgument s) end.

(** [make([]field.Value, n)] panics when the 32-byte values exceed the address space. *)
Definition maxValues : Z := 2 ^ 43.

(** WHEREIN *)
Definition whereinArgs (t : tokens) (vs : list string) : result failure (tokens * list string) :=
  let? (name, vs) := need vs in
  let? (nvalsStr, vs) := need vs in
  let? nvals := parseUint nvalsStr in
  if maxValues <? nvals then Err OutOfRange
  else
    let? (vals, vs) := readArgs false nvals vs in
    Ok (filters t (t_detect t) (t_accept t) (t_globs t) (t_wheres t)
          (t_whereins t ++ [mkWherein name (ValueOf <$> vals)]) (t_whereevals t) (t_buffer t), vs).

(** WHEREEVAL and WHEREEVALSHA *)
Definition whereevalArgs (sha : bool) (t : tokens) (vs : list string)
    : result failure (tokens * list string) :=
  let? (src, vs) := token1 vs in
  let? (nargsStr, vs) := token1 vs in
  let? nargs := parseUint nargsStr in
  match luapool_Get with
  | Some e => Err e
  | None =>
    let? (args, vs) := readArgs true nargs vs in
    let? fn := script_load sha src args in
    Ok (filters t (t_detect t) (t_accept t) (t_globs t) (t_wheres t) (t_whereins t)
          (t_whereevals t ++ [fn]) (t_buffer t), vs)
  end.

(** The set a comma list denotes; [ok] says which parts are allowed. *)
Fixpoint partsOf (ok : string -> bool) (peek : string) (parts : list string) (acc : list string)
    : result failure (list string) :=
  match parts with
  | [] => Ok acc
  | s :: parts =>
    let part := TrimSpace (lowerText s) in
    if negb (ok part) then Err (errInvalidArgument peek)
    else if existsb (fun x => x =s part) acc then Err (errDuplicateArgument s)
    else partsOf ok peek parts (acc ++ [part])
  end.

Definition detectWord (part : string) : bool :=
  existsb (fun x => part =s x) ["inside"; "outside"; "enter"; "exit"; "cross"].

(** One option, after its word [wtok]; [None] when the word is none of them. *)
Definition baseToken (fromFence : bool) (p : parsing) (wtok : string) (vs : list string)
    : option (result failure (parsing * list string)) :=
  let '(mkParsing t slimit ssparse scursor asc) := p in
  let '(mkTokens _ _ _ _ fence distance nodwell detect accept globs wheres whereins evals nofields
          _ _ _ _ desc clip buffer) := t in
  let dup := Some (Err (errDuplicateArgument (ToUpper wtok))) in
  let flag fence distance nodwell nofields desc clip :=
    Some (Ok (on_t p (flags t fence distance nodwell nofields desc clip), vs)) in
  let filter_ (r : result failure (tokens * list string)) :=
    Some (let? (t, vs) := r in Ok (on_t p t, vs)) in
  if kw wtok "buffer" then
    filter_ (
      let? (sbuf, vs) := token1 vs in
      let '(buf, ok) := ParseFloat sbuf in
      if negb ok || f64_lt buf f64_zero || IsInf buf 0 || IsNaN buf then Err (errInvalidArgument sbuf)
      else Ok (filters t detect accept globs wheres whereins evals (Some buf), vs))
  else if kw wtok "cursor" then
    if negb (scursor =s "") then dup
    else Some (let? (x, vs) := token1 vs in Ok (mkParsing t slimit ssparse x asc, vs))
  else if kw wtok "where" then filter_ (whereArgs t vs)
  else if kw wtok "wherein" then filter_ (whereinArgs t vs)
  else if kw wtok "whereevalsha" then filter_ (whereevalArgs true t vs)
  else if kw wtok "whereeval" then filter_ (whereevalArgs false t vs)
  else if kw wtok "nofields" then
    if nofields then dup else flag fence distance nodwell true desc clip
  else if kw wtok "limit" then
    if negb (slimit =s "") then dup
    else Some (let? (x, vs) := token1 vs in Ok (mkParsing t x ssparse scursor asc, vs))
  else if kw wtok "sparse" then
    if negb (ssparse =s "") then dup
    else Some (let? (x, vs) := token1 vs in Ok (mkParsing t slimit x scursor asc, vs))
  else if kw wtok "fence" then
    if fence && negb fromFence then dup else flag true distance nodwell nofields desc clip
  else if kw wtok "commands" then
    if is_some accept then dup
    else filter_ (
      let? (peek, vs) := token1 vs in
      let? l := partsOf (fun _ => true) peek (splitComma peek) [] in
      Ok (filters t detect (Some l) globs wheres whereins evals buffer, vs))
  else if kw wtok "distance" then
    if distance then dup else flag fence true nodwell nofields desc clip
  else if kw wtok "detect" then
    if is_some detect then dup
    else filter_ (
      let? (peek, vs) := token1 vs in
      let? l := partsOf detectWord peek (splitComma peek) [] in
      Ok (filters t (Some l) accept globs wheres whereins evals buffer, vs))
  else if kw wtok "nodwell" then
    if desc || asc then dup else flag fence distance true nofields desc clip
  else if kw wtok "desc" then
    if desc || asc then dup else flag fence distance nodwell nofields true clip
  else if kw wtok "asc" then
    if desc || asc then dup
    else Some (Ok (mkParsing t slimit ssparse scursor true, vs))
  else if kw wtok "match" then
    filter_ (
      let? (glob, vs) := token1 vs in
      Ok (filters t detect accept (globs ++ [glob]) wheres whereins evals buffer, vs))
  else if kw wtok "clip" then
    if clip then dup else flag fence distance nodwell nofields desc true
  else None.

(** The loop; every option takes at least its word, so the number of arguments is enough. *)
Fixpoint baseLoop (fuel : nat) (fromFence : bool) (p : parsing) (vs : list string)
    : result failure (parsing * list string) :=
  match fuel, vs with
  | S fuel, wtok :: nvs =>
    if wtok =s "" then Ok (p, vs)
    else
      match baseToken fromFence p wtok nvs with
      | None => Ok (p, vs)
      | Some r => let? (p, vs) := r in baseLoop fuel fromFence p vs
      end
  | _, _ => Ok (p, vs)
  end.

(** The conflicts between options. *)
Definition conflicts (cmd : string) (p : parsing) : option failure :=
  let t := p_t p in
  let given s := negb (s =s "") in
  let scan := (cmd =s "scan") || (cmd =s "search") in
  if scan && given (ssparse p) then Some (Error ("SPARSE is not allowed for " +:+ ToUpper cmd))
  else if scan && t_fence t then Some (Error ("FENCE is not allowed for " +:+ ToUpper cmd))
  else if negb scan && t_desc t then Some (Error ("DESC is not allowed for " +:+ ToUpper cmd))
  else if negb scan && p_asc p then Some (Error ("ASC is not allowed for " +:+ ToUpper cmd))
  else if given (ssparse p) && given (slimit p) then
    Some (Error "LIMIT is not allowed when SPARSE is specified")
  else if given (scursor p) && given (ssparse p) then
    Some (Error "CURSOR is not allowed when SPARSE is specified")
  else if given (scursor p) && t_fence t then
    Some (Error "CURSOR is not allowed when FENCE is specified")
  else if is_some (t_detect t) && negb (t_fence t) then
    Some (Error "DETECT is not allowed when FENCE is not specified")
  else None.

(** The output kind, its precision as text, and the remaining arguments. *)
Definition outputArgs (cmd : string) (vs : list string)
    : result failure (outputT * string * list string) :=
  match vs with
  | [] => Ok (defaultSearchOutput, "", vs)
  | which :: nvs =>
    if which =s "" then Ok (defaultSearchOutput, "", vs)
    else if kw which "count" then Ok (outputCount, "", nvs)
    else if kw which "objects" then Ok (outputObjects, "", nvs)
    else if kw which "points" then Ok (outputPoints, "", nvs)
    else if kw which "hashes" then
      let? (sprecision, nvs) := token1 nvs in Ok (outputHashes, sprecision, nvs)
    else if kw which "bounds" then Ok (outputBounds, "", nvs)
    else if kw which "ids" then Ok (outputIDs, "", nvs)
    else if cmd =s "scan" then Err (errInvalidArgument which)
    else Ok (defaultSearchOutput, "", vs)
  end.

(** A number given as text, from [lo] to [hi]; the default when there is no text. *)
Definition numberArg (s : string) (default lo hi : Z) : result failure Z :=
  if s =s "" then Ok default
  else match ParseUint s with
       | Some n => if (lo <=? n) && (n <=? hi) then Ok n else Err (errInvalidArgument s)
       | None => Err (errInvalidArgument s)
       end.

Definition maxUint64 : Z := 2 ^ 64 - 1.

Definition parseSearchScanBaseTokens (cmd : string) (fence : bool) (vs : list string)
    : result failure (list string * tokens) :=
  let? (key, vs) := token1 vs in
  let? (p, vs) := baseLoop (length vs) fence (mkParsing (noTokens fence) "" "" "" false) vs in
  match conflicts cmd p with
  | Some e => Err e
  | None =>
    let? (output, sprecision, vs) := outputArgs cmd vs in
    let? cursor := numberArg (scursor p) 0 0 maxUint64 in
    let? precision := numberArg sprecision 0 1 12 in
    let? limit := numberArg (slimit p) 0 1 maxUint64 in
    let? sparse := numberArg (ssparse p) 0 1 16 in
    let usparse := negb (ssparse p =s "") in
    Ok (vs, results (p_t p) key cursor output precision (negb (slimit p =s ""))
              (if usparse then maxUint64 else limit) usparse sparse)
  end.
End parse.
Arguments tokens {_}.

(** ** What the parser guarantees *)

Section wf.
Context `{World} `{Unicode} `{Scripts}.
Implicit Types (t : tokens) (p : parsing) (vs : list string).

Lemma suffix_cons_l (x : string) vs' vs : vs' `suffix_of` vs -> vs' `suffix_of` x :: vs.
Proof. intros [l ->]. by exists (x :: l). Qed.

Lemma token1_Ok vs x vs' : token1 vs = Ok (x, vs') -> vs = x :: vs' /\ x <> "".
Proof. destruct vs as [|y vs]; [done|]. cbn. destruct (String.eqb_spec y ""); [done|]. naive_solver. Qed.
Lemma need_Ok vs x vs' : need vs = Ok (x, vs') -> vs = x :: vs'.
Proof. destruct vs; naive_solver. Qed.
Lemma readArgs_Ok full n vs l vs' : readArgs full n vs = Ok (l, vs') -> vs = l ++ vs'.
Proof.
  revert n l. induction vs as [|v vs IH]; intros n l E; cbn in E; ok_inv; [done..|].
  cbn. f_equal. eauto.
Qed.

Lemma ParseUint_range s n : ParseUint s = Some n -> n <= maxUint64.
Proof. unfold ParseUint, maxUint64. intros. split_matches. boolify. lia. Qed.

Lemma numberArg_Ok s d lo hi n :
  numberArg s d lo hi = Ok n -> (s = "" /\ n = d) \/ (s <> "" /\ lo <= n <= hi).
Proof.
  unfold numberArg. intros E. destruct (String.eqb_spec s ""); [naive_solver|].
  destruct (ParseUint s); [|done]. ok_inv. boolify. naive_solver.
Qed.

(** The sets of a comma list. *)
Lemma partsOf_Ok ok peek parts acc l :
  partsOf ok peek parts acc = Ok l -> NoDup acc -> Forall (fun x => ok x = true) acc ->
  NoDup l /\ Forall (fun x => ok x = true) l /\ (length acc + length parts = length l)%nat.
Proof.
  revert acc. induction parts as [|x parts IH]; intros acc E Hn Hf; cbn in E.
  - ok_inv. split_and!; [done..|]. cbn. lia.
  - ok_inv. apply IH in E as (E1 & E2 & E3).
    + rewrite length_app in E3. cbn in *. split_and!; [done..|lia].
    + apply NoDup_app. split_and!; [done| |apply NoDup_singleton].
      intros y Hy ->%list_elem_of_singleton. apply not_true_iff_false in Heqb0. destruct Heqb0.
      apply existsb_exists. exists (TrimSpace (lowerText x)). split; [by apply list_elem_of_In|].
      apply String.eqb_refl.
    + apply Forall_app. split; [done|]. boolify. by constructor.
Qed.

Lemma splitComma_nonempty s : (0 < length (splitComma s))%nat.
Proof. destruct s as [|c s]; cbn; [lia|]. case_match; [cbn; lia|]. case_match; cbn; lia. Qed.

(** The part of the tokens the loop fills in. *)
Record loop_ok t : Prop := {
  lo_detect : forall l, t_detect t = Some l -> l <> [] /\ NoDup l /\ Forall (fun x => detectWord x = true) l;
  lo_accept : forall l, t_accept t = Some l -> l <> [] /\ NoDup l;
  lo_globs : Forall (fun g => g <> "") (t_globs t);
  lo_buffer : forall b, t_buffer t = Some b -> f64_lt b f64_zero = false /\ IsInf b 0 = false /\ IsNaN b = false;
}.

Definition step_ok p vs p' vs' : Prop :=
  vs' `suffix_of` vs /\ (loop_ok (p_t p) -> loop_ok (p_t p')) /\ (t_fence (p_t p) = true -> t_fence (p_t p') = true).

(** Filters on fields leave the rest of the tokens alone. *)
Definition same_rest t t' : Prop :=
  t_detect t' = t_detect t /\ t_accept t' = t_accept t /\ t_globs t' = t_globs t /\
  t_buffer t' = t_buffer t /\ t_fence t' = t_fence t.

Lemma whereArgs_Ok t vs t' vs' :
  whereArgs t vs = Ok (t', vs') -> vs' `suffix_of` vs /\ same_rest t t'.
Proof.
  unfold whereArgs. intros E. apply rbind_Ok in E as (e & _ & E). destruct e.
  - apply rbind_Ok in E as ([x vs1] & E1 & E). apply need_Ok in E1 as ->. ok_inv.
    split; [by apply suffix_cons_l|by destruct t].
  - do 3 (apply rbind_Ok in E as ([? ?] & E1%need_Ok & E); subst). cbv zeta in E. ok_inv.
    split; [by do 3 apply suffix_cons_l|by destruct t].
Qed.

Lemma whereinArgs_Ok t vs t' vs' :
  whereinArgs t vs = Ok (t', vs') -> vs' `suffix_of` vs /\ same_rest t t'.
Proof.
  unfold whereinArgs. intros E. do 2 (apply rbind_Ok in E as ([? ?] & E1%need_Ok & E); subst).
  apply rbind_Ok in E as (n & _ & E). destruct (maxValues <? n); [done|].
  apply rbind_Ok in E as ([? ?] & ->%readArgs_Ok & E). ok_inv.
  split; [do 2 apply suffix_cons_l; by eexists|by destruct t].
Qed.

Lemma whereevalArgs_Ok sha t vs t' vs' :
  whereevalArgs sha t vs = Ok (t', vs') -> vs' `suffix_of` vs /\ same_rest t t'.
Proof.
  unfold whereevalArgs. intros E.
  do 2 (apply rbind_Ok in E as ([? ?] & [E1 _]%token1_Ok & E); subst).
  apply rbind_Ok in E as (n & _ & E). destruct luapool_Get; [done|].
  apply rbind_Ok in E as ([? ?] & ->%readArgs_Ok & E). apply rbind_Ok in E as (? & _ & E). ok_inv.
  split; [do 2 apply suffix_cons_l; by eexists|by destruct t].
Qed.

Lemma same_rest_ok t t' : same_rest t t' -> loop_ok t -> loop_ok t'.
Proof. intros (E1 & E2 & E3 & E4 & _) [L1 L2 L3 L4]. split; rewrite ?E1, ?E2, ?E3, ?E4; done. Qed.

Lemma filter_step p vs (r : result failure (tokens * list string)) p' vs' :
  (forall t', r = Ok (t', vs') -> vs' `suffix_of` vs /\ same_rest (p_t p) t') ->
  (let? (t, vs) := r in Ok (on_t p t, vs)) = Ok (p', vs') -> step_ok p vs p' vs'.
Proof.
  intros Hr E. apply rbind_Ok in E as ([t' vs1] & -> & E). ok_inv.
  destruct (Hr t' eq_refl) as [Hs Hsr]. split; [done|].
  split; [by apply same_rest_ok|]. destruct Hsr as (_ & _ & _ & _ & Hf). cbn. congruence.
Qed.

(** Every option takes arguments from the front and keeps what holds of the tokens. *)
Lemma baseToken_ok ff p w vs p' vs' :
  baseToken ff p w vs = Some (Ok (p', vs')) -> step_ok p vs p' vs'.
Proof.
  destruct p as [[k c o pr fe di nd de ac gl ws wi ev nf ul li us sp ds cl bu] sl ss sc asc].
  unfold baseToken. cbv zeta.
  set (t := mkTokens k c o pr fe di nd de ac gl ws wi ev nf ul li us sp ds cl bu).
  set (p := mkParsing t sl ss sc asc). intros E.
  assert (forall t' slimit ssparse scursor asc vs1, same_rest t t' -> vs1 `suffix_of` vs ->
    step_ok p vs (mkParsing t' slimit ssparse scursor asc) vs1) as Hsame.
  { intros t' ? ? ? ? vs1 Hsr Hs. split; [done|]. split; [by apply same_rest_ok|].
    destruct Hsr as (_ & _ & _ & _ & Hf). cbn. by rewrite Hf. }
  repeat match type of E with
    | (if kw ?a ?b then _ else _) = _ => destruct (kw a b);
        [match b with
         | "where" => injection E as E; eapply filter_step; [|exact E]; intros ? ?%whereArgs_Ok; done
         | "wherein" => injection E as E; eapply filter_step; [|exact E]; intros ? ?%whereinArgs_Ok; done
         | "whereevalsha" => injection E as E; eapply filter_step; [|exact E]; intros ? ?%whereevalArgs_Ok; done
         | "whereeval" => injection E as E; eapply filter_step; [|exact E]; intros ? ?%whereevalArgs_Ok; done
         | _ => idtac
         end|]
    end; ok_inv; try done.
  all: repeat match goal with Ht : token1 _ = Ok _ |- _ => apply token1_Ok in Ht as [? ?] end; subst.
  all: try (apply Hsame; [done|first [done|by apply suffix_cons_l]]).
  all: try (split; [first [done|by apply suffix_cons_l]|]; split; [|done]; intros [L1 L2 L3 L4]; split; cbn in *; done).
  all: split; [by apply suffix_cons_l|]; split; [|done]; intros [L1 L2 L3 L4]; split; cbn in *; try done.
  - intros b0 [= <-]. boolify. tauto.
  - intros l [= <-]. edestruct partsOf_Ok as (N1 & _ & N3); [eassumption|constructor|constructor|].
    split; [|done]. intros ->. cbn in N3. pose proof (splitComma_nonempty s). lia.
  - intros l [= <-]. edestruct partsOf_Ok as (N1 & N2 & N3); [eassumption|constructor|constructor|].
    split; [|done]. intros ->. cbn in N3. pose proof (splitComma_nonempty s). lia.
  - apply Forall_app. by repeat constructor.
Qed.

Lemma step_refl p vs : step_ok p vs p vs.
Proof. split; [|done]. by exists []. Qed.

Lemma baseLoop_ok fuel ff p vs p' vs' :
  baseLoop fuel ff p vs = Ok (p', vs') -> step_ok p vs p' vs'.
Proof.
  revert p vs. induction fuel as [|fuel IH]; intros p [|w vs] E; cbn in E; ok_inv; try by apply step_refl.
  destruct (baseToken ff p w vs) as [r|] eqn:Eb; [|ok_inv; by apply step_refl].
  apply rbind_Ok in E as ([p1 vs1] & -> & E). apply IH in E as (S1 & L1 & F1).
  apply baseToken_ok in Eb as (S2 & L2 & F2).
  split; [|tauto]. apply suffix_cons_l. by etrans.
Qed.

(** The fuel of the loop is never used up. *)
Lemma baseLoop_fuel ff p vs n m :
  (length vs <= n)%nat -> (length vs <= m)%nat -> baseLoop n ff p vs = baseLoop m ff p vs.
Proof.
  revert p vs m. induction n as [|n IH]; intros p [|w vs] [|m] Hn Hm; cbn in *; try lia; try done.
  case_match; [done|]. destruct (baseToken ff p w vs) as [[[p1 vs1]|]|] eqn:Eb; [|done..].
  cbn. apply baseToken_ok in Eb as ([l ->] & _). rewrite length_app in *. apply IH; lia.
Qed.

(** What a command may rely on. *)
Record tokens_ok (cmd : string) t : Prop := {
  tk_key : t_key t <> "";
  tk_cursor : 0 <= t_cursor t <= maxUint64;
  tk_precision : if decide (t_output t = outputHashes) then 1 <= t_precision t <= 12 else t_precision t = 0;
  tk_limit : if t_ulimit t then 1 <= t_limit t <= maxUint64
             else t_limit t = if t_usparse t then maxUint64 else 0;
  tk_sparse : if t_usparse t then 1 <= t_sparse t <= 16 /\ t_ulimit t = false /\ t_cursor t = 0
              else t_sparse t = 0;
  tk_scan : cmd = "scan" \/ cmd = "search" -> t_fence t = false /\ t_usparse t = false;
  tk_desc : cmd <> "scan" -> cmd <> "search" -> t_desc t = false;
  tk_fence : t_fence t = true -> t_cursor t = 0;
  tk_detect : t_detect t <> None -> t_fence t = true;
  tk_loop : loop_ok t;
}.

Lemma conflicts_None cmd p :
  conflicts cmd p = None ->
  (cmd = "scan" \/ cmd = "search" -> ssparse p = "" /\ t_fence (p_t p) = false) /\
  (cmd <> "scan" -> cmd <> "search" -> t_desc (p_t p) = false) /\
  (ssparse p <> "" -> slimit p = "" /\ scursor p = "") /\
  (t_fence (p_t p) = true -> scursor p = "") /\
  (t_detect (p_t p) <> None -> t_fence (p_t p) = true).
Proof.
  unfold conflicts. destruct (cmd =s "scan") eqn:E1, (cmd =s "search") eqn:E2; boolify; subst; try done;
    destruct (String.eqb_spec (ssparse p) ""), (String.eqb_spec (slimit p) ""), (String.eqb_spec (scursor p) ""),
      (t_fence (p_t p)), (t_desc (p_t p)), (p_asc p), (t_detect (p_t p)); cbn; try done; naive_solver.
Qed.

Lemma outputArgs_Ok cmd vs o s vs' :
  outputArgs cmd vs = Ok (o, s, vs') ->
  vs' `suffix_of` vs /\ (if decide (o = outputHashes) then s <> "" else s = "").
Proof.
  assert (forall l : list string, l `suffix_of` l) as Hr by (by exists []).
  unfold outputArgs. intros E. destruct vs as [|w vs]; ok_inv; try (split; [|done]; auto using suffix_cons_l).
  match goal with Ht : token1 _ = Ok _ |- _ => apply token1_Ok in Ht as [-> ?] end.
  split; [by do 2 apply suffix_cons_l|done].
Qed.

Lemma loop_ok_results t k c o pr ul li us sp : loop_ok t -> loop_ok (results t k c o pr ul li us sp).
Proof. by intros [L1 L2 L3 L4]. Qed.

Lemma noTokens_ok f : loop_ok (noTokens f).
Proof. by split. Qed.

Lemma parse_tokens_ok cmd fence vs rest t :
  parseSearchScanBaseTokens cmd fence vs = Ok (rest, t) -> rest `suffix_of` vs /\ tokens_ok cmd t.
Proof.
  unfold parseSearchScanBaseTokens. intros E.
  apply rbind_Ok in E as ([key vs1] & [-> Hk]%token1_Ok & E).
  apply rbind_Ok in E as ([p vs2] & Hl%baseLoop_ok & E). destruct Hl as (S1 & L1 & _).
  destruct (conflicts cmd p) eqn:Ec; [done|]. apply conflicts_None in Ec as (C1 & C2 & C3 & C4 & C5).
  apply rbind_Ok in E as ([[o sp] vs3] & [S2 Hp]%outputArgs_Ok & E).
  do 4 (apply rbind_Ok in E as (? & ?%numberArg_Ok & E)). ok_inv.
  split; [apply suffix_cons_l; by etrans|].
  destruct (String.eqb_spec (slimit p) ""), (String.eqb_spec (ssparse p) ""); cbn [negb];
    split; cbn -[Z.le decide]; try done; try (apply loop_ok_results, L1, noTokens_ok);
    try (destruct (decide _)); unfold maxUint64 in *; intuition (congruence || lia).
Qed.

(** What [parseSearchScanBaseTokens] returns: the remaining arguments are a suffix of
    those given, every number is in the range its option documents, and no two options
    are there that exclude each other. *)
Theorem parseSearchScanBaseTokens_ok cmd fence vs rest t :
  parseSearchScanBaseTokens cmd fence vs = Ok (rest, t) -> rest `suffix_of` vs /\ tokens_ok cmd t.
Proof. apply parse_tokens_ok. Qed.
End wf.

(** ** When the parser panics *)

Section panics.
Context `{World} `{Unicode} `{Scripts}.
Implicit Types (t : tokens) (p : parsing) (vs : list string).
Hypothesis load_errors : forall sha src args, script_load sha src args <> Err OutOfRange.
Hypothesis pool_errors : luapool_Get <> Some OutOfRange.

(** An empty argument, or a number no allocation can have. *)
Definition hazardous vs : Prop :=
  "" ∈ vs \/ exists s n, s ∈ vs /\ ParseUint s = Some n /\ maxValues < n.

Lemma hazardous_suffix vs vs' : vs' `suffix_of` vs -> hazardous vs' -> hazardous vs.
Proof. intros [l ->] [Hn|(s & n & Hs & Hn)]; [left|right; exists s, n]; set_solver. Qed.
Lemma hazardous_cons x vs : hazardous vs -> hazardous (x :: vs).
Proof. apply hazardous_suffix. by exists [x]. Qed.

Lemma token1_panics vs : token1 vs <> Err OutOfRange.
Proof. destruct vs as [|x vs]; cbn; [done|]. by destruct (x =s ""). Qed.
Lemma need_panics vs : need vs <> Err OutOfRange.
Proof. by destruct vs. Qed.
Lemma readArgs_panics full n vs : readArgs full n vs <> Err OutOfRange.
Proof.
  revert n. induction vs as [|v vs IH]; intros n; cbn; case_match; try done; case_match; [done|].
  rewrite rbind_Err. intros [E|([? ?] & _ & E)]; [by apply IH in E|done].
Qed.
Lemma parseUint_panics s : parseUint s <> Err OutOfRange.
Proof. unfold parseUint. by destruct (ParseUint s). Qed.
Lemma numberArg_panics s d lo hi : numberArg s d lo hi <> Err OutOfRange.
Proof. unfold numberArg. repeat case_match; done. Qed.
Lemma partsOf_panics ok peek parts acc : partsOf ok peek parts acc <> Err OutOfRange.
Proof. revert acc. induction parts as [|x parts IH]; intros acc; cbn; [done|]. repeat case_match; done || apply IH. Qed.

(** Discharge the computations that never panic, and keep the rest of the chain. *)
Ltac no_panic E :=
  repeat (apply rbind_Err in E as [E|([? ?] & ? & E)];
    [first [by apply token1_panics in E|by apply need_panics in E|by apply readArgs_panics in E]|]).

Lemma whereArgs_panics t vs : whereArgs t vs = Err OutOfRange -> hazardous vs.
Proof.
  unfold whereArgs. intros E. apply rbind_Err in E as [E|(e & _ & E)].
  - left. destruct vs as [|x [|[|c v] [|y l]]]; try done; [set_solver|..]; cbn in E; by repeat case_match.
  - exfalso. destruct e; no_panic E; done.
Qed.

Lemma whereinArgs_panics t vs : whereinArgs t vs = Err OutOfRange -> hazardous vs.
Proof.
  unfold whereinArgs. intros E.
  apply rbind_Err in E as [E|([x vs1] & ->%need_Ok & E)]; [by apply need_panics in E|].
  apply rbind_Err in E as [E|([y vs2] & ->%need_Ok & E)]; [by apply need_panics in E|].
  apply rbind_Err in E as [E|(n & Hn & E)]; [by apply parseUint_panics in E|].
  destruct (Z.ltb_spec maxValues n) as [Hlt|].
  - right. exists y, n. unfold parseUint in Hn. destruct (ParseUint y) eqn:Ey; [|done]. ok_inv. set_solver.
  - exfalso. no_panic E. done.
Qed.

Lemma whereevalArgs_panics sha t vs : whereevalArgs sha t vs <> Err OutOfRange.
Proof.
  unfold whereevalArgs. intros E. no_panic E.
  apply rbind_Err in E as [E|(n & Hn & E)]; [by apply parseUint_panics in E|].
  destruct luapool_Get eqn:El; [congruence|]. no_panic E.
  apply rbind_Err in E as [E|(fn & _ & E)]; [by apply load_errors in E|done].
Qed.

Lemma baseToken_panics ff p w vs : baseToken ff p w vs = Some (Err OutOfRange) -> hazardous vs.
Proof.
  destruct p as [[k c o pr fe di nd de ac gl ws wi ev nf ul li us sp ds cl bu] sl ss sc asc].
  unfold baseToken. cbv zeta. intros E.
  repeat match type of E with
    | (if kw ?a ?b then _ else _) = _ => destruct (kw a b);
        [repeat match type of E with (if ?b then _ else _) = _ => destruct b; [discriminate E|] end;
         injection E as E;
         first [discriminate E|apply rbind_Err in E as [E|([? ?] & _ & E)]; [|discriminate E]]|]
    end; try discriminate E.
  all: try by apply token1_panics in E.
  all: try by first [apply whereArgs_panics in E|apply whereinArgs_panics in E|apply whereevalArgs_panics in E].
  all: exfalso; apply rbind_Err in E as [E|([? ?] & _ & E)]; [by apply token1_panics in E|].
  all: try done.
  all: repeat match type of E with
    | (let '(_, _) := ?x in _) = _ => destruct x
    | (if ?b then _ else _) = _ => destruct b; try discriminate E
    end; try discriminate E.
  all: apply rbind_Err in E as [E|(? & _ & E)]; [by apply partsOf_panics in E|done].
Qed.

Lemma baseLoop_panics fuel ff p vs : baseLoop fuel ff p vs = Err OutOfRange -> hazardous vs.
Proof.
  revert p vs. induction fuel as [|fuel IH]; intros p [|w vs] E; cbn in E; try done.
  case_match; [done|]. destruct (baseToken ff p w vs) as [r|] eqn:Eb; [|done]. apply hazardous_cons.
  apply rbind_Err in E as [->|([p1 vs1] & -> & E)]; [by apply baseToken_panics in Eb|].
  apply baseToken_ok in Eb as [Hs _]. eapply hazardous_suffix; [exact Hs|]. by eapply IH.
Qed.

(** The parser of the options panics only on arguments of which one is empty or is a
    number beyond every allocation. *)
Theorem parse_panics cmd fence vs :
  parseSearchScanBaseTokens cmd fence vs = Err OutOfRange -> hazardous vs.
Proof.
  unfold parseSearchScanBaseTokens. intros E.
  apply rbind_Err in E as [E|([key vs1] & [-> _]%token1_Ok & E)]; [by apply token1_panics in E|].
  apply hazardous_cons. apply rbind_Err in E as [E|([p vs2] & _ & E)]; [by apply baseLoop_panics in E|].
  exfalso. destruct (conflicts cmd p) as [e|] eqn:Ec.
  { injection E as ->. revert Ec. unfold conflicts. by repeat case_match. }
  apply rbind_Err in E as [E|([[o sp] vs3] & _ & E)].
  { destruct vs2 as [|w vs2]; [done|]. cbn in E. repeat (case_match; [done|]).
    case_match; [|by repeat case_match]. no_panic E. done. }
  do 4 (apply rbind_Err in E as [E|(? & _ & E)]; [by apply numberArg_panics in E|]). done.
Qed.
End panics.

(** ** Examples *)

Module TokenExample.
Import ExampleWorld.
#[local] Existing Instance world.

#[global] Instance unicode : Unicode := fun s => default s (ToLower s).
#[global] Instance unicode_laws : UnicodeLaws.
Proof. intros s l E. unfold lowerText, unicode. by rewrite E. Qed.
#[global] Instance scripts : Scripts := {|
  script := string;
  luapool_Get := None;
  script_load := fun _ src _ => Ok src;
  script_match := fun _ _ _ _ => Ok true |}.

Definition parsed (cmd : string) (vs : list string) : result failure (list string * tokens) :=
  parseSearchScanBaseTokens cmd false vs.

Definition query : list string :=
  ["fleet"; "MATCH"; "tr*"; "LIMIT"; "10"; "DESC"; "where"; "speed"; "(5"; "+inf"; "IDS"].
Definition queryTokens : tokens :=
  match parsed "scan" query with Ok (_, t) => t | Err _ => noTokens false end.

Lemma parseSearchScanBaseTokens_ok_witness :
  t_globs queryTokens = ["tr*"] /\ t_limit queryTokens = 10 /\ tokens_ok "scan" queryTokens.
Proof.
  split; [by vm_compute|]. split; [by vm_compute|].
  destruct (parseSearchScanBaseTokens_ok "scan" false query [] queryTokens eq_refl) as [_ Hok]. exact Hok.
Defined.

Definition emptyBound : list string := ["fleet"; "WHERE"; "speed"; ""; "5"].
Lemma parse_panics_witness : parsed "scan" emptyBound = Err OutOfRange /\ hazardous emptyBound.
Proof.
  split; [by vm_compute|].
  refine (parse_panics _ _ "scan" false emptyBound _); [done|done|by vm_compute].
Defined.

(** An empty bound of a WHERE, or a huge count of a WHEREIN, is a panic, not an error. *)
Lemma where_empty_panics : parsed "scan" ["fleet"; "WHERE"; "speed"; ""; "5"] = Err OutOfRange.
Proof. by vm_compute. Qed.
Lemma wherein_huge_panics :
  parsed "scan" ["fleet"; "WHEREIN"; "speed"; "18446744073709551615"; "5"] = Err OutOfRange.
Proof. by vm_compute. Qed.

(** NODWELL may be given twice, and is refused after ASC. *)
Lemma nodwell_twice :
  (exists t, parsed "nearby" ["fleet"; "FENCE"; "NODWELL"; "NODWELL"; "x"] = Ok (["x"], t)) /\
  parsed "nearby" ["fleet"; "FENCE"; "ASC"; "NODWELL"] = Err (errDuplicateArgument "NODWELL").
Proof. split; [|by vm_compute]. eexists. by vm_compute. Qed.
End TokenExample.
