(* ===== verification/Scanner.v ===== *)
(** * Scans and searches ([src/internal/legacy/server/scanner.go], [scan.go], [search.go])

    A [scanWriter] collects the objects a scan hands it: it tests each one against the
    patterns and filters of the command, stops at the limit, and writes the reply with a
    cursor to continue from. SCAN and SEARCH are modelled from their arguments to the
    reply. *)

From Stdlib Require Import Ascii String ZArith Lia Bool SpecFloat.
From stdpp Require Import base list strings option sorting sets gmap.
From S2P Require Import Prelude GoStd Strconv Glob GlobFacts Json Containers Field FieldList.
From S2P Require Import FieldBinary Geo Object Collection CollectionScan Group World Hooks Crud.
From S2P Require Import CrudFacts Token.
Import Glob.

Local Open Scope Z_scope.

Definition limitItems : Z := 100.

(** The expression package, the clipping of geometries and the rendering of a tile. *)
Class Engines `{World} := {
  expr_match : string -> Object wG -> bool;
  Clip : geometry wG -> geometry wG -> geometry wG;
  mvtRender : Z * Z * Z -> list (string * geometry wG) -> string;
  base64_Encode : string -> string;
}.

Section scanner.
Context `{World} `{Unicode} `{Scripts} `{!Engines}.
Implicit Types (s : Server) (o : Object wG) (msg : Message) (ck : clock).

(** [ScanWriterParams] *)
Record swParams := mkParams {
  pr_obj : Object wG; pr_dist : float64; pr_distOutput : bool; pr_noTest : bool;
  pr_clip : option (geometry wG) }.
Definition plain o : swParams := mkParams o f64_zero false false None.

(** The members of [scanWriter] that do not change, and those that do. *)
Record scanWriter := mkScanWriter {
  sw_out : outType; sw_col : option (Collection wG wM wT wR); sw_output : outputT;
  sw_wheres : list whereT; sw_whereins : list whereinT; sw_whereevals : list script;
  sw_nofields : bool; sw_cursor : Z; sw_limit : Z; sw_precision : Z;
  sw_globs : list string; sw_globEverything : bool; sw_matchValues : bool;
  sw_fullFields : bool; sw_mvt : option (Z * Z * Z) }.
Record swState := mkState {
  sw_count : Z; numberItems : Z; hitLimit : bool; fkeys : wT string str_ltb;
  filled : list swParams; mvtObjs : list (string * geometry wG) }.

Definition swInit : swState := mkState 0 0 false (bt_new _ _) [] [].

Definition newScanWriter s msg (t : tokens) (matchValues : bool) (mvt : option (Z * Z * Z)) : scanWriter :=
  let limit := if t_limit t =? 0
               then match t_output t with outputCount => maxUint64 | _ => limitItems end
               else t_limit t in
  mkScanWriter (OutputType msg) (sm_get (cols s) (t_key t)) (t_output t) (t_wheres t) (t_whereins t)
    (t_whereevals t) (t_nofields t) (t_cursor t) limit (t_precision t) (t_globs t)
    (match t_globs t with [] => true | [g] => g =s "*" | _ => false end) matchValues false mvt.

Definition hasFieldsOutput (sw : scanWriter) : bool :=
  match sw_output sw with outputIDs | outputCount => false | _ => negb (sw_nofields sw) end.

(** ** Tests on an object *)

Definition isPathKey (s key : string) : bool :=
  has_prefix s key && ((s =s key) || match str_drop (String.length key) s with
                                     | String c _ => (c =? ".")%char
                                     | "" => false
                                     end).

Definition getFieldValue o (name : string) : Value :=
  let prop :=
    if isPathKey name "properties" then
      match gjson_result (Members (Geo o)) "properties" with
      | None => None
      | Some (_, raw) =>
        if name =s "properties" then Some raw
        else snd <$> gjson_result raw (str_drop (String.length "properties" + 1) name)
      end
    else None in
  match prop with
  | Some raw => ValueOf raw
  | None =>
    if name =s "z" then ValueOf (FormatFloat (extractZCoordinate (Geo o)))
    else value (fl_get (Fields o) name)
  end.

Fixpoint evalsMatch (evals : list script) fields id props : result failure bool :=
  match evals with
  | [] => Ok true
  | e :: evals =>
    let? m := script_match e fields id props in
    if m : bool then evalsMatch evals fields id props else Ok false
  end.

Definition fieldMatch (sw : scanWriter) o : result failure bool :=
  if existsb (fun w => negb (if w_expr w then expr_match (w_name w) o
                             else matchField w (getFieldValue o (w_name w)))) (sw_wheres sw) then Ok false
  else if existsb (fun w => negb (wherein_match w (getFieldValue o (wi_name w)))) (sw_whereins sw) then Ok false
  else
    match sw_whereevals sw with
    | [] => Ok true
    | evals =>
      let '(zs, props) :=
        if IsSpatial (Geo o) then
          ([("z", ValueOf (FormatFloat (extractZCoordinate (Geo o))))],
           match gjson_result (Members (Geo o)) "properties" with Some (_, raw) => raw | None => "" end)
        else ([], "") in
      evalsMatch evals (zs ++ ((fun f => (name f, value f)) <$> Fields o)) (ID o) props
    end.

(** The second result of the code's [globMatch], whether to go on, is always true. *)
Definition globMatch (sw : scanWriter) o : bool :=
  if sw_globEverything sw then true
  else
    let val := if sw_matchValues sw then StringOf (Geo o) else ID o in
    existsb (fun pattern => matches pattern val) (sw_globs sw).

Definition testObject (sw : scanWriter) o : result failure bool :=
  if negb (globMatch sw o) then Ok false else fieldMatch sw o.

(** ** Collecting *)

(** The state, whether to go on, and the error if any. *)
Definition pushObject (sw : scanWriter) (opts : swParams) (x : swState) : swState * result failure bool :=
  match (if pr_noTest opts then Ok true else testObject sw (pr_obj opts)) with
  | Err e => (x, Err e)
  | Ok false => (x, Ok true)
  | Ok true =>
    let count := sw_count x + 1 in
    match sw_output sw with
    | outputCount =>
      (mkState count (numberItems x) (hitLimit x) (fkeys x) (filled x) (mvtObjs x), Ok (count <? sw_limit sw))
    | _ =>
      let o := pr_obj opts in
      let o := match pr_clip opts with
               | None => o
               | Some c => Object.New (ID o) (Clip (Geo o) c) (Expires o) (Fields o)
               end in
      let opts := mkParams o (pr_dist opts) (pr_distOutput opts) (pr_noTest opts) (pr_clip opts) in
      let mvtObjs := match sw_mvt sw with Some _ => mvtObjs x ++ [(ID o, Geo o)] | None => mvtObjs x end in
      let fkeys := if sw_fullFields sw then fkeys x else foldl (fun t f => bt_set t (name f)) (fkeys x) (Fields o) in
      let items := numberItems x + 1 in
      let hit := items =? sw_limit sw in
      (mkState count items (hitLimit x || hit) fkeys (filled x ++ [opts]) mvtObjs, Ok (negb hit))
    end
  end.

(** The callback of the scans: the writer's state and the first error. *)
Definition scanIter (sw : scanWriter) (params : Object wG -> swParams) (x : swState * option failure) o
    : (swState * option failure) * bool :=
  match pushObject sw (params o) x.1 with
  | (y, Ok k) => ((y, x.2), k)
  | (y, Err e) => ((y, Some e), false)
  end.

(** ** Writing the reply *)

(** The fields of an object as JSON: all of them by name, or by position those of the
    names seen in the reply. *)
Definition filledFields (sw : scanWriter) (x : swState) o : string :=
  if negb (hasFieldsOutput sw) then ""
  else if sw_fullFields sw then
    match Fields o with
    | [] => ""
    | fs => js ",'fields':{" +:+ fieldsJSON (filter (fun f => IsZero (value f) = false) fs) +:+ "}"
    end
  else
    match bt_items (fkeys x) with
    | [] => ""
    | names => js ",'fields':[" +:+ join ((fun n => value_JSON (value (fl_get (Fields o) n))) <$> names) +:+ "]"
    end.

(** The form of an object in the reply, as in GET. *)
Definition kindOf (out : outputT) : okind :=
  match out with
  | outputPoints => KPoint
  | outputHashes => KHash
  | outputBounds => KBounds
  | _ => KObject
  end.

Definition withDist (opts : swParams) : bool := pr_distOutput opts || f64_gt (pr_dist opts) f64_zero.

(** [writeFilled] for JSON, without the comma between objects. *)
Definition filledJSON (sw : scanWriter) (x : swState) (opts : swParams) : string :=
  let o := pr_obj opts in
  let dist := js ",'distance':" +:+ FormatFloat (pr_dist opts) in
  match sw_output sw with
  | outputIDs =>
    if withDist opts then js "{'id':" +:+ jsonString (ID o) +:+ dist +:+ "}" else jsonString (ID o)
  | out =>
    js "{'id':" +:+ jsonString (ID o) +:+ kindJSON o (kindOf out) (sw_precision sw) +:+
    filledFields sw x o +:+ (if withDist opts then dist else "") +:+ "}"
  end.

Definition pointValue (g : geometry wG) : respValue :=
  let point := Center g in
  let z := extractZCoordinate g in
  RArray ([RFloat (Y point); RFloat (X point)] ++ if negb (f64_eq z f64_zero) then [RFloat z] else []).

(** [writeFilled] for RESP. *)
Definition filledRESP (sw : scanWriter) (opts : swParams) : respValue :=
  let o := pr_obj opts in
  let dist := if withDist opts then [RFloat (pr_dist opts)] else [] in
  match sw_output sw with
  | outputIDs => if withDist opts then RArray (RString (ID o) :: dist) else RString (ID o)
  | out =>
    let v := match out with
             | outputPoints => pointValue (Geo o)
             | out => kindValue o (kindOf out) (sw_precision sw)
             end in
    let fvals := if hasFieldsOutput sw
                 then fieldValues (filter (fun f => IsZero (value f) = false) (Fields o)) else [] in
    RArray (RString (ID o) :: v :: match fvals with [] => [] | _ => [RArray fvals] end ++ dist)
  end.

Definition listName (out : outputT) : string :=
  match out with
  | outputIDs => js ",'ids':["
  | outputObjects => js ",'objects':["
  | outputPoints => js ",'points':["
  | outputBounds => js ",'bounds':["
  | outputHashes => js ",'hashes':["
  | outputCount => ""
  end.

Definition nextCursor (x : swState) (numberIters : Z) : Z := if hitLimit x then numberIters else 0.

(** [writeFoot] and the end of the commands: the reply. *)
Definition footJSON (sw : scanWriter) (x : swState) (numberIters : Z) : string :=
  match sw_mvt sw with
  | Some tile => js ",'mvt':'" +:+ base64_Encode (mvtRender tile (mvtObjs x)) +:+ js "'"
  | None =>
    match bt_items (fkeys x) with
    | [] => ""
    | names => if hasFieldsOutput sw then js ",'fields':[" +:+ join (jsonString <$> names) +:+ "]" else ""
    end +:+ listName (sw_output sw) +:+ join (filledJSON sw x <$> filled x) +:+
    match sw_output sw with outputCount => "" | _ => "]" end
  end +:+
  js ",'count':" +:+ FormatUint (sw_count x) +:+ js ",'cursor':" +:+ FormatUint (nextCursor x numberIters).

Definition scanReply (sw : scanWriter) ck (x : swState) (numberIters : Z) : respValue :=
  match sw_out sw with
  | OutJSON => RString (js "{'ok':true" +:+ footJSON sw x numberIters +:+ elapsed ck)
  | OutRESP =>
    match sw_output sw with
    | outputCount => RInt (int64 (sw_count x))
    | _ =>
      RArray [RInt (int64 (nextCursor x numberIters));
              match sw_mvt sw with
              | Some tile => RString (mvtRender tile (mvtObjs x))
              | None => RArray (filledRESP sw <$> filled x)
              end]
    end
  | OutOther => RZero
  end.

(** ** SCAN and SEARCH *)

(** [multiGlobParse]: [first] is set at the first pattern. *)
Fixpoint multiGlob (desc first : bool) (l0 l1 : string) (globs : list string) : string * string :=
  match globs with
  | [] => (l0, l1)
  | pattern :: globs =>
    let '(g0, g1) := Limits (Parse pattern desc) in
    if (g0 =s "") && (g1 =s "") then ("", "")
    else if first then multiGlob desc false g0 g1 globs
    else if desc then
      multiGlob desc false (if l0 <s g0 then g0 else l0) (if g1 <s l1 then g1 else l1) globs
    else
      multiGlob desc false (if g0 <s l0 then g0 else l0) (if l1 <s g1 then g1 else l1) globs
  end.
Definition multiGlobParse (globs : list string) (desc : bool) : string * string :=
  multiGlob desc true "" "" globs.

(** The arguments of SCAN and of SEARCH: options and nothing else. *)
Definition cmdScanArgs (cmd : string) (vs : list string) : result failure tokens :=
  let? (vs, t) := parseSearchScanBaseTokens cmd false vs in
  match vs with [] => Ok t | _ => Err errInvalidNumberOfArguments end.

(** What is left of the collection, as the commands count it. *)
Definition countAfter (n cursor : Z) : Z := Z.max 0 (int64 (n - int64 cursor)).

(** The end of a command after the scan: the deadline, the error of a test, the reply. *)
Definition scanDone (sw : scanWriter) ck (r : scan (swState * option failure)) : rresult :=
  if timeout r then Err DeadlineHit
  else match (st r).2 with
       | Some e => Err e
       | None => Ok (scanReply sw ck (st r).1 (steps r))
       end.

Definition counted (n : Z) : swState := mkState n 0 false (bt_new _ _) [] [].

Definition cmdScan s msg ck : rresult :=
  let? t := cmdScanArgs "scan" (drop 1 (Args msg)) in
  let sw := newScanWriter s msg t false None in
  match sw_col sw with
  | None => Ok (scanReply sw ck swInit 0)
  | Some col =>
    match sw_output sw, sw_wheres sw, sw_whereins sw, sw_whereevals sw, sw_globEverything sw with
    | outputCount, [], [], [], true => Ok (scanReply sw ck (counted (countAfter (Count col) (t_cursor t))) 0)
    | _, _, _, _, _ =>
      let '(l0, l1) := multiGlobParse (sw_globs sw) (t_desc t) in
      let r :=
        if (l0 =s "") && (l1 =s "")
        then Scan col (t_desc t) (Some (sw_cursor sw)) (Deadline_ msg) (scanIter sw plain) (swInit, None)
        else ScanRange col l0 l1 (t_desc t) (Some (sw_cursor sw)) (Deadline_ msg) (scanIter sw plain)
               (swInit, None) in
      scanDone sw ck r
    end
  end.

Definition cmdSearch s msg ck : rresult :=
  let? t := cmdScanArgs "search" (drop 1 (Args msg)) in
  let sw := newScanWriter s msg t true None in
  match sw_col sw with
  | None => Ok (scanReply sw ck swInit 0)
  | Some col =>
    match sw_output sw, sw_wheres sw, sw_globEverything sw with
    | outputCount, [], true => Ok (scanReply sw ck (counted (countAfter (Count col) (t_cursor t))) 0)
    | _, _, _ =>
      let '(l0, l1) := multiGlobParse (sw_globs sw) (t_desc t) in
      let r :=
        if (l0 =s "") && (l1 =s "")
        then SearchValues col (t_desc t) (Some (sw_cursor sw)) (Deadline_ msg) (scanIter sw plain) (swInit, None)
        else SearchValuesRange col l0 l1 (t_desc t) (Some (sw_cursor sw)) (Deadline_ msg) (scanIter sw plain)
               (swInit, None) in
      scanDone sw ck r
    end
  end.
End scanner.

(** ** Paging *)

(** How many items a callback takes from a list. *)
Fixpoint taken {St A} (iterator : St -> A -> St * bool) (s : St) (l : list A) : nat :=
  match l with
  | [] => 0%nat
  | x :: l => S (let '(s, k) := iterator s x in if k then taken iterator s l else 0%nat)
  end.

Lemma run_until_taken {St A} stop (it : St -> A -> St * bool) s l s' :
  run it s (until stop l) = (s', false) ->
  run_until stop it s l = (s', false, Z.of_nat (taken it s (until stop l))).
Proof.
  revert s. induction l as [|x l IH]; intros s E; cbn in *; [done|].
  destruct (stop x); [done|]. cbn in *. destruct (it s x) as [s1 []].
  - rewrite (IH s1 E). f_equal. lia.
  - by injection E as ->.
Qed.

Lemma taken_fmap {St A B} (it : St -> B -> St * bool) (f : A -> B) s l :
  taken (fun s a => it s (f a)) s l = taken it s (f <$> l).
Proof.
  revert s. induction l as [|a l IH]; intros s; cbn; [done|]. f_equal.
  by destruct (it s (f a)) as [s' []].
Qed.

(** Where a scan stands that its callback ended. *)
Lemma visits_taken {St A} (stop : A -> bool) (it : St -> A -> St * bool) c s l :
  0 <= c -> StronglySorted (fun a b => stop a = true -> stop b = true) l ->
  let r := iter_while (visit (Some c) stop it) (start (Some c) None s) l in
  keepon r = false ->
  steps r = c + Z.of_nat (taken it s (drop (Z.to_nat c) (filter (fun a => stop a = false) l))).
Proof.
  intros Hc Hs r Hk. pose proof (visits stop it (Some c) s l Hc) as E.
  pose proof (visits_run stop it (Some c) s l Hc Hs) as E'. fold r in E, E'. cbn in E, E'.
  rewrite <- until_filter, <- until_drop in * by done.
  unfold outcome in *. cbn in E'. rewrite Hk in *.
  rewrite (run_until_taken _ _ _ _ _ (eq_sym E')) in E. by injection E as ->.
Qed.

Section paging.
Context `{WorldLaws} `{Unicode} `{Scripts} `{!Engines}.
Implicit Types (s : Server) (o : Object wG) (msg : Message) (ck : clock) (sw : scanWriter).

(** A writer without scripts, that collects objects. *)
Definition collects sw : Prop :=
  sw_whereevals sw = [] /\ sw_output sw <> outputCount /\ 1 <= sw_limit sw.

Definition passes sw o : bool := match testObject sw o with Ok b => b | Err _ => false end.

Lemma testObject_Ok sw o : sw_whereevals sw = [] -> testObject sw o = Ok (passes sw o).
Proof.
  intros He. unfold passes, testObject, fieldMatch. rewrite He. by repeat case_match.
Qed.

(** A callback that looks at some objects only. *)
Definition only {St A} (keep : A -> bool) (it : St -> A -> St * bool) (x : St) (a : A) : St * bool :=
  if keep a then it x a else (x, true).

(** One object. *)
Lemma scanIter_step sw keep x o :
  collects sw -> let p := keep o && passes sw o in
  exists x', only keep (scanIter sw plain) (x, None) o =
      ((x', None), negb (p && (numberItems x + 1 =? sw_limit sw))) /\
    filled x' = filled x ++ (if p then [plain o] else []) /\
    numberItems x' = numberItems x + (if p then 1 else 0) /\
    hitLimit x' = hitLimit x || (p && (numberItems x + 1 =? sw_limit sw)).
Proof.
  intros (He & Ho & Hl). unfold only. destruct (keep o); cbn [andb].
  2: { exists x. rewrite app_nil_r, orb_false_r, Z.add_0_r. done. }
  unfold scanIter, pushObject. cbn [pr_noTest plain pr_obj fst snd].
  rewrite testObject_Ok by done. destruct (passes sw o).
  - destruct (sw_output sw); try done; cbn [pr_clip plain]; eexists; (split; [reflexivity|]); done.
  - exists x. rewrite app_nil_r, orb_false_r, Z.add_0_r. done.
Qed.

(** A whole list: the first matching objects up to the limit, and where the scan stands
    when the limit is reached. *)
Lemma only_run sw keep l x n :
  collects sw -> hitLimit x = false -> sw_limit sw - numberItems x = Z.of_nat (S n) ->
  let p o := keep o && passes sw o in
  let m := filter (fun o => p o = true) l in
  let it := only keep (scanIter sw plain) in
  exists x', run it (x, None) l = ((x', None), (length m <=? n)%nat) /\
    filled x' = filled x ++ (plain <$> take (S n) m) /\
    hitLimit x' = negb (length m <=? n)%nat /\
    ((n < length m)%nat ->
      let k := taken it (x, None) l in
      filter (fun o => p o = true) (drop k l) = drop (S n) m /\ (1 <= k <= length l)%nat).
Proof.
  intros Hc Hh Hn p m it. subst m. revert x n Hh Hn. induction l as [|o l IH]; intros x n Hh Hn.
  { exists x. cbn. rewrite app_nil_r. split_and!; try done. lia. }
  destruct (scanIter_step sw keep x o Hc) as (y & E & F & N & T). fold (p o) in E, F, N, T. fold it in E.
  rewrite filter_cons. cbn [run taken]. rewrite E. destruct (p o) eqn:Ep.
  - rewrite decide_True by done. cbn [andb] in *. destruct n as [|n].
    + assert ((numberItems x + 1 =? sw_limit sw) = true) as Hlim by (apply Z.eqb_eq; lia).
      rewrite Hlim in *. cbn [negb]. exists y. split; [done|].
      split; [by rewrite F|]. split; [by rewrite T, Hh|]. intros _. cbn. rewrite ?E, ?Hlim. cbn. split; [done|lia].
    + assert ((numberItems x + 1 =? sw_limit sw) = false) as Hlim by (apply Z.eqb_neq; lia).
      rewrite Hlim in *. cbn [negb]. destruct (IH y n) as (z & R & F' & T' & K).
      { by rewrite T, Hh. }
      { lia. }
      exists z. cbn [length Nat.leb take drop fmap list_fmap].
      split; [exact R|]. split; [by rewrite F', F, <- app_assoc|]. split; [done|].
      intros Hlt. destruct K as [K1 K2]; [lia|]. cbn. rewrite ?E. cbn. split; [done|lia].
  - rewrite decide_False by done. cbn [andb negb] in *. destruct (IH y n) as (z & R & F' & T' & K).
    { by rewrite T, Hh. }
    { lia. }
    exists z. split; [done|]. split; [by rewrite F', F, app_nil_r|]. split; [done|].
    intros Hlt. destruct (K Hlt) as [K1 K2]. cbn. rewrite ?E. cbn. split; [done|lia].
Qed.

(** The objects SCAN goes over. *)
Definition scanned (col : Collection wG wM wT wR) (l0 l1 : string) (desc : bool) : list (Object wG) :=
  if (l0 =s "") && (l1 =s "") then dir desc (all col) else id_range col l0 l1 desc.

Lemma scanned_length col l0 l1 desc : (length (scanned col l0 l1 desc) <= length (all col))%nat.
Proof.
  unfold scanned, dir, id_range. destruct (_ && _), desc; rewrite ?length_reverse; try done;
    apply length_filter.
Qed.

Lemma scan_position (col : Collection wG wM wT wR) (l0 l1 : string) desc c (it : swState * option failure -> Object wG -> _) x :
  coll_ok col -> 0 <= c ->
  let r := if (l0 =s "") && (l1 =s "") then Scan col desc (Some c) None it x
           else ScanRange col l0 l1 desc (Some c) None it x in
  let l := drop (Z.to_nat c) (scanned col l0 l1 desc) in
  timeout r = false /\ (st r, keepon r) = run it x l /\
  (keepon r = false -> steps r = c + Z.of_nat (taken it x l)).
Proof.
  intros Hok Hc. unfold scanned. destruct (_ && _).
  - split; [by apply visits_timeout|]. split; [by apply (Scan_run col desc (Some c))|].
    intros Hk. unfold Scan in *. rewrite visits_taken by (done || apply never_sorted).
    rewrite filter_never, (taken_fmap it snd), fmap_drop. do 4 f_equal.
    unfold dir, all, sm_reverse. destruct desc; [apply fmap_reverse|done].
  - split; [by apply visits_timeout|]. split; [by apply (ScanRange_run col l0 l1 desc (Some c))|].
    intros Hk. unfold ScanRange in *. fold (range_items col l0 desc) (range_stop (G := wG) l1 desc) in *.
    rewrite visits_taken by (done || by apply range_items_sorted).
    by rewrite (taken_fmap it snd), fmap_drop, range_items_id.
Qed.

(** ** The range of several patterns *)

Definition inside (desc : bool) (l0 l1 v : string) : Prop :=
  if desc then (v <s l0) = true /\ (l1 <s v) = true else (v <s l0) = false /\ (v <s l1) = true.

Lemma inside_wider desc l0 l1 g0 g1 v :
  inside desc l0 l1 v \/ inside desc g0 g1 v ->
  if desc then inside desc (if l0 <s g0 then g0 else l0) (if g1 <s l1 then g1 else l1) v
  else inside desc (if g0 <s l0 then g0 else l0) (if l1 <s g1 then g1 else l1) v.
Proof.
  unfold inside. destruct desc; intros [[A B]|[A B]]; split;
    match goal with |- context [if ?b then _ else _] => destruct b eqn:? end;
    eauto using str_ltb_trans, str_ltb_false_trans, str_ltb_asym, str_ltb_ge_trans, str_ltb_lt_ge_trans.
Qed.

Lemma Limits_inside p desc v :
  rangeable p -> matches p v = true ->
  let '(l0, l1) := Limits (Parse p desc) in (l0 = "" /\ l1 = "") \/ inside desc l0 l1 v.
Proof.
  intros Hr Hm%matches_Ok. unfold inside. destruct desc.
  - pose proof (limits_desc p v Hr Hm) as Hl. by destruct (Limits _).
  - pose proof (limits_asc p v Hr Hm) as Hl. by destruct (Limits _).
Qed.

Lemma multiGlob_inside desc first l0 l1 globs v :
  Forall rangeable globs ->
  (first = false /\ inside desc l0 l1 v) \/ (exists p, p ∈ globs /\ matches p v = true) ->
  let '(r0, r1) := multiGlob desc first l0 l1 globs in (r0 = "" /\ r1 = "") \/ inside desc r0 r1 v.
Proof.
  intros Hr. revert first l0 l1. induction Hr as [|p globs Hp Hr IH]; intros first l0 l1 Hv.
  { cbn. destruct Hv as [[_ Hv]|(p & Hp & _)]; [by right|by apply not_elem_of_nil in Hp]. }
  cbn. pose proof (Limits_inside p desc v Hp) as Hl. destruct (Limits (Parse p desc)) as [g0 g1].
  destruct (String.eqb_spec g0 "") as [E0|E0], (String.eqb_spec g1 "") as [E1|E1]; cbn [andb]; [by left|..].
  all: assert (matches p v = true -> inside desc g0 g1 v) as Hg
    by (intros Hm; destruct (Hl Hm) as [[? ?]|?]; [congruence|done]).
  all: assert ((first = false /\ inside desc l0 l1 v) \/ inside desc g0 g1 v \/
      exists p, p ∈ globs /\ matches p v = true) as [[Hf Hi]|[Hi|Hi]]
    by (destruct Hv as [Hv|(q & [->|Hq]%elem_of_cons & Hm)]; eauto).
  all: pose proof (inside_wider desc l0 l1 g0 g1 v) as Hw; destruct first, desc; try discriminate Hf; apply IH; auto.
Qed.

Lemma multiGlobParse_inside globs desc v p :
  Forall rangeable globs -> p ∈ globs -> matches p v = true ->
  let '(l0, l1) := multiGlobParse globs desc in (l0 = "" /\ l1 = "") \/ inside desc l0 l1 v.
Proof. intros Hr Hp Hm. apply multiGlob_inside; eauto. Qed.

(** No object that passes is outside the range that is scanned. *)
Lemma filter_scanned sw (col : Collection wG wM wT wR) desc :
  sw_matchValues sw = false -> Forall rangeable (sw_globs sw) ->
  (sw_globEverything sw = true -> multiGlobParse (sw_globs sw) desc = ("", "")) ->
  let '(l0, l1) := multiGlobParse (sw_globs sw) desc in
  filter (fun o => passes sw o = true) (scanned col l0 l1 desc) =
  filter (fun o => passes sw o = true) (dir desc (all col)).
Proof.
  intros Hm Hr Hg. destruct (multiGlobParse (sw_globs sw) desc) as [l0 l1] eqn:El. unfold scanned.
  destruct ((l0 =s "") && (l1 =s "")) eqn:E0; [done|].
  assert (forall o, passes sw o = true -> inside desc l0 l1 (ID o)) as Hin.
  { intros o Hp. unfold passes, testObject, globMatch in Hp. rewrite Hm in Hp.
    destruct (sw_globEverything sw) eqn:Eg.
    - specialize (Hg eq_refl). by injection Hg as -> ->.
    - destruct (existsb _ _) eqn:Ee; [|done]. apply existsb_exists in Ee as (p & Hp1 & Hp2).
      pose proof (multiGlobParse_inside (sw_globs sw) desc (ID o) p Hr) as Hi. rewrite El in Hi.
      destruct Hi as [[-> ->]|Hi]; [by apply list_elem_of_In|done|done|done]. }
  unfold id_range, dir. destruct desc.
  - rewrite !filter_reverse. f_equal. rewrite list_filter_filter. apply list_filter_iff. intros o.
    split; [tauto|]. intros Hp. destruct (Hin o Hp) as [I1 I2]. split; [done|]. split; [by apply str_ltb_asym|done].
  - rewrite list_filter_filter. apply list_filter_iff. intros o.
    split; [tauto|]. intros Hp. destruct (Hin o Hp) as [I1 I2]. done.
Qed.

(** ** Following the cursor *)

Definition at_cursor (t : tokens) (c : Z) : tokens :=
  results t (t_key t) c (t_output t) (t_precision t) (t_ulimit t) (t_limit t) (t_usparse t) (t_sparse t).

(** A client that asks for page after page, until the cursor is zero. *)
Fixpoint follow (fuel : nat) (page : Z -> option respValue) (c : Z) : option (list respValue) :=
  match page c with
  | Some (RArray [RInt next; RArray vals]) =>
    if next =? 0 then Some vals
    else match fuel with O => None | S fuel => app vals <$> follow fuel page next end
  | _ => None
  end.

(** Pages of at most [n] of the items of [L] that pass, from the cursor on. *)
Definition pages {A} (page : Z -> option respValue) (L : list A) (p : A -> bool) (w : A -> respValue) (n : nat) : Prop :=
  forall c, 0 <= c <= maxUint64 ->
    let m := filter (fun a => p a = true) (drop (Z.to_nat c) L) in
    exists next, page c = Some (RArray [RInt next; RArray (w <$> take n m)]) /\
      ((length m < n)%nat -> next = 0) /\
      ((n <= length m)%nat -> c < next <= Z.of_nat (length L) /\
        filter (fun a => p a = true) (drop (Z.to_nat next) L) = drop n m).

Lemma follow_pages {A} page (L : list A) p w n fuel c :
  pages page L p w n -> (1 <= n)%nat -> Z.of_nat (length L) < 2 ^ 63 -> 0 <= c <= maxUint64 ->
  (length (drop (Z.to_nat c) L) <= fuel)%nat ->
  follow fuel page c = Some (w <$> filter (fun a => p a = true) (drop (Z.to_nat c) L)).
Proof.
  intros Hp Hn HL. revert c. induction fuel as [|fuel IH]; intros c Hc Hf; cbn [follow];
    destruct (Hp c Hc) as (next & -> & Hz & Hnz).
  - apply Nat.le_0_r, length_zero_iff_nil in Hf. rewrite Hf in *.
    rewrite Hz; [cbn; by rewrite take_nil|]. rewrite filter_nil. cbn [length]. lia.
  - set (m := filter _ (drop (Z.to_nat c) L)) in *. destruct (Nat.lt_ge_cases (length m) n) as [Hlt|Hle].
    + rewrite (Hz Hlt). cbn [Z.eqb]. rewrite take_ge by lia. done.
    + destruct (Hnz Hle) as [Hb Hm]. destruct (Z.eqb_spec next 0) as [->|_]; [lia|].
      rewrite IH; [|unfold maxUint64; lia|rewrite length_drop in *; lia].
      rewrite Hm. cbn. by rewrite <- fmap_app, take_drop.
Qed.

Definition scanPage s (argsAt : Z -> list string) ck (c : Z) : option respValue :=
  match cmdScan s (mkMessage (argsAt c) OutRESP None) ck with Ok v => Some v | Err _ => None end.

(** A scan of one collection that collects objects, its patterns rangeable. *)
Record scan_ok s (t : tokens) (argsAt : Z -> list string) (col : Collection wG wM wT wR) : Prop := {
  so_server : server_ok s;
  so_col : sm_get (cols s) (t_key t) = Some col;
  so_args : forall c, 0 <= c <= maxUint64 -> cmdScanArgs "scan" (drop 1 (argsAt c)) = Ok (at_cursor t c);
  so_output : t_output t <> outputCount;
  so_evals : t_whereevals t = [];
  so_globs : Forall rangeable (t_globs t);
  so_size : Z.of_nat (length (all col)) < 2 ^ 63;
}.

Definition writer s (t : tokens) : scanWriter := newScanWriter s (mkMessage [] OutRESP None) t false None.
Definition written s (t : tokens) o : respValue := filledRESP (writer s t) (plain o).

Lemma scan_limit s t argsAt col : scan_ok s t argsAt col -> collects (writer s t).
Proof.
  intros [_ _ Ha Ho He _ _]. split; [done|]. split; [done|]. cbn.
  specialize (Ha 0 ltac:(unfold maxUint64; lia)). unfold cmdScanArgs in Ha.
  apply rbind_Ok in Ha as ([vs t'] & Ht & Ha). destruct vs; [|done]. injection Ha as ->.
  apply parse_tokens_ok in Ht as [_ Hok]. pose proof (tk_limit _ _ Hok) as Hl. cbn in Hl.
  destruct (Z.eqb_spec (t_limit t) 0); [by destruct (t_output t)|].
  destruct (t_ulimit t), (t_usparse t); unfold maxUint64 in *; lia.
Qed.

(** One page. *)
Lemma scan_page s t argsAt col ck :
  scan_ok s t argsAt col ->
  let '(l0, l1) := multiGlobParse (t_globs t) (t_desc t) in
  pages (scanPage s argsAt ck) (scanned col l0 l1 (t_desc t)) (passes (writer s t)) (written s t)
    (Z.to_nat (sw_limit (writer s t))).
Proof.
  intros Hs. pose proof (scan_limit _ _ _ _ Hs) as Hcol. destruct Hs as [Hok Hk Ha Ho He Hg Hn].
  destruct (multiGlobParse (t_globs t) (t_desc t)) as [l0 l1] eqn:El. intros c Hc. cbv zeta.
  set (L := scanned _ _ _ _). set (m := filter _ _). set (n := Z.to_nat (sw_limit _)).
  assert (coll_ok col) as Hcok by (by eapply sk_cols).
  pose proof (scanned_length col l0 l1 (t_desc t)) as HL. fold L in HL.
  unfold scanPage, cmdScan. cbn [Args]. rewrite Ha by done. cbn [rbind].
  change (newScanWriter s _ (at_cursor t c) false None) with
    (mkScanWriter OutRESP (sm_get (cols s) (t_key t)) (t_output t) (t_wheres t) (t_whereins t)
      (t_whereevals t) (t_nofields t) c (sw_limit (writer s t)) (t_precision t) (t_globs t)
      (sw_globEverything (writer s t)) false false None).
  set (sw := mkScanWriter _ _ _ _ _ _ _ _ _ _ _ _ _ _ _). cbn [sw_col sw]. rewrite Hk.
  destruct (scan_position col l0 l1 (t_desc t) c (scanIter sw plain) (swInit, None) Hcok (proj1 Hc))
    as (Ht & Hr & Hst). fold L in Hr, Hst.
  set (r := if _ && _ then Scan _ _ _ _ _ _ else ScanRange _ _ _ _ _ _ _ _) in Ht, Hr, Hst.
  exists (int64 (nextCursor (st r).1 (steps r))).
  destruct (only_run sw (fun _ => true) (drop (Z.to_nat c) L) swInit (n - 1)) as (x & Rr & F & T & K);
    [split_and!; [done|done|apply Hcol]|done|destruct Hcol as (_ & _ & ?);
      change (numberItems swInit) with 0; change (sw_limit sw) with (sw_limit (writer s t)); unfold n; lia|].
  change (filter (fun o => true && passes sw o = true) (drop (Z.to_nat c) L)) with m in Rr, F, T, K.
  change (only (fun _ => true) (scanIter sw plain)) with (scanIter sw plain) in Rr, K.
  assert (1 <= n)%nat as Hn1 by (destruct Hcol as (_ & _ & ?); unfold n; lia).
  rewrite Rr in Hr. injection Hr as Hr Hko. rewrite Hr. cbn [fst]. unfold nextCursor. rewrite T.
  replace (S (n - 1))%nat with n in * by lia. split_and!.
  - transitivity (match scanDone sw ck r with Ok v => Some v | Err _ => None end).
    { cbn [sw_output sw_wheres sw_whereins sw_whereevals sw_globEverything sw_globs sw_cursor sw Deadline_].
      change (t_desc (at_cursor t c)) with (t_desc t). rewrite El. by destruct (t_output t). }
    unfold scanDone. rewrite Ht, Hr. cbn [fst snd]. unfold scanReply, nextCursor. cbn [sw_out sw_mvt sw].
    rewrite T, F. cbn [filled swInit app]. rewrite <- list_fmap_compose. change (filledRESP sw ∘ plain) with (written s t).
    generalize (written s t). intros w. cbn [sw_output sw]. by destruct (t_output t).
  - intros Hlt. by rewrite (proj2 (Nat.leb_le _ _)) by lia.
  - intros Hle. rewrite (proj2 (Nat.leb_gt _ _)) in * by lia. cbn [negb].
    destruct K as [K1 K2]; [lia|]. rewrite length_drop in K2.
    rewrite Hst by done. rewrite int64_id by (unfold is_int64; lia). split; [lia|].
    rewrite <- K1, drop_drop. do 2 f_equal. lia.
Qed.

(** C11. A client that runs the same SCAN from cursor to cursor on a collection that does
    not change sees every object of the collection that passes the patterns and filters,
    once and in order, and comes to an end, whatever the limit of a page is. The patterns
    are [rangeable]: a pattern that starts with ? or a bracket, and one whose text in front
    of the first wildcard has an escape or ends in 0xFF, is not, and objects are missed
    ([Parse_limits_question], [Parse_limits_escape], [Parse_limits_ff]). The output is not
    COUNT and there are no scripts among the filters. *)
Theorem scan_pages s t argsAt col ck :
  scan_ok s t argsAt col ->
  follow (length (all col)) (scanPage s argsAt ck) 0 =
    Some (written s t <$> filter (fun o => passes (writer s t) o = true) (dir (t_desc t) (all col))).
Proof.
  intros Hs. pose proof (scan_page s t argsAt col ck Hs) as Hp.
  pose proof (filter_scanned (writer s t) col (t_desc t) eq_refl (so_globs _ _ _ _ Hs)) as Hf.
  cbn [sw_globs writer newScanWriter] in Hf. destruct (multiGlobParse (t_globs t) (t_desc t)) as [l0 l1] eqn:El.
  pose proof (scanned_length col l0 l1 (t_desc t)) as HL. pose proof (so_size _ _ _ _ Hs).
  destruct (scan_limit _ _ _ _ Hs) as (_ & _ & Hlim).
  rewrite (follow_pages _ _ _ _ _ _ 0 Hp); [|lia|lia|unfold maxUint64; lia|done].
  change (Z.to_nat 0) with 0%nat. rewrite drop_0, Hf; [done|].
  cbn. destruct (t_globs t) as [|g [|g' l]]; [by injection El as <- <-| |done].
  intros ->%String.eqb_eq. by injection El as <- <-.
Qed.
End paging.

(** ** Examples *)

Module ScanExample.
Import ExampleWorld CrudExample TokenExample.
#[local] Existing Instance world.
#[local] Existing Instance world_laws.

#[global] Instance engines : Engines := {|
  expr_match := fun _ _ => true;
  Clip := fun g _ => g;
  mvtRender := fun _ _ => "";
  base64_Encode := fun s => s |}.

Definition argsAt (c : Z) : list string :=
  ["SCAN"; "fleet"; "CURSOR"; FormatUint c; "LIMIT"; "1"; "MATCH"; "*u*"; "IDS"].
Definition toks : tokens :=
  match cmdScanArgs "scan" (drop 1 (argsAt 0)) with Ok t => t | Err _ => noTokens false end.

Lemma numberArg_Format c : is_uint64 c -> numberArg (FormatUint c) 0 0 maxUint64 = Ok c.
Proof.
  intros Hc. unfold numberArg. rewrite Parse_FormatUint by done. unfold is_uint64, maxUint64 in *.
  destruct (String.eqb_spec (FormatUint c) "") as [E|_].
  { pose proof (Parse_FormatUint c Hc) as Hp. by rewrite E in Hp. }
  by rewrite (proj2 (Z.leb_le 0 c)), (proj2 (Z.leb_le c _)) by lia.
Qed.

Lemma argsAt_toks c : 0 <= c <= maxUint64 -> cmdScanArgs "scan" (drop 1 (argsAt c)) = Ok (at_cursor toks c).
Proof.
  intros Hc. assert (numberArg (FormatUint c) 0 0 maxUint64 = Ok c) as Hn.
  { apply numberArg_Format. unfold is_uint64, maxUint64 in *. lia. }
  unfold argsAt. destruct (FormatUint c) as [|ch f] eqn:Ef.
  { pose proof (Parse_FormatUint c) as Hp. rewrite Ef in Hp. cbn in Hp.
    discriminate Hp. unfold is_uint64, maxUint64 in *. lia. }
  unfold cmdScanArgs, parseSearchScanBaseTokens. cbn [drop token1]. change ("fleet" =s "") with false.
  cbv iota. cbn [rbind].
  set (l := baseLoop _ _ _ _).
  assert (l = Ok (mkParsing (filters (noTokens false) None None ["*u*"] [] [] [] None) "1" "" (String ch f) false,
                  ["IDS"])) as -> by reflexivity.
  cbn [rbind]. change (conflicts _ _) with (@None failure). cbv iota.
  change (outputArgs _ _) with (@Ok failure _ (outputIDs, "", @nil string)). cbn [rbind scursor slimit ssparse].
  rewrite Hn. reflexivity.
Qed.

Definition fleetCol : Collection wG wM wT wR := default New (sm_get (cols s2) "fleet").

Lemma fleet_some : is_some (sm_get (cols s2) "fleet") = true.
Proof. by vm_compute. Qed.

Lemma toks_parts : t_key toks = "fleet" /\ t_output toks = outputIDs /\ t_globs toks = ["*u*"] /\ t_desc toks = false.
Proof. by vm_compute. Qed.

Lemma scan_pages_witness :
  follow (length (all fleetCol)) (scanPage s2 argsAt ck) 0 =
    Some (written s2 toks <$> filter (fun o => passes (writer s2 toks) o = true) (dir (t_desc toks) (all fleetCol))).
Proof.
  refine (scan_pages s2 toks argsAt fleetCol ck _). destruct toks_parts as (Ek & Eo & Eg & _). split.
  - apply s2_ok.
  - rewrite Ek. pose proof fleet_some as E. unfold fleetCol. destruct (sm_get (cols s2) "fleet"); done.
  - apply argsAt_toks.
  - by rewrite Eo.
  - by vm_compute.
  - rewrite Eg. repeat constructor.
  - apply Z.ltb_lt. by vm_compute.
Defined.

(** Both objects, one page each. *)
Lemma drained : follow 2 (scanPage s2 argsAt ck) 0 = Some [RString "bus"; RString "truck"].
Proof. by vm_compute. Qed.

Definition run_ (args : list string) : respValue :=
  match cmdScan s2 (ask args) ck with Ok v => v | Err _ => RNull end.
Definition search_ (args : list string) : respValue :=
  match cmdSearch s2 (ask args) ck with Ok v => v | Err _ => RNull end.

(** A cursor beyond the signed integers makes COUNT exceed the collection, and COUNT
    without a filter does not know the limit. *)
Lemma count_cursor_wraps :
  run_ ["SCAN"; "fleet"; "CURSOR"; "18446744073709551615"; "COUNT"] = RInt 3 /\
  run_ ["SCAN"; "fleet"; "LIMIT"; "1"; "COUNT"] = RInt 2 /\
  run_ ["SCAN"; "fleet"; "LIMIT"; "1"; "MATCH"; "**"; "COUNT"] = RInt 1.
Proof. by vm_compute. Qed.

(** SEARCH goes over the strings only, its COUNT also counts the geometries and does not
    look at WHEREIN. *)
Lemma search_count_all :
  search_ ["SEARCH"; "fleet"; "IDS"] = RArray [RInt 0; RArray [RString "bus"]] /\
  search_ ["SEARCH"; "fleet"; "COUNT"] = RInt 2 /\
  search_ ["SEARCH"; "fleet"; "WHEREIN"; "speed"; "1"; "7"; "COUNT"] = RInt 2.
Proof. by vm_compute. Qed.
End ScanExample.
