(* ===== verification/Search.v ===== *)
(** * Spatial searches ([src/internal/legacy/server/search.go])

    The areas of NEARBY, WITHIN and INTERSECTS and of fences, and the three commands. *)

From Stdlib Require Import Ascii String ZArith Lia Bool SpecFloat.
From stdpp Require Import base list strings option sorting sets gmap.
From S2P Require Import Prelude GoStd Strconv Bing Glob GlobFacts Json Containers Field FieldList.
From S2P Require Import FieldBinary Geo Object Collection CollectionScan Group World Hooks Crud.
From S2P Require Import CrudFacts Token Scanner.
Import Glob.

Local Open Scope Z_scope.

Definition errNotRectangle : failure := Error "not a rectangle".

(** Imported packages: circles with 64 steps and their [Meters()] ([None] on another type,
    where the type assertion fails), the box of a geohash, the JSON of a sector, the
    buffer around a geometry, the relation of a geometry to a string, and the items of the
    spatial index in the order of their distance from a point. *)
Class Areas `{World} := {
  NewCircle : Point -> float64 -> wG;
  circle_Meters : wG -> option float64;
  BoundingBox : string -> Rect;
  sector_JSON : Point -> float64 -> float64 -> float64 -> string;
  buffer_Simple : option (geometry wG) -> float64 -> result string (option (geometry wG));
  within_string : wG -> string -> bool;
  intersects_string : wG -> string -> bool;
  nearest : wR -> Point -> list (Object wG * float64);
}.

Section search.
Context `{World} `{Unicode} `{Scripts} `{!Engines} `{!Areas} `{MathFns}.
Implicit Types (s : Server) (o : Object wG) (msg : Message) (ck : clock) (vs : list string).

(** ** Areas *)

Definition rectOf (minLat minLon maxLat maxLon : float64) : Rect :=
  mkRect (mkPoint minLon minLat) (mkPoint maxLon maxLat).

(** [strconv.Atoi] with the test of the range. *)
Definition atoi (arg : string) (hi : Z) : result failure Z :=
  match ParseInt arg with
  | Some n => if (n <? 0) || (hi <? n) then Err (errInvalidArgument arg) else Ok n
  | None => Err (errInvalidArgument arg)
  end.

(** The larger rectangle of an MVT request. *)
Definition expand (rect : Rect) : Rect :=
  let k := lit "0.0625" in
  let grow lo hi :=
    let lo := f64_sub lo (f64_mul (f64_sub hi lo) k) in
    (lo, f64_add hi (f64_mul (f64_sub hi lo) k)) in
  let '(minY, maxY) := grow (Y (Min rect)) (Y (Max rect)) in
  let '(minX, maxX) := grow (X (Min rect)) (X (Max rect)) in
  rectOf (if f64_lt minY MinLatitude then MinLatitude else minY)
    (if f64_lt minX MinLongitude then MinLongitude else minX)
    (if f64_gt maxY MaxLatitude then MaxLatitude else maxY)
    (if f64_gt maxX MaxLongitude then MaxLongitude else maxX).

Definition noTile : Z * Z * Z := (0, 0, 0).

Definition parseRectArea (ltyp : string) vs : result failure (list string * wG * (Z * Z * Z)) :=
  if ltyp =s "bounds" then
    let? (sminLat, vs) := token1 vs in
    let? (sminLon, vs) := token1 vs in
    let? (smaxlat, vs) := token1 vs in
    let? (smaxlon, vs) := token1 vs in
    let? minLat := parseFloat sminLat in
    let? minLon := parseFloat sminLon in
    let? maxLat := parseFloat smaxlat in
    let? maxLon := parseFloat smaxlon in
    Ok (vs, NewRect (rectOf minLat minLon maxLat maxLon), noTile)
  else if ltyp =s "hash" then
    let? (hash, vs) := token1 vs in
    Ok (vs, NewRect (BoundingBox hash), noTile)
  else if ltyp =s "quadkey" then
    let? (key, vs) := token1 vs in
    match QuadKeyToBounds key with
    | Err _ => Err (errInvalidArgument key)
    | Ok (minLat, minLon, maxLat, maxLon) => Ok (vs, NewRect (rectOf minLat minLon maxLat maxLon), noTile)
    end
  else if (ltyp =s "tile") || (ltyp =s "mvt") then
    let? (sx, vs) := token1 vs in
    let? (sy, vs) := token1 vs in
    let? (sz, vs) := token1 vs in
    let? x := atoi sx (2 ^ 63 - 1) in
    let? y := atoi sy (2 ^ 63 - 1) in
    let? z := atoi sz 23 in
    let '(minLat, minLon, maxLat, maxLon) := TileXYToBounds x y z in
    let rect := rectOf minLat minLon maxLat maxLon in
    Ok (vs, NewRect (if ltyp =s "mvt" then expand rect else rect), (x, y, z))
  else Err errNotRectangle.

(** [liveFenceSwitches]: the options, the area ([None] for nil), the roaming switches, and
    the tile with whether it is drawn. *)
Record switches := mkSwitches {
  l_t : tokens; l_obj : option (geometry wG); l_roam : option roamSwitches;
  l_tile : Z * Z * Z; l_mvt : bool; l_clip : bool }.

Definition nearbyTypes : list string := ["point"].
Definition withinOrIntersectsTypes : list string :=
  ["geo"; "bounds"; "hash"; "tile"; "quadkey"; "get"; "object"; "circle"; "point"; "sector"; "mvt"].

(** The word among [types] that an argument is, ignoring case. *)
Definition typeOf (types : list string) (arg : string) : option string := List.find (kw arg) types.

(** Latitude and longitude of an area. *)
Definition latLon vs : result failure (Point * list string) :=
  let? (slat, vs) := token1 vs in
  let? (slon, vs) := token1 vs in
  let? lat := parseFloat slat in
  let? lon := parseFloat slon in
  Ok (mkPoint lon lat, vs).

Definition metersArg (smeters : string) : result failure float64 :=
  let? meters := parseFloat smeters in
  if f64_lt meters f64_zero then Err (errInvalidArgument smeters) else Ok meters.

Definition parseArea (arg : string) : result failure (geometry wG) :=
  match geo_Parse arg with Ok g => Ok (Geom g) | Err e => Err (Error e) end.

Definition pointArea (cmd : string) vs : result failure (geometry wG * list string) :=
  let? (p, vs) := latLon vs in
  if cmd =s "nearby" then
    match vs with
    | smeters :: vs =>
      let? meters := if smeters =s "" then Ok (lit "-1") else metersArg smeters in
      Ok (Geom (NewCircle p meters), vs)
    | [] => Ok (Geom (NewCircle p (lit "-1")), [])
    end
  else Ok (Geom (NewPoint p), vs).

Definition circleArea vs : result failure (geometry wG * list string) :=
  let? (p, vs) := latLon vs in
  let? (smeters, vs) := token1 vs in
  let? meters := metersArg smeters in
  Ok (Geom (NewCircle p meters), vs).

Definition sectorArea vs : result failure (geometry wG * list string) :=
  let? (slat, vs) := token1 vs in
  let? (slon, vs) := token1 vs in
  let? (smeters, vs) := token1 vs in
  let? (sb1, vs) := token1 vs in
  let? (sb2, vs) := token1 vs in
  let? lat := parseFloat slat in
  let? lon := parseFloat slon in
  let? meters := parseFloat smeters in
  let? b1 := parseFloat sb1 in
  let? b2 := parseFloat sb2 in
  if f64_eq b1 b2 then
    Err (Error ("equal bearings (" +:+ sb1 +:+ " == " +:+ sb2 +:+ "), use CIRCLE instead"))
  else
    let? g := parseArea (sector_JSON (mkPoint lon lat) meters b1 b2) in Ok (g, vs).

Definition getArea s vs : result failure (geometry wG * list string) :=
  let? (key, vs) := token1 vs in
  let? (id, vs) := token1 vs in
  let? o := findObject s key id in
  Ok (Geo o, vs).

Definition roamArea vs : result failure (roamSwitches * list string) :=
  let? (key, vs) := token1 vs in
  let? (id, vs) := token1 vs in
  let? (smeters, vs) := token1 vs in
  let? meters := parseFloat smeters in
  match vs with
  | [] => Ok (mkRoam key id (IsGlob id) meters "", [])
  | scan :: vs =>
    if negb (kw scan "scan") then Err (errInvalidArgument scan)
    else let? (scan, vs) := token1 vs in Ok (mkRoam key id (IsGlob id) meters scan, vs)
  end.

(** What follows the kind of an area: the switches and the remaining arguments. The error
    of a clipped GET is only noted, and the code goes on. *)
Definition areaArgs s (cmd ltyp : string) (t : tokens) vs
    : result failure (switches * option failure * list string) :=
  let cannot := errInvalidArgument ("cannot clip with " +:+ ltyp) in
  let area (r : result failure (geometry wG * list string)) :=
    let? (g, vs) := r in Ok (mkSwitches t (Some g) None noTile false (t_clip t), None, vs) in
  if ltyp =s "point" then area (pointArea cmd vs)
  else if ltyp =s "circle" then if t_clip t then Err cannot else area (circleArea vs)
  else if ltyp =s "object" then
    if t_clip t then Err cannot
    else area (let? (obj, vs) := token1 vs in let? g := parseArea obj in Ok (g, vs))
  else if ltyp =s "sector" then if t_clip t then Err cannot else area (sectorArea vs)
  else if existsb (fun w => ltyp =s w) ["bounds"; "hash"; "tile"; "mvt"; "quadkey"] then
    let? (vs, g, tile) := parseRectArea ltyp vs in
    let mvt := ltyp =s "mvt" in
    Ok (mkSwitches t (Some (Geom g)) None tile mvt (mvt || t_clip t), None, vs)
  else if ltyp =s "get" then
    let? (l, _, vs) := area (getArea s vs) in Ok (l, if t_clip t then Some cannot else None, vs)
  else if ltyp =s "roam" then
    let? (r, vs) := roamArea vs in Ok (mkSwitches t None (Some r) noTile false (t_clip t), None, vs)
  else Ok (mkSwitches t None None noTile false (t_clip t), None, vs).

(** CLIPBY, any number of times; a good rectangle also clears the error noted before. *)
Fixpoint clipLoop (fuel : nat) (l : switches) (err : option failure) vs
    : result failure (switches * option failure) :=
  match fuel, vs with
  | S fuel, _ :: _ =>
    let? (tok, vs) := token1 vs in
    if negb (kw tok "clipby") then Err errInvalidNumberOfArguments
    else
      let? (tok, vs) := token1 vs in
      match typeOf ["bounds"; "hash"; "tile"; "quadkey"] tok with
      | None => Err (errInvalidArgument ("cannot clipby " +:+ lowerText tok))
      | Some ltok =>
        let? (vs, clipRect, tile) := parseRectArea ltok vs in
        let obj := (fun g => Clip g (Geom clipRect)) <$> l_obj l in
        clipLoop fuel (mkSwitches (l_t l) obj (l_roam l) tile (l_mvt l) (l_clip l)) None vs
      end
  | _, _ => Ok (l, err)
  end.

(** BOUNDS without an output: the word was taken for the kind of output. *)
Definition boundsArea (cmd typ : string) (t : tokens) vs : tokens * string * list string :=
  if bool_decide (t_output t = outputBounds) && ((cmd =s "within") || (cmd =s "intersects")) &&
     (ParseFloat typ).2
  then (results t (t_key t) (t_cursor t) defaultSearchOutput (t_precision t) (t_ulimit t) (t_limit t)
          (t_usparse t) (t_sparse t), "BOUNDS", typ :: vs)
  else (t, typ, vs).

Definition cmdSearchArgs s (fromFenceCmd : bool) (cmd : string) vs (types : list string)
    : result failure switches :=
  let? (vs, t) := parseSearchScanBaseTokens cmd fromFenceCmd vs in
  let? (typ, vs) := token1 vs in
  let '(t, typ, vs) := boundsArea cmd typ t vs in
  let found := match typeOf types typ with
               | Some w => Some w
               | None => if t_fence t && kw typ "roam" && (cmd =s "nearby") then Some "roam" else None
               end in
  match found with
  | None => Err (errInvalidArgument typ)
  | Some ltyp =>
    let? (l, err, vs) := areaArgs s cmd ltyp t vs in
    let? (l, err) := clipLoop (length vs) l err vs in
    match t_buffer t with
    | None => match err with None => Ok l | Some e => Err e end
    | Some b =>
      match buffer_Simple (l_obj l) b with
      | Err e => Err (Error e)
      | Ok obj => Ok (mkSwitches (l_t l) obj (l_roam l) (l_tile l) (l_mvt l) (l_clip l))
      end
    end
  end.

(** ** Commands *)

(** A fence turns the connection into a live one. *)
Inductive searchResult := Answer (v : respValue) | GoLive (cmd : string) (l : switches).

Definition searchWriter s msg (l : switches) : scanWriter :=
  newScanWriter s msg (l_t l) false (if l_mvt l then Some (l_tile l) else None).

(** The relations of an object to an area. *)
Definition inArea (cmd : string) (area : geometry wG) o : bool :=
  match Geo o, area with
  | Str _, _ => false
  | Geom g, Geom a => if cmd =s "within" then geo_Within g a else geo_Intersects g a
  | Geom g, Str a => if cmd =s "within" then within_string g a else intersects_string g a
  end.

Definition searchDone (sw : scanWriter) ck (r : scan (swState * option failure)) : result failure searchResult :=
  let? v := scanDone sw ck r in Ok (Answer v).

Definition cmdWITHINorINTERSECTS s (cmd : string) msg ck : result failure searchResult :=
  let? l := cmdSearchArgs s false cmd (drop 1 (Args msg)) withinOrIntersectsTypes in
  if t_fence (l_t l) then Ok (GoLive cmd l)
  else
    let sw := searchWriter s msg l in
    match sw_col sw with
    | None => Ok (Answer (scanReply sw ck swInit 0))
    | Some col =>
      match l_obj l with
      | None => Err NilDeref
      | Some area =>
        let params o :=
          mkParams o f64_zero false false
            (if (cmd =s "intersects") && l_clip l then Some area else None) in
        searchDone sw ck
          (geoQuery (inArea cmd area) col (RectOf area) (Z.to_nat (t_sparse (l_t l))) (Some (sw_cursor sw))
             (Deadline_ msg) (scanIter sw params) (swInit, None)).1
      end
    end.

Definition cmdNearby s msg ck : result failure searchResult :=
  let? l := cmdSearchArgs s false "nearby" (drop 1 (Args msg)) nearbyTypes in
  if t_fence (l_t l) then Ok (GoLive "nearby" l)
  else
    let sw := searchWriter s msg l in
    match sw_col sw with
    | None => Ok (Answer (scanReply sw ck swInit 0))
    | Some col =>
      match l_obj l with
      | Some (Geom area) =>
        match circle_Meters area with
        | None => Err BadAssertion
        | Some maxDist =>
          let distance := t_distance (l_t l) in
          let params o dist := mkParams o dist distance false None in
          if 0 <? t_sparse (l_t l) then
            if f64_lt maxDist f64_zero then Err (Error "cannot use SPARSE without a point distance")
            else
              let dist o := if distance then Distance (Geo o) area else f64_zero in
              searchDone sw ck
                (geoQuery (inArea "intersects" (Geom area)) col (RectOf (Geom area))
                   (Z.to_nat (t_sparse (l_t l))) (Some (sw_cursor sw)) (Deadline_ msg)
                   (scanIter sw (fun o => params o (dist o))) (swInit, None)).1
          else
            let iter x (od : Object wG * float64) :=
              if f64_gt maxDist f64_zero && f64_gt od.2 maxDist then (x, false)
              else scanIter sw (fun o => params o (if distance then od.2 else f64_zero)) x od.1 in
            searchDone sw ck
              (iter_while (visit (Some (sw_cursor sw)) never iter)
                 (start (Some (sw_cursor sw)) (Deadline_ msg) (swInit, None))
                 (nearest (spatial col) (Center (Geom area))))
        end
      | _ => Err BadAssertion
      end
    end.
End search.

(** ** What a search answers *)

Section answers.
Context `{WorldLaws} `{Unicode} `{Scripts} `{!Engines} `{!Areas} `{MathFns}.
Implicit Types (s : Server) (o : Object wG) (msg : Message) (ck : clock).

(** Where a search stands that its callback ended. *)
Section position.
Context {St : Type} (c : Z) (rel : Object wG -> bool) (it : St -> Object wG -> St * bool).

Definition stands (x : scan St) (r : scan St * bool) (l : list (Object wG)) : Prop :=
  timeout r.1 = false /\ (st r.1, r.2) = run (only rel it) (st x) l /\
  (r.2 = false -> steps r.1 = steps x + Z.of_nat (taken (only rel it) (st x) l)).

Lemma geoVisit_after x l :
  deadline x = None -> timeout x = false -> c <= count x ->
  stands x (run (geoVisit (Some c) rel it) x l) l.
Proof.
  revert x. induction l as [|o l IH]; intros x Hd Ht Hc; [by unfold stands|].
  cbn [run]. unfold geoVisit at 1. change (default 0 (Some c)) with c. rewrite (proj2 (Z.leb_gt _ _)) by lia.
  rewrite nextStep_None by done. cbn [st count steps deadline keepon timeout].
  unfold stands. cbn [run taken]. change (only rel it (st x) o) with (if rel o then it (st x) o else (st x, true)).
  destruct (rel o).
  - destruct (it (st x) o) as [y []]; cbn; [|split_and!; [done|done|lia]].
    match goal with |- context [run (geoVisit _ _ _) ?z l] => destruct (IH z) as (E1 & E2 & E3); [done|done|cbn; lia|] end.
    cbn in E2, E3. split_and!; [done|done|]. intros Hr. rewrite E3 by done. lia.
  - match goal with |- context [run (geoVisit _ _ _) ?z l] => destruct (IH z) as (E1 & E2 & E3); [done|done|cbn; lia|] end.
    cbn in E2, E3. split_and!; [done|done|]. intros Hr. rewrite E3 by done. lia.
Qed.

Lemma geoVisit_position x l :
  deadline x = None -> timeout x = false -> count x <= c ->
  stands x (run (geoVisit (Some c) rel it) x l) (drop (Z.to_nat (c - count x)) l).
Proof.
  revert x. induction l as [|o l IH]; intros x Hd Ht Hc; [by rewrite drop_nil|].
  destruct (Z.eqb_spec (count x) c) as [E|Hn].
  { rewrite E, Z.sub_diag. apply geoVisit_after; [done|done|lia]. }
  cbn [run]. unfold geoVisit at 1. change (default 0 (Some c)) with c. rewrite (proj2 (Z.leb_le _ _)) by lia.
  set (y := mkScan _ _ _ _ _ _). replace (Z.to_nat (c - count x)) with (S (Z.to_nat (c - count y))) by (cbn; lia).
  apply (IH y); [done|done|cbn; lia].
Qed.
End position.

(** The pages of a WITHIN or INTERSECTS that collects the objects of one collection: no
    fence, no clipping, no tile, no script, no SPARSE and no deadline. *)
Record search_ok s (cmd : string) (argsAt : Z -> list string) (l : switches)
    (col : Collection wG wM wT wR) (area : geometry wG) : Prop := {
  se_server : server_ok s;
  se_args : forall c, 0 <= c <= maxUint64 ->
    cmdSearchArgs s false cmd (drop 1 (argsAt c)) withinOrIntersectsTypes =
      Ok (mkSwitches (at_cursor (l_t l) c) (l_obj l) (l_roam l) (l_tile l) (l_mvt l) (l_clip l));
  se_col : sm_get (cols s) (t_key (l_t l)) = Some col;
  se_area : l_obj l = Some area;
  se_box : box_ok (rtreeRect (RectOf area)) = true;
  se_plain : t_fence (l_t l) = false /\ l_clip l = false /\ l_mvt l = false /\ t_sparse (l_t l) = 0;
  se_collects : t_output (l_t l) <> outputCount /\ t_whereevals (l_t l) = [] /\ 0 <= t_limit (l_t l);
  se_size : Z.of_nat (length (all col)) < 2 ^ 63;
}.

Definition searchPage s (cmd : string) (argsAt : Z -> list string) ck (c : Z) : option respValue :=
  match cmdWITHINorINTERSECTS s cmd (mkMessage (argsAt c) OutRESP None) ck with
  | Ok (Answer v) => Some v
  | _ => None
  end.

(** The items of the index around an area, in the order of the index. *)
Definition found (col : Collection wG wM wT wR) (area : geometry wG) : list (Object wG) :=
  (rt_search (spatial col) (rtreeRect (RectOf area))).*2.

Lemma found_candidates col area :
  coll_ok col -> box_ok (rtreeRect (RectOf area)) = true -> found col area ≡ₚ candidates col (RectOf area).
Proof. apply search_candidates. Qed.

Lemma found_length col area :
  coll_ok col -> box_ok (rtreeRect (RectOf area)) = true -> (length (found col area) <= length (all col))%nat.
Proof.
  intros Hok Hb. rewrite found_candidates by done. unfold candidates.
  etrans; [apply length_filter|apply length_filter].
Qed.

Lemma search_limit s cmd argsAt l col area : search_ok s cmd argsAt l col area -> collects (writer s (l_t l)).
Proof.
  intros Hs. destruct (se_collects _ _ _ _ _ _ Hs) as (Ho & He & Hl). split_and!; [done|done|]. cbn.
  destruct (Z.eqb_spec (t_limit (l_t l)) 0); [by destruct (t_output (l_t l))|lia].
Qed.

(** The reply of a search, from where it stands. *)
Lemma search_reply s cmd argsAt l col area ck c :
  search_ok s cmd argsAt l col area -> 0 <= c <= maxUint64 ->
  exists sw r, searchPage s cmd argsAt ck c =
      match scanDone sw ck r with Ok v => Some v | Err _ => None end /\
    collects sw /\ sw_limit sw = sw_limit (writer s (l_t l)) /\ sw_out sw = OutRESP /\ sw_mvt sw = None /\
    passes (writer s (l_t l)) = passes sw /\ written s (l_t l) = filledRESP sw ∘ plain /\
    exists k, stands (inArea cmd area) (scanIter sw plain) (start (Some c) None (swInit, None)) (r, k)
      (drop (Z.to_nat c) (found col area)).
Proof.
  intros Hs Hc. pose proof (search_limit _ _ _ _ _ _ Hs) as Hw. destruct Hs as [Hok Ha Hk Har Hb (Hf & Hcl & Hm & Hsp) Hco Hn].
  unfold searchPage, cmdWITHINorINTERSECTS. cbn [Args]. rewrite Ha by done. cbn [rbind l_t l_obj l_clip].
  change (t_fence (at_cursor (l_t l) c)) with (t_fence (l_t l)). rewrite Hf. unfold searchWriter. cbn [l_t l_mvt]. rewrite Hm.
  set (sw := newScanWriter s _ (at_cursor (l_t l) c) false None).
  change (sw_col sw) with (sm_get (cols s) (t_key (l_t l))). rewrite Hk, Har, Hcl, andb_false_r.
  change (t_sparse (at_cursor (l_t l) c)) with (t_sparse (l_t l)). rewrite Hsp.
  change (fun o => mkParams o f64_zero false false None) with plain. change (Z.to_nat 0) with 0%nat.
  change (sw_cursor sw) with c. cbn [Deadline_]. unfold searchDone.
  set (q := geoQuery _ _ _ _ _ _ _ _). exists sw, q.1. split_and!; try done.
  { by destruct (scanDone sw ck q.1). }
  exists q.2. rewrite <- surjective_pairing. unfold q, geoQuery, geoSearch. rewrite box_ok_not_nan by done.
  pose proof (geoVisit_position c (inArea cmd area) (scanIter sw plain) (start (Some c) None (swInit, None))
    (found col area)) as Hp. cbn [count start] in Hp. rewrite Z.sub_0_r in Hp. apply Hp; [done|done|lia].
Qed.

Lemma search_page s cmd argsAt l col area ck :
  search_ok s cmd argsAt l col area ->
  pages (searchPage s cmd argsAt ck) (found col area)
    (fun o => inArea cmd area o && passes (writer s (l_t l)) o) (written s (l_t l))
    (Z.to_nat (sw_limit (writer s (l_t l)))).
Proof.
  intros Hs c Hc. destruct (search_reply s cmd argsAt l col area ck c Hs Hc)
    as (sw & r & -> & Hcol & Hlim & Hout & Hmvt & Hp & Hw & k & Ht & Hr & Hst). cbn [fst snd st start steps] in *.
  pose proof (found_length col area) as HL. specialize (HL ltac:(eapply sk_cols; [apply Hs|apply (se_col _ _ _ _ _ _ Hs)]) (se_box _ _ _ _ _ _ Hs)).
  pose proof (se_size _ _ _ _ _ _ Hs) as Hn. set (L := found col area) in *. rewrite <- Hlim. cbv zeta.
  set (n := Z.to_nat (sw_limit sw)). assert (1 <= n)%nat as Hn1 by (destruct Hcol as (_ & _ & ?); unfold n; lia).
  destruct (only_run sw (inArea cmd area) (drop (Z.to_nat c) L) swInit (n - 1)) as (x & Rr & F & T & K);
    [done|done|change (numberItems swInit) with 0; unfold n in *; lia|].
  rewrite Hp, Hw. set (m := filter _ (drop (Z.to_nat c) L)) in *. rewrite Rr in Hr. injection Hr as Hr Hko.
  replace (S (n - 1))%nat with n in * by lia. exists (int64 (nextCursor x (steps r))).
  unfold nextCursor. rewrite T. split_and!.
  - unfold scanDone. rewrite Ht, Hr. cbn [fst snd]. unfold scanReply, nextCursor. rewrite Hout, Hmvt, T, F.
    cbn [filled swInit app]. rewrite <- list_fmap_compose. destruct Hcol as (_ & Ho & _). by destruct (sw_output sw).
  - intros Hlt. by rewrite (proj2 (Nat.leb_le _ _)) by lia.
  - intros Hle. rewrite (proj2 (Nat.leb_gt _ _)) in * by lia. cbn [negb].
    destruct K as [K1 K2]; [lia|]. rewrite length_drop in K2.
    rewrite Hst by done. change (default 0 (Some c)) with c. rewrite int64_id by (unfold is_int64; lia). split; [lia|].
    rewrite <- K1, drop_drop. do 2 f_equal. lia.
Qed.

(** C10. A client that runs the same WITHIN or INTERSECTS from cursor to cursor sees every
    object that the index finds around the area, that is in the relation with it and that
    passes the filters, once, and comes to an end, whatever the limit of a page is. *)
Theorem search_pages s cmd argsAt l col area ck :
  search_ok s cmd argsAt l col area ->
  exists found, follow (length (all col)) (searchPage s cmd argsAt ck) 0 = Some (written s (l_t l) <$> found) /\
    found ≡ₚ filter (fun o => inArea cmd area o && passes (writer s (l_t l)) o = true)
               (candidates col (RectOf area)) /\ NoDup (ID <$> found).
Proof.
  intros Hs. pose proof (search_page s cmd argsAt l col area ck Hs) as Hp.
  destruct (search_limit _ _ _ _ _ _ Hs) as (_ & _ & Hlim). pose proof (se_size _ _ _ _ _ _ Hs).
  assert (coll_ok col) as Hok by (eapply sk_cols; [apply Hs|apply (se_col _ _ _ _ _ _ Hs)]).
  pose proof (se_box _ _ _ _ _ _ Hs) as Hb. pose proof (found_length col area Hok Hb).
  rewrite (follow_pages _ _ _ _ _ _ 0 Hp); [|lia|lia|unfold maxUint64; lia|done].
  change (Z.to_nat 0) with 0%nat. rewrite drop_0. eexists. split; [done|].
  assert (found col area ≡ₚ candidates col (RectOf area)) as Hf by by apply found_candidates.
  rewrite Hf. split; [done|]. unfold candidates. do 3 apply NoDup_fmap_filter. apply all_NoDup, ok_keys, Hok.
Qed.
End answers.

(** ** Examples *)

Module SearchExample.
Import ExampleWorld CrudExample TokenExample ScanExample BingExample.
#[local] Existing Instance world.
#[local] Existing Instance world_laws.

(** Circles are points here, and a buffer is a large square. *)
#[global] Instance areas : Areas := {|
  NewCircle := fun p _ => mkRect p p;
  circle_Meters := fun r => if f64_eq (X (Min r)) (X (Max r)) then Some f64_zero else None;
  BoundingBox := fun _ => Boxes.box 0 0 1 1;
  sector_JSON := fun _ _ _ _ => "";
  buffer_Simple := fun _ _ => Ok (Some (Geom (Boxes.box 0 0 90 90)));
  within_string := fun _ _ => false;
  intersects_string := fun _ _ => false;
  nearest := fun t _ => (fun p => (p.2, f64_zero)) <$> t |}.

Definition areaAt (c : Z) : list string :=
  ["WITHIN"; "fleet"; "CURSOR"; FormatUint c; "LIMIT"; "1"; "IDS"; "BOUNDS"; "0"; "0"; "9"; "9"].
Definition sws : switches :=
  match cmdSearchArgs s2 false "within" (drop 1 (areaAt 0)) withinOrIntersectsTypes with
  | Ok l => l
  | Err _ => mkSwitches (noTokens false) None None noTile false false
  end.

Lemma areaAt_sws c :
  0 <= c <= maxUint64 ->
  cmdSearchArgs s2 false "within" (drop 1 (areaAt c)) withinOrIntersectsTypes =
    Ok (mkSwitches (at_cursor (l_t sws) c) (l_obj sws) (l_roam sws) (l_tile sws) (l_mvt sws) (l_clip sws)).
Proof.
  intros Hc. assert (numberArg (FormatUint c) 0 0 maxUint64 = Ok c) as Hn.
  { apply numberArg_Format. unfold is_uint64, maxUint64 in *. lia. }
  unfold areaAt. destruct (FormatUint c) as [|ch f] eqn:Ef.
  { pose proof (Parse_FormatUint c) as Hp. rewrite Ef in Hp. cbn in Hp.
    discriminate Hp. unfold is_uint64, maxUint64 in *. lia. }
  unfold cmdSearchArgs, parseSearchScanBaseTokens. cbn [drop token1]. change ("fleet" =s "") with false.
  cbv iota. cbn [rbind].
  set (l := baseLoop _ _ _ _).
  assert (l = Ok (mkParsing (noTokens false) "1" "" (String ch f) false,
                  ["IDS"; "BOUNDS"; "0"; "0"; "9"; "9"])) as -> by reflexivity.
  cbn [rbind]. change (conflicts _ _) with (@None failure). cbv iota.
  change (outputArgs _ _) with (@Ok failure _ (outputIDs, "", ["BOUNDS"; "0"; "0"; "9"; "9"])).
  cbn [rbind scursor slimit ssparse]. rewrite Hn. reflexivity.
Qed.

Lemma search_pages_witness :
  exists found, follow (length (all fleetCol)) (searchPage s2 "within" areaAt ck) 0 =
      Some (written s2 (l_t sws) <$> found) /\
    found ≡ₚ filter (fun o => inArea "within" (Geom (Boxes.box 0 0 9 9)) o && passes (writer s2 (l_t sws)) o = true)
               (candidates fleetCol (Boxes.box 0 0 9 9)) /\ NoDup (ID <$> found).
Proof.
  refine (search_pages s2 "within" areaAt sws fleetCol (Geom (Boxes.box 0 0 9 9)) ck _).
  assert (t_key (l_t sws) = "fleet") as Ek by by vm_compute. split.
  - apply s2_ok.
  - apply areaAt_sws.
  - rewrite Ek. pose proof fleet_some as E. unfold fleetCol. destruct (sm_get (cols s2) "fleet"); done.
  - by vm_compute.
  - by vm_compute.
  - by vm_compute.
  - by vm_compute.
  - apply Z.ltb_lt. by vm_compute.
Defined.

Lemma search_drained : follow 2 (searchPage s2 "within" areaAt ck) 0 = Some [RString "truck"].
Proof. by vm_compute. Qed.

Definition outcome_of (r : result failure searchResult) : option failure :=
  match r with Ok _ => None | Err e => Some e end.

(** GEO is a known kind of area that nothing builds, and a circle with a buffer is no
    circle any more: both are panics. *)
Lemma search_panics :
  outcome_of (cmdWITHINorINTERSECTS s2 "within" (ask ["WITHIN"; "fleet"; "GEO"]) ck) = Some NilDeref /\
  outcome_of (cmdNearby s2 (ask ["NEARBY"; "fleet"; "POINT"; "1"; "2"; "5"]) ck) = None /\
  outcome_of (cmdNearby s2 (ask ["NEARBY"; "fleet"; "BUFFER"; "5"; "POINT"; "1"; "2"; "5"]) ck) = Some BadAssertion.
Proof. by vm_compute. Qed.

(** A clipped GET is refused, unless a CLIPBY follows, which clears the error; and CLIPBY
    replaces the tile that is drawn. *)
Definition tile_of (args : list string) : option (Z * Z * Z) :=
  match cmdSearchArgs s2 false "intersects" args withinOrIntersectsTypes with
  | Ok l => Some (l_tile l)
  | Err _ => None
  end.

Lemma clip_get_forgotten :
  tile_of ["fleet"; "CLIP"; "GET"; "fleet"; "truck"] = None /\
  tile_of ["fleet"; "CLIP"; "GET"; "fleet"; "truck"; "CLIPBY"; "BOUNDS"; "0"; "0"; "9"; "9"] = Some (0, 0, 0) /\
  tile_of ["fleet"; "MVT"; "3"; "2"; "4"] = Some (3, 2, 4) /\
  tile_of ["fleet"; "MVT"; "3"; "2"; "4"; "CLIPBY"; "BOUNDS"; "0"; "0"; "9"; "9"] = Some (0, 0, 0).
Proof. by vm_compute. Qed.
End SearchExample.
