(* ===== verification/SetHook.v ===== *)
(** * SETHOOK, SETCHAN, HOOKS and CHANS ([src/internal/legacy/server/hooks.go])

    How a hook is read from the arguments of a command, and how hooks are listed. *)

From Stdlib Require Import Ascii String ZArith Lia Bool SpecFloat.
From stdpp Require Import base list strings option sorting sets gmap.
From S2P Require Import Prelude GoStd Strconv Bing Glob GlobFacts Json Containers Field FieldList.
From S2P Require Import FieldBinary Geo Object Collection CollectionScan Group World Hooks Crud.
From S2P Require Import CrudFacts Shrink Token Scanner Search.
Import Glob.

Local Open Scope Z_scope.

(** [epc.Validate] of the endpoint manager: whether a URL names an endpoint. *)
Class EndpointCheck := Validate : string -> bool.

Section sethook.
Context `{World} `{Unicode} `{Scripts} `{!Engines} `{!Areas} `{MathFns} `{EndpointCheck}.
Abbreviation hook := (Hook wG).
Implicit Types (s : Server) (h : hook) (msg : Message) (ck : clock) (vs : list string).

Fixpoint validated (urls : list string) : result failure (list string) :=
  match urls with
  | [] => Ok []
  | url :: urls =>
    let url := TrimSpace url in
    if Validate url then let? l := validated urls in Ok (url :: l) else Err (errInvalidArgument url)
  end.

(** [metaMap[metakey] = metaval] *)
Definition metaSet (m : list (string * string)) (k v : string) : list (string * string) :=
  filter (fun p => p.1 <> k) m ++ [(k, v)].
Definition metaLess (a b : string * string) : bool := a.1 <s b.1.

(** The words before the search: the meta map, the expiration, the command in lower case,
    the arguments from the command on, and those behind it. *)
Fixpoint hookLoop (fuel : nat) (metas : list (string * string)) (ex : option float64) vs
    : result failure (list (string * string) * option float64 * string * list string * list string) :=
  match fuel with
  | O => Err errInvalidNumberOfArguments
  | S fuel =>
    let commandvs := vs in
    let? (cmd, vs) := token1 vs in
    if kw cmd "meta" then
      let? (metakey, vs) := token1 vs in
      let? (metaval, vs) := token1 vs in
      hookLoop fuel (metaSet metas metakey metaval) ex vs
    else if kw cmd "ex" then
      let? (t, vs) := token1 vs in
      let? v := parseFloat t in
      hookLoop fuel metas (Some v) vs
    else if kw cmd "nearby" then Ok (metas, ex, "nearby", commandvs, vs)
    else if kw cmd "within" then Ok (metas, ex, "within", commandvs, vs)
    else if kw cmd "intersects" then Ok (metas, ex, "intersects", commandvs, vs)
    else Err (errInvalidArgument cmd)
  end.

Definition hookEndpoints (ch : bool) (name : string) vs : result failure (list string * list string) :=
  if ch then Ok (["local://" +:+ name], vs)
  else
    let? (urls, vs) := token1 vs in
    let? endpoints := validated (splitComma urls) in
    Ok (endpoints, vs).

Definition fenceOf (cmdlc : string) (l : switches) : fence wG :=
  let t := l_t l in
  mkFence cmdlc (l_obj l) (t_detect t) (t_accept t) (t_globs t) (t_distance t) (t_nodwell t) (l_roam l).

(** The hook and the writer that goes with it. *)
Definition parseHook s msg (now : Z) : result failure (hook * scanWriter) :=
  let ch := kw (hd "" (Args msg)) "setchan" in
  let? (name, vs) := token1 (drop 1 (Args msg)) in
  let? (endpoints, vs) := hookEndpoints ch name vs in
  let? (metas, ex, cmdlc, commandvs, vs) := hookLoop (S (length vs)) [] None vs in
  let types := if cmdlc =s "nearby" then nearbyTypes else withinOrIntersectsTypes in
  let? l := cmdSearchArgs s true cmdlc vs types in
  if negb (t_fence (l_t l)) then Err (Error "missing FENCE argument")
  else
    let expires := (fun v => now + int64_of_f64 (f64_mul v second)) <$> ex in
    Ok (mkHook (t_key (l_t l)) name endpoints commandvs (fenceOf cmdlc l) (sort_by metaLess metas) ch expires,
        newScanWriter s msg (l_t l) false (if l_mvt l then Some (l_tile l) else None)).

Definition cmdSetHook s msg ck : wresult :=
  match parseHook s msg (c_now ck) with
  | Err e => (s, Err e)
  | Ok (h, _) => setHook s msg ck h
  end.

(** ** Listing *)

(** [Duration.Seconds] *)
Definition Seconds (d : Z) : float64 :=
  f64_add (f64_of_Z (Z.quot d 1000000000)) (f64_div (f64_of_Z (Z.rem d 1000000000)) second).

Definition hookTTL (now : Z) h : Z :=
  match h_expires h with
  | None => -1
  | Some e => Z.max 0 (int64_of_f64 (Seconds (Duration (e - now))))
  end.

Definition jsonList (l : list string) : string := "[" +:+ join (jsonString <$> l) +:+ "]".

Definition hookJSON (now : Z) (ch : bool) h : string :=
  js "{'name':" +:+ jsonString (Name h) +:+ js ",'key':" +:+ jsonString (Key h) +:+
  js ",'ttl':" +:+ FormatInt (hookTTL now h) +:+
  (if ch then "" else js ",'endpoints':" +:+ jsonList (Endpoints h)) +:+
  js ",'command':" +:+ jsonList (h_args h) +:+ js ",'meta':{" +:+
  join ((fun m => jsonString m.1 +:+ ":" +:+ jsonString m.2) <$> Metas h) +:+ "}}".

Definition hookRESP h : respValue :=
  RArray [RString (Name h); RString (Key h); RArray (RString <$> Endpoints h); RArray (RString <$> h_args h);
          RArray (flat_map (fun m => [RString m.1; RString m.2]) (Metas h))].

Definition cmdHooks s msg ck : rresult :=
  let ch := kw (hd "" (Args msg)) "chans" in
  let? (pattern, vs) := token1 (drop 1 (Args msg)) in
  match vs with
  | _ :: _ => Err errInvalidNumberOfArguments
  | [] =>
    let hs := forEachHookByPattern s pattern ch collect [] in
    match OutputType msg with
    | OutJSON =>
      Ok (RString (js "{'ok':true," +:+ js (if ch then "'chans':[" else "'hooks':[") +:+
                   join (hookJSON (c_start ck) ch <$> hs) +:+ "]" +:+ elapsed ck))
    | OutRESP => Ok (RArray (hookRESP <$> hs))
    | OutOther => Ok RZero
    end
  end.
End sethook.

(** ** What the rewritten log says of a hook *)

Lemma splitComma_one x : ("," ∉ bytes_of x)%char -> splitComma x = [x].
Proof.
  induction x as [|c x IH]; [done|]. cbn. rewrite not_elem_of_cons. intros [Hc Hx].
  destruct (Ascii.eqb_spec c ","); [congruence|]. by rewrite IH.
Qed.

Lemma splitComma_app x t :
  ("," ∉ bytes_of x)%char -> splitComma (x +:+ "," +:+ t) = x :: splitComma t.
Proof.
  induction x as [|c x IH]; [done|]. cbn [bytes_of]. intros Hx. cbn in Hx. apply not_elem_of_cons in Hx as [Hc Hx].
  rewrite str_app_cons. cbn [splitComma]. destruct (Ascii.eqb_spec c ","); [congruence|]. by rewrite IH.
Qed.

Lemma split_Join l :
  l <> [] -> Forall (fun x => ("," ∉ bytes_of x)%char) l -> splitComma (Join l ",") = l.
Proof.
  induction l as [|x [|y l] IH]; intros Hn Hf; [done| |].
  - apply Forall_cons in Hf as [Hx _]. by apply splitComma_one.
  - apply Forall_cons in Hf as [Hx Hf]. change (Join (x :: y :: l) ",") with (x +:+ "," +:+ Join (y :: l) ",").
    rewrite splitComma_app by done. by rewrite IH.
Qed.

Lemma splitComma_clean t : splitComma t <> [] /\ Forall (fun x => ("," ∉ bytes_of x)%char) (splitComma t).
Proof.
  induction t as [|c t [I1 I2]]; cbn; [split; [done|repeat constructor; set_solver]|].
  destruct (Ascii.eqb_spec c ","); [split; [done|constructor; [set_solver|done]]|].
  destruct (splitComma t) as [|x l]; [done|]. split; [done|]. apply Forall_cons in I2 as [Hx Hl].
  constructor; [|done]. cbn. apply not_elem_of_cons. split; [congruence|done].
Qed.

Lemma bytes_of_drop n x : bytes_of (str_drop n x) = drop n (bytes_of x).
Proof. revert x. induction n as [|n IH]; intros [|c x]; cbn; auto. Qed.

Lemma trimLeft_sub fuel x c : c ∈ bytes_of (trimLeftF fuel x) -> c ∈ bytes_of x.
Proof.
  revert x. induction fuel as [|fuel IH]; intros x; [done|]. destruct x as [|b x]; [done|]. cbn [trimLeftF].
  destruct (DecodeRuneInString (String b x)) as [r n]. destruct (IsSpace r); [|done].
  intros Hc%IH. rewrite bytes_of_drop in Hc. by eapply (subseteq_drop n).
Qed.

Lemma trimRight_sub fuel rs (c : ascii) : c ∈ trimRightF fuel rs -> c ∈ rs.
Proof.
  revert rs. induction fuel as [|fuel IH]; intros rs; [done|]. destruct rs as [|b rs]; [done|]. cbn [trimRightF].
  destruct (decodeLast (b :: rs)) as [r n]. destruct (IsSpace r); [|done].
  intros Hc%IH. by eapply (subseteq_drop n).
Qed.

Lemma TrimSpace_sub x c : c ∈ bytes_of (TrimSpace x) -> c ∈ bytes_of x.
Proof.
  unfold TrimSpace. rewrite bytes_of_string, elem_of_reverse. intros Hc%trimRight_sub.
  rewrite elem_of_reverse in Hc. by eapply trimLeft_sub.
Qed.

Section log.
Context `{WorldLaws} `{Unicode} `{Scripts} `{!Engines} `{!Areas} `{MathFns} `{EndpointCheck}.
Abbreviation hook := (Hook wG).
Implicit Types (s : Server) (h : hook) (msg : Message) (ck : clock) (vs : list string).

Lemma validated_Ok urls l :
  validated urls = Ok l -> l = TrimSpace <$> urls /\ Forall (fun u => Validate u = true) l.
Proof.
  revert l. induction urls as [|u urls IH]; intros l E; cbn in E; [injection E as <-; by split|].
  destruct (Validate (TrimSpace u)) eqn:Ev; [|done]. apply rbind_Ok in E as (l' & E' & [= <-]).
  destruct (IH l' E') as [-> Hf]. split; [done|by constructor].
Qed.

Lemma validated_again l :
  Forall (fun u => Validate u = true) l -> Forall (fun u => TrimSpace u = u) l -> validated l = Ok l.
Proof.
  induction 1 as [|u l Hu Hl IH]; [done|]. intros [Et Ht]%Forall_cons. cbn. by rewrite Et, Hu, IH.
Qed.

(** Meta maps: distinct names, no empty text. *)
Definition meta_ok (m : list (string * string)) : Prop :=
  NoDup m.*1 /\ Forall (fun p => p.1 <> "" /\ p.2 <> "") m.

Lemma metaSet_ok m k v : meta_ok m -> k <> "" -> v <> "" -> meta_ok (metaSet m k v).
Proof.
  intros [Hn Hf] Hk Hv. unfold metaSet. split.
  - rewrite fmap_app. apply NoDup_app. split; [by apply NoDup_fmap_filter|]. split; [|apply NoDup_singleton].
    intros x (p & -> & [Hp _]%list_elem_of_filter)%list_elem_of_fmap Hx%list_elem_of_singleton. done.
  - apply Forall_app. split; [|by repeat constructor]. rewrite Forall_forall in *.
    intros p [_ Hp]%list_elem_of_filter. by apply Hf.
Qed.

(** The word that ends the loop. *)
Definition searchWord (cmd cmdlc : string) : Prop :=
  cmd <> "" /\ kw cmd "meta" = false /\ kw cmd "ex" = false /\
  (kw cmd "nearby" = true /\ cmdlc = "nearby" \/
   kw cmd "nearby" = false /\ kw cmd "within" = true /\ cmdlc = "within" \/
   kw cmd "nearby" = false /\ kw cmd "within" = false /\ kw cmd "intersects" = true /\ cmdlc = "intersects").

Lemma token1_cons t vs : t <> "" -> token1 (t :: vs) = Ok (t, vs).
Proof. intros Ht. cbn. by destruct (String.eqb_spec t ""). Qed.

Lemma hookLoop_Ok fuel metas ex vs ms ex' cmdlc cvs vs' :
  hookLoop fuel metas ex vs = Ok (ms, ex', cmdlc, cvs, vs') -> meta_ok metas ->
  meta_ok ms /\ exists cmd, cvs = cmd :: vs' /\ searchWord cmd cmdlc.
Proof.
  revert metas ex vs. induction fuel as [|fuel IH]; intros metas ex vs E Hm; [done|]. cbn [hookLoop] in E. cbv zeta in E.
  apply rbind_Ok in E as ([cmd vs1] & [-> Hc]%token1_Ok & E).
  destruct (kw cmd "meta") eqn:E1.
  { apply rbind_Ok in E as ([k vs2] & [-> Hk]%token1_Ok & E). apply rbind_Ok in E as ([v vs3] & [-> Hv]%token1_Ok & E).
    apply IH in E; [done|by apply metaSet_ok]. }
  destruct (kw cmd "ex") eqn:E2.
  { apply rbind_Ok in E as ([t vs2] & _ & E). apply rbind_Ok in E as (v & _ & E). by apply IH in E. }
  unfold searchWord. destruct (kw cmd "nearby") eqn:E3; [injection E as <- <- <- <- <-; split; [done|]; exists cmd; naive_solver|].
  destruct (kw cmd "within") eqn:E4; [injection E as <- <- <- <- <-; split; [done|]; exists cmd; naive_solver|].
  destruct (kw cmd "intersects") eqn:E5; [injection E as <- <- <- <- <-; split; [done|]; exists cmd; naive_solver|done].
Qed.

Lemma hookLoop_word fuel metas ex cmd cmdlc vs :
  searchWord cmd cmdlc -> hookLoop (S fuel) metas ex (cmd :: vs) = Ok (metas, ex, cmdlc, cmd :: vs, vs).
Proof.
  intros (Hc & E1 & E2 & Hw). cbn [hookLoop]. rewrite token1_cons by done. cbn [rbind]. rewrite E1, E2.
  destruct Hw as [[-> ->]|[[-> [-> ->]]|[-> [-> [-> ->]]]]]; done.
Qed.

Lemma metaSet_new m k v : k ∉ m.*1 -> metaSet m k v = m ++ [(k, v)].
Proof.
  intros Hk. unfold metaSet. rewrite filter_all; [done|]. apply Forall_forall. intros p Hp E. apply Hk.
  rewrite <- E. by apply (list_elem_of_fmap_2 fst).
Qed.

(** The metas of a hook, read back. *)
Lemma hookLoop_metas fuel acc ms cmd cmdlc vs :
  searchWord cmd cmdlc -> NoDup (acc ++ ms).*1 -> Forall (fun p : string * string => p.1 <> "" /\ p.2 <> "") ms ->
  (length ms < fuel)%nat ->
  hookLoop fuel acc None (flat_map (fun m => ["meta"; m.1; m.2]) ms ++ cmd :: vs) =
    Ok (acc ++ ms, None, cmdlc, cmd :: vs, vs).
Proof.
  intros Hw. revert fuel acc. induction ms as [|[k v] ms IH]; intros [|fuel] acc Hn Hf Hl; cbn [length] in Hl; try lia.
  - rewrite app_nil_r. by apply hookLoop_word.
  - apply Forall_cons in Hf as [[Hk Hv] Hf]. cbn [fst snd] in *. cbn [flat_map app hookLoop]. rewrite token1_cons by done. cbn [rbind].
    change (kw "meta" "meta") with true. cbv iota. rewrite token1_cons by done. cbn [rbind]. rewrite token1_cons by done. cbn [rbind].
    rewrite metaSet_new.
    + rewrite IH; [by rewrite <- app_assoc|by rewrite <- app_assoc|done|lia].
    + rewrite fmap_app, NoDup_app in Hn. destruct Hn as (_ & Hn & _). intros Hi. apply (Hn k Hi). cbn. set_solver.
Qed.

Lemma sort_by_id {A} (less : A -> A -> bool) l : ordered less l -> sort_by less l = l.
Proof.
  induction 1 as [|x l Hs IH Hf]; [done|]. change (sort_by less (x :: l)) with (insert_by less x (sort_by less l)).
  rewrite IH. destruct l as [|y l]; [done|]. cbn. apply Forall_cons in Hf as [-> _]. done.
Qed.

#[local] Instance metaLess_sw : StrictWeak metaLess.
Proof. apply (str_sw fst). Qed.

Lemma Join_nonempty l : l <> [] -> Forall (fun u => u <> "") l -> Join l "," <> "".
Proof.
  intros Hn Hf. destruct l as [|x [|y l]]; [done|by apply Forall_cons in Hf as [? _]|].
  apply Forall_cons in Hf as [Hx _]. change (Join (x :: y :: l) ",") with (x +:+ "," +:+ Join (y :: l) ",").
  by destruct x.
Qed.

(** The endpoints of a hook, read back. *)
Lemma hookEndpoints_again name vs eps vs' rest :
  hookEndpoints false name vs = Ok (eps, vs') -> Validate "" = false -> Forall (fun u => TrimSpace u = u) eps ->
  hookEndpoints false name (Join eps "," :: rest) = Ok (eps, rest).
Proof.
  intros E Hv Ht. unfold hookEndpoints in *. apply rbind_Ok in E as ([urls vs1] & _ & E).
  apply rbind_Ok in E as (l & [El Hl]%validated_Ok & [= <- <-]). destruct (splitComma_clean urls) as [Hne Hc].
  assert (l <> []) as Hn by (subst l; intros E%fmap_nil_inv; done).
  rewrite token1_cons.
  2: { apply Join_nonempty; [done|]. eapply Forall_impl; [exact Hl|]. intros u Hu ->. congruence. }
  cbn [rbind]. rewrite split_Join; [by rewrite validated_again|done|]. subst l. rewrite Forall_fmap.
  eapply Forall_impl; [exact Hc|]. intros u Hu Hi. by apply Hu, TrimSpace_sub.
Qed.

End log.

(** ** Examples *)

Module SetHookExample.
Import ExampleWorld CrudExample TokenExample ScanExample SearchExample BingExample.
#[local] Existing Instance world.
#[local] Existing Instance world_laws.

#[global] Instance check : EndpointCheck := fun url => negb (url =s "").

Definition setYard : Message :=
  ask ["SETHOOK"; "yard"; "http://host/, http://spare/"; "META"; "b"; "2"; "meta"; "a"; "1";
       "WITHIN"; "fleet"; "FENCE"; "DETECT"; "enter,exit"; "BOUNDS"; "0"; "0"; "9"; "9"].
Definition noHook : Hook wG := named "".
Definition yardHook : Hook wG := match parseHook (newServer 0) setYard 0 with Ok (h, _) => h | Err _ => noHook end.
Definition srvY : Server := addHook (newServer 0) None yardHook.

Lemma yardHook_text :
  (Key yardHook, Name yardHook, Endpoints yardHook, Metas yardHook, f_cmd (Fence yardHook), f_detect (Fence yardHook)) =
  ("fleet", "yard", ["http://host/"; "http://spare/"], [("a", "1"); ("b", "2")], "within", Some ["enter"; "exit"]).
Proof. by vm_compute. Qed.

Lemma srvY_parse : exists sw, parseHook srvY setYard 0 = Ok (yardHook, sw).
Proof. eexists. reflexivity. Qed.

Lemma srvY_get : bt_get (hooks srvY) (named (Name yardHook)) = Some yardHook.
Proof.
  apply bt_get_spec; [apply _|]. unfold srvY. rewrite (proj1 (addHook_rest _ _ _)), bt_elem_set by apply _.
  split; [by left|]. unfold equivb, byHookName. cbn [Name named]. by rewrite str_ltb_irrefl.
Qed.

End SetHookExample.
