(* ===== verification/Fence.v ===== *)
(** * Geofences ([src/internal/legacy/server/fence.go])

    What a fence reports when an object is set: whether the object is inside, outside,
    enters, exits or crosses the area, or roams near other objects, and the messages that
    say so. *)

From Stdlib Require Import Ascii String ZArith Lia Bool SpecFloat.
From stdpp Require Import base list strings option sorting sets gmap.
From S2P Require Import Prelude GoStd Strconv Bing Glob GlobFacts Json Containers Field FieldList.
From S2P Require Import FieldBinary Geo Object Collection CollectionScan Group World Hooks Crud.
From S2P Require Import CrudFacts Token Scanner Search.
Import Glob.

Local Open Scope Z_scope.

(** Imported packages and the local time zone: a line through two points, the rectangle
    around a circle, distances between any two objects, and the text of a time. *)
Class Fences `{World} := {
  NewLineString : Point -> Point -> wG;
  RectFromCenter : float64 -> float64 -> float64 -> float64 * float64 * float64 * float64;
  object_Distance : geometry wG -> geometry wG -> float64;
  jsonTimeFormat : Z -> string;
}.

Section fence.
Context `{World} `{Unicode} `{Scripts} `{!Engines} `{!Areas} `{!Fences}.
Implicit Types (s : Server) (o : Object wG) (f : fence wG) (d : commandDetail) (sw : scanWriter).

(** ** Text *)

Definition hookDetailsJSON (hookName : string) (metas : list (string * string)) : string :=
  (if hookName =s "" then "" else js ",'hook':" +:+ jsonString hookName) +:+
  match metas with
  | [] => ""
  | _ => js ",'meta':{" +:+ join ((fun m => jsonString m.1 +:+ ":" +:+ jsonString m.2) <$> metas) +:+ "}"
  end.

Definition makemsg (command group detect hookName : string) (metas : list (string * string))
    (key : string) (t : Z) (tail : string) : string :=
  js "{'command':'" +:+ command +:+ js "','group':'" +:+ group +:+ js "','detect':'" +:+ detect +:+ js "'" +:+
  hookDetailsJSON hookName metas +:+ js ",'key':" +:+ jsonString key +:+ js ",'time':" +:+ jsonTimeFormat t +:+
  "," +:+ tail.

Definition multiGlobMatch (globs : list string) (v : string) : bool :=
  match globs with
  | [] => true
  | [g] => if g =s "*" then true else matches g v
  | _ => existsb (fun p => matches p v) globs
  end.

(** ** Matching one object *)

(** [fenceMatchObject]; a fence that has neither an area nor roams is a nil dereference. *)
Definition fenceMatchObject (cmd : string) f (oo : option (Object wG)) : result failure bool :=
  match oo, f_roam f with
  | None, _ | _, Some _ => Ok false
  | Some o, None =>
    if (cmd =s "nearby") || (cmd =s "within") || (cmd =s "intersects") then
      match f_obj f with
      | None => Err NilDeref
      | Some area => Ok (inArea (if cmd =s "within" then "within" else "intersects") area o)
      end
    else Ok false
  end.

Definition tests sw (oo : option (Object wG)) : bool :=
  match oo with
  | Some o => match testObject sw o with Ok b => b | Err _ => false end
  | None => false
  end.

(** ** Roaming *)

Record roamMatch := mkRoamMatch { rm_id : string; rm_obj : geometry wG; rm_meters : float64 }.

(** The callback of the search around an object. *)
Definition nearbyStep (r : roamSwitches) o (acc : list roamMatch) (o' : Object wG) : list roamMatch * bool :=
  if ID o' =s ID o then (acc, true)
  else if f64_gt (object_Distance (Geo o') (Geo o')) (roam_meters r) then (acc, true)
  else if negb (if roam_pattern r then matches (roam_id r) (ID o') else roam_id r =s ID o') then (acc, true)
  else (acc ++ [mkRoamMatch (ID o') (Geo o') (object_Distance (Geo o) (Geo o'))], true).

Definition fenceMatchNearbys s (r : roamSwitches) (oo : option (Object wG)) : list roamMatch :=
  match oo, sm_get (cols s) (roam_key r) with
  | Some o, Some col =>
    let center := Center (Geo o) in
    let '(minLat, minLon, maxLat, maxLon) := RectFromCenter (Y center) (X center) (roam_meters r) in
    st (Intersects col (NewRect (rectOf minLat minLon maxLat maxLon)) 0 None None (nearbyStep r o) []).1
  | _, _ => []
  end.

(** [l[i] = l[len(l)-1]; l = l[:len(l)-1]] *)
Definition swapRemove {A} (i : nat) (l : list A) : list A :=
  match last l with Some x => take (length l - 1) (<[i := x]> l) | None => l end.

(** The first position of an id. *)
Fixpoint position (id : string) (l : list roamMatch) : option nat :=
  match l with
  | [] => None
  | m :: l => if rm_id m =s id then Some 0%nat else S <$> position id l
  end.

(** The loop over the old neighbours from position [i]; what is near still leaves the old
    list, and with NODWELL the new one too. *)
Fixpoint roamLoop (fuel : nat) (nodwell : bool) (i : nat) (olds news : list roamMatch)
    : list roamMatch * list roamMatch :=
  match fuel, olds !! i with
  | S fuel, Some m =>
    match position (rm_id m) news with
    | Some j =>
      roamLoop fuel nodwell i (swapRemove i olds) (if nodwell then swapRemove j news else news)
    | None => roamLoop fuel nodwell (S i) olds news
    end
  | _, _ => (olds, news)
  end.

Definition roamLess (a b : roamMatch) : bool :=
  if f64_lt (rm_meters a) (rm_meters b) then true
  else if f64_gt (rm_meters a) (rm_meters b) then false
  else rm_id a <s rm_id b.

(** [sort.Slice]: the order is total where no distance is NaN and the ids differ. *)
Definition sortRoamMatches (l : list roamMatch) : list roamMatch := sort_by roamLess l.

(** [fenceMatchRoam]: the nearbys and the faraways. *)
Definition fenceMatchRoam s f (r : roamSwitches) o (old : option (Object wG)) : list roamMatch * list roamMatch :=
  let oldNearbys := fenceMatchNearbys s r old in
  let newNearbys := fenceMatchNearbys s r (Some o) in
  let '(faraways, nearbys) := roamLoop (length oldNearbys) (f_nodwell f) 0 oldNearbys newNearbys in
  let faraways := (fun m => mkRoamMatch (rm_id m) (rm_obj m) (object_Distance (rm_obj m) (Geo o))) <$> faraways in
  (sortRoamMatches nearbys, sortRoamMatches faraways).

(** The objects of SCAN in a roaming message. *)
Definition roamScanStep (id pattern : string) (acc : string) (o' : Object wG) : string * bool :=
  if ID o' =s id then (acc, true)
  else if matches pattern (ID o') then
    (acc +:+ js ",{'id':" +:+ jsonString (ID o') +:+ js ",'object':" +:+ JSON (Geo o') +:+ "}", true)
  else (acc, true).

Definition roamScan s (r : roamSwitches) (id : string) : string :=
  match sm_get (cols s) (roam_key r) with
  | None => ""
  | Some col =>
    let self := match Get col id with
                | Some o' => js "{'id':" +:+ jsonString id +:+ js ",'self':true,'object':" +:+ JSON (Geo o') +:+ "}"
                | None => ""
                end in
    let pattern := id +:+ roam_scan r in
    let '(l0, l1) := Limits (Parse pattern false) in
    st (if (l0 =s "") && (l1 =s "") then Scan col false None None (roamScanStep id pattern) self
        else ScanRange col l0 l1 false None None (roamScanStep id pattern) self)
  end.

Definition extendRoamMessage s (r : roamSwitches) (kind baseMsg : string) (m : roamMatch) : string :=
  let thousand := f64_of_Z 1000 in
  str_take (String.length baseMsg - 1) baseMsg +:+ js ",'" +:+ kind +:+ js "':{'key':" +:+ jsonString (roam_key r) +:+
  js ",'id':" +:+ jsonString (rm_id m) +:+ js ",'object':" +:+ JSON (rm_obj m) +:+
  js ",'meters':" +:+ FormatFloat (f64_div (f64_floor (f64_mul (rm_meters m) thousand)) thousand) +:+
  (if roam_scan r =s "" then "" else js ",'scan':[" +:+ roamScan s r (rm_id m) +:+ "]") +:+ "}}".

(** ** Detection *)

Definition allowed f (k : string) : bool :=
  match f_detect f with None => true | Some _ => detects f k end.

(** What happened to an object, before the choice of the fence: [None] is silence. *)
Definition detectArea sw f d o : result failure (option string) :=
  let cmd := f_cmd f in
  let? at1 := fenceMatchObject cmd f (d_old d) in
  let match1 := at1 && tests sw (d_old d) in
  let? at2 := fenceMatchObject cmd f (Some o) in
  let match2 := at2 && tests sw (Some o) in
  let nocross := if at2 then negb match2 else if at1 then negb match1 else false in
  if match1 && match2 then Ok (Some "inside")
  else if match1 then Ok (Some "exit")
  else if match2 then Ok (Some (if d_command d =s "fset" then "inside" else "enter"))
  else if d_command d =s "fset" then Ok (Some "outside")
  else if negb (match fieldMatch sw o with Ok b => b | Err _ => false end) then Ok None
  else
    match d_old d with
    | Some old =>
      if nocross then Ok (Some "outside")
      else
        let line := Object.New "" (Geom (NewLineString (Center (Geo old)) (Center (Geo o)))) 0 [] in
        let? cross := fenceMatchObject (if cmd =s "within" then "intersects" else cmd) f (Some line) in
        Ok (Some (if cross : bool then "cross" else "outside"))
    | None => Ok (Some "outside")
    end.

(** The loop that falls back from what the fence does not ask for. *)
Definition resolve f (detect : string) : option string :=
  if allowed f detect then Some detect
  else
    let back := if detect =s "enter" then Some "inside"
                else if (detect =s "exit") || (detect =s "cross") then Some "outside" else None in
    match back with
    | Some k => if allowed f k then Some k else None
    | None => None
    end.

(** [writeObject]: the object as the fence reports it, [None] when nothing is written. *)
Definition fenceObject sw f o : option string :=
  let dist := match f_obj f with
              | Some area => if f_distance f then object_Distance (Geo o) area else f64_zero
              | None => f64_zero
              end in
  let sw' := mkScanWriter OutJSON (sw_col sw) (sw_output sw) (sw_wheres sw) (sw_whereins sw)
               (sw_whereevals sw) (sw_nofields sw) (sw_cursor sw) (sw_limit sw) (sw_precision sw)
               (sw_globs sw) (sw_globEverything sw) (sw_matchValues sw) true (sw_mvt sw) in
  let res := filledJSON sw' swInit (mkParams o dist (f_distance f) true None) in
  match sw_output sw with
  | outputCount => None
  | outputIDs => Some (js "{'id':" +:+ res +:+ "}")
  | _ => Some res
  end.

(** The group of an event; [fresh] is the id of a new one. *)
Definition eventGroup (g : groups wT) (detect hookName key id fresh : string) : groups wT * string :=
  if detect =s "enter" then groupConnect g hookName key id fresh
  else if detect =s "cross" then groupConnect (groupDisconnect g hookName key id) hookName key id fresh
  else
    let group := groupGet g hookName key id in
    if group =s "" then groupConnect g hookName key id fresh else (g, group).

(** The second event that comes with some. *)
Definition also (detect : string) : option string :=
  if detect =s "enter" then Some "inside"
  else if (detect =s "exit") || (detect =s "cross") then Some "outside" else None.

Definition commandOf (msg : string) : option string := fst <$> gjson_result msg "command".

Definition notSet (msg : string) : bool :=
  match commandOf msg with Some c => negb (c =s "set") | None => false end.

(** The messages of an event, and the groups afterwards. *)
Definition fenceEvent s (hookName : string) sw f metas d o (detect : string)
    (near far : list roamMatch) (fresh : string) : groups wT * list string :=
  match fenceObject sw f o with
  | None => (grps s, [])
  | Some res =>
    let '(g, group) := eventGroup (grps s) detect hookName (d_key d) (ID o) fresh in
    let say k := makemsg (d_command d) group k hookName metas (d_key d) (d_timestamp d) (str_drop 1 res) in
    let first := if allowed f detect then [say detect] else [] in
    let second := match also detect with
                  | Some k => if allowed f k then [say k] else []
                  | None => []
                  end in
    match f_roam f, first with
    | Some r, base :: _ =>
      if detect =s "roam" then
        (g, filter (fun m => notSet m = true) first ++
            (extendRoamMessage s r "nearby" base <$> near) ++ (extendRoamMessage s r "faraway" base <$> far))
      else (g, first ++ second)
    | _, _ => (g, first ++ second)
    end
  end.

Definition fenceMatch s (hookName : string) sw f (metas : list (string * string)) d (fresh : string)
    : result failure (groups wT * list string) :=
  let head command := js "{'command':'" +:+ command +:+ js "'" +:+ hookDetailsJSON hookName metas +:+
                      js ",'key':" +:+ jsonString (d_key d) in
  let time := js ",'time':" +:+ jsonTimeFormat (d_timestamp d) +:+ "}" in
  if d_command d =s "drop" then Ok (grps s, [head "drop" +:+ time])
  else
    match d_obj d with
    | None => Ok (grps s, [])
    | Some o =>
      if negb (multiGlobMatch (f_globs f) (ID o)) then Ok (grps s, [])
      else if negb (IsSpatial (Geo o)) then Ok (grps s, [])
      else if (d_command d =s "fset") && sw_nofields sw then Ok (grps s, [])
      else if d_command d =s "del" then
        Ok (grps s, [head "del" +:+ js ",'id':" +:+ jsonString (ID o) +:+ time])
      else
        let event detect near far :=
          match resolve f detect with
          | None => (grps s, [])
          | Some k => fenceEvent s hookName sw f metas d o k near far fresh
          end in
        match f_roam f with
        | Some r =>
          if d_command d =s "set" then
            match fenceMatchRoam s f r o (d_old d) with
            | ([], []) => Ok (grps s, [])
            | (near, far) => Ok (event "roam" near far)
            end
          else Ok (event "roam" [] [])
        | None =>
          let? detect := detectArea sw f d o in
          match detect with
          | None => Ok (grps s, [])
          | Some k => Ok (event k [] [])
          end
        end
    end.

Definition FenceMatch s (hookName : string) sw f metas d fresh : result failure (groups wT * list string) :=
  let? (g, msgs) := fenceMatch s hookName sw f metas d fresh in
  match f_accept f with
  | None | Some [] => Ok (g, msgs)
  | Some l => Ok (g, filter (fun m => default "" (commandOf m) ∈ l) msgs)
  end.
End fence.

(** ** What a fence reports *)

Section reports.
Context `{WorldLaws} `{Unicode} `{Scripts} `{!Engines} `{!Areas} `{!Fences}.
Implicit Types (s : Server) (o : Object wG) (f : fence wG) (d : commandDetail) (sw : scanWriter).

(** Whether an object is in the area of a fence and passes its filters. *)
Definition isIn sw f (oo : option (Object wG)) : bool :=
  match fenceMatchObject (f_cmd f) f oo with Ok b => b && tests sw oo | Err _ => false end.

(** Whether the way from the old place to the new one meets the area, for an object that
    is not kept out by the filters alone. *)
Definition crosses sw f d o : bool :=
  match d_old d with
  | None => false
  | Some old =>
    let line := Object.New "" (Geom (NewLineString (Center (Geo old)) (Center (Geo o)))) 0 [] in
    match fenceMatchObject (f_cmd f) f (Some o), fenceMatchObject (f_cmd f) f (Some old),
      fenceMatchObject (if f_cmd f =s "within" then "intersects" else f_cmd f) f (Some line) with
    | Ok false, Ok false, Ok cross => cross
    | _, _, _ => false
    end
  end.

(** The events of a change, from where the object was and where it is. *)
Definition events sw f d o : list string :=
  let fset := d_command d =s "fset" in
  match isIn sw f (d_old d), isIn sw f (Some o) with
  | true, true => ["inside"]
  | true, false => ["exit"; "outside"]
  | false, true => if fset then ["inside"] else ["enter"; "inside"]
  | false, false =>
    if fset then ["outside"]
    else if match fieldMatch sw o with Ok b => b | Err _ => false end then
      if crosses sw f d o then ["cross"; "outside"] else ["outside"]
    else []
  end.

(** An event, what it falls back to, and what comes with it. *)
Lemma resolve_also f k (say : string -> string) :
  k ∈ ["inside"; "outside"; "enter"; "exit"; "cross"] ->
  match resolve f k with
  | None => []
  | Some k => (if allowed f k then [say k] else []) ++
              match also k with Some k => if allowed f k then [say k] else [] | None => [] end
  end = say <$> List.filter (allowed f) (k :: option_list (also k)).
Proof.
  intros Hk. unfold resolve, also.
  repeat (apply elem_of_cons in Hk as [->|Hk]); [..|by apply not_elem_of_nil in Hk]; cbn;
    repeat (match goal with |- context [allowed ?g ?k] => destruct (allowed g k) eqn:? end; cbn); congruence.
Qed.

Lemma fenceMatchObject_area cmd f oo area :
  f_obj f = Some area -> exists b, fenceMatchObject cmd f oo = Ok b.
Proof. intros Ha. unfold fenceMatchObject. rewrite Ha. repeat case_match; eauto. Qed.

Lemma fenceMatchObject_None cmd f : fenceMatchObject cmd f None = Ok false.
Proof. done. Qed.

#[local] Arguments fenceMatchObject : simpl never.

(** The detection agrees with the table of events. *)
Lemma detectArea_events sw f d o area :
  f_obj f = Some area ->
  detectArea sw f d o = Ok (head (events sw f d o)) /\
  match events sw f d o with
  | [] => True
  | k :: l => l = option_list (also k) /\ k ∈ ["inside"; "outside"; "enter"; "exit"; "cross"]
  end.
Proof.
  intros Ha. unfold detectArea, events, isIn, crosses.
  destruct (fenceMatchObject_area (f_cmd f) f (d_old d) area Ha) as [a1 E1].
  destruct (fenceMatchObject_area (f_cmd f) f (Some o) area Ha) as [a2 E2]. rewrite E1, E2. cbn [rbind].
  set (t1 := tests sw (d_old d)). set (t2 := tests sw (Some o)). set (fm := match fieldMatch sw o with Ok _ => _ | _ => _ end).
  assert (d_old d = None -> a1 = false) as Hn by (intros Hd; rewrite Hd in E1; by injection E1).
  destruct (a1 && t1) eqn:M1, (a2 && t2) eqn:M2, (d_command d =s "fset"), fm; cbn;
    try done; try (split; [done|split; [done|set_solver]]).
  destruct (d_old d) as [old|]; [|split; [done|split; [done|set_solver]]]. rewrite E1.
  set (cmd' := if f_cmd f =s "within" then "intersects" else f_cmd f).
  destruct (fenceMatchObject_area cmd' f (Some (Object.New ""
    (Geom (NewLineString (Center (Geo old)) (Center (Geo o)))) 0 [])) area Ha) as [c E3]. rewrite E3.
  destruct a1, a2, t1, t2, c; try discriminate; cbn; split; done || split; done || set_solver.
Qed.

(** A change a fence with an area looks at. *)
Record watched sw f d o (area : geometry wG) : Prop := {
  wa_roam : f_roam f = None;
  wa_area : f_obj f = Some area;
  wa_obj : d_obj d = Some o;
  wa_spatial : IsSpatial (Geo o) = true;
  wa_glob : multiGlobMatch (f_globs f) (ID o) = true;
  wa_command : d_command d <> "drop" /\ d_command d <> "del";
  wa_fields : d_command d = "fset" -> sw_nofields sw = false;
}.

Lemma fenceMatch_watched s hookName sw f metas d o area fresh :
  watched sw f d o area ->
  fenceMatch s hookName sw f metas d fresh =
    let? detect := detectArea sw f d o in
    Ok (match detect with
        | None => (grps s, [])
        | Some k => match resolve f k with
                    | None => (grps s, [])
                    | Some k => fenceEvent s hookName sw f metas d o k [] [] fresh
                    end
        end).
Proof.
  intros [Hr Ha Ho Hs Hg [Hc1 Hc2] Hf]. unfold fenceMatch. cbv zeta. rewrite Ho, Hg, Hs, Hr. cbn [negb].
  rewrite (proj2 (String.eqb_neq _ _) Hc1), (proj2 (String.eqb_neq _ _) Hc2).
  replace ((d_command d =s "fset") && sw_nofields sw) with false; [|by destruct (String.eqb_spec (d_command d) "fset"); [rewrite Hf|]].
  destruct (detectArea sw f d o) as [[k|]|]; done.
Qed.

(** C12. The messages of a fence with an area, on every change of an object that its
    patterns admit: the events that follow from where the object was and is, less those
    the fence did not ask for, in order, all in one group. *)
Theorem fence_messages s hookName sw f metas d o area fresh res :
  watched sw f d o area -> fenceObject sw f o = Some res ->
  exists g group, fenceMatch s hookName sw f metas d fresh =
    Ok (g, (fun k => makemsg (d_command d) group k hookName metas (d_key d) (d_timestamp d) (str_drop 1 res))
           <$> List.filter (allowed f) (events sw f d o)).
Proof.
  intros Hw Hres. rewrite (fenceMatch_watched _ _ _ _ _ _ _ _ _ Hw).
  destruct (detectArea_events sw f d o area (wa_area _ _ _ _ _ Hw)) as [-> Hev]. cbn [rbind].
  destruct (events sw f d o) as [|k l]; cbn [head]; [by exists (grps s), ""|]. destruct Hev as [-> Hk].
  destruct (resolve f k) as [k'|] eqn:Er.
  - unfold fenceEvent. rewrite Hres, (wa_roam _ _ _ _ _ Hw).
    destruct (eventGroup _ _ _ _ _ _) as [g group]. exists g, group. do 2 f_equal.
    pose proof (resolve_also f k (fun k => makemsg (d_command d) group k hookName metas (d_key d)
      (d_timestamp d) (str_drop 1 res)) Hk) as Ha. rewrite Er in Ha. exact Ha.
  - exists (grps s), "". do 2 f_equal.
    pose proof (resolve_also f k id Hk) as Ha. rewrite Er in Ha.
    destruct (List.filter _ _); [done|discriminate Ha].
Qed.

(** ** Roaming *)

Lemma swapRemove_perm {A} i (l : list A) x : l !! i = Some x -> x :: swapRemove i l ≡ₚ l.
Proof.
  intros Hi. unfold swapRemove. destruct (last l) as [z|] eqn:El; [|by destruct l; [|apply last_None in El]].
  apply last_Some in El as [l0 ->]. rewrite length_app. cbn [length].
  replace (length l0 + 1 - 1)%nat with (length l0) by lia.
  destruct (decide (i < length l0)%nat) as [Hlt|].
  - rewrite insert_app_l by done. rewrite take_app_length' by (by rewrite length_insert).
    rewrite lookup_app_l in Hi by done. rewrite <- (take_drop_middle l0 i x Hi) at 2.
    rewrite insert_take_drop by done. rewrite <- app_assoc. cbn. rewrite (Permutation_middle (take i l0)).
    rewrite (Permutation_app_comm (drop (S i) l0) [z]). cbn. by rewrite (Permutation_swap z x).
  - rewrite lookup_app_r in Hi by lia. apply list_lookup_singleton_Some in Hi as [Hi ->].
    rewrite insert_app_r_alt by lia. replace (i - length l0)%nat with 0%nat by lia. cbn.
    rewrite take_app_length. apply Permutation_cons_append.
Qed.

Lemma swapRemove_take {A} i (l : list A) x : l !! i = Some x -> take i (swapRemove i l) = take i l.
Proof.
  intros Hi. unfold swapRemove. destruct (last l) as [z|]; [|done].
  apply lookup_lt_Some in Hi. rewrite take_take, take_insert_ge by lia. f_equal. lia.
Qed.

Lemma position_None id l : position id l = None <-> id ∉ rm_id <$> l.
Proof.
  induction l as [|m l IH]; cbn; [set_solver|]. destruct (String.eqb_spec (rm_id m) id) as [->|Hne]; [set_solver|].
  destruct (position id l) eqn:E; cbn; set_solver.
Qed.
Lemma position_Some id l j : position id l = Some j -> exists m, l !! j = Some m /\ rm_id m = id.
Proof.
  revert j. induction l as [|m l IH]; intros j E; cbn in E; [done|].
  destruct (String.eqb_spec (rm_id m) id); [injection E as <-; by exists m|].
  destruct (position id l) as [k|]; [|done]. injection E as <-. cbn. eauto.
Qed.

Definition ids (l : list roamMatch) : list string := rm_id <$> l.

(** What is left of two lists of matches when those of one id pair up. *)
Definition unpaired (l l' : list roamMatch) : list roamMatch := filter (fun m => rm_id m ∉ ids l') l.

Lemma unpaired_all l l' : Forall (fun m => rm_id m ∉ ids l') l -> unpaired l l' = l.
Proof. apply filter_all. Qed.

#[global] Instance unpaired_perm : Proper ((≡ₚ) ==> (≡ₚ) ==> (≡ₚ)) unpaired.
Proof.
  intros l k Hl l' k' Hl'. unfold unpaired. rewrite Hl. apply Permutation_refl'.
  apply list_filter_iff. intros m. unfold ids. by rewrite Hl'.
Qed.

(** Matches of one id can go from both lists. *)
Lemma unpaired_cons m m' l l' :
  rm_id m = rm_id m' -> rm_id m ∉ ids l -> unpaired (m :: l) (m' :: l') = unpaired l l'.
Proof.
  intros E Hn. unfold unpaired. rewrite filter_cons_False by (unfold ids; set_solver).
  apply list_filter_iff'. intros x Hx. unfold ids in *. cbn. rewrite not_elem_of_cons.
  split; [tauto|]. intros Hx'. split; [|done]. intros Ex. apply Hn. apply list_elem_of_fmap.
  exists x. split; [congruence|done].
Qed.

Lemma unpaired_drop m l l' : rm_id m ∈ ids l' -> unpaired (m :: l) l' = unpaired l l'.
Proof. intros Hm. unfold unpaired. by rewrite filter_cons_False by (intros Hn; by apply Hn). Qed.

Lemma unpaired_done i olds news nodwell :
  (length olds <= i)%nat -> Forall (fun m => rm_id m ∉ ids news) (take i olds) ->
  olds ≡ₚ unpaired olds news /\ news ≡ₚ (if nodwell : bool then unpaired news olds else news).
Proof.
  intros Hi Hp. rewrite take_ge in Hp by done. rewrite unpaired_all by done. split; [done|].
  destruct nodwell; [|done]. rewrite unpaired_all; [done|]. rewrite Forall_forall in *.
  intros m Hm (x & E & Hx)%list_elem_of_fmap. apply (Hp x Hx), list_elem_of_fmap. by exists m.
Qed.

Lemma roamLoop_spec fuel nodwell i olds news :
  NoDup (ids olds) -> NoDup (ids news) -> (length olds - i <= fuel)%nat ->
  Forall (fun m => rm_id m ∉ ids news) (take i olds) ->
  let '(far, near) := roamLoop fuel nodwell i olds news in
  far ≡ₚ unpaired olds news /\ near ≡ₚ (if nodwell then unpaired news olds else news).
Proof.
  revert i olds news. induction fuel as [|fuel IH]; intros i olds news No Nn Hf Hp; cbn.
  { apply unpaired_done with i; [lia|done]. }
  destruct (olds !! i) as [m|] eqn:Em; [|apply unpaired_done with i; [by apply lookup_ge_None|done]].
  pose proof (lookup_lt_Some _ _ _ Em) as Hi.
  destruct (position (rm_id m) news) as [j|] eqn:Ej.
  - apply position_Some in Ej as (x & Hx & Ex).
    pose proof (swapRemove_perm i olds m Em) as Po. pose proof (swapRemove_perm j news x Hx) as Pn.
    assert (NoDup (rm_id m :: ids (swapRemove i olds))) as [Hm No']%NoDup_cons by (unfold ids; by rewrite <- fmap_cons, Po).
    assert (NoDup (rm_id x :: ids (swapRemove j news))) as [Hx' Nn']%NoDup_cons by (unfold ids; by rewrite <- fmap_cons, Pn).
    assert (length (swapRemove i olds) = length olds - 1)%nat as Hlen.
    { pose proof (Permutation_length Po) as Hl. cbn in Hl. lia. }
    specialize (IH i (swapRemove i olds) (if nodwell then swapRemove j news else news)).
    destruct (roamLoop _ _ _ _ _) as [far near]. destruct IH as [IH1 IH2]; [done|by destruct nodwell|lia| |].
    { rewrite (swapRemove_take i olds m Em). eapply Forall_impl; [exact Hp|]. cbn. intros y Hy.
      destruct nodwell; [|done]. intros Hin. apply Hy. unfold ids. rewrite <- Pn. by right. }
    rewrite IH1, IH2. destruct nodwell.
    + split.
      * etrans; [|apply (unpaired_perm _ _ Po _ _ Pn)]. by rewrite unpaired_cons by done.
      * etrans; [|apply (unpaired_perm _ _ Pn _ _ Po)]. by rewrite unpaired_cons by done.
    + split; [|done]. etrans; [|apply (unpaired_perm _ _ Po news news); done]. rewrite unpaired_drop; [done|].
      apply list_elem_of_fmap. exists x. split; [done|]. by eapply list_elem_of_lookup_2.
  - apply IH; [done|done|lia|]. rewrite (take_S_r _ _ _ Em). apply Forall_app. split; [done|].
    constructor; [by apply position_None|constructor].
Qed.

Lemma roamLess_asym a b : roamLess a b = true -> roamLess b a = false.
Proof.
  unfold roamLess, f64_gt. fold (f64_lt (rm_meters b) (rm_meters a)) (f64_lt (rm_meters a) (rm_meters b)).
  destruct (f64_lt (rm_meters a) (rm_meters b)) eqn:E1.
  - intros _. by rewrite (f64_lt_asym _ _ E1).
  - destruct (f64_lt (rm_meters b) (rm_meters a)); [done|]. apply str_ltb_asym.
Qed.

Definition in_order (l : list roamMatch) : Prop := Sorted (fun a b => roamLess b a = false) l.

Lemma sortRoamMatches_spec l : sortRoamMatches l ≡ₚ l /\ in_order (sortRoamMatches l).
Proof. split; [apply sort_by_perm|apply sort_by_sorted, roamLess_asym]. Qed.

(** What the iterator lets through. *)
Definition roams (r : roamSwitches) o (o' : Object wG) : bool :=
  negb (ID o' =s ID o) && negb (f64_gt (object_Distance (Geo o') (Geo o')) (roam_meters r)) &&
  (if roam_pattern r then matches (roam_id r) (ID o') else roam_id r =s ID o').

Lemma nearbyStep_run r o acc l :
  run (nearbyStep r o) acc l =
    (acc ++ ((fun o' => mkRoamMatch (ID o') (Geo o') (object_Distance (Geo o) (Geo o'))) <$>
             List.filter (roams r o) l), true).
Proof.
  revert acc. induction l as [|o' l IH]; intros acc; cbn; [by rewrite app_nil_r|].
  unfold nearbyStep at 1, roams at 1. destruct (ID o' =s ID o); cbn; [apply IH|].
  destruct (f64_gt _ _); cbn; [apply IH|]. destruct (if roam_pattern r then _ else _); cbn; [|apply IH].
  rewrite IH, <- app_assoc. done.
Qed.

(** The rectangle an object is searched in. *)
Definition around (r : roamSwitches) o : wG :=
  let center := Center (Geo o) in
  let '(minLat, minLon, maxLat, maxLon) := RectFromCenter (Y center) (X center) (roam_meters r) in
  NewRect (rectOf minLat minLon maxLat maxLon).

(** The neighbours of an object in the collection a fence roams over: the other objects with
    a matching id whose geometry meets the square of the radius around the centre of the
    object, each with its distance. The distance plays no part in who is a neighbour. *)
Definition neighbours s (r : roamSwitches) (oo : option (Object wG)) : list roamMatch :=
  match oo, sm_get (cols s) (roam_key r) with
  | Some o, Some col =>
    (fun o' => mkRoamMatch (ID o') (Geo o') (object_Distance (Geo o) (Geo o'))) <$>
      filter (fun o' => ID o' <> ID o /\
          (if roam_pattern r then matches (roam_id r) (ID o') else roam_id r =s ID o') = true)
        (filter (fun o' => Geo.Intersects (Geo o') (around r o) = true)
           (candidates col (geo_Rect (around r o))))
  | _, _ => []
  end.

(** No object is further from itself than the radius. *)
Definition self_near s (r : roamSwitches) : Prop :=
  forall k i o, db s k i = Some o -> f64_gt (object_Distance (Geo o) (Geo o)) (roam_meters r) = false.

Lemma fenceMatchNearbys_neighbours s r oo :
  server_ok s -> self_near s r -> (forall o, oo = Some o -> box_ok (rtreeRect (geo_Rect (around r o))) = true) ->
  fenceMatchNearbys s r oo ≡ₚ neighbours s r oo.
Proof.
  intros Hok Hself Hb. unfold fenceMatchNearbys, neighbours. destruct oo as [o|]; [|done].
  destruct (sm_get (cols s) (roam_key r)) as [col|] eqn:Ec; [|done].
  destruct (sk_cols _ Hok _ _ Ec) as [Hc _].
  specialize (Hb o eq_refl). unfold around in *.
  destruct (RectFromCenter _ _ _) as [[[minLat minLon] maxLat] maxLon].
  set (area := NewRect _) in *. unfold Intersects.
  destruct (geoQuery_run (fun o => Geo.Intersects (Geo o) area) col (geo_Rect area) None (nearbyStep r o) [])
    as (l & Hl & E); [done..|].
  rewrite nearbyStep_run in E. apply (f_equal fst) in E. unfold seen in E. cbn [fst] in E.
  rewrite E. cbn [default Z.to_nat app]. rewrite drop_0, !list_filter_bool. rewrite Hl.
  apply fmap_Permutation. apply Permutation_refl', list_filter_iff'. intros o' [_ Hin]%list_elem_of_filter.
  unfold candidates in Hin. apply list_elem_of_filter in Hin as [_ [_ Hin]%list_elem_of_filter].
  apply elem_of_all in Hin; [|done]. unfold roams.
  rewrite (Hself (roam_key r) (ID o') o') by (unfold db; by rewrite Ec). cbn [negb].
  destruct (String.eqb_spec (ID o') (ID o)), (if roam_pattern r then _ else _); cbn; naive_solver.
Qed.

Lemma neighbours_NoDup s r oo : server_ok s -> NoDup (ids (neighbours s r oo)).
Proof.
  intros Hok. unfold neighbours, ids. destruct oo as [o|]; [|constructor].
  destruct (sm_get (cols s) (roam_key r)) as [col|] eqn:Ec; [|constructor].
  rewrite <- list_fmap_compose. unfold compose. cbn [rm_id].
  unfold candidates. do 4 apply NoDup_fmap_filter. apply all_NoDup, ok_keys. by eapply sk_cols.
Qed.

End reports.

(** ** Examples *)

Module FenceExample.
Import ExampleWorld CrudExample TokenExample ScanExample SearchExample.
#[local] Existing Instance world.
#[local] Existing Instance world_laws.

Definition gap (a b : float64) : float64 := if f64_lt a b then f64_sub b a else f64_sub a b.

(** The plane: lines are their boxes, circles their squares, distances along one axis. *)
#[global] Instance fences : Fences := {|
  NewLineString := fun a b =>
    mkRect (mkPoint (if f64_lt (X a) (X b) then X a else X b) (if f64_lt (Y a) (Y b) then Y a else Y b))
      (mkPoint (if f64_lt (X a) (X b) then X b else X a) (if f64_lt (Y a) (Y b) then Y b else Y a));
  RectFromCenter := fun lat lon m => (f64_sub lat m, f64_sub lon m, f64_add lat m, f64_add lon m);
  object_Distance := fun a b => gap (X (Center a)) (X (Center b));
  jsonTimeFormat := FormatUint |}.

Definition placed (id : string) (r : Rect) : Object wG := Object.New id (Geom r) 0 [].
Definition moved (o : Object wG) (old : option (Object wG)) : commandDetail :=
  mkDetail "set" "fleet" "" (Some o) old true 7.

Definition yard : fence wG :=
  mkFence "within" (Some (Geom (Boxes.box 0 0 10 10))) None None [] false false None.
Definition yardWriter : scanWriter :=
  newScanWriter s2 (ask []) (results (noTokens false) "fleet" 0 outputIDs 0 false 0 false 0) false None.

(** A truck that drives into the yard, and one that drives across it. *)
Definition arrival : commandDetail := moved (placed "t" (Boxes.box 1 2 1 2)) (Some (placed "t" (Boxes.box 50 50 50 50))).
Definition transit : commandDetail := moved (placed "t" (Boxes.box (-9) (-9) (-9) (-9))) (Some (placed "t" (Boxes.box 50 50 50 50))).

Lemma arrival_events : List.filter (allowed yard) (events yardWriter yard arrival (placed "t" (Boxes.box 1 2 1 2))) = ["enter"; "inside"].
Proof. by vm_compute. Qed.
Lemma transit_events : events yardWriter yard transit (placed "t" (Boxes.box (-9) (-9) (-9) (-9))) = ["cross"; "outside"].
Proof. by vm_compute. Qed.

Lemma fence_messages_witness :
  exists g group, fenceMatch s2 "h" yardWriter yard [] arrival "g1" =
    Ok (g, (fun k => makemsg "set" group k "h" [] "fleet" 7 (str_drop 1 (js "{'id':'t'}"))) <$> ["enter"; "inside"]).
Proof.
  rewrite <- arrival_events.
  refine (fence_messages s2 "h" yardWriter yard [] arrival (placed "t" (Boxes.box 1 2 1 2))
    (Geom (Boxes.box 0 0 10 10)) "g1" (js "{'id':'t'}") _ _); [|by vm_compute].
  split; try reflexivity; by vm_compute.
Defined.

(** [NEARBY fleet FENCE ROAM fleet * 3] *)
Definition near : roamSwitches := mkRoam "fleet" "*" true (f64_of_Z 3) "".
Definition patrol (nodwell : bool) : fence wG := mkFence "nearby" None None None [] false nodwell (Some near).

Definition car : Object wG := placed "car" (Boxes.box 2 2 2 2).
Definition parked : Object wG := placed "car" (Boxes.box 1 1 1 1).

(** A car that drives from the truck to the depot. *)
Definition setDepot : Message := ask ["SET"; "fleet"; "depot"; "POINT"; "70"; "70"].
Definition s4 : Server := (cmdSET s2 setDepot ck).1.
Definition arrived : Object wG := placed "car" (Boxes.box 71 71 71 71).

Lemma s4_db :
  server_ok s4 /\ forall k i, db s4 k i = if ("fleet" =s k) && ("depot" =s i)
    then Some (setObject s2 "fleet" "depot" (opts_of setDepot) (geom_of setDepot)) else db s2 k i.
Proof.
  destruct (cmdSET_db s2 setDepot ck "SET" "fleet" "depot" ["POINT"; "70"; "70"]
    (opts_of setDepot) (geom_of setDepot)) as (Hok & Hd & _);
    [apply s2_ok|reflexivity|reflexivity|reflexivity|reflexivity|by vm_compute|].
  split; [exact Hok|exact Hd].
Qed.

Lemma gap_self x : f64_gt (gap x x) (roam_meters near) = false.
Proof.
  unfold gap. rewrite f64_lt_irrefl. destruct x as [b|b| |b m e]; try (by destruct b); [done|].
  unfold f64_sub, SFsub. rewrite Z.sub_diag. done.
Qed.


(** The truck at (1, 2) is reported again and again unless NODWELL is given. *)
Lemma roam_dwell :
  rm_id <$> (fenceMatchRoam s2 (patrol false) near car (Some parked)).1 = ["truck"] /\
  rm_id <$> (fenceMatchRoam s2 (patrol true) near car (Some parked)).1 = [] /\
  rm_id <$> (fenceMatchRoam s2 (patrol true) near (placed "car" (Boxes.box 70 70 70 70)) (Some parked)).2 = ["truck"].
Proof. by vm_compute. Qed.

(** The distance that is compared with the radius is that of an object to itself: a large
    area whose box reaches into the square is reported from far away. *)
Definition lot : Message := ask ["SET"; "fleet"; "lot"; "BOUNDS"; "-60"; "-60"; "80"; "80"].
Lemma roam_radius_ignored :
  let r := (fenceMatchRoam (cmdSET s2 lot ck).1 (patrol false) near car None).1 in
  (fun m => (rm_id m, f64_gt (rm_meters m) (roam_meters near))) <$> r = [("truck", false); ("lot", true)].
Proof. by vm_compute. Qed.
End FenceExample.
