(* ===== verification/Notify.v ===== *)
(** * Notifications ([src/internal/legacy/server/aof.go])

    Which hooks a change can concern, the messages they get, their order, and the queue
    the messages of webhooks go to. *)

From Stdlib Require Import Ascii String ZArith Lia Bool SpecFloat.
From stdpp Require Import base list strings option sorting sets gmap.
From S2P Require Import Prelude GoStd Strconv Bing Glob GlobFacts Json Containers Field FieldList.
From S2P Require Import FieldBinary Geo Object Collection CollectionScan Group World Hooks Crud.
From S2P Require Import CrudFacts Token Scanner Search Fence.

Local Open Scope Z_scope.

(** [math.Min] and [math.Max]. *)
Definition math_Min (x y : float64) : float64 :=
  match x, y with
  | S754_infinity true, _ | _, S754_infinity true => S754_infinity true
  | S754_nan, _ | _, S754_nan => S754_nan
  | S754_zero b, S754_zero _ => if b then x else y
  | _, _ => if f64_lt x y then x else y
  end.
Definition math_Max (x y : float64) : float64 :=
  match x, y with
  | S754_infinity false, _ | _, S754_infinity false => S754_infinity false
  | S754_nan, _ | _, S754_nan => S754_nan
  | S754_zero b, S754_zero _ => if b then y else x
  | _, _ => if f64_gt x y then x else y
  end.

(** ** Log keys *)

Definition hookLogPrefix : string := "hook:log:".

Definition stringToUint64 (s : string) : Z := default 0 (ParseUint s).
Definition uint64ToString (u : Z) : string :=
  let s := "00000000000000000000" +:+ FormatUint u in str_drop (String.length s - 20) s.

(** ** The queue database *)

(** An item: its key, its value, and when it expires. *)
Record item := mkItem { i_key : string; i_val : string; i_expires : option Z }.

Fixpoint bunt_Set (db : list item) (i : item) : list item :=
  match db with
  | [] => [i]
  | x :: db =>
    if i_key x <s i_key i then x :: bunt_Set db i
    else if i_key i <s i_key x then i :: x :: db
    else i :: db
  end.

(** ** Candidates *)

Section notify.
Context `{World} `{Unicode} `{Scripts} `{!Engines} `{!Areas} `{!Fences}.
Abbreviation hook := (Hook wG).
Implicit Types (s : Server) (h : hook) (d : commandDetail).

(** The map of candidates; a name stands for the pointer, a server has one hook of a name. *)
Definition candidate d (l : list hook) h : list hook :=
  if Key h =s d_key d then if existsb (fun x => Name x =s Name h) l then l else l ++ [h] else l.

Definition unionRect (r1 r2 : Rect) : Rect :=
  mkRect (mkPoint (math_Min (X (Min r1)) (X (Min r2))) (math_Min (Y (Min r1)) (Y (Min r2))))
    (mkPoint (math_Max (X (Max r1)) (X (Max r2))) (math_Max (Y (Max r1)) (Y (Max r2)))).

Definition around_ (t : wH) (r : Rect) : list hook := (rt_search t r).*2.

(** The candidates in the order they are found; ranging over the map gives them in any. *)
Definition getQueueCandidates s d : list hook :=
  let out := bt_items (hooksOut s) in
  let cross := match d_old d, d_obj d with
               | Some old, Some o => around_ (hookCross s) (unionRect (RectOf (Geo old)) (RectOf (Geo o)))
               | _, _ => []
               end in
  let at_ oo := match oo with Some o => around_ (hookTree s) (RectOf (Geo o)) | None => [] end in
  foldl (candidate d) [] (out ++ cross ++ at_ (d_old d) ++ at_ (d_obj d)).

(** ** Messages *)

Definition memberOf (msg name : string) : string := default "" (fst <$> gjson_result msg name).

Definition msgDetectCode (detect : string) : Z :=
  if detect =s "exit" then 1 else if detect =s "outside" then 2
  else if detect =s "enter" then 3 else if detect =s "inside" then 4 else 0.

Definition msgLess (a b : string) : bool :=
  let detectI := msgDetectCode (memberOf a "detect") in
  let detectJ := msgDetectCode (memberOf b "detect") in
  if detectI <? detectJ then true
  else if detectJ <? detectI then false
  else memberOf a "hook" <s memberOf b "hook".

Definition sortMsgs (l : list string) : list string := sort_by msgLess l.

(** ** Queueing *)

(** The last log id and the database. *)
Record queue := mkQueue { qidx : Z; qdb : list item }.

(** What a change sets off: the groups, the messages published on channels, those queued,
    and the hooks to be woken up. *)
Record effects := mkEffects {
  e_grps : groups wT; cmsgs : list string; wmsgs : list string; whooks : list hook }.

Definition hookLogTTL : Z := 30 * 1000000000.

(** [ScanWriter] is the member of the hook; [fresh] the new group ids. *)
Context (ScanWriter : hook -> scanWriter) (fresh : hook -> string).

Definition matchHook s d (e : effects) h : result failure effects :=
  let? (g, msgs) :=
    FenceMatch (with_grps s (e_grps e)) (Name h) (ScanWriter h) (Fence h) (Metas h) d (fresh h) in
  match msgs with
  | [] => Ok (mkEffects g (cmsgs e) (wmsgs e) (whooks e))
  | _ => if channel h then Ok (mkEffects g (cmsgs e ++ msgs) (wmsgs e) (whooks e))
         else Ok (mkEffects g (cmsgs e) (wmsgs e ++ msgs) (whooks e ++ [h]))
  end.

Fixpoint matchHooks s d (e : effects) (hs : list hook) : result failure effects :=
  match hs with
  | [] => Ok e
  | h :: hs => let? e := matchHook s d e h in matchHooks s d e hs
  end.

(** [tx.Set] of every message under the next log id. *)
Definition enqueue (now : Z) (q : queue) (msg : string) : queue :=
  let idx := (qidx q + 1) mod 2 ^ 64 in
  mkQueue idx (bunt_Set (qdb q) (mkItem (hookLogPrefix +:+ uint64ToString idx) msg (Some (now + hookLogTTL)))).

Record notified := mkNotified {
  n_grps : groups wT; n_published : list (string * string); n_queue : queue; n_signals : list hook }.

(** [queueHooks] on the candidates in the order of the map. *)
Definition queueHooks s (candidates : list hook) d (now : Z) (q : queue) : result failure notified :=
  let? e := matchHooks s d (mkEffects (grps s) [] [] []) candidates in
  match cmsgs e, wmsgs e with
  | [], [] => Ok (mkNotified (e_grps e) [] q [])
  | cm, wm =>
    let published := (fun m => (memberOf m "hook", m)) <$> sortMsgs cm in
    let q := foldl (enqueue now) q (sortMsgs wm) in
    let q := mkQueue (qidx q) (bunt_Set (qdb q) (mkItem "hook:idx" (uint64ToString (qidx q)) None)) in
    Ok (mkNotified (e_grps e) published q (whooks e))
  end.
End notify.

(** ** Log keys are ordered as their numbers *)

Lemma digit_val_code c : is_digit c = true -> digit_val c = code c - 48 /\ 0 <= digit_val c < 10.
Proof.
  intros E. unfold digit_val. rewrite E. unfold is_digit, in_range in E. boolify. lia.
Qed.

Lemma parseDigits_bounds s w a :
  parseDigits w s = Some a ->
  let n := 10 ^ Z.of_nat (String.length s) in w * n <= a < (w + 1) * n.
Proof.
  revert w. induction s as [|c s IH]; intros w E; cbn [parseDigits String.length] in *.
  { injection E as ->. cbn. lia. }
  destruct (is_digit c) eqn:Ec; [|done]. apply IH in E. destruct (digit_val_code c Ec).
  rewrite Nat2Z.inj_succ, Z.pow_succ_r by lia. cbv zeta in *. nia.
Qed.

Lemma digits_order s t w a b :
  String.length s = String.length t -> parseDigits w s = Some a -> parseDigits w t = Some b ->
  (s <s t) = (a <? b).
Proof.
  revert t w. induction s as [|c s IH]; intros [|d t] w El Es Et; try done; cbn [parseDigits] in *.
  { injection Es as ->. injection Et as ->. by rewrite Z.ltb_irrefl. }
  destruct (is_digit c) eqn:Ec, (is_digit d) eqn:Ed; try done. injection El as El.
  rewrite str_ltb_cons. destruct (digit_val_code c Ec), (digit_val_code d Ed).
  apply parseDigits_bounds in Es as Bs. apply parseDigits_bounds in Et as Bt. rewrite El in Bs. cbv zeta in *.
  pose proof (Z.pow_pos_nonneg 10 (Z.of_nat (String.length t)) ltac:(lia) ltac:(lia)).
  destruct (Z.ltb_spec (code c) (code d)); [symmetry; apply Z.ltb_lt; nia|].
  destruct (Z.ltb_spec (code d) (code c)); [symmetry; apply Z.ltb_ge; nia|].
  replace (digit_val d) with (digit_val c) in Et by lia. by eapply IH.
Qed.

Lemma length_formatDigits fuel v acc :
  (String.length (formatDigits fuel v acc) <= fuel + String.length acc)%nat.
Proof.
  revert v acc. induction fuel as [|fuel IH]; intros v acc; cbn [formatDigits]; [lia|].
  destruct (v <? 10); [cbn; lia|]. etrans; [apply IH|]. cbn. lia.
Qed.

Lemma parseDigits_zeros n s w : parseDigits 0 s = Some w -> parseDigits 0 (str_drop n "00000000000000000000" +:+ s) = Some w.
Proof. intros E. do 21 (destruct n as [|n]; [exact E|]). exact E. Qed.

Lemma str_drop_app_le n s t : (n <= String.length s)%nat -> str_drop n (s +:+ t) = (str_drop n s +:+ t).
Proof.
  revert s. induction n as [|n IH]; intros [|c s] Hn; cbn in *; try done; [lia|].
  apply IH. lia.
Qed.

Lemma uint64ToString_digits u :
  is_uint64 u -> String.length (uint64ToString u) = 20%nat /\ parseDigits 0 (uint64ToString u) = Some u.
Proof.
  intros Hu. unfold uint64ToString. cbv zeta. rewrite str_length_drop.
  pose proof (length_formatDigits 20 u "") as Hl. fold (FormatUint u) in Hl. cbn [String.length] in Hl.
  rewrite str_length_app. split; [cbn [String.length]; lia|].
  assert (parseDigits 0 (FormatUint u) = Some u) as Hp.
  { pose proof (Parse_FormatUint u Hu) as Hp. unfold ParseUint in Hp.
    destruct (_ =? _)%string; [done|]. destruct (parseDigits 0 (FormatUint u)) as [v|]; [|done].
    destruct (v <? 2 ^ 64); [done|done]. }
  set (n := (String.length "00000000000000000000" + _ - 20)%nat).
  rewrite str_drop_app_le by (cbn [String.length]; unfold n; cbn [String.length]; lia).
  by apply parseDigits_zeros.
Qed.

Lemma uint64ToString_lt u v : is_uint64 u -> is_uint64 v -> (uint64ToString u <s uint64ToString v) = (u <? v).
Proof.
  intros [Lu Pu]%uint64ToString_digits [Lv Pv]%uint64ToString_digits.
  apply (digits_order _ _ 0); [congruence|done|done].
Qed.

Lemma stringToUint64_uint64ToString u : is_uint64 u -> stringToUint64 (uint64ToString u) = u.
Proof.
  intros Hu. destruct (uint64ToString_digits u Hu) as [Hl Hp]. unfold stringToUint64, ParseUint.
  destruct (String.eqb_spec (uint64ToString u) "") as [E|_]; [by rewrite E in Hl|].
  rewrite Hp. unfold is_uint64 in Hu. by rewrite (proj2 (Z.ltb_lt _ _)) by lia.
Qed.

(** ** No hook is missed *)

Lemma math_Min_le x y :
  IsNaN x = false -> IsNaN y = false ->
  f64_le (math_Min x y) x = true /\ f64_le (math_Min x y) y = true.
Proof.
  intros Nx Ny. assert (math_Min x y = x /\ f64_lt y x = false \/ math_Min x y = y /\ f64_lt x y = false) as Hm.
  { unfold math_Min. destruct x as [[]|[]| |[] m e], y as [[]|[]| |[] m' e']; try discriminate;
      try (left; done); try (right; done);
      match goal with |- context [f64_lt ?a ?b] => destruct (f64_lt a b) eqn:E;
        [left|right]; (split; [done|]); auto using f64_lt_asym end. }
  rewrite !f64_le_lt. destruct Hm as [[-> E]|[-> E]]; rewrite Nx, Ny, ?E, !f64_lt_irrefl; done.
Qed.

Lemma math_Max_le x y :
  IsNaN x = false -> IsNaN y = false ->
  f64_le x (math_Max x y) = true /\ f64_le y (math_Max x y) = true.
Proof.
  intros Nx Ny. assert (math_Max x y = x /\ f64_lt x y = false \/ math_Max x y = y /\ f64_lt y x = false) as Hm.
  { unfold math_Max. change (f64_gt x y) with (f64_lt y x). destruct x as [[]|[]| |[] m e], y as [[]|[]| |[] m' e']; try discriminate;
      try (left; done); try (right; done);
      match goal with |- context [f64_lt ?a ?b] => destruct (f64_lt a b) eqn:E;
        [left|right]; (split; [done|]); auto using f64_lt_asym end. }
  rewrite !f64_le_lt. destruct Hm as [[-> E]|[-> E]]; rewrite Nx, Ny, ?E, !f64_lt_irrefl; done.
Qed.

(** A box whose corners are in order, none of them NaN. *)
Definition rect_valid (r : Rect) : bool := f64_le (X (Min r)) (X (Max r)) && f64_le (Y (Min r)) (Y (Max r)).

(** Documented behaviour of the geometry package: what is in a relation with an area has a
    box that meets that of the area, the centre of a geometry is in its box, and the
    corners of the box of a segment come from its ends. *)
Class FenceLaws `{World} `{!Fences} : Prop := {
  within_meet : forall g a : wG, geo_Within g a = true -> rect_meet (geo_Rect g) (geo_Rect a) = true;
  intersects_meet : forall g a : wG, geo_Intersects g a = true -> rect_meet (geo_Rect g) (geo_Rect a) = true;
  center_in : forall g : wG, rect_valid (geo_Rect g) = true ->
    let r := geo_Rect g in let c := geo_Center g in
    f64_le (X (Min r)) (X c) && f64_le (X c) (X (Max r)) && f64_le (Y (Min r)) (Y c) && f64_le (Y c) (Y (Max r)) = true;
  line_corners : forall p q, let r := geo_Rect (NewLineString p q) in
    (X (Min r) = X p \/ X (Min r) = X q) /\ (X (Max r) = X p \/ X (Max r) = X q) /\
    (Y (Min r) = Y p \/ Y (Min r) = Y q) /\ (Y (Max r) = Y p \/ Y (Max r) = Y q);
}.

Section reach.
Context `{WorldLaws} `{Unicode} `{Scripts} `{!Engines} `{!Areas} `{!Fences} `{!FenceLaws}.
Abbreviation hook := (Hook wG).
Implicit Types (s : Server) (h : hook) (d : commandDetail) (o : Object wG) (sw : scanWriter).

Lemma inArea_meet cmd (area : wG) o :
  inArea cmd (Geom area) o = true -> rect_meet (RectOf (Geo o)) (geo_Rect area) = true.
Proof.
  unfold inArea. destruct (Geo o) as [|g]; [done|]. cbn [RectOf].
  destruct (cmd =s "within"); eauto using within_meet, intersects_meet.
Qed.

Lemma matchObject_meet cmd f oo (area : wG) :
  f_obj f = Some (Geom area) -> fenceMatchObject cmd f oo = Ok true ->
  exists o, oo = Some o /\ rect_meet (RectOf (Geo o)) (geo_Rect area) = true.
Proof.
  intros Ha E. unfold fenceMatchObject in E. rewrite Ha in E. destruct oo as [o|]; [|done].
  exists o. split; [done|]. destruct (f_roam f); [done|].
  destruct (_ || _); [|done]. injection E as E. by apply inArea_meet in E.
Qed.

Lemma rect_ok_corners r :
  rect_ok r = true <-> IsNaN (X (Min r)) = false /\ IsNaN (Y (Min r)) = false /\
                       IsNaN (X (Max r)) = false /\ IsNaN (Y (Max r)) = false.
Proof. unfold rect_ok. destruct (IsNaN _), (IsNaN _), (IsNaN _), (IsNaN _); cbn; naive_solver. Qed.

Lemma rect_valid_ok r : rect_valid r = true -> rect_ok r = true.
Proof.
  unfold rect_valid. intros [Hx Hy]%andb_true_iff. apply rect_ok_corners. rewrite f64_le_lt in Hx, Hy.
  destruct (IsNaN (X (Min r))), (IsNaN (Y (Min r))), (IsNaN (X (Max r))), (IsNaN (Y (Max r))); done.
Qed.

(** The centre of any object, a string included. *)
Lemma center_in_box (g : geometry wG) :
  rect_valid (RectOf g) = true ->
  f64_le (X (Min (RectOf g))) (X (Center g)) = true /\ f64_le (X (Center g)) (X (Max (RectOf g))) = true /\
  f64_le (Y (Min (RectOf g))) (Y (Center g)) = true /\ f64_le (Y (Center g)) (Y (Max (RectOf g))) = true.
Proof.
  destruct g as [t|g]; [done|]. intros Hr. pose proof (center_in g Hr) as Hc. cbv zeta in Hc. cbn.
  repeat (apply andb_true_iff in Hc as [Hc ?]). done.
Qed.

Lemma union_ok r1 r2 : rect_ok r1 = true -> rect_ok r2 = true -> rect_ok (unionRect r1 r2) = true.
Proof.
  rewrite !rect_ok_corners. intros (A1 & A2 & A3 & A4) (B1 & B2 & B3 & B4). cbn.
  assert (forall x y, f64_le x y = true -> IsNaN x = false /\ IsNaN y = false) as Hle.
  { intros x y E. rewrite f64_le_lt in E. destruct (IsNaN x), (IsNaN y); done. }
  destruct (math_Min_le _ _ A1 B1) as [M1 _], (math_Min_le _ _ A2 B2) as [M2 _].
  destruct (math_Max_le _ _ A3 B3) as [M3 _], (math_Max_le _ _ A4 B4) as [M4 _].
  split_and!; [apply (Hle _ _ M1)|apply (Hle _ _ M2)|apply (Hle _ _ M3)|apply (Hle _ _ M4)].
Qed.

(** The box of the way between two objects is in the box of both. *)
Lemma line_union (g1 g2 : geometry wG) (a : Rect) :
  rect_valid (RectOf g1) = true -> rect_valid (RectOf g2) = true ->
  rect_meet (geo_Rect (NewLineString (Center g1) (Center g2))) a = true ->
  rect_meet (unionRect (RectOf g1) (RectOf g2)) a = true.
Proof.
  intros R1 R2. destruct (center_in_box g1 R1) as (C1 & C2 & C3 & C4), (center_in_box g2 R2) as (D1 & D2 & D3 & D4).
  apply rect_valid_ok, rect_ok_corners in R1 as (A1 & A2 & A3 & A4). apply rect_valid_ok, rect_ok_corners in R2 as (B1 & B2 & B3 & B4).
  destruct (line_corners (Center g1) (Center g2)) as (L1 & L2 & L3 & L4). unfold rect_meet.
  rewrite !andb_true_iff. cbn [Min Max X Y unionRect].
  destruct (math_Min_le _ _ A1 B1), (math_Min_le _ _ A2 B2), (math_Max_le _ _ A3 B3), (math_Max_le _ _ A4 B4).
  intros [[[M1 M2] M3] M4]. split_and!.
  - destruct L1 as [E|E]; rewrite E in M1; eauto using f64_le_trans.
  - destruct L2 as [E|E]; rewrite E in M2; eauto using f64_le_trans.
  - destruct L3 as [E|E]; rewrite E in M3; eauto using f64_le_trans.
  - destruct L4 as [E|E]; rewrite E in M4; eauto using f64_le_trans.
Qed.

(** ** The indexes *)

Lemma elem_areas P (l : list hook) r h :
  (r, h) ∈ areas P l <-> h ∈ l /\ P h = true /\ exists a, f_obj (Fence h) = Some a /\ r = RectOf a.
Proof.
  unfold areas. rewrite list_elem_of_omap. split.
  - intros (x & Hx & E). destruct (P x) eqn:Ep; [|done]. destruct (f_obj (Fence x)) as [a|] eqn:Ea; [|done].
    injection E as <- <-. eauto.
  - intros (Hh & Ep & a & Ea & ->). exists h. split; [done|]. by rewrite Ep, Ea.
Qed.

Lemma around_sub (t : wH) P l r h : rt_items t ≡ₚ areas P l -> h ∈ around_ t r -> h ∈ l.
Proof.
  intros Ht Hh. unfold around_ in Hh. apply list_elem_of_fmap in Hh as ([r' h'] & -> & Hp).
  apply (rt_search_sub (RTreeLaws := w_HTreeLaws)) in Hp. rewrite Ht in Hp. by apply elem_areas in Hp as (? & _).
Qed.

Lemma around_found (t : wH) P l r h (area : wG) :
  rt_items t ≡ₚ areas P l -> Forall (fun h => hook_rect_ok h = true) l -> rect_ok r = true ->
  h ∈ l -> P h = true -> f_obj (Fence h) = Some (Geom area) -> rect_meet r (geo_Rect area) = true ->
  h ∈ around_ t r.
Proof.
  intros Ht Hl Hr Hh Hp Ha Hm. unfold around_. rewrite (rt_search_items (RTreeLaws := w_HTreeLaws)); [|by rewrite Ht; apply areas_ok|done].
  apply list_elem_of_fmap. exists (geo_Rect area, h). split; [done|]. apply list_elem_of_filter. split; [done|].
  rewrite Ht. apply elem_areas. split; [done|]. split; [done|]. by exists (Geom area).
Qed.

(** What the four searches find. *)
Definition reached s d : list hook :=
  bt_items (hooksOut s) ++
  match d_old d, d_obj d with
  | Some old, Some o => around_ (hookCross s) (unionRect (RectOf (Geo old)) (RectOf (Geo o)))
  | _, _ => []
  end ++
  match d_old d with Some o => around_ (hookTree s) (RectOf (Geo o)) | None => [] end ++
  match d_obj d with Some o => around_ (hookTree s) (RectOf (Geo o)) | None => [] end.

Lemma reached_hooks s d h : hooks_ok s -> h ∈ reached s d -> h ∈ bt_items (hooks s).
Proof.
  intros [[Lo _ _] [Pt Pc _]]. unfold reached. rewrite !elem_of_app. intros [Hh|[Hh|[Hh|Hh]]].
  - by apply Lo in Hh as [? _].
  - destruct (d_old d), (d_obj d); try (by apply not_elem_of_nil in Hh). by apply (around_sub _ _ _ _ _ Pc Hh).
  - destruct (d_old d); [|by apply not_elem_of_nil in Hh]. by apply (around_sub _ _ _ _ _ Pt Hh).
  - destruct (d_obj d); [|by apply not_elem_of_nil in Hh]. by apply (around_sub _ _ _ _ _ Pt Hh).
Qed.

Lemma foldl_candidate d (l0 l : list hook) h :
  (forall x y, x ∈ l0 ++ l -> y ∈ l0 ++ l -> Name x = Name y -> x = y) -> NoDup (Name <$> l0) ->
  (h ∈ foldl (candidate d) l0 l <-> h ∈ l0 \/ (h ∈ l /\ Key h = d_key d)) /\
  NoDup (Name <$> foldl (candidate d) l0 l).
Proof.
  revert l0. induction l as [|x l IH]; intros l0 Hi Hn; cbn [foldl]; [split; [set_solver|done]|].
  unfold candidate at 2 4. destruct (String.eqb_spec (Key x) (d_key d)) as [Ek|Ek].
  - destruct (existsb _ l0) eqn:Ee.
    + apply existsb_exists in Ee as (y & Hy%list_elem_of_In & En%String.eqb_eq).
      assert (y = x) as -> by (apply Hi; [set_solver..|done]).
      destruct (IH l0) as [I1 I2]; [intros; apply Hi; set_solver|done|]. split; [rewrite I1; set_solver|done].
    + destruct (IH (l0 ++ [x])) as [I1 I2]; [intros; apply Hi; set_solver| |split; [rewrite I1; set_solver|done]].
      rewrite fmap_app. apply NoDup_app. split; [done|]. split; [|apply NoDup_singleton].
      intros n (y & -> & Hy)%list_elem_of_fmap Hx%list_elem_of_singleton.
      apply not_true_iff_false in Ee. apply Ee, existsb_exists. exists y. split; [by apply list_elem_of_In|by apply String.eqb_eq].
  - destruct (IH l0) as [I1 I2]; [intros; apply Hi; set_solver|done|]. split; [rewrite I1|done].
    split; [set_solver|]. intros [?|[[->|?]%elem_of_cons ?]]; [by left|done|by right].
Qed.

Lemma elem_candidates s d h :
  hooks_ok s ->
  (h ∈ getQueueCandidates s d <-> h ∈ reached s d /\ Key h = d_key d) /\
  NoDup (Name <$> getQueueCandidates s d).
Proof.
  intros Hok. destruct (foldl_candidate d [] (reached s d) h) as [E N].
  - intros x y Hx Hy. eapply hook_name_inj; by eapply reached_hooks.
  - constructor.
  - unfold getQueueCandidates. fold (reached s d). split; [|done]. rewrite E. set_solver.
Qed.

(** ** Messages come from events, events from places *)

Lemma resolve_allowed f k k' : resolve f k = Some k' -> allowed f k' = true /\ (k' = k \/ also k = Some k').
Proof.
  unfold resolve, also. destruct (allowed f k) eqn:E; [intros [= <-]; auto|].
  destruct (k =s "enter"), ((k =s "exit") || (k =s "cross"));
    repeat (case_match; try done); intros [= <-]; auto.
Qed.

Lemma fenceMatch_event s hookName sw f metas d o area fresh g msgs :
  watched sw f d o area -> fenceMatch s hookName sw f metas d fresh = Ok (g, msgs) -> msgs <> [] ->
  exists k, k ∈ events sw f d o /\ allowed f k = true.
Proof.
  intros Hw. rewrite (fenceMatch_watched _ _ _ _ _ _ _ _ _ Hw).
  destruct (detectArea_events sw f d o area (wa_area _ _ _ _ _ Hw)) as [-> Hev]. cbn [rbind].
  destruct (events sw f d o) as [|k l]; cbn [head]; [by intros [= <- <-]|]. destruct Hev as [-> _].
  destruct (resolve f k) as [k'|] eqn:Er; [|by intros [= <- <-]]. intros _ _. exists k'.
  apply resolve_allowed in Er as [Ha [->|Ek]]; (split; [|done]); [set_solver|]. rewrite Ek. cbn. set_solver.
Qed.

Lemma events_where sw f d o k :
  k ∈ events sw f d o -> k = "outside" \/ isIn sw f (Some o) = true \/ isIn sw f (d_old d) = true \/
    (k = "cross" /\ crosses sw f d o = true).
Proof.
  unfold events. destruct (isIn sw f (d_old d)), (isIn sw f (Some o)); auto.
  destruct (d_command d =s "fset"); [set_solver|].
  destruct (match fieldMatch sw o with Ok b => b | Err _ => false end); [|set_solver].
  destruct (crosses sw f d o); set_solver.
Qed.

Lemma isIn_meet sw f oo (area : wG) :
  f_obj f = Some (Geom area) -> isIn sw f oo = true ->
  exists o, oo = Some o /\ rect_meet (RectOf (Geo o)) (geo_Rect area) = true.
Proof.
  intros Ha. unfold isIn. destruct (fenceMatchObject (f_cmd f) f oo) as [[]|] eqn:E; try done.
  intros _. by eapply matchObject_meet.
Qed.

Lemma crosses_meet sw f d o (area : wG) :
  f_obj f = Some (Geom area) -> crosses sw f d o = true ->
  exists old, d_old d = Some old /\
    rect_meet (geo_Rect (NewLineString (Center (Geo old)) (Center (Geo o)))) (geo_Rect area) = true.
Proof.
  intros Ha. unfold crosses. destruct (d_old d) as [old|]; [|done].
  destruct (fenceMatchObject (f_cmd f) f (Some o)) as [[]|]; try done.
  destruct (fenceMatchObject (f_cmd f) f (Some old)) as [[]|]; try done.
  destruct (fenceMatchObject _ f (Some (Object.New _ _ _ _))) as [[]|] eqn:E; try done.
  intros _. exists old. split; [done|]. apply (matchObject_meet _ _ _ area Ha) in E as (x & [= <-] & Hm).
  exact Hm.
Qed.

(** C6. No hook with an area is missed when an object is set: whenever a command other than
    DEL and DROP that sets an object with a geometry, or with fields for a fence that looks
    at them, makes a fence with an area (not a roaming one) speak, the four searches of the
    hook indexes find its hook, although most fences of the collection are never looked
    at. DEL and DROP and roaming fences are outside of the claim: the message of a DROP and
    that of a DEL of an object outside of the box of a fence do not depend on the area, and
    a hook that is found by its area alone does not hear them. The boxes of the object
    before and after have no NaN. *)
Theorem candidates_complete s s' h sw metas d o (area : wG) fresh g msgs :
  hooks_ok s -> h ∈ bt_items (hooks s) -> Key h = d_key d ->
  watched sw (Fence h) d o (Geom area) ->
  (forall x, Some x = d_old d \/ Some x = d_obj d -> rect_valid (RectOf (Geo x)) = true) ->
  fenceMatch s' (Name h) sw (Fence h) metas d fresh = Ok (g, msgs) -> msgs <> [] ->
  h ∈ getQueueCandidates s d.
Proof.
  intros Hok Hh Hk Hw Hr Hm Hne. apply elem_candidates; [done|]. split; [|done].
  destruct (fenceMatch_event _ _ _ _ _ _ _ _ _ _ _ Hw Hm Hne) as (k & Hev & Hal).
  destruct (detects_out h) eqn:Hout.
  { apply elem_of_app. left. by apply (li_out _ (ho_listed _ Hok)). }
  pose proof (wa_area _ _ _ _ _ Hw) as Ha. pose proof (wa_obj _ _ _ _ _ Hw) as Ho.
  destruct (ho_placed _ Hok) as [Pt Pc Pok]. unfold reached.
  destruct (events_where _ _ _ _ _ Hev) as [->|[Hi|[Hi|[-> Hc]]]].
  - unfold allowed in Hal. unfold detects_out in Hout. destruct (f_detect (Fence h)); congruence.
  - destruct (isIn_meet _ _ _ _ Ha Hi) as (x & [= <-] & Hx). rewrite Ho, !elem_of_app. do 3 right.
    eapply (around_found _ _ _ _ _ area Pt); eauto using rect_valid_ok.
  - destruct (isIn_meet _ _ _ _ Ha Hi) as (x & E & Hx). rewrite E, !elem_of_app. do 2 right. left.
    eapply (around_found _ _ _ _ _ area Pt); eauto using rect_valid_ok.
  - destruct (crosses_meet _ _ _ _ _ Ha Hc) as (old & E & Hx). rewrite E, Ho, !elem_of_app. right. left.
    assert (rect_valid (RectOf (Geo old)) = true /\ rect_valid (RectOf (Geo o)) = true) as [R1 R2] by (split; apply Hr; rewrite ?E, ?Ho; auto).
    eapply (around_found _ _ _ _ _ area Pc); eauto using union_ok, line_union, rect_valid_ok.
    unfold crossing. unfold allowed in Hal. unfold detects_out in Hout. by destruct (f_detect (Fence h)).
Qed.
End reach.

(** ** The order of the candidates does not matter *)

#[global] Instance msgLess_sw `{World} : StrictWeak msgLess.
Proof.
  unfold msgLess. split.
  - intros a. by rewrite Z.ltb_irrefl, str_ltb_irrefl.
  - intros a b c. cbv zeta. destruct (Z.ltb_spec (msgDetectCode (memberOf a "detect")) (msgDetectCode (memberOf b "detect"))),
      (Z.ltb_spec (msgDetectCode (memberOf b "detect")) (msgDetectCode (memberOf c "detect"))),
      (Z.ltb_spec (msgDetectCode (memberOf a "detect")) (msgDetectCode (memberOf c "detect"))); try done; try lia.
    all: repeat case_match; boolify; try done; try lia. by apply str_ltb_trans.
  - intros a b c. cbv zeta. destruct (Z.ltb_spec (msgDetectCode (memberOf a "detect")) (msgDetectCode (memberOf b "detect"))),
      (Z.ltb_spec (msgDetectCode (memberOf b "detect")) (msgDetectCode (memberOf c "detect"))),
      (Z.ltb_spec (msgDetectCode (memberOf a "detect")) (msgDetectCode (memberOf c "detect"))); try done; try lia.
    all: repeat case_match; boolify; try done; try lia. intros E1 E2. by eapply str_ltb_false_trans.
Qed.

Definition msgKey `{World} (m : string) : Z * string := (msgDetectCode (memberOf m "detect"), memberOf m "hook").

Lemma msgLess_key `{World} a b : equivb msgLess a b = true <-> msgKey a = msgKey b.
Proof.
  unfold equivb, msgLess, msgKey. cbv zeta.
  set (x := msgDetectCode (memberOf a "detect")). set (y := msgDetectCode (memberOf b "detect")).
  destruct (Z.ltb_spec x y), (Z.ltb_spec y x); cbn; (split; [try done|intros [= E1 E2]; try lia]); try lia.
  - intros [L1%negb_true_iff L2%negb_true_iff]%andb_true_iff. assert (x = y) as -> by lia. f_equal. by apply str_ltb_false_antisym.
  - by rewrite E2, str_ltb_irrefl.
Qed.

Section deterministic.
Context `{WorldLaws} `{Unicode} `{Scripts} `{!Engines} `{!Areas} `{!Fences}.
Abbreviation hook := (Hook wG).
Implicit Types (s : Server) (h : hook) (d : commandDetail) (o : Object wG) (sw : scanWriter) (g : groups wT).

(** The groups of one hook. *)
Definition same_groups (n : string) g g' : Prop := forall k i, groupGet g n k i = groupGet g' n k i.

Lemma groupGet_elem g n k i id :
  (exists x, bt_get (groupHooks g) (mkGroup n k i "") = Some x /\ groupID x = id) <->
  mkGroup n k i id ∈ bt_items (groupHooks g).
Proof.
  split.
  - intros (x & [Hx E]%bt_get_spec & <-); [|apply _]. apply byGroupHook_equiv in E. destruct x as [h' k' i' id'].
    cbn in *. by injection E as -> -> ->.
  - intros Hi. exists (mkGroup n k i id). split; [|done]. apply bt_get_spec; [apply _|]. split; [done|].
    by apply byGroupHook_equiv.
Qed.

Lemma groupGet_ext n g g' :
  (forall k i id, mkGroup n k i id ∈ bt_items (groupHooks g) <-> mkGroup n k i id ∈ bt_items (groupHooks g')) ->
  same_groups n g g'.
Proof.
  intros Hi k i. unfold groupGet.
  assert (forall id, (exists x, bt_get (groupHooks g) (mkGroup n k i "") = Some x /\ groupID x = id) <->
    (exists x, bt_get (groupHooks g') (mkGroup n k i "") = Some x /\ groupID x = id)) as E.
  { intros id. by rewrite !groupGet_elem. }
  destruct (bt_get (groupHooks g) _) as [x|].
  - destruct (proj1 (E (groupID x))) as (y & -> & <-); [by eexists|done].
  - destruct (bt_get (groupHooks g') _) as [y|]; [|done].
    destruct (proj2 (E (groupID y))) as (x & ? & _); [by eexists|done].
Qed.

Lemma connect_other g n n' k i id : n <> n' -> same_groups n' (groupConnect g n k i id).1 g.
Proof.
  intros Hn. apply groupGet_ext. intros k' i' id'. unfold groupConnect. cbn [fst groupHooks].
  rewrite newGroupItem_eq, bt_elem_set by apply _. rewrite <- not_true_iff_false, byGroupHook_equiv.
  split; [|intros Hi; right; split; [done|intros [= ? ? ?]; done]]. by intros [[= ? ? ? ?]|[? _]].
Qed.

Lemma disconnect_other g n n' k i : n <> n' -> same_groups n' (groupDisconnect g n k i) g.
Proof.
  intros Hn. apply groupGet_ext. intros k' i' id'. unfold groupDisconnect. cbn [groupHooks].
  rewrite bt_elem_delete by apply _. rewrite <- not_true_iff_false, byGroupHook_equiv.
  split; [by intros [? _]|]. intros Hi. split; [done|]. by intros [= ? ? ?].
Qed.

Lemma eventGroup_other g detect n n' k i fresh :
  n <> n' -> same_groups n' (eventGroup g detect n k i fresh).1 g.
Proof.
  intros Hn k' i'. unfold eventGroup. destruct (detect =s "enter"); [by apply connect_other|].
  destruct (detect =s "cross"); [rewrite connect_other by done; by apply disconnect_other|].
  destruct (_ =s ""); [by apply connect_other|done].
Qed.

Lemma eventGroup_same g g' detect n k i fresh :
  same_groups n g g' -> (eventGroup g detect n k i fresh).2 = (eventGroup g' detect n k i fresh).2.
Proof.
  intros Hs. unfold eventGroup. destruct (detect =s "enter"); [done|]. destruct (detect =s "cross"); [done|].
  rewrite (Hs k i). by destruct (_ =s "").
Qed.

(** The messages of a hook depend on its own groups only, and change no others. *)
Definition agrees n g (r r' : result failure (groups wT * list string)) : Prop :=
  match r, r' with
  | Ok (g1, m1), Ok (_, m2) => m1 = m2 /\ forall n', n <> n' -> same_groups n' g1 g
  | Err e1, Err e2 => e1 = e2
  | _, _ => False
  end.

Lemma fenceEvent_grps s g n sw f metas d o k near far fresh :
  same_groups n g (grps s) ->
  agrees n g (Ok (fenceEvent (with_grps s g) n sw f metas d o k near far fresh))
    (Ok (fenceEvent s n sw f metas d o k near far fresh)).
Proof.
  intros Hs. unfold fenceEvent. change (grps (with_grps s g)) with g.
  destruct (fenceObject sw f o) as [res|]; [|by cbn].
  pose proof (fun n' => eventGroup_other g k n n' (d_key d) (ID o) fresh) as Ho.
  pose proof (eventGroup_same g (grps s) k n (d_key d) (ID o) fresh Hs) as Es.
  destruct (eventGroup g k n (d_key d) (ID o) fresh) as [g1 gr1].
  destruct (eventGroup (grps s) k n (d_key d) (ID o) fresh) as [g2 gr2]. cbn in Es, Ho. subst gr2.
  destruct (f_roam f) as [r|]; [|by cbn]. destruct (if allowed f k then _ else _); [by cbn|].
  destruct (k =s "roam"); [|by cbn]. split; [done|exact Ho].
Qed.

Lemma fenceMatch_grps s g n sw f metas d fresh :
  same_groups n g (grps s) ->
  agrees n g (fenceMatch (with_grps s g) n sw f metas d fresh) (fenceMatch s n sw f metas d fresh).
Proof.
  intros Hs. assert (forall m, agrees n g (Ok (g, m)) (Ok (grps s, m))) as Hq by (intros m; by split).
  unfold fenceMatch. cbv zeta. change (grps (with_grps s g)) with g.
  destruct (d_command d =s "drop"); [apply Hq|]. destruct (d_obj d) as [o|]; [|apply Hq].
  destruct (negb (multiGlobMatch _ _)); [apply Hq|]. destruct (negb (IsSpatial _)); [apply Hq|].
  destruct (_ && sw_nofields sw); [apply Hq|]. destruct (d_command d =s "del"); [apply Hq|].
  assert (forall k near far, agrees n g
    (Ok match resolve f k with None => (g, []) | Some k => fenceEvent (with_grps s g) n sw f metas d o k near far fresh end)
    (Ok match resolve f k with None => (grps s, []) | Some k => fenceEvent s n sw f metas d o k near far fresh end)) as He.
  { intros k near far. destruct (resolve f k); [by apply fenceEvent_grps|apply Hq]. }
  destruct (f_roam f) as [r|].
  - destruct (d_command d =s "set"); [|apply He].
    change (fenceMatchRoam (with_grps s g) f r o (d_old d)) with (fenceMatchRoam s f r o (d_old d)).
    destruct (fenceMatchRoam s f r o (d_old d)) as [[|x near] [|y far]]; apply He || apply Hq.
  - destruct (detectArea sw f d o) as [[k|]|e]; cbn [rbind]; [apply He|apply Hq|done].
Qed.

Lemma FenceMatch_grps s g n sw f metas d fresh :
  same_groups n g (grps s) ->
  agrees n g (FenceMatch (with_grps s g) n sw f metas d fresh) (FenceMatch s n sw f metas d fresh).
Proof.
  intros Hs. unfold FenceMatch. pose proof (fenceMatch_grps s g n sw f metas d fresh Hs) as Ha.
  destruct (fenceMatch (with_grps s g) _ _ _ _ _ _) as [[g1 m1]|], (fenceMatch s _ _ _ _ _ _) as [[g2 m2]|]; try done.
  destruct Ha as [-> Ho]. cbn [rbind]. destruct (f_accept f) as [[|]|]; by split.
Qed.

Context (ScanWriter : hook -> scanWriter) (fresh : hook -> string).

(** What a hook says to a change by itself. *)
Definition speaks s d h : result failure (groups wT * list string) :=
  FenceMatch s (Name h) (ScanWriter h) (Fence h) (Metas h) d (fresh h).
Definition is_ok {E A} (r : result E A) : Prop := match r with Ok _ => True | Err _ => False end.
Definition said s d h : list string := match speaks s d h with Ok (_, m) => m | Err _ => [] end.
Definition words s d (ch : bool) (hs : list hook) : list string :=
  concat (said s d <$> filter (fun h => channel h = ch) hs).
Definition called s d (hs : list hook) : list hook :=
  filter (fun h => channel h = false) (filter (fun h => said s d h <> []) hs).

Lemma words_cons s d ch h hs :
  words s d ch (h :: hs) = (if Bool.eqb (channel h) ch then said s d h else []) ++ words s d ch hs.
Proof. unfold words. rewrite filter_cons. by destruct (channel h), ch. Qed.

Lemma matchHook_spec s d e h :
  same_groups (Name h) (e_grps e) (grps s) ->
  match matchHook ScanWriter fresh s d e h with
  | Ok e' => is_ok (speaks s d h) /\ (forall n, Name h <> n -> same_groups n (e_grps e') (e_grps e)) /\
      cmsgs e' = cmsgs e ++ words s d true [h] /\ wmsgs e' = wmsgs e ++ words s d false [h] /\
      whooks e' = whooks e ++ called s d [h]
  | Err _ => ~ is_ok (speaks s d h)
  end.
Proof.
  intros Hs. unfold matchHook. pose proof (FenceMatch_grps s (e_grps e) (Name h) (ScanWriter h) (Fence h) (Metas h) d (fresh h) Hs) as Ha.
  fold (speaks s d h) in Ha. destruct (FenceMatch (with_grps s (e_grps e)) _ _ _ _ _ _) as [[g m]|x], (speaks s d h) as [[g' m']|x'] eqn:E; try done;
    [|by intros []].
  destruct Ha as [-> Ho]. cbn [rbind]. assert (said s d h = m') as Em by (unfold said; by rewrite E).
  unfold called. rewrite !words_cons, filter_cons, Em. change (words s d true []) with (@nil string).
  change (words s d false []) with (@nil string). rewrite !filter_nil, !app_nil_r.
  destruct m' as [|x m'].
  - rewrite decide_False by tauto. by destruct (channel h); cbn; rewrite ?app_nil_r.
  - rewrite decide_True by done. rewrite filter_cons, filter_nil. by destruct (channel h); cbn; rewrite ?app_nil_r.
Qed.

Lemma words_app s d ch hs hs' : words s d ch (hs ++ hs') = words s d ch hs ++ words s d ch hs'.
Proof. unfold words. by rewrite filter_app, fmap_app, concat_app. Qed.

Lemma matchHooks_spec s d e hs :
  NoDup (Name <$> hs) -> (forall h, h ∈ hs -> same_groups (Name h) (e_grps e) (grps s)) ->
  match matchHooks ScanWriter fresh s d e hs with
  | Ok e' => Forall (fun h => is_ok (speaks s d h)) hs /\ cmsgs e' = cmsgs e ++ words s d true hs /\
      wmsgs e' = wmsgs e ++ words s d false hs /\ whooks e' = whooks e ++ called s d hs
  | Err _ => ~ Forall (fun h => is_ok (speaks s d h)) hs
  end.
Proof.
  revert e. induction hs as [|h hs IH]; intros e Hn Hs; cbn [matchHooks].
  { unfold words, called. cbn. by rewrite !app_nil_r. }
  cbn in Hn. apply NoDup_cons in Hn as [Hh Hn]. pose proof (matchHook_spec s d e h (Hs h ltac:(set_solver))) as Hm.
  destruct (matchHook _ _ s d e h) as [e1|x]; cbn [rbind]; [|by intros [? _]%Forall_cons].
  destruct Hm as (Ho & Hg & E1 & E2 & E3). 
  assert (forall h', h' ∈ hs -> same_groups (Name h') (e_grps e1) (grps s)) as Hs'.
  { intros h' Hh' k i. rewrite Hg; [by apply Hs; set_solver|]. intros E. apply Hh. rewrite E.
    apply list_elem_of_fmap. by exists h'. }
  specialize (IH e1 Hn Hs').
  destruct (matchHooks _ _ s d e1 hs) as [e2|x]; [|by intros [_ ?]%Forall_cons].
  destruct IH as (I0 & I1 & I2 & I3). rewrite I1, I2, I3, E1, E2, E3, <- !app_assoc.
  change (h :: hs) with ([h] ++ hs). rewrite !words_app. unfold called. rewrite !filter_app.
  split_and!; try done. by constructor.
Qed.

(** The messages with one key come from one hook. *)
Lemma words_key s d ch hs hs' k :
  hs ≡ₚ hs' -> NoDup (Name <$> hs) ->
  Forall (fun h => Forall (fun m => memberOf m "hook" = Name h) (said s d h)) hs ->
  filter (fun m => msgKey m = k) (words s d ch hs) = filter (fun m => msgKey m = k) (words s d ch hs').
Proof.
  intros Hp. induction Hp as [|h l l' Hp IH|x y l|l l' l'' Hp1 IH1 Hp2 IH2]; intros Hn Hm.
  - done.
  - rewrite !words_cons, !filter_app. cbn in Hn. apply NoDup_cons in Hn as [_ Hn]. apply Forall_cons in Hm as [_ Hm].
    by rewrite IH.
  - rewrite !words_cons, !filter_app, !app_assoc. f_equal. apply Forall_cons in Hm as [Hy [Hx _]%Forall_cons].
    cbn in Hn. apply NoDup_cons in Hn as [Hn _]. assert (Name y <> Name x) as Hne by set_solver.
    assert (forall h, Forall (fun m => memberOf m "hook" = Name h) (said s d h) -> Name h <> k.2 ->
      filter (fun m => msgKey m = k) (if Bool.eqb (channel h) ch then said s d h else []) = []) as Hnil.
    { intros h Hh Hk. destruct (Bool.eqb _ _); [|done]. apply filter_none. eapply Forall_impl; [exact Hh|].
      intros m Em E. apply Hk. by rewrite <- E, <- Em. }
    destruct (decide (Name x = k.2)) as [E|E].
    + rewrite (Hnil y Hy) by congruence. by rewrite app_nil_r.
    + rewrite (Hnil x Hx) by done. by rewrite app_nil_r.
  - rewrite IH1 by done. apply IH2; by rewrite <- Hp1.
Qed.

Lemma words_sorted s d ch hs hs' :
  hs ≡ₚ hs' -> NoDup (Name <$> hs) ->
  Forall (fun h => Forall (fun m => memberOf m "hook" = Name h) (said s d h)) hs ->
  sortMsgs (words s d ch hs) = sortMsgs (words s d ch hs').
Proof. intros Hp Hn Hm. apply (sort_unique msgLess msgKey msgLess_key). intros k. by apply words_key. Qed.

(** C17. The candidates come out of a Go map in any order, but what is published, what is
    queued under which log id, and who is woken up does not depend on it: the messages of a
    hook depend on its own groups only, and sorting by event and hook leaves one order. *)
Theorem notifications_deterministic s d hs hs' now q :
  hs ≡ₚ hs' -> NoDup (Name <$> hs) ->
  Forall (fun h => Forall (fun m => memberOf m "hook" = Name h) (said s d h)) hs ->
  match queueHooks ScanWriter fresh s hs d now q, queueHooks ScanWriter fresh s hs' d now q with
  | Ok n, Ok n' => n_published n = n_published n' /\ n_queue n = n_queue n' /\ n_signals n ≡ₚ n_signals n'
  | Err _, Err _ => True
  | _, _ => False
  end.
Proof.
  intros Hp Hn Hm. unfold queueHooks. set (e := mkEffects _ _ _ _).
  pose proof (matchHooks_spec s d e hs Hn (fun _ _ _ _ => eq_refl)) as E1.
  assert (NoDup (Name <$> hs')) as Hn' by by rewrite <- Hp.
  pose proof (matchHooks_spec s d e hs' Hn' (fun _ _ _ _ => eq_refl)) as E2.
  assert (Forall (fun h => is_ok (speaks s d h)) hs <-> Forall (fun h => is_ok (speaks s d h)) hs') as Hf by by rewrite Hp.
  destruct (matchHooks _ _ s d e hs) as [e1|], (matchHooks _ _ s d e hs') as [e2|]; cbn [rbind];
    [|tauto|tauto|done].
  destruct E1 as (_ & C1 & W1 & H1'), E2 as (_ & C2 & W2 & H2'). cbn [cmsgs wmsgs whooks e app] in *.
  pose proof (words_sorted s d true hs hs' Hp Hn Hm) as Sc. pose proof (words_sorted s d false hs hs' Hp Hn Hm) as Sw.
  assert (whooks e1 ≡ₚ whooks e2) as Hw by (rewrite H1', H2'; unfold called; by rewrite Hp).
  rewrite C1, C2, W1, W2.
  assert (forall ch, words s d ch hs ≡ₚ words s d ch hs') as Hpw.
  { intros ch. unfold words. by rewrite Hp. }
  pose proof (Hpw true) as P1. pose proof (Hpw false) as P2.
  destruct (words s d true hs) as [|c cs], (words s d true hs') as [|c' cs'];
    try (by apply Permutation_nil_cons in P1); try (symmetry in P1; by apply Permutation_nil_cons in P1).
  all: destruct (words s d false hs) as [|w ws], (words s d false hs') as [|w' ws'];
    try (by apply Permutation_nil_cons in P2); try (symmetry in P2; by apply Permutation_nil_cons in P2).
  all: cbn [n_published n_queue n_signals]; rewrite ?Sc, ?Sw; try done.
Qed.
End deterministic.

(** ** Examples *)

Module NotifyExample.
Import ExampleWorld CrudExample TokenExample ScanExample SearchExample FenceExample HooksExample.
#[local] Existing Instance world.
#[local] Existing Instance world_laws.

#[global] Instance fence_laws : FenceLaws.
Proof.
  split.
  - intros g a [_ Hm]%andb_true_iff. exact Hm.
  - intros g a Hm. exact Hm.
  - intros r. unfold rect_valid. intros [Hx Hy]%andb_true_iff.
    change (geo_Center r) with (Min r). change (geo_Rect r) with r in *. cbv zeta. rewrite Hx, Hy.
    rewrite f64_le_lt in Hx, Hy. rewrite !f64_le_refl; [done|destruct (IsNaN (Y (Min r))); [|done]|destruct (IsNaN (X (Min r))); [|done]]; done.
  - intros p q. cbn. repeat case_match; naive_solver.
Qed.

(** A server with one webhook. *)
Definition srv1 : Server := addHook (newServer 0) None HooksExample.yard.

Lemma srv1_hooks_ok : hooks_ok srv1.
Proof.
  destruct (newServer_hooks_ok 0) as [Hl Hp].
  apply addHook_ok; [done| |done|by vm_compute]. intros x Hx. change (hooks (newServer 0)) with (bt_new (T := wT) (Hook wG) byHookName) in Hx.
  rewrite bt_items_new in Hx. by apply not_elem_of_nil in Hx.
Qed.

Lemma yard_hooked : HooksExample.yard ∈ bt_items (hooks srv1).
Proof. unfold srv1. rewrite (proj1 (addHook_rest _ _ _)), bt_elem_set by apply _. by left. Qed.

Definition messages (r : result failure (groups wT * list string)) : list string :=
  match r with Ok (_, m) => m | Err _ => [] end.

Lemma candidates_complete_witness : HooksExample.yard ∈ getQueueCandidates srv1 arrival.
Proof.
  pose proof (candidates_complete srv1 srv1 HooksExample.yard yardWriter [] arrival (placed "t" (Boxes.box 1 2 1 2))
    (Boxes.box 0 0 10 10) "g1") as Hc.
  assert (length (messages (fenceMatch srv1 "yard" yardWriter (Fence HooksExample.yard) [] arrival "g1")) = 1%nat) as Hl
    by by vm_compute.
  change (Name HooksExample.yard) with "yard" in Hc.
  destruct (fenceMatch srv1 _ _ _ _ _ _) as [[g msgs]|] eqn:E; [|discriminate Hl].
  apply (Hc g msgs srv1_hooks_ok yard_hooked eq_refl).
  - split; try reflexivity; by vm_compute.
  - intros x [[= ->]|[= ->]]; by vm_compute.
  - reflexivity.
  - intros ->. discriminate Hl.
Defined.

(** The webhook and the channel, found in either order. *)
Definition writers (h : Hook wG) : scanWriter := yardWriter.
Definition ids_ (h : Hook wG) : string := "g-" +:+ Name h.
Definition pair_ : list (Hook wG) := [HooksExample.yard; gate].

Lemma pair_named :
  Forall (fun h => Forall (fun m => memberOf m "hook" = Name h) (said writers ids_ srv1 arrival h)) pair_.
Proof.
  assert (forallb (fun h => forallb (fun m => memberOf m "hook" =s Name h) (said writers ids_ srv1 arrival h)) pair_ = true) as E
    by by vm_compute.
  rewrite forallb_forall in E. apply Forall_forall. intros h Hh%list_elem_of_In. apply E in Hh.
  rewrite forallb_forall in Hh. apply Forall_forall. intros m Hm%list_elem_of_In. by apply String.eqb_eq, Hh.
Qed.

Lemma notifications_deterministic_witness :
  match queueHooks writers ids_ srv1 pair_ arrival 5 (mkQueue 0 []),
        queueHooks writers ids_ srv1 [gate; HooksExample.yard] arrival 5 (mkQueue 0 []) with
  | Ok n, Ok n' => n_published n = n_published n' /\ n_queue n = n_queue n' /\ n_signals n ≡ₚ n_signals n'
  | Err _, Err _ => True
  | _, _ => False
  end.
Proof.
  apply (notifications_deterministic writers ids_ srv1 arrival pair_ [gate; HooksExample.yard] 5 (mkQueue 0 [])).
  - apply Permutation_swap.
  - apply (bool_decide_unpack _). by vm_compute.
  - apply pair_named.
Defined.

(** One message for the channel, one in the queue under the first log id. *)
Lemma pair_queue :
  match queueHooks writers ids_ srv1 pair_ arrival 5 (mkQueue 0 []) with
  | Ok n => (fst <$> n_published n, i_key <$> qdb (n_queue n), Name <$> n_signals n)
  | Err _ => ([], [], [])
  end = (["gate"], ["hook:idx"; "hook:log:00000000000000000001"], ["yard"]).
Proof. by vm_compute. Qed.
End NotifyExample.
