(* ===== verification/Delivery.v ===== *)
(** * Delivery of webhook messages ([src/internal/legacy/server/hooks.go])

    The manager goroutine of a webhook, the queue it reads, and the signals that wake it,
    as a transition system: each step is a critical section or a transaction. There is one
    manager; the overlap of two when a hook is replaced is outside of the system. *)

From Stdlib Require Import Ascii String ZArith Lia Bool SpecFloat.
From stdpp Require Import base list strings option sorting sets gmap relations.
From S2P Require Import Prelude GoStd Strconv Json Containers Geo Object Collection World Notify.

Local Open Scope Z_scope.

Section delivery.
Context `{World} (Name_ : string) (Endpoints_ : list string).

(** ** The queue, seen by one hook *)

Definition isLog (i : item) : bool := has_prefix (i_key i) hookLogPrefix.
Definition hookOf (i : item) : string := memberOf (i_val i) "hook".

(** The index "hooks": log entries by the hook in them, then by key. *)
Definition indexLess (a b : item) : bool :=
  if hookOf a <s hookOf b then true
  else if hookOf b <s hookOf a then false else i_key a <s i_key b.

(** [AscendGreaterOrEqual] from the entry with this hook on. *)
Definition ascend (db : list item) : list item :=
  filter (fun i => (hookOf i <s Name_) = false) (sort_by indexLess (filter (fun i => isLog i = true) db)).

Definition collected (db : list item) : list item :=
  filter (fun i => isLog i = true /\ (Name_ =s hookOf i) = true) (ascend db).

Definition bunt_Delete (db : list item) (key : string) : list item := filter (fun i => i_key i <> key) db.

(** [tx.TTL]: what is left, nothing for an entry past its time. *)
Definition bunt_TTL (now : Z) (i : item) : Z :=
  match i_expires i with None => -1 | Some e => if now <? e then e - now else 0 end.

(** ** The goroutine *)

(** Where the manager is: at the top of its loop with the lock held, in [proc] before the
    transaction, in [proc] with entries to send, back with the lock and [proc] done, in
    [Sleep], in [Wait], or gone. [sg] is its copy of the signal count, [start] the time
    when [proc] began; each entry comes with its remaining time. *)
Inductive place_ :=
  | Top
  | Procing (sg start : Z)
  | Sending (sg start : Z) (rest : list (item * Z))
  | Locking (sg : Z)
  | Asleep
  | Waiting
  | Ended.

(** [owed] counts the transactions whose [Signal] is still to come; [sent] and [queued] are
    the messages of the hook that were delivered and queued so far. *)
Record delivery := mkDelivery {
  dq : queue; sig : Z; closed : bool; pc : place_; counter : Z;
  owed : Z; sent : list string; queued : list string }.

Definition at_ d p : delivery := mkDelivery (dq d) (sig d) (closed d) p (counter d) (owed d) (sent d) (queued d).
Definition with_db d db p : delivery :=
  mkDelivery (mkQueue (qidx (dq d)) db) (sig d) (closed d) p (counter d) (owed d) (sent d) (queued d).

(** Putting back what was not sent; entries whose time is over are dropped. *)
Definition reinsert (now start : Z) (db : list item) (rest : list (item * Z)) : list item :=
  foldl (fun db p => let ttl := p.2 - (now - start) in
                     if 0 <? ttl then bunt_Set db (mkItem (i_key p.1) (i_val p.1) (Some (now + ttl))) else db)
    db rest.

(** [accept] is what the endpoints answer, [commit] whether a transaction succeeds. *)
Definition managerStep (accept : string -> string -> bool) (commit : bool) (now : Z) d : delivery :=
  match pc d with
  | Top => if closed d then at_ d Ended else at_ d (Procing (sig d) now)
  | Procing sg start =>
    if commit then
      let keys := collected (qdb (dq d)) in
      with_db d (foldl (fun db i => bunt_Delete db (i_key i)) (qdb (dq d)) keys)
        (Sending sg start ((fun i => (i, bunt_TTL now i)) <$> keys))
    else at_ d Asleep
  | Sending sg start [] => at_ d (Locking sg)
  | Sending sg start ((i, ttl) :: rest) =>
    if existsb (fun endpoint => accept endpoint (i_val i)) Endpoints_ then
      mkDelivery (dq d) (sig d) (closed d) (Sending sg start rest) (counter d + 1) (owed d)
        (sent d ++ [i_val i]) (queued d)
    else with_db d (if commit then reinsert now start (qdb (dq d)) ((i, ttl) :: rest) else qdb (dq d)) Asleep
  | Locking sg => if sg =? sig d then at_ d Waiting else at_ d Top
  | Asleep => at_ d Top
  | Waiting => d
  | Ended => d
  end.

(** [Broadcast] *)
Definition wake (p : place_) : place_ := match p with Waiting => Top | _ => p end.

Definition Signal d : delivery :=
  mkDelivery (dq d) (sig d + 1) (closed d) (wake (pc d)) (counter d) (Z.max 0 (owed d - 1)) (sent d) (queued d).
Definition Close d : delivery :=
  if closed d then d
  else mkDelivery (dq d) (sig d) true (wake (pc d)) (counter d) (owed d) (sent d) (queued d).

(** The transaction of [queueHooks]; the hook is signalled later if a message is its own. *)
Definition own (msgs : list string) : list string := filter (fun m => memberOf m "hook" = Name_) msgs.
Definition queueStep (now : Z) (msgs : list string) d : delivery :=
  let q := foldl (enqueue now) (dq d) msgs in
  let q := mkQueue (qidx q) (bunt_Set (qdb q) (mkItem "hook:idx" (uint64ToString (qidx q)) None)) in
  mkDelivery q (sig d) (closed d) (pc d) (counter d)
    (owed d + match own msgs with [] => 0 | _ => 1 end) (sent d) (queued d ++ own msgs).

(** The database removes entries whose time is over. *)
Definition sweepStep (now : Z) d : delivery :=
  with_db d (filter (fun i => match i_expires i with Some e => now <=? e | None => true end = true) (qdb (dq d))) (pc d).

(** [Open]; entries left in the database by an earlier run are queued already. *)
Definition mine (i : item) : bool := isLog i && (Name_ =s hookOf i).
Definition stock (db : list item) : list item := filter (fun i => mine i = true) db.
Definition opened (q : queue) : delivery := mkDelivery q 0 false Top 0 0 [] (i_val <$> stock (qdb q)).

(** The steps around one manager, from the [Open] of a hook to the end of its manager. A
    SETHOOK that replaces a hook closes it and opens the new one without waiting for the
    manager of the old one to end; the time in which there are two managers of a name is
    not covered here. *)
Inductive delivers : delivery -> delivery -> Prop :=
  | d_manager accept commit now d : delivers d (managerStep accept commit now d)
  | d_signal d : delivers d (Signal d)
  | d_close d : delivers d (Close d)
  | d_queue now msgs d : qidx (dq d) + Z.of_nat (length msgs) < 2 ^ 64 -> delivers d (queueStep now msgs d)
  | d_sweep now d : delivers d (sweepStep now d).

(** ** The database *)

Definition keyed (a b : item) : Prop := (i_key a <s i_key b) = true.

#[local] Instance keyed_anti : AntiSymm (=) keyed.
Proof. intros a b E1 E2. unfold keyed in *. by rewrite (str_ltb_asym _ _ E1) in E2. Qed.

Lemma bunt_Set_perm db i : (forall x, x ∈ db -> i_key x <> i_key i) -> bunt_Set db i ≡ₚ i :: db.
Proof.
  induction db as [|x db IH]; intros Hn; cbn [bunt_Set]; [done|].
  destruct (i_key x <s i_key i) eqn:E1; [rewrite IH by set_solver; apply Permutation_swap|].
  destruct (i_key i <s i_key x) eqn:E2; [done|].
  exfalso. apply (Hn x); [set_solver|]. by apply str_ltb_false_antisym.
Qed.

Lemma bunt_Set_elem db i x : x ∈ bunt_Set db i -> x = i \/ x ∈ db.
Proof. induction db as [|y db IH]; cbn [bunt_Set]; [set_solver|]. repeat case_match; set_solver. Qed.

Lemma bunt_Set_sorted db i : StronglySorted keyed db -> StronglySorted keyed (bunt_Set db i).
Proof.
  induction 1 as [|x db Hs IH Hf]; cbn [bunt_Set]; [by repeat constructor|]. rewrite Forall_forall in Hf.
  destruct (i_key x <s i_key i) eqn:E1.
  - constructor; [done|]. apply Forall_forall. intros y [->|Hy]%bunt_Set_elem; [done|by apply Hf].
  - destruct (i_key i <s i_key x) eqn:E2.
    + constructor; [by constructor; [|apply Forall_forall]|]. constructor; [done|]. apply Forall_forall.
      intros y Hy. unfold keyed in *. eapply str_ltb_trans; [done|by apply Hf].
    + assert (i_key i = i_key x) as E by (symmetry; by apply str_ltb_false_antisym).
      constructor; [done|]. apply Forall_forall. intros y Hy. unfold keyed. rewrite E. by apply Hf.
Qed.

Lemma stock_sorted db : StronglySorted keyed db -> StronglySorted keyed (stock db).
Proof. apply sorted_filter. Qed.

Lemma stock_Set_idx db v : stock (bunt_Set db (mkItem "hook:idx" v None)) = stock db.
Proof.
  unfold stock. induction db as [|x db IH]; [done|]. cbn [bunt_Set i_key].
  destruct (i_key x <s "hook:idx") eqn:E1; [by rewrite !filter_cons, IH|].
  destruct ("hook:idx" <s i_key x) eqn:E2; [done|]. rewrite !filter_cons.
  assert (i_key x = "hook:idx") as E by (by apply str_ltb_false_antisym).
  assert (mine x = false) as -> by (unfold mine, isLog; by rewrite E).
  by change (mine (mkItem "hook:idx" v None)) with false.
Qed.

(** A new entry behind all others. *)
Lemma stock_Set_last db i :
  StronglySorted keyed db -> (forall x, x ∈ db -> isLog x = true -> keyed x i) -> isLog i = true ->
  stock (bunt_Set db i) = stock db ++ stock [i].
Proof.
  intros Hs Hl Hi. assert (forall x, x ∈ db -> i_key x <> i_key i) as Hn.
  { intros x Hx E. assert (isLog x = true) as Hx' by (unfold isLog in *; by rewrite E).
    specialize (Hl x Hx Hx'). unfold keyed in Hl. by rewrite E, str_ltb_irrefl in Hl. }
  apply (StronglySorted_unique keyed).
  - by apply stock_sorted, bunt_Set_sorted.
  - apply StronglySorted_app_2; [|by apply stock_sorted|apply stock_sorted; repeat constructor].
    intros x y Hx Hy. unfold stock in *. apply list_elem_of_filter in Hx as [Hm Hx], Hy as [_ ->%list_elem_of_singleton].
    apply Hl; [done|]. unfold mine in Hm. by apply andb_true_iff in Hm as [? _].
  - unfold stock. rewrite bunt_Set_perm by done. rewrite (filter_app _ [i] db). apply Permutation_app_comm.
Qed.

#[local] Instance indexLess_sw : StrictWeak indexLess.
Proof. apply (lex_sw hookOf (fun a b => i_key a <s i_key b)), str_sw. Qed.

Lemma keyed_strict l :
  StronglySorted (fun a b => indexLess b a = false) l -> NoDup (i_key <$> l) ->
  Forall (fun i => hookOf i = Name_) l -> StronglySorted keyed l.
Proof.
  induction 1 as [|x l Hs IH Hf]; cbn; intros Hn Hh; [constructor|].
  apply NoDup_cons in Hn as [Hx Hn]. apply Forall_cons in Hh as [Ex Hh].
  constructor; [by apply IH|]. rewrite Forall_forall in *. intros y Hy. specialize (Hf y Hy).
  unfold indexLess in Hf. rewrite Ex, (Hh y Hy), str_ltb_irrefl in Hf.
  destruct (str_ltb_total (i_key x) (i_key y)) as [E|[E|E]]; [done| |congruence].
  exfalso. apply Hx. rewrite E. by apply (list_elem_of_fmap_2 i_key).
Qed.

Lemma keyed_NoDup db : StronglySorted keyed db -> NoDup (i_key <$> db).
Proof.
  induction 1 as [|x db Hs IH Hf]; cbn; constructor; [|done]. intros (y & E & Hy)%list_elem_of_fmap.
  rewrite Forall_forall in Hf. specialize (Hf y Hy). unfold keyed in Hf. by rewrite E, str_ltb_irrefl in Hf.
Qed.

(** The index finds the entries of the hook, oldest first. *)
Lemma collected_stock db : StronglySorted keyed db -> collected db = stock db.
Proof.
  intros Hs. assert (collected db ≡ₚ stock db) as Hp.
  { unfold collected, ascend, stock. rewrite sort_by_perm, !list_filter_filter. apply Permutation_refl'.
    apply list_filter_iff. intros i. unfold mine. rewrite andb_true_iff.
    split; [tauto|]. intros [Hl Hn]. split_and!; try done. apply String.eqb_eq in Hn. by rewrite <- Hn, str_ltb_irrefl. }
  apply (StronglySorted_unique keyed); [|by apply stock_sorted|done]. apply keyed_strict.
  - unfold collected, ascend. do 2 apply sorted_filter. by apply sort_by_ordered, indexLess_sw.
  - rewrite Hp. by apply keyed_NoDup, stock_sorted.
  - apply Forall_forall. intros i [[_ E%String.eqb_eq] _]%list_elem_of_filter. done.
Qed.

(** ** Transactions *)

Lemma foldl_delete db l :
  foldl (fun db i => bunt_Delete db (i_key i)) db l = filter (fun x => i_key x ∉ i_key <$> l) db.
Proof.
  revert db. induction l as [|i l IH]; intros db; cbn [foldl]; [symmetry; apply filter_all, Forall_forall; set_solver|].
  rewrite IH. unfold bunt_Delete. rewrite list_filter_filter. apply list_filter_iff. intros x. cbn. set_solver.
Qed.

Lemma stock_taken db : stock (foldl (fun db i => bunt_Delete db (i_key i)) db (stock db)) = [].
Proof.
  rewrite foldl_delete. unfold stock. rewrite list_filter_filter. apply filter_none, Forall_forall.
  intros x Hx [Hm Hn]. apply Hn, list_elem_of_fmap. exists x. split; [done|]. by apply list_elem_of_filter.
Qed.

(** What [reinsert] puts back. *)
Definition kept (now start : Z) (rest : list (item * Z)) : list item :=
  omap (fun p : item * Z => let ttl := p.2 - (now - start) in
    if 0 <? ttl then Some (mkItem (i_key p.1) (i_val p.1) (Some (now + ttl))) else None) rest.

Lemma kept_keys now start rest :
  (i_key <$> kept now start rest) `sublist_of` (i_key <$> rest.*1) /\
  (i_val <$> kept now start rest) `sublist_of` (i_val <$> rest.*1).
Proof.
  induction rest as [|[i t] rest [I1 I2]]; cbn; [done|]. destruct (0 <? _); cbn; split; by constructor.
Qed.

Lemma kept_mine now start rest :
  Forall (fun i => mine i = true) rest.*1 -> Forall (fun i => mine i = true) (kept now start rest).
Proof.
  induction rest as [|[i t] rest IH]; cbn; [done|]. intros [Hi Hr]%Forall_cons.
  destruct (0 <? _); [|by apply IH]. constructor; [exact Hi|by apply IH].
Qed.

Lemma reinsert_spec now start db rest :
  StronglySorted keyed db -> NoDup (i_key <$> rest.*1) ->
  (forall x p, x ∈ db -> p ∈ rest.*1 -> i_key x <> i_key p) ->
  StronglySorted keyed (reinsert now start db rest) /\ reinsert now start db rest ≡ₚ kept now start rest ++ db.
Proof.
  revert db. induction rest as [|[i t] rest IH]; intros db Hs Hn Ha; cbn; [done|].
  cbn in Hn. apply NoDup_cons in Hn as [Hi Hn]. destruct (0 <? _) eqn:E; cbn.
  - set (y := mkItem _ _ _). destruct (IH (bunt_Set db y)) as [S P].
    + by apply bunt_Set_sorted.
    + done.
    + intros x p [->|Hx]%bunt_Set_elem Hp; [|apply Ha; set_solver]. intros Ep. apply Hi. cbn in Ep. rewrite Ep.
      by apply (list_elem_of_fmap_2 i_key).
    + split; [done|]. rewrite P, bunt_Set_perm; [by rewrite <- Permutation_middle|].
      intros x Hx. apply (Ha x i); [done|set_solver].
  - apply IH; [done|done|]. intros x p Hx Hp. apply Ha; set_solver.
Qed.

(** ** The queue *)

Definition logKey (n : Z) : string := hookLogPrefix +:+ uint64ToString n.

Lemma logKey_lt n m : is_uint64 n -> is_uint64 m -> n < m -> (logKey n <s logKey m) = true.
Proof. intros Hn Hm Hl. unfold logKey. rewrite str_ltb_app_l, uint64ToString_lt by done. by apply Z.ltb_lt. Qed.

(** The queue while entries [held] of it are being sent. *)
Record queue_ok (q : queue) (held : list item) : Prop := {
  qk_idx : is_uint64 (qidx q);
  qk_sorted : StronglySorted keyed (qdb q);
  qk_keys : forall x, x ∈ held ++ qdb q -> isLog x = true -> exists n, 0 < n <= qidx q /\ i_key x = logKey n;
  qk_mine : Forall (fun i => mine i = true) held;
  qk_front : StronglySorted keyed (held ++ stock (qdb q));
  qk_apart : forall x i, x ∈ qdb q -> i ∈ held -> i_key x <> i_key i;
}.

Lemma isLog_key n v e : isLog (mkItem (logKey n) v e) = true.
Proof. unfold isLog. apply has_prefix_iff. by eexists. Qed.

Lemma mine_log i : mine i = true -> isLog i = true.
Proof. unfold mine. by intros [? _]%andb_true_iff. Qed.

Lemma keyed_new q held x v e :
  queue_ok q held -> qidx q + 1 < 2 ^ 64 -> x ∈ held ++ qdb q -> isLog x = true ->
  keyed x (mkItem (logKey (qidx q + 1)) v e).
Proof.
  intros Hq Hlt Hx Hl. destruct (qk_keys _ _ Hq x Hx Hl) as (n & Hn & E). pose proof (qk_idx _ _ Hq).
  unfold keyed. cbn. rewrite E. apply logKey_lt; unfold is_uint64 in *; lia.
Qed.

Lemma enqueue_ok now q held m :
  queue_ok q held -> qidx q + 1 < 2 ^ 64 ->
  queue_ok (enqueue now q m) held /\ qidx (enqueue now q m) = qidx q + 1 /\
  i_val <$> stock (qdb (enqueue now q m)) = (i_val <$> stock (qdb q)) ++ own [m].
Proof.
  intros Hq Hlt. pose proof (qk_idx _ _ Hq) as Hi. unfold is_uint64 in Hi. unfold enqueue.
  rewrite Z.mod_small by lia. fold (logKey (qidx q + 1)). set (y := mkItem _ _ _). cbn [qidx qdb].
  assert (forall x, x ∈ held ++ qdb q -> isLog x = true -> keyed x y) as Hy by (intros; by eapply keyed_new).
  assert (stock (bunt_Set (qdb q) y) = stock (qdb q) ++ stock [y]) as Es.
  { apply stock_Set_last; [apply Hq|intros; apply Hy; [set_solver|done]|apply isLog_key]. }
  split; [|split; [done|]].
  - split; cbn [qidx qdb].
    + unfold is_uint64. lia.
    + apply bunt_Set_sorted, Hq.
    + intros x Hx Hl. assert (x = y \/ x ∈ held ++ qdb q) as [->|Hx'].
      { apply elem_of_app in Hx as [Hx|[Hx|Hx]%bunt_Set_elem]; set_solver. }
      * exists (qidx q + 1). split; [lia|done].
      * destruct (qk_keys _ _ Hq x Hx' Hl) as (n & Hn & E). exists n. split; [lia|done].
    + apply Hq.
    + rewrite Es, app_assoc. apply StronglySorted_app_2; [|apply Hq|apply stock_sorted; repeat constructor].
      intros x z Hx Hz. unfold stock in Hz. apply list_elem_of_filter in Hz as [_ ->%list_elem_of_singleton].
      apply elem_of_app in Hx as [Hx|Hx].
      * apply Hy; [set_solver|]. apply mine_log. pose proof (qk_mine _ _ Hq) as Hm. rewrite Forall_forall in Hm. by apply Hm.
      * unfold stock in Hx. apply list_elem_of_filter in Hx as [Hm Hx]. apply Hy; [set_solver|by apply mine_log].
    + intros x i [->|Hx]%bunt_Set_elem Hh; [|by apply (qk_apart _ _ Hq)]. intros E.
      pose proof (qk_mine _ _ Hq) as Hm. rewrite Forall_forall in Hm.
      specialize (Hy i ltac:(set_solver) (mine_log _ (Hm i Hh))). unfold keyed in Hy. by rewrite E, str_ltb_irrefl in Hy.
  - rewrite Es, fmap_app. f_equal. unfold stock, own. rewrite !filter_cons, !filter_nil. unfold mine.
    rewrite (isLog_key (qidx q + 1) m _ : isLog y = true). cbn [andb].
    change (hookOf y) with (memberOf m "hook"). destruct (String.eqb_spec Name_ (memberOf m "hook")) as [E|E].
    + rewrite decide_True by done. by rewrite decide_True by done.
    + rewrite decide_False by done. by rewrite decide_False by done.
Qed.

Lemma enqueues_ok now msgs q held :
  queue_ok q held -> qidx q + Z.of_nat (length msgs) < 2 ^ 64 ->
  let q' := foldl (enqueue now) q msgs in
  queue_ok q' held /\ i_val <$> stock (qdb q') = (i_val <$> stock (qdb q)) ++ own msgs.
Proof.
  revert q. induction msgs as [|m msgs IH]; intros q Hq Hlt; cbn [foldl]; [by rewrite app_nil_r|].
  cbn [length] in Hlt. destruct (enqueue_ok now q held m Hq) as (Hq' & Ei & Es); [lia|].
  destruct (IH (enqueue now q m) Hq') as [I1 I2]; [lia|]. split; [done|]. rewrite I2, Es, <- app_assoc.
  f_equal. unfold own. by rewrite <- filter_app.
Qed.

Lemma Forall_sublist_ {A} (P : A -> Prop) l k : l `sublist_of` k -> Forall P k -> Forall P l.
Proof. rewrite !Forall_forall. intros Hs Hf x Hx. apply Hf. revert x Hx. by apply sublist_subseteq. Qed.

Lemma sorted_sublist {A} (R : relation A) l k : l `sublist_of` k -> StronglySorted R k -> StronglySorted R l.
Proof.
  induction 1 as [|x l k Hs IH|x l k Hs IH]; inversion 1; subst; auto. constructor; [auto|].
  eapply Forall_sublist_; eauto.
Qed.

Lemma stock_sublist l k : l `sublist_of` k -> stock l `sublist_of` stock k.
Proof.
  unfold stock. induction 1 as [|x l k Hs IH|x l k Hs IH]; [done|rewrite !filter_cons..]; destruct (decide _); done || by constructor.
Qed.

(** Losing entries. *)
Lemma queue_ok_sub q held db' held' :
  queue_ok q held -> db' `sublist_of` qdb q -> held' `sublist_of` held -> queue_ok (mkQueue (qidx q) db') held'.
Proof.
  intros Hq Hd Hh. assert (forall x, x ∈ db' -> x ∈ qdb q) as Hd' by (intros x; by apply sublist_subseteq).
  assert (forall x, x ∈ held' -> x ∈ held) as Hh' by (intros x; by apply sublist_subseteq). split; cbn [qidx qdb].
  - apply Hq.
  - eapply sorted_sublist; [done|apply Hq].
  - intros x Hx. apply (qk_keys _ _ Hq). set_solver.
  - eapply Forall_sublist_; [done|apply Hq].
  - eapply sorted_sublist; [|apply (qk_front _ _ Hq)]. apply sublist_app; [done|by apply stock_sublist].
  - intros x j Hx Hj. apply (qk_apart _ _ Hq); auto.
Qed.

Lemma queue_ok_idx q held v :
  queue_ok q held -> queue_ok (mkQueue (qidx q) (bunt_Set (qdb q) (mkItem "hook:idx" v None))) held.
Proof.
  intros Hq. split; cbn [qidx qdb].
  - apply Hq.
  - apply bunt_Set_sorted, Hq.
  - intros x Hx Hl. apply (qk_keys _ _ Hq); [|done].
    apply elem_of_app in Hx as [Hx|[->|Hx]%bunt_Set_elem]; [set_solver|done|set_solver].
  - apply Hq.
  - rewrite stock_Set_idx. apply Hq.
  - intros x j [->|Hx]%bunt_Set_elem Hj; [|by apply (qk_apart _ _ Hq)]. intros E.
    pose proof (qk_mine _ _ Hq) as Hm. rewrite Forall_forall in Hm. apply Hm, mine_log in Hj.
    unfold isLog in Hj. by rewrite <- E in Hj.
Qed.

Lemma queue_ok_take q :
  queue_ok q [] ->
  queue_ok (mkQueue (qidx q) (foldl (fun db i => bunt_Delete db (i_key i)) (qdb q) (stock (qdb q)))) (stock (qdb q)).
Proof.
  intros Hq. split; cbn [qidx qdb].
  - apply Hq.
  - rewrite foldl_delete. apply sorted_filter, Hq.
  - intros x Hx. apply (qk_keys _ _ Hq). rewrite foldl_delete in Hx. unfold stock in Hx.
    apply elem_of_app in Hx as [[_ ?]%list_elem_of_filter|[_ ?]%list_elem_of_filter]; done.
  - apply Forall_forall. by intros x [? _]%list_elem_of_filter.
  - rewrite stock_taken, app_nil_r. apply stock_sorted, Hq.
  - intros x j Hx Hj. rewrite foldl_delete in Hx. apply list_elem_of_filter in Hx as [Hx _]. intros E. apply Hx.
    rewrite E. by apply (list_elem_of_fmap_2 i_key).
Qed.

Lemma keyed_keys l k (m : list item) :
  (i_key <$> l) `sublist_of` (i_key <$> k) -> StronglySorted keyed (k ++ m) -> StronglySorted keyed (l ++ m).
Proof.
  intros Hl Hs. assert (forall l, StronglySorted keyed l <-> StronglySorted (fun a b => (a <s b) = true) (i_key <$> l)) as E.
  { clear. induction l as [|x l IH]; cbn; [split; constructor|]. split; inversion 1; subst; constructor; try (by apply IH).
    - by apply Forall_fmap.
    - match goal with Hf : Forall _ (i_key <$> l) |- _ => by apply Forall_fmap in Hf end. }
  rewrite E, fmap_app in *. eapply sorted_sublist; [|done]. by apply sublist_app.
Qed.

(** A failed send. *)
Lemma queue_ok_back q rest now start :
  queue_ok q rest.*1 ->
  queue_ok (mkQueue (qidx q) (reinsert now start (qdb q) rest)) [] /\
  stock (reinsert now start (qdb q) rest) = kept now start rest ++ stock (qdb q).
Proof.
  intros Hq. pose proof (qk_front _ _ Hq) as Hf. apply StronglySorted_app_1_l in Hf as Hr.
  destruct (reinsert_spec now start (qdb q) rest (qk_sorted _ _ Hq)) as [Hs Hp];
    [by apply keyed_NoDup|apply Hq|]. destruct (kept_keys now start rest) as [Kk _].
  pose proof (kept_mine now start rest (qk_mine _ _ Hq)) as Km.
  assert (stock (reinsert now start (qdb q) rest) = kept now start rest ++ stock (qdb q)) as Es.
  { apply (StronglySorted_unique keyed); [by apply stock_sorted|by eapply keyed_keys|].
    unfold stock. rewrite Hp, filter_app. by rewrite filter_all. }
  split; [|done]. split; cbn [qidx qdb app].
  - apply Hq.
  - done.
  - intros x Hx Hl. rewrite Hp in Hx. apply elem_of_app in Hx as [Hx|Hx]; [|apply (qk_keys _ _ Hq); set_solver].
    apply (list_elem_of_fmap_2 i_key) in Hx as Hk. apply (sublist_subseteq _ _ Kk) in Hk.
    apply list_elem_of_fmap in Hk as (y & E & Hy). destruct (qk_keys _ _ Hq y) as (n & Hn & En).
    + set_solver.
    + apply mine_log. pose proof (qk_mine _ _ Hq) as Hm. rewrite Forall_forall in Hm. by apply Hm.
    + exists n. split; [done|congruence].
  - constructor.
  - by apply stock_sorted.
  - set_solver.
Qed.

(** ** The invariant *)

Definition held d : list item := match pc d with Sending _ _ rest => rest.*1 | _ => [] end.

(** Whether the manager will look at the queue again by itself. *)
Definition ready d : Prop :=
  match pc d with
  | Sending sg _ _ | Locking sg => sg <> sig d
  | Waiting => False
  | _ => True
  end.

Record delivery_ok d : Prop := {
  dk_queue : queue_ok (dq d) (held d);
  dk_order : (sent d ++ (i_val <$> held d) ++ (i_val <$> stock (qdb (dq d)))) `sublist_of` queued d;
  dk_sig : match pc d with Procing sg _ | Sending sg _ _ | Locking sg => sg <= sig d | _ => True end;
  dk_owed : 0 <= owed d;
  dk_wake : ready d \/ stock (qdb (dq d)) = [] \/ 0 < owed d;
  dk_ended : pc d = Ended -> closed d = true;
}.

(** What may be lost on the way: nothing is duplicated or reordered. *)
Lemma order_back (se qu : list string) rest now start (k : list item) :
  (se ++ (i_val <$> rest.*1) ++ (i_val <$> k)) `sublist_of` qu ->
  (se ++ (i_val <$> kept now start rest ++ k)) `sublist_of` qu.
Proof.
  intros Hq. etrans; [|exact Hq]. apply sublist_app; [done|]. rewrite fmap_app. apply sublist_app; [|done].
  apply kept_keys.
Qed.

Lemma order_lose (se h k qu : list string) : (se ++ h ++ k) `sublist_of` qu -> (se ++ k) `sublist_of` qu.
Proof. intros Hq. etrans; [|exact Hq]. apply sublist_app; [done|]. by apply sublist_inserts_l. Qed.

Lemma opened_ok q : queue_ok q [] -> delivery_ok (opened q).
Proof. intros Hq. split; cbn; [done|done|done|done|by left|done]. Qed.

Lemma manager_ok accept commit now d : delivery_ok d -> delivery_ok (managerStep accept commit now d).
Proof.
  intros Hd. destruct d as [q sg0 cl p cn ow se qu]. pose proof Hd as [Hq Ho Hs Hw Hk He].
  unfold managerStep. cbn [pc closed dq sig counter owed sent queued held ready] in *.
  destruct p as [|sg start|sg start [|[i ttl] rest]|sg| | |]; cbn in Hq, Ho, Hs, Hk; try exact Hd.
  - destruct cl; (split; cbn; [done|done|done || lia|done|by left|done]).
  - destruct commit; [|split; cbn; [done|done|done|done|by left|done]].
    rewrite collected_stock by apply Hq. unfold with_db. cbn [dq sig closed counter owed sent queued].
    assert (((fun i => (i, bunt_TTL now i)) <$> stock (qdb q)).*1 = stock (qdb q)) as E.
    { rewrite <- list_fmap_compose. apply list_fmap_id. }
    split; cbn [dq pc held sent queued sig owed qdb]; rewrite ?E, ?stock_taken; cbn.
    + by apply queue_ok_take.
    + by rewrite app_nil_r.
    + done.
    + done.
    + by right; left.
    + done.
  - split; cbn; done.
  - destruct (existsb _ Endpoints_); [|].
    + split; cbn.
      * destruct q as [ix db]. by apply (queue_ok_sub (mkQueue ix db) (i :: rest.*1)); [|done|constructor].
      * by rewrite <- app_assoc.
      * done.
      * done.
      * done.
      * done.
    + unfold with_db. cbn [dq sig closed counter owed sent queued]. destruct commit.
      * destruct (queue_ok_back q ((i, ttl) :: rest) now start Hq) as [Hb Es].
        split; cbn [dq pc held sent queued sig owed qdb]; [done| |done|done|by left|done].
        cbn [fmap list_fmap app]. rewrite Es. by apply (order_back se qu ((i, ttl) :: rest)).
      * split; cbn [dq pc held sent queued sig owed qdb]; [|..|by left|done];
          [|by apply (order_lose se (i_val <$> i :: rest.*1) (i_val <$> stock (qdb q)))|done|done].
        destruct q as [ix db]. apply (queue_ok_sub (mkQueue ix db) (i :: rest.*1)); [done|done|apply sublist_nil_l].
  - destruct (Z.eqb_spec sg sg0); (split; cbn; [done|done|done|done|naive_solver|done]).
  - split; cbn; [done|done|done|done|by left|done].
Qed.

Lemma signal_ok d : delivery_ok d -> delivery_ok (Signal d).
Proof.
  intros [Hq Ho Hs Hw Hk He]. destruct d as [q sg0 cl p cn ow se qu].
  destruct p; cbn in *; (split; cbn; [done|done|done || lia|lia|left; done || lia|done]).
Qed.

Lemma close_ok d : delivery_ok d -> delivery_ok (Close d).
Proof.
  intros Hd. unfold Close. destruct (closed d) eqn:Ec; [done|]. destruct Hd as [Hq Ho Hs Hw Hk He].
  destruct d as [q sg0 cl p cn ow se qu]. destruct p; cbn in *; (split; cbn; try done; by left).
Qed.

Lemma queueStep_ok now msgs d :
  delivery_ok d -> qidx (dq d) + Z.of_nat (length msgs) < 2 ^ 64 -> delivery_ok (queueStep now msgs d).
Proof.
  intros [Hq Ho Hs Hw Hk He] Hlt. destruct (enqueues_ok now msgs (dq d) (held d) Hq Hlt) as [Hq' Es].
  destruct d as [q sg0 cl p cn ow se qu]. cbn [dq] in *. unfold queueStep. cbn [dq sig closed pc counter owed sent queued].
  cbn [owed] in Hw, Hk. cbv zeta. set (q' := foldl (enqueue now) q msgs) in *.
  split; cbn [dq sig closed pc counter owed sent queued qdb]; unfold held, ready in *; cbn [pc sig] in *.
  - by apply queue_ok_idx.
  - rewrite stock_Set_idx, Es, !app_assoc. apply sublist_app; [|done]. by rewrite <- !app_assoc.
  - done.
  - destruct (own msgs); lia.
  - rewrite stock_Set_idx. destruct (own msgs) as [|m l]; [|right; right; lia].
    rewrite app_nil_r in Es. destruct Hk as [?|[Hk|?]]; [by left| |right; right; lia].
    right; left. rewrite Hk in Es. by apply fmap_nil_inv in Es.
  - done.
Qed.

Lemma sweep_ok now d : delivery_ok d -> delivery_ok (sweepStep now d).
Proof.
  intros [Hq Ho Hs Hw Hk He]. unfold sweepStep, with_db. destruct d as [q sg0 cl p cn ow se qu].
  cbn [dq sig closed pc counter owed sent queued] in *. set (db := filter _ (qdb q)).
  assert (db `sublist_of` qdb q) as Hd by apply sublist_filter.
  assert (stock db `sublist_of` stock (qdb q)) as Hst by by apply stock_sublist.
  split; cbn [dq sig closed pc counter owed sent queued qdb]; unfold held, ready in *; cbn [pc sig] in *; try done.
  - by apply (queue_ok_sub q _ db _ Hq).
  - etrans; [|exact Ho]. apply sublist_app; [done|]. apply sublist_app; [done|]. by apply fmap_sublist.
  - destruct Hk as [?|[Hk|?]]; auto. right; left. rewrite Hk in Hst. by apply sublist_nil_r in Hst.
Qed.

Lemma delivers_ok d d' : delivers d d' -> delivery_ok d -> delivery_ok d'.
Proof. destruct 1; eauto using manager_ok, signal_ok, close_ok, queueStep_ok, sweep_ok. Qed.

Lemma reached_ok q d : queue_ok q [] -> rtc delivers (opened q) d -> delivery_ok d.
Proof.
  intros Hq Hr. apply opened_ok in Hq. revert Hq. induction Hr as [|d d1 d2 H1 Hr IH]; [done|].
  intros Hd. eapply IH, delivers_ok; eauto.
Qed.

(** C7. For one manager of a hook, from when it is opened: whatever the interleaving of the
    manager, of the writers, of [Close] and of the clean-up of the database, and whichever
    sends and transactions fail, the messages of the hook that were delivered, are being
    sent and are in the queue are, in this order, messages that were queued in this order,
    none of them twice (some can be missing: an entry past its time is dropped,
    [late_dropped]); and the manager never waits for a signal while messages are in the
    queue and no signal is coming. A second manager, which runs for a while when SETHOOK
    replaces a hook of the same name, is not part of the system. *)
Theorem delivery_safe q d :
  queue_ok q [] -> rtc delivers (opened q) d ->
  (sent d ++ (i_val <$> held d) ++ (i_val <$> stock (qdb (dq d)))) `sublist_of` queued d /\
  (pc d = Waiting -> owed d = 0 -> stock (qdb (dq d)) = []).
Proof.
  intros Hq Hr. destruct (reached_ok q d Hq Hr) as [_ Ho _ _ Hk _]. split; [done|].
  intros Hp Hw. unfold ready in Hk. rewrite Hp in Hk. destruct Hk as [[]|[?|?]]; [done|lia].
Qed.

(** ** Progress *)

(** The manager alone, with transactions that succeed. *)
Fixpoint manager (n : nat) (accept : string -> string -> bool) (now : Z) d : delivery :=
  match n with O => d | S n => manager n accept now (managerStep accept true now d) end.

Lemma manager_app n m accept now d : manager (n + m) accept now d = manager m accept now (manager n accept now d).
Proof. revert d. induction n as [|n IH]; intros d; cbn; [done|]. apply IH. Qed.

Section progress.
Context (accept : string -> string -> bool) (now : Z).
Hypothesis accepted : forall m, existsb (fun e => accept e m) Endpoints_ = true.

Lemma manager_sends d sg start rest :
  pc d = Sending sg start rest ->
  let d' := manager (length rest) accept now d in
  pc d' = Sending sg start [] /\ sent d' = sent d ++ (i_val <$> rest.*1) /\ dq d' = dq d /\
  sig d' = sig d /\ closed d' = closed d /\ owed d' = owed d.
Proof.
  revert d. induction rest as [|[i t] rest IH]; intros d Hp; cbn [length manager]; [by rewrite app_nil_r|].
  unfold managerStep. rewrite Hp, accepted. cbv zeta.
  match goal with |- context [manager _ _ _ ?x] => destruct (IH x eq_refl) as (E1 & E2 & E3 & E4 & E5 & E6) end.
  cbn in *. rewrite <- app_assoc in E2. done.
Qed.

Lemma manager_then n d (P : delivery -> Prop) :
  (exists m, P (manager m accept now (manager n accept now d))) -> exists m, P (manager m accept now d).
Proof. intros [m Hm]. exists (n + m)%nat. by rewrite manager_app. Qed.

(** Everything was sent: the manager waits, or begins again after a signal. *)
Lemma manager_sent d sg start :
  pc d = Sending sg start [] ->
  manager 2 accept now d = if sg =? sig d then at_ d Waiting else at_ d Top.
Proof. intros Hp. cbn [manager]. unfold managerStep at 2. rewrite Hp. unfold managerStep. cbn. by destruct (_ =? _). Qed.

Definition drained d0 (d' : delivery) : Prop :=
  pc d' = Waiting /\ stock (qdb (dq d')) = [] /\
  sent d' = sent d0 ++ (i_val <$> held d0) ++ (i_val <$> stock (qdb (dq d0))).

(** The transaction takes everything that is in the queue. *)
Lemma manager_proc d start :
  StronglySorted keyed (qdb (dq d)) -> pc d = Procing (sig d) start ->
  exists n, drained d (manager n accept now d).
Proof.
  intros Hs Hp. apply (manager_then 1). cbn [manager]. unfold managerStep. rewrite Hp, collected_stock by done.
  set (l := stock (qdb (dq d))). set (d1 := with_db _ _ _). apply (manager_then (length l)).
  destruct (manager_sends d1 (sig d) start ((fun i => (i, bunt_TTL now i)) <$> l) eq_refl) as (E1 & E2 & E3 & E4 & E5 & E6).
  rewrite length_fmap in *. set (d2 := manager (length l) accept now d1) in *.
  exists 2%nat. rewrite (manager_sent d2 (sig d) start E1), E4. change (sig d1) with (sig d). rewrite Z.eqb_refl.
  unfold drained, held. rewrite Hp. cbn [pc at_ dq sent]. rewrite E2, E3. split; [done|]. split; [apply stock_taken|].
  change (sent d1) with (sent d). f_equal. cbn. by rewrite <- !list_fmap_compose.
Qed.

(** From the top of the loop: everything in the queue goes out. *)
Lemma manager_round d :
  StronglySorted keyed (qdb (dq d)) -> pc d = Top -> closed d = false ->
  exists n, drained d (manager n accept now d).
Proof.
  intros Hs Hp Hc. apply (manager_then 1). cbn [manager]. unfold managerStep. rewrite Hp, Hc.
  destruct (manager_proc (at_ d (Procing (sig d) now)) now Hs eq_refl) as [n Hn]. exists n.
  unfold drained, held in *. by rewrite Hp.
Qed.

(** What is to come is the same. *)
Lemma drained_from d d1 :
  sent d1 ++ (i_val <$> held d1) ++ (i_val <$> stock (qdb (dq d1))) =
    sent d ++ (i_val <$> held d) ++ (i_val <$> stock (qdb (dq d))) ->
  (exists n, drained d1 (manager n accept now d1)) -> exists n, drained d (manager n accept now d1).
Proof. intros E [n (P1 & P2 & P3)]. exists n. split; [done|]. split; [done|]. by rewrite P3, E. Qed.

(** [proc] is over and the lock taken again. *)
Lemma manager_locked d sg :
  StronglySorted keyed (qdb (dq d)) -> pc d = Locking sg -> closed d = false ->
  (sg = sig d -> stock (qdb (dq d)) = []) -> exists n, drained d (manager n accept now d).
Proof.
  intros Hs Hp Hc He. apply (manager_then 1). cbn [manager]. unfold managerStep. rewrite Hp.
  destruct (Z.eqb_spec sg (sig d)) as [E|E].
  - exists 0%nat. unfold drained, held. rewrite Hp. cbn. by rewrite (He E), app_nil_r.
  - apply drained_from; [unfold held; by rewrite Hp|]. by apply manager_round.
Qed.

Lemma manager_sending d sg start rest :
  StronglySorted keyed (qdb (dq d)) -> pc d = Sending sg start rest -> closed d = false ->
  (sg = sig d -> stock (qdb (dq d)) = []) -> exists n, drained d (manager n accept now d).
Proof.
  intros Hs Hp Hc He. apply (manager_then (length rest)).
  destruct (manager_sends d sg start rest Hp) as (E1 & E2 & E3 & E4 & E5 & E6).
  set (d1 := manager (length rest) accept now d) in *. apply drained_from.
  { unfold held. rewrite Hp, E1, E2, E3. cbn. by rewrite <- app_assoc. }
  apply (manager_then 1). cbn [manager]. unfold managerStep. rewrite E1.
  apply drained_from; [unfold held; by rewrite E1|]. apply (manager_locked _ sg); cbn; [by rewrite E3|done|congruence|].
  rewrite E4, E3. done.
Qed.

Lemma manager_procing d sg start :
  StronglySorted keyed (qdb (dq d)) -> pc d = Procing sg start -> closed d = false ->
  exists n, drained d (manager n accept now d).
Proof.
  intros Hs Hp Hc. apply (manager_then 1). cbn [manager]. unfold managerStep. rewrite Hp, collected_stock by done.
  apply drained_from.
  - unfold held. rewrite Hp. cbn. rewrite stock_taken. cbn. by rewrite app_nil_r, <- !list_fmap_compose.
  - eapply manager_sending; [|reflexivity|done|intros _; apply stock_taken]. cbn. rewrite foldl_delete. by apply sorted_filter.
Qed.

(** C8. No message is stuck: from every reachable state of a hook that is not closed, with
    one manager and with no signal outstanding, when its endpoints accept every message
    and transactions succeed from then on, the manager, with no clean-up in between,
    delivers everything that is in its hands or in the queue, in order, and then waits. *)
Theorem delivery_progress q d :
  queue_ok q [] -> rtc delivers (opened q) d -> closed d = false -> owed d = 0 ->
  exists n, let d' := manager n accept now d in
    pc d' = Waiting /\ stock (qdb (dq d')) = [] /\
    sent d' = sent d ++ (i_val <$> held d) ++ (i_val <$> stock (qdb (dq d))).
Proof.
  intros Hq Hr Hc Hw. destruct (reached_ok q d Hq Hr) as [Hk _ _ _ Hwk He].
  pose proof (qk_sorted _ _ Hk) as Hs. change (exists n, drained d (manager n accept now d)). unfold ready in *.
  destruct (pc d) as [|sg start|sg start rest|sg| | |] eqn:Ep.
  - by apply manager_round.
  - by eapply manager_procing.
  - eapply manager_sending; [done..|]. intros E. destruct Hwk as [?|[?|?]]; [done|done|lia].
  - eapply manager_locked; [done..|]. intros E. destruct Hwk as [?|[?|?]]; [done|done|lia].
  - apply (manager_then 1). cbn [manager]. unfold managerStep. rewrite Ep.
    apply drained_from; [unfold held; by rewrite Ep|]. by apply manager_round.
  - exists 0%nat. unfold drained, held. cbn [manager]. rewrite Ep. destruct Hwk as [[]|[E|?]]; [|lia].
    rewrite E. by rewrite app_nil_r.
  - by rewrite He in Hc.
Qed.
End progress.
End delivery.

(** ** Examples *)

Module DeliveryExample.
Import ExampleWorld.
#[local] Existing Instance world.

Definition note (h n : string) : string := js "{'hook':'" +:+ h +:+ js "','n':" +:+ n +:+ "}".
Definition refuse (_ _ : string) : bool := false.
Definition accept_all (_ _ : string) : bool := true.
Definition q0 : queue := mkQueue 0 [].

Lemma q0_ok : queue_ok "yard" q0 [].
Proof. split; cbn; try constructor; try (unfold is_uint64; lia); set_solver. Qed.

(** Two messages for the hook and one for another; the endpoint refuses; both go back. *)
Definition refused : delivery :=
  let d := queueStep "yard" 5 [note "yard" "1"; note "gate" "2"; note "yard" "3"] (opened "yard" q0) in
  let step := managerStep "yard" ["http://host/"] refuse true 6 in
  Signal (step (step (step d))).

Lemma refused_reachable : rtc (delivers "yard" ["http://host/"]) (opened "yard" q0) refused.
Proof.
  eapply rtc_l; [apply (d_queue _ _ 5 [note "yard" "1"; note "gate" "2"; note "yard" "3"]); by vm_compute|].
  do 3 (eapply rtc_l; [apply (d_manager _ _ refuse true 6)|]). apply rtc_once, d_signal.
Qed.

Lemma refused_state :
  (sent refused, i_val <$> stock "yard" (qdb (dq refused)), owed refused, length (qdb (dq refused))) =
  ([], [note "yard" "1"; note "yard" "3"], 0, 4%nat).
Proof. by vm_compute. Qed.

Lemma delivery_safe_witness :
  (sent refused ++ (i_val <$> held refused) ++ (i_val <$> stock "yard" (qdb (dq refused)))) `sublist_of` queued refused.
Proof. apply (delivery_safe "yard" ["http://host/"] q0 refused q0_ok refused_reachable). Defined.

Lemma delivery_progress_witness :
  exists n, let d' := manager "yard" ["http://host/"] n accept_all 7 refused in
    pc d' = Waiting /\ stock "yard" (qdb (dq d')) = [] /\ sent d' = [note "yard" "1"; note "yard" "3"].
Proof.
  destruct (delivery_progress "yard" ["http://host/"] accept_all 7 (fun _ => eq_refl) q0 refused q0_ok refused_reachable)
    as (n & P1 & P2 & P3); [by vm_compute..|]. exists n. split; [exact P1|]. split; [exact P2|]. rewrite P3. by vm_compute.
Defined.

(** An entry that comes back after half a minute of refusals is dropped. *)
Lemma late_dropped :
  let d := queueStep "yard" 0 [note "yard" "1"] (opened "yard" q0) in
  let step now := managerStep "yard" ["http://host/"] refuse true now in
  stock "yard" (qdb (dq (step (31 * 1000000000) (step 1 (step 1 d))))) = [].
Proof. by vm_compute. Qed.
End DeliveryExample.
