(* ===== verification/PackedRTree.v ===== *)
(** * Packed Hilbert R-trees ([formats/flatgeobuf/packedrtree])

    The index of a FlatGeobuf file: a complete tree laid out in one array, root first.
    Here are the boxes, the sizes and level bounds with their 64-bit arithmetic, [New],
    and the generic [search] with its bag of tickets, a stack for a tree in memory and a
    min-heap for a stream. A coordinate is the 64 bits of the float in memory. *)

From Stdlib Require Import Ascii String ZArith Lia Bool SpecFloat.
From stdpp Require Import base list strings option sorting.
From S2P Require Import Prelude GoStd Strconv Bytes Containers Heap.

Local Open Scope Z_scope.

Inductive ioError := EOF | ErrUnexpectedEOF | NegativePosition.

(** [textErr], [wrapErr] with the format and its arguments, [textPanic], an index out of
    range, and the end of the fuel of a loop of the model. *)
Inductive rtError :=
| Text (text : string)
| Wrapped (text : string) (args : list Z) (e : ioError)
| Panic (text : string)
| IndexPanic
| OutOfFuel.

#[global] Instance ioError_eq_dec : EqDecision ioError.
Proof. solve_decision. Defined.
#[global] Instance rtError_eq_dec : EqDecision rtError.
Proof. solve_decision. Defined.

(** ** Boxes ([box.go]) *)

Record Box := mkBox { XMin : Z; YMin : Z; XMax : Z; YMax : Z }.

Definition lt_bits (a b : Z) : bool := f64_lt (Float64frombits a) (Float64frombits b).
Notation "a <f b" := (lt_bits a b) (at level 70, no associativity) : go_scope.

Definition PosInf : Z := 0x7FF0000000000000.
Definition NegInf : Z := 0xFFF0000000000000.
Definition EmptyBox : Box := mkBox PosInf PosInf NegInf NegInf.

Definition Expand (b c : Box) : Box :=
  mkBox (if XMin c <f XMin b then XMin c else XMin b)
        (if YMin c <f YMin b then YMin c else YMin b)
        (if XMax b <f XMax c then XMax c else XMax b)
        (if YMax b <f YMax c then YMax c else YMax b).

Definition ExpandXY (b : Box) (x y : Z) : Box :=
  mkBox (if x <f XMin b then x else XMin b)
        (if y <f YMin b then y else YMin b)
        (if XMax b <f x then x else XMax b)
        (if YMax b <f y then y else YMax b).

Definition intersects (b c : Box) : bool :=
  if XMax b <f XMin c then false
  else if YMax b <f YMin c then false
  else if XMax c <f XMin b then false
  else if YMax c <f YMin b then false
  else true.

(** ** References, nodes, sizes *)

(** A [node] is a [Ref] whose offset is the index of its first child, unless it is a leaf. *)
Record Ref := mkRef { RBox : Box; Offset : Z }.
Abbreviation node := Ref.
Definition zeroNode : node := mkRef (mkBox 0 0 0 0) 0.

Definition numNodeBytes : Z := 40.
Definition MaxInt : Z := 2 ^ 63 - 1.

Definition validateParams (numRefs nodeSize : Z) : result rtError unit :=
  if numRefs <? 1 then Err (Panic "empty tree not allowed (num refs must be > 0)")
  else if nodeSize <? 2 then Err (Panic "node size must be at least 2")
  else Ok tt.

Definition totalNodes (numRefs numInternal : Z) : result rtError Z :=
  if MaxInt - numRefs <? numInternal then Err (Text "total node count overflows int")
  else Ok (numRefs + numInternal).

(** The loop of [size] over unsigned integers. *)
Fixpoint sizeLoop (fuel : nat) (numInternal nodesThisLevel nodeSize : Z) : result rtError Z :=
  match fuel with
  | O => Err OutOfFuel
  | S fuel =>
    let nodesThisLevel := wrap64 (nodesThisLevel + nodeSize - 1) / nodeSize in
    let numInternal := wrap64 (numInternal + nodesThisLevel) in
    if nodesThisLevel =? 1 then Ok numInternal
    else sizeLoop fuel numInternal nodesThisLevel nodeSize
  end.

(** The number of levels is that of the halvings of a 64-bit number at most. *)
Definition levelFuel : nat := 64.

Definition size (numRefs nodeSize : Z) : result rtError Z :=
  let? numInternal := sizeLoop levelFuel 0 numRefs nodeSize in
  let? numNodes := totalNodes (int64 numRefs) (int64 numInternal) in
  if MaxInt / numNodeBytes <? numNodes then Err (Text "index size overflows int")
  else Ok (numNodes * numNodeBytes).

Definition Size (numRefs nodeSize : Z) : result rtError Z :=
  let? _ := validateParams numRefs nodeSize in size numRefs nodeSize.

(** ** Levels *)

Record levelRange := mkLevel { lstart : Z; lend : Z }.

Fixpoint levelifyLoop (fuel : nat) (nodesPerLevel : list Z) (numInternal nodesThisLevel nodeSize : Z)
    : result rtError (list Z * Z) :=
  match fuel with
  | O => Err OutOfFuel
  | S fuel =>
    let nodesThisLevel := wrap64 (nodesThisLevel + nodeSize - 1) / nodeSize in
    let nodesPerLevel := nodesPerLevel ++ [int64 nodesThisLevel] in
    let numInternal := wrap64 (numInternal + nodesThisLevel) in
    if nodesThisLevel =? 1 then Ok (nodesPerLevel, numInternal)
    else levelifyLoop fuel nodesPerLevel numInternal nodesThisLevel nodeSize
  end.

Fixpoint levelIndicesOf (nodesRemaining : Z) (nodesPerLevel : list Z) : list Z :=
  match nodesPerLevel with
  | [] => []
  | n :: l => let r := nodesRemaining - n in r :: levelIndicesOf r l
  end.

Definition levelify (numRefs nodeSize : Z) : result rtError (list levelRange) :=
  let? (nodesPerLevel, numInternal) :=
    levelifyLoop levelFuel [int64 numRefs] 0 numRefs nodeSize in
  let? numNodes := match totalNodes (int64 numRefs) (int64 numInternal) with
                   | Ok n => Ok n
                   | Err _ => Err (Panic "total node count overflows int")
                   end in
  let levelIndices := levelIndicesOf numNodes nodesPerLevel in
  Ok (zip_with (fun i n => mkLevel i (i + n)) levelIndices nodesPerLevel).

(** The members of [packedRTree] that are data; [push], [pop] and [fetch] are arguments of
    [search]. *)
Record packedRTree := mkTree {
  numRefs : Z; nodeSize : Z; levels : list levelRange; nodes : list node }.

Definition noo (numRefs nodeSize : Z) : result rtError packedRTree :=
  let? lv := levelify numRefs nodeSize in
  match lv with
  | [] => Err IndexPanic
  | l0 :: _ => Ok (mkTree numRefs nodeSize lv (replicate (Z.to_nat (lend l0)) zeroNode))
  end.

(** ** Building ([New]) *)

(** [l[i]] and [l[i] = x] of a slice. *)
Definition at_ {A} (l : list A) (i : Z) : result rtError A :=
  if i <? 0 then Err IndexPanic
  else match l !! Z.to_nat i with Some x => Ok x | None => Err IndexPanic end.
Definition put_ {A} (l : list A) (i : Z) (x : A) : result rtError (list A) :=
  if (i <? 0) || (Z.of_nat (length l) <=? i) then Err IndexPanic else Ok (<[Z.to_nat i := x]> l).

Fixpoint copyRefs (ns : list node) (i : Z) (refs : list Ref) : result rtError (list node) :=
  match refs with
  | [] => Ok ns
  | r :: refs => let? ns := put_ ns i r in copyRefs ns (i + 1) refs
  end.

(** The loop [parent]: the nodes, the two indices, and whether [level] goes on. *)
Fixpoint parentLoop (fuel : nat) (nodeSize levelEnd : Z) (ns : list node) (nodeIndex parentIndex j : Z)
    : result rtError (list node * Z * Z * bool) :=
  match fuel with
  | O => Err OutOfFuel
  | S fuel =>
    let? p := at_ ns parentIndex in
    let? n := at_ ns nodeIndex in
    let? ns := put_ ns parentIndex (mkRef (Expand (RBox p) (RBox n)) (Offset p)) in
    let j := j + 1 in
    let nodeIndex := nodeIndex + 1 in
    if j =? nodeSize then Ok (ns, nodeIndex, parentIndex + 1, true)
    else if nodeIndex =? levelEnd then Ok (ns, nodeIndex, parentIndex, false)
    else parentLoop fuel nodeSize levelEnd ns nodeIndex parentIndex j
  end.

Fixpoint levelLoop (fuel : nat) (nodeSize levelEnd : Z) (ns : list node) (nodeIndex parentIndex : Z)
    : result rtError (list node) :=
  match fuel with
  | O => Err OutOfFuel
  | S fuel =>
    if nodeIndex <? levelEnd then
      let? ns := put_ ns parentIndex (mkRef EmptyBox nodeIndex) in
      let? (ns, nodeIndex, parentIndex, more) :=
        parentLoop (Z.to_nat nodeSize) nodeSize levelEnd ns nodeIndex parentIndex 0 in
      if (more : bool) then levelLoop fuel nodeSize levelEnd ns nodeIndex parentIndex else Ok ns
    else Ok ns
  end.

Fixpoint buildLevels (nodeSize : Z) (lv : list levelRange) (ns : list node) : result rtError (list node) :=
  match lv with
  | level :: ((above :: _) as rest) =>
    let? ns := levelLoop (S (Z.to_nat (lend level - lstart level))) nodeSize (lend level) ns
                 (lstart level) (lstart above) in
    buildLevels nodeSize rest ns
  | _ => Ok ns
  end.

Definition New (refs : list Ref) (nodeSize : Z) : result rtError packedRTree :=
  let n := Z.of_nat (length refs) in
  let? _ := Size n nodeSize in
  let? prt := noo n nodeSize in
  let? l0 := at_ (levels prt) 0 in
  let? ns := copyRefs (nodes prt) (lstart l0) refs in
  let? ns := buildLevels nodeSize (levels prt) ns in
  Ok (mkTree n nodeSize (levels prt) ns).

Definition Bounds (prt : packedRTree) : result rtError Box :=
  let? n := at_ (nodes prt) 0 in Ok (RBox n).

(** ** Searching *)

Record ticket := mkTicket { nodeIndex : Z; level : Z }.
Record Result := mkResult { ResOffset : Z; RefIndex : Z }.

(** [pushFunc] and [popFunc]; popping an empty bag panics. *)
Record ticketBag := mkBag {
  push : list ticket -> ticket -> list ticket;
  pop : list ticket -> option (ticket * list ticket) }.

Definition stackPush (tq : list ticket) (t : ticket) : list ticket := tq ++ [t].
Definition stackPop (tq : list ticket) : option (ticket * list ticket) :=
  match reverse tq with [] => None | x :: r => Some (x, reverse r) end.
Definition stackBag : ticketBag := mkBag stackPush stackPop.

Definition Less (a b : ticket) : bool := nodeIndex a <? nodeIndex b.
Definition heapPush (tq : list ticket) (t : ticket) : list ticket := Heap.Push Less tq t.
Definition heapPop (tq : list ticket) : option (ticket * list ticket) := Heap.Pop Less tq.
Definition heapBag : ticketBag := mkBag heapPush heapPop.

(** [Results.Less]. *)
Definition ResultLess (a b : Result) : bool := ResOffset a <? ResOffset b.

Section search.
Context {S : Type} (bag : ticketBag).
(** [fetch] fills a range of the nodes; the stream it reads is the state [S]. *)
Context (fetch : option (Z -> Z -> list node -> S -> result rtError (list node * S))).

(** The loop over the nodes of a ticket, [count] of them from [pos] on. *)
Fixpoint searchNodes (count : nat) (b : Box) (leafStart : Z) (isLeaf : bool) (lvl : Z) (ns : list node)
    (pos : Z) (q : list ticket) (r : list Result) : result rtError (list ticket * list Result) :=
  match count with
  | O => Ok (q, r)
  | Datatypes.S count =>
    let? n := at_ ns pos in
    let '(q, r) :=
      if negb (intersects b (RBox n)) then (q, r)
      else if isLeaf then (q, r ++ [mkResult (Offset n) (pos - leafStart)])
      else (push bag q (mkTicket (int64 (Offset n)) (lvl - 1)), r) in
    searchNodes count b leafStart isLeaf lvl ns (pos + 1) q r
  end.

Fixpoint searchLoop (fuel : nat) (prt : packedRTree) (b : Box) (ns : list node) (st : S)
    (q : list ticket) (r : list Result) : result rtError (list Result * S) :=
  match fuel with
  | O => Err OutOfFuel
  | Datatypes.S fuel =>
    match pop bag q with
    | None => Err IndexPanic
    | Some (t, q) =>
      let end_ := int64 (nodeIndex t + nodeSize prt) in
      let? lv := at_ (levels prt) (level t) in
      let end_ := if lend lv <? end_ then lend lv else end_ in
      let? l0 := at_ (levels prt) 0 in
      let isLeafLevel := lstart l0 <=? nodeIndex t in
      let? (ns, st) := match fetch with
                       | None => Ok (ns, st)
                       | Some f => f (nodeIndex t) end_ ns st
                       end in
      let? (q, r) := searchNodes (Z.to_nat (end_ - nodeIndex t)) b (lstart l0) isLeafLevel (level t) ns
                       (nodeIndex t) q r in
      match q with
      | [] => Ok (r, st)
      | _ => searchLoop fuel prt b ns st q r
      end
    end
  end.

(** A ticket leads to [nodeSize] tickets of the level below at most. *)
Definition searchFuel (prt : packedRTree) : nat :=
  Nat.pow (Datatypes.S (Z.to_nat (nodeSize prt))) (length (levels prt)).

Definition search (prt : packedRTree) (b : Box) (st : S) : result rtError (list Result * S) :=
  searchLoop (searchFuel prt) prt b (nodes prt) st
    [mkTicket 0 (Z.of_nat (length (levels prt)) - 1)] [].
End search.

Definition Search (prt : packedRTree) (b : Box) : result rtError (list Result) :=
  let? (r, _) := search (S := unit) stackBag None prt b tt in Ok r.
