(* ===== verification/PackedBuild.v ===== *)
(** * Sizes, levels and [New] of packed R-trees

    The level bounds are those of the counts [numRefs], [ceil (numRefs / nodeSize)], ..., 1;
    the 64-bit arithmetic of [Size] and [levelify] is exact or refused. [New] fills every
    inner node with the index of its first child and a box that meets every query one of
    its leaves meets. *)

From Stdlib Require Import Ascii String ZArith Lia Bool SpecFloat.
From stdpp Require Import base list strings option sorting.
From S2P Require Import Prelude GoStd Strconv Bytes Containers Heap PackedRTree.

Local Open Scope Z_scope.

(** ** Level counts *)

Definition sumZ (l : list Z) : Z := foldr Z.add 0 l.
Lemma sumZ_cons x l : sumZ (x :: l) = x + sumZ l.
Proof. done. Qed.
Lemma sumZ_app l l' : sumZ (l ++ l') = sumZ l + sumZ l'.
Proof. induction l as [|x l IH]; [done|]. rewrite <- app_comm_cons, !sumZ_cons, IH. lia. Qed.
Lemma sumZ_nonneg l : (forall x, x ∈ l -> 0 <= x) -> 0 <= sumZ l.
Proof.
  induction l as [|x l IH]; intros H; [done|]. rewrite sumZ_cons.
  pose proof (H x (list_elem_of_here _ _)). pose proof (IH (fun y Hy => H y (list_elem_of_further _ _ _ Hy))). lia.
Qed.

Definition ceil_div (x k : Z) : Z := (x + k - 1) / k.

(** The counts above a level of [x] nodes. *)
Fixpoint climb (fuel : nat) (x k : Z) : list Z :=
  match fuel with
  | O => []
  | S fuel => let y := ceil_div x k in y :: (if y =? 1 then [] else climb fuel y k)
  end.
Lemma climb_S f x k :
  climb (S f) x k = ceil_div x k :: (if ceil_div x k =? 1 then [] else climb f (ceil_div x k) k).
Proof. done. Qed.
Definition counts (n k : Z) : list Z := n :: climb levelFuel n k.
Definition total (n k : Z) : Z := sumZ (counts n k).

Section counts.
Context (k : Z) (Hk : 2 <= k).

Lemma ceil_div_spec x : 1 <= x -> (ceil_div x k - 1) * k < x <= ceil_div x k * k.
Proof.
  intros Hx. unfold ceil_div. pose proof (Z.div_mod (x + k - 1) k ltac:(lia)).
  pose proof (Z.mod_pos_bound (x + k - 1) k ltac:(lia)). nia.
Qed.
Lemma ceil_div_pos x : 1 <= x -> 1 <= ceil_div x k.
Proof. intros Hx. pose proof (ceil_div_spec x Hx). nia. Qed.
Lemma ceil_div_half f x : 1 <= x <= 2 ^ (f + 1) -> 0 <= f -> ceil_div x k <= 2 ^ f.
Proof.
  intros Hx Hf. pose proof (ceil_div_spec x ltac:(lia)). rewrite Z.pow_add_r in Hx by lia.
  pose proof (Z.pow_pos_nonneg 2 f). nia.
Qed.
Lemma ceil_div_one x : 1 <= x <= k -> ceil_div x k = 1.
Proof. intros Hx. pose proof (ceil_div_spec x ltac:(lia)). nia. Qed.

(** Fuel [f + 1] is enough below [2 ^ f]; the counts sum up to less than [2 ^ f]. *)
Lemma climb_sum f x :
  1 <= x <= 2 ^ Z.of_nat f ->
  Forall (fun y => 1 <= y) (climb (S f) x k) /\ last (climb (S f) x k) = Some 1 /\
  sumZ (climb (S f) x k) <= Z.max 1 (2 ^ Z.of_nat f - 1).
Proof.
  revert x. induction f as [|f IH]; intros x Hx.
  - assert (x = 1) as -> by (simpl in Hx; lia).
    rewrite climb_S, (ceil_div_one 1) by lia. split_and!; [by repeat constructor|done|done].
  - rewrite climb_S. rewrite Nat2Z.inj_succ, <- Z.add_1_r in *.
    pose proof (ceil_div_half _ _ Hx ltac:(lia)) as Hh. pose proof (ceil_div_pos x ltac:(lia)) as Hp.
    rewrite Z.pow_add_r, Z.pow_1_r by lia. pose proof (Z.pow_pos_nonneg 2 (Z.of_nat f)).
    destruct (Z.eqb_spec (ceil_div x k) 1) as [->|Hne].
    + split_and!; [by repeat constructor|done|]. change (sumZ [1]) with 1. lia.
    + destruct (IH (ceil_div x k) ltac:(lia)) as (I1 & I2 & I3). split_and!.
      * by constructor.
      * by rewrite last_cons, I2.
      * rewrite sumZ_cons.  lia.
Qed.

(** The loops compute the counts, and their sum without wrapping around. *)
Lemma levelifyLoop_S f npl s x :
  k < 2 ^ 16 -> 1 <= x < 2 ^ 63 -> 0 <= s -> s + ceil_div x k < 2 ^ 64 ->
  levelifyLoop (S f) npl s x k =
  if ceil_div x k =? 1 then Ok (npl ++ [ceil_div x k], s + ceil_div x k)
  else levelifyLoop f (npl ++ [ceil_div x k]) (s + ceil_div x k) (ceil_div x k) k.
Proof.
  intros H1 H2 H3 H4. pose proof (ceil_div_pos x ltac:(lia)). pose proof (ceil_div_spec x ltac:(lia)).
  cbn [levelifyLoop]. unfold wrap64. rewrite (Z.mod_small (x + k - 1)) by lia. fold (ceil_div x k).
  rewrite (Z.mod_small (s + _)) by lia. rewrite (int64_id (ceil_div x k)) by (unfold is_int64; nia). done.
Qed.

Lemma climb_nonneg f x : 1 <= x <= 2 ^ Z.of_nat f -> 0 <= sumZ (climb (S f) x k).
Proof.
  intros Hx. apply sumZ_nonneg. intros y Hy. destruct (climb_sum f x Hx) as (F & _).
  rewrite Forall_forall in F. specialize (F y Hy). lia.
Qed.

Lemma levelifyLoop_spec f npl s x :
  k < 2 ^ 16 -> 1 <= x <= 2 ^ Z.of_nat f -> x < 2 ^ 63 -> 0 <= s -> s + sumZ (climb (S f) x k) < 2 ^ 64 ->
  levelifyLoop (S f) npl s x k = Ok (npl ++ climb (S f) x k, s + sumZ (climb (S f) x k)).
Proof.
  intros Hk2. revert npl s x. induction f as [|f IH]; intros npl s x Hx Hx63 Hs Hb;
    rewrite climb_S in Hb |- *; pose proof (ceil_div_pos x ltac:(lia)) as Hp; pose proof (ceil_div_spec x ltac:(lia)) as Hc.
  - assert (x = 1) as -> by (simpl in Hx; lia). rewrite (ceil_div_one 1) in * by lia.
    change (sumZ (1 :: _)) with 1 in *. by rewrite levelifyLoop_S, (ceil_div_one 1) by (rewrite ?(ceil_div_one 1); lia).
  - rewrite sumZ_cons in Hb |- *.  
    rewrite Nat2Z.inj_succ, <- Z.add_1_r in Hx. pose proof (ceil_div_half _ _ Hx ltac:(lia)) as Hh.
    pose proof (climb_nonneg f (ceil_div x k) ltac:(lia)) as Hnn.
    revert Hb. destruct (Z.eqb_spec (ceil_div x k) 1) as [E|E]; intros Hb.
    + change (sumZ []) with 0 in *. rewrite levelifyLoop_S by lia. rewrite E. cbn. do 2 f_equal.
    + rewrite levelifyLoop_S by lia. rewrite (proj2 (Z.eqb_neq _ _) E).
      rewrite IH by (lia || nia). rewrite <- app_assoc. cbn [app]. do 2 f_equal. lia.
Qed.

Lemma sizeLoop_levelify f npl s x :
  sizeLoop f s x k = (let? (_, t) := levelifyLoop f npl s x k in Ok t).
Proof.
  revert npl s x. induction f as [|f IH]; intros npl s x; [done|]. cbn [sizeLoop levelifyLoop].
  case_match; [done|]. by rewrite <- IH.
Qed.
End counts.

Lemma climb_total n k :
  1 <= n <= MaxInt -> 2 <= k < 2 ^ 16 ->
  levelifyLoop levelFuel [int64 n] 0 n k = Ok (counts n k, total n k - n) /\
  0 <= total n k - n <= MaxInt.
Proof.
  unfold MaxInt. intros Hn Hk. unfold levelFuel. destruct (climb_sum k ltac:(lia) 63 n) as (_ & _ & Hs); [change (Z.of_nat 63) with 63; lia|].
  pose proof (climb_nonneg k ltac:(lia) 63 n ltac:(change (Z.of_nat 63) with 63; lia)) as H0.
  change (Z.of_nat 63) with 63 in Hs. assert (total n k - n = sumZ (climb 64 n k)) as Ht.
  { unfold total, counts. rewrite sumZ_cons. unfold levelFuel. lia. }
  rewrite Ht, (int64_id n) by (unfold is_int64; lia). split; [|lia].
  rewrite (levelifyLoop_spec k ltac:(lia) 63) by (change (Z.of_nat 63) with 63; lia). done.
Qed.

Lemma Size_total n k :
  1 <= n <= MaxInt -> 2 <= k < 2 ^ 16 ->
  Size n k = if MaxInt <? total n k then Err (Text "total node count overflows int")
             else if MaxInt <? total n k * 40 then Err (Text "index size overflows int")
             else Ok (total n k * 40).
Proof.
  intros Hn Hk. destruct (climb_total n k Hn Hk) as [Hl Hb]. unfold Size, validateParams.
  rewrite (proj2 (Z.ltb_ge _ _)), (proj2 (Z.ltb_ge _ _)) by lia. cbn [rbind]. unfold size.
  rewrite (sizeLoop_levelify k _ [int64 n]), Hl. cbn [rbind]. unfold totalNodes.
  unfold MaxInt, numNodeBytes in *. rewrite !int64_id by (unfold is_int64; lia).
  replace (n + (total n k - n)) with (total n k) by lia.
  destruct (Z.ltb_spec (2 ^ 63 - 1 - n) (total n k - n)); destruct (Z.ltb_spec (2 ^ 63 - 1) (total n k));
    [done|lia|lia|]. cbn [rbind].
  destruct (Z.ltb_spec ((2 ^ 63 - 1) / 40) (total n k)); destruct (Z.ltb_spec (2 ^ 63 - 1) (total n k * 40));
    [done|change ((2 ^ 63 - 1) / 40) with 230584300921369395 in *; lia..|done].
Qed.

(** C37. [Size] is forty bytes for each node of all levels, and never a wrapped number:
    when the nodes or their bytes exceed an [int] it is the error that says so. *)
Theorem Size_exact n k :
  1 <= n <= MaxInt -> 2 <= k < 2 ^ 16 ->
  Size n k = if MaxInt <? total n k then Err (Text "total node count overflows int")
             else if MaxInt <? total n k * 40 then Err (Text "index size overflows int")
             else Ok (total n k * 40).
Proof. apply Size_total. Qed.

Lemma Size_exact_witness :
  Size 1000 16 = Ok 42720 /\ Size (2 ^ 62 + 1) 2 = Err (Text "total node count overflows int") /\
  Size (2 ^ 60) 2 = Err (Text "index size overflows int").
Proof.
  split_and!; [rewrite (Size_exact 1000 16)|rewrite (Size_exact (2 ^ 62 + 1) 2)|rewrite (Size_exact (2 ^ 60) 2)];
    by vm_compute || (unfold MaxInt; lia).
Defined.

(** The comment on [numInternal], a number strictly less than [numRefs], is not true of
    small trees. *)
Lemma numInternal_more : sumZ (climb levelFuel 5 2) = 6.
Proof. done. Qed.

(** ** Level bounds *)

(** A level starts where those above it end. *)
Fixpoint bounds (cs : list Z) : list levelRange :=
  match cs with
  | [] => []
  | c :: cs => mkLevel (sumZ cs) (sumZ cs + c) :: bounds cs
  end.

Lemma bounds_indices cs :
  zip_with (fun i n => mkLevel i (i + n)) (levelIndicesOf (sumZ cs) cs) cs = bounds cs.
Proof.
  induction cs as [|c cs IH]; [done|]. cbn [levelIndicesOf bounds zip_with].
  rewrite sumZ_cons.  replace (c + sumZ cs - c) with (sumZ cs) by lia.
  cbv zeta. by rewrite IH.
Qed.

Lemma levelify_spec n k :
  1 <= n <= MaxInt -> 2 <= k < 2 ^ 16 -> total n k <= MaxInt -> levelify n k = Ok (bounds (counts n k)).
Proof.
  intros Hn Hk Ht. destruct (climb_total n k Hn Hk) as [Hl Hb]. unfold levelify. rewrite Hl. cbn [rbind].
  unfold totalNodes. unfold MaxInt in *. rewrite !int64_id by (unfold is_int64; lia).
  rewrite (proj2 (Z.ltb_ge _ _)) by lia. cbn [rbind].
  replace (n + (total n k - n)) with (total n k) by lia. unfold total. by rewrite bounds_indices.
Qed.

(** ** Boxes that cover others *)

Definition no_nan (b : Box) : bool :=
  let ok z := negb (IsNaN (Float64frombits z)) in ok (XMin b) && ok (YMin b) && ok (XMax b) && ok (YMax b).
(** Every query that meets [c] meets [b]. *)
Definition covers (b c : Box) : Prop := forall q, intersects q c = true -> intersects q b = true.

Lemma intersects_iff q c :
  intersects q c = true <->
  (XMax q <f XMin c) = false /\ (YMax q <f YMin c) = false /\ (XMax c <f XMin q) = false /\ (YMax c <f YMin q) = false.
Proof. unfold intersects. repeat case_match; intuition congruence. Qed.

Lemma lt_bits_trans a b c : (a <f b) = true -> (b <f c) = true -> (a <f c) = true.
Proof. apply f64_lt_trans. Qed.
(** Not above a value that is no NaN. *)
Lemma lt_bits_cotrans a b c :
  IsNaN (Float64frombits b) = false -> (a <f c) = true -> (b <f c) = false -> (a <f b) = true.
Proof.
  unfold lt_bits. intros Hb Hac Hbc. destruct (f64_lt (Float64frombits a) (Float64frombits b)) eqn:E; [done|].
  apply not_true_iff_false in E, Hbc. rewrite f64_lt_key in E, Hbc, Hac.
  destruct (f64_key (Float64frombits a)) as [[[]]|], (f64_key (Float64frombits b)) as [[[]]|] eqn:Eb,
    (f64_key (Float64frombits c)) as [[[]]|]; simpl in *; try done; [lia|].
  by destruct (Float64frombits b).
Qed.

(** One side of a box: the lesser of two lower ends is not above either. *)
Lemma least_l q a b : (q <f a) = false -> (q <f (if b <f a then b else a)) = false.
Proof.
  intros H. destruct (b <f a) eqn:E; [|done]. apply not_true_iff_false. intros H1.
  by rewrite (lt_bits_trans _ _ _ H1 E) in H.
Qed.
Lemma least_r q a b :
  IsNaN (Float64frombits b) = false -> (q <f b) = false -> (q <f (if b <f a then b else a)) = false.
Proof.
  intros Hb H. destruct (b <f a) eqn:E; [done|]. apply not_true_iff_false. intros H1.
  by rewrite (lt_bits_cotrans _ _ _ Hb H1 E) in H.
Qed.
Lemma most_l q a b : (a <f q) = false -> ((if a <f b then b else a) <f q) = false.
Proof.
  intros H. destruct (a <f b) eqn:E; [|done]. apply not_true_iff_false. intros H1.
  by rewrite (lt_bits_trans _ _ _ E H1) in H.
Qed.
Lemma lt_bits_cotrans' a b c :
  IsNaN (Float64frombits b) = false -> (a <f c) = true -> (a <f b) = false -> (b <f c) = true.
Proof.
  unfold lt_bits. intros Hb Hac Hab. destruct (f64_lt (Float64frombits b) (Float64frombits c)) eqn:E; [done|].
  apply not_true_iff_false in E, Hab. rewrite f64_lt_key in E, Hab, Hac.
  destruct (f64_key (Float64frombits a)) as [[[]]|], (f64_key (Float64frombits b)) as [[[]]|] eqn:Eb,
    (f64_key (Float64frombits c)) as [[[]]|]; simpl in *; try done; [lia|].
  by destruct (Float64frombits b).
Qed.
Lemma most_r q a b :
  IsNaN (Float64frombits b) = false -> (b <f q) = false -> ((if a <f b then b else a) <f q) = false.
Proof.
  intros Hb H. destruct (a <f b) eqn:E; [done|]. apply not_true_iff_false. intros H1.
  by rewrite (lt_bits_cotrans' _ _ _ Hb H1 E) in H.
Qed.

Lemma Expand_l b c : covers (Expand b c) b.
Proof.
  intros q. rewrite !intersects_iff. cbn. intros (H1 & H2 & H3 & H4).
  split_and!; auto using least_l, most_l.
Qed.
Lemma Expand_r b c : no_nan c = true -> covers (Expand b c) c.
Proof.
  unfold no_nan. boolify. intros [[[N1 N2] N3] N4] q. rewrite !intersects_iff. cbn. intros (H1 & H2 & H3 & H4).
  split_and!; auto using least_r, most_r.
Qed.
Lemma no_nan_Expand b c : no_nan b = true -> no_nan c = true -> no_nan (Expand b c) = true.
Proof.
  unfold no_nan. boolify. intros [[[N1 N2] N3] N4] [[[M1 M2] M3] M4]. cbn. split_and!; by case_match.
Qed.

Lemma foldl_Expand l b :
  no_nan b = true -> Forall (fun c => no_nan c = true) l ->
  no_nan (foldl Expand b l) = true /\ covers (foldl Expand b l) b /\ (forall c, c ∈ l -> covers (foldl Expand b l) c).
Proof.
  revert b. induction l as [|c l IH]; intros b Hb Hl; [cbn; split_and!; [done|by intros q|by intros c Hc%not_elem_of_nil]|].
  apply Forall_cons_1 in Hl as [Hc Hl]. destruct (IH (Expand b c)) as (I1 & I2 & I3); [by apply no_nan_Expand|done|].
  cbn [foldl]. split_and!; [done|intros q Hq; by apply I2, Expand_l|].
  intros d [->|Hd]%elem_of_cons; [|by apply I3]. intros q Hq. by apply I2, Expand_r.
Qed.

(** ** Indices *)

Lemma at_nat {A} (l : list A) i :
  at_ l (Z.of_nat i) = match l !! i with Some x => Ok x | None => Err IndexPanic end.
Proof. unfold at_. rewrite (proj2 (Z.ltb_ge _ _)) by lia. by rewrite Nat2Z.id. Qed.
Lemma put_nat {A} (l : list A) i x : (i < length l)%nat -> put_ l (Z.of_nat i) x = Ok (<[i:=x]> l).
Proof.
  intros Hi. unfold put_. rewrite (proj2 (Z.ltb_ge _ _)), (proj2 (Z.leb_gt _ _)) by lia. by rewrite Nat2Z.id.
Qed.
Lemma of_nat_succ i : Z.of_nat i + 1 = Z.of_nat (S i).
Proof. lia. Qed.
Lemma of_nat_eqb i j : (Z.of_nat i =? Z.of_nat j) = bool_decide (i = j).
Proof. apply eq_bool_prop_intro. rewrite bool_decide_spec, Is_true_true, Z.eqb_eq. lia. Qed.

Lemma sumZ_nat ds : sumZ (Z.of_nat <$> ds) = Z.of_nat (sum_list ds).
Proof. induction ds as [|d ds IH]; [done|]. rewrite fmap_cons, sumZ_cons, IH. simpl. lia. Qed.

Lemma buildLevels_cons sz level above lv ns :
  buildLevels sz (level :: above :: lv) ns =
  let? ns := levelLoop (S (Z.to_nat (lend level - lstart level))) sz (lend level) ns (lstart level) (lstart above) in
  buildLevels sz (above :: lv) ns.
Proof. done. Qed.

Lemma copyRefs_spec ns i refs :
  (i + length refs <= length ns)%nat ->
  copyRefs ns (Z.of_nat i) refs = Ok (take i ns ++ refs ++ drop (i + length refs) ns).
Proof.
  revert ns i. induction refs as [|r refs IH]; intros ns i Hl; simpl in Hl.
  { cbn. by rewrite Nat.add_0_r, take_drop. }
  cbn [copyRefs]. rewrite put_nat by lia. cbn [rbind]. rewrite of_nat_succ, IH by (rewrite length_insert; lia).
  rewrite drop_insert_lt by lia. cbn [length]. rewrite <- Nat.add_succ_comm. f_equal.
  rewrite (insert_take_drop ns i r) by lia. rewrite take_app_ge by (rewrite length_take; lia).
  rewrite length_take, (Nat.min_l i) by lia. replace (S i - i)%nat with 1%nat by lia.
  cbn [take firstn]. rewrite take_0. by rewrite <- app_assoc.
Qed.

(** ** Rows

    [parents s row] are the nodes over a row that starts at index [s]. *)

Section rows.
Context (k : nat) (Hk : (2 <= k)%nat).

Fixpoint parentsF (fuel : nat) (s : Z) (row : list node) : list node :=
  match fuel, row with
  | S fuel, _ :: _ =>
    mkRef (foldl Expand EmptyBox (RBox <$> take k row)) s :: parentsF fuel (s + Z.of_nat k) (drop k row)
  | _, _ => []
  end.
Definition parents (s : Z) (row : list node) : list node := parentsF (length row) s row.

Lemma parentsF_lookup fuel s row q :
  (length row <= fuel)%nat ->
  parentsF fuel s row !! q =
  if decide (q * k < length row)%nat
  then Some (mkRef (foldl Expand EmptyBox (RBox <$> take k (drop (q * k) row))) (s + Z.of_nat (q * k)))
  else None.
Proof.
  revert s row q. induction fuel as [|fuel IH]; intros s row q Hf.
  - destruct row; [|simpl in Hf; lia]. by rewrite decide_False by (simpl; lia).
  - destruct row as [|x row]; [by rewrite decide_False by (simpl; lia)|].
    cbn [parentsF]. destruct q as [|q].
    + rewrite decide_True by (simpl; lia). cbn [lookup list_lookup]. rewrite Nat.mul_0_l, drop_0. by rewrite Z.add_0_r.
    + cbn [lookup list_lookup]. rewrite IH by (rewrite length_drop; simpl in *; lia).
      rewrite length_drop, drop_drop. replace (k + q * k)%nat with (S q * k)%nat by lia.
      destruct (decide (q * k < length (x :: row) - k)%nat), (decide (S q * k < length (x :: row))%nat); try lia; [|done].
      do 2 f_equal. lia.
Qed.

Lemma parents_lookup s row q :
  parents s row !! q =
  if decide (q * k < length row)%nat
  then Some (mkRef (foldl Expand EmptyBox (RBox <$> take k (drop (q * k) row))) (s + Z.of_nat (q * k)))
  else None.
Proof. by apply parentsF_lookup. Qed.

Lemma length_parents s row : length (parents s row) = ((length row + k - 1) / k)%nat.
Proof.
  assert (forall q, (q < length (parents s row) <-> q * k < length row)%nat) as H.
  { intros q. rewrite <- lookup_lt_is_Some, parents_lookup. by case_decide; split. }
  pose proof (Nat.div_mod_eq (length row + k - 1) k). pose proof (Nat.mod_upper_bound (length row + k - 1) k ltac:(lia)).
  set (c := ((length row + k - 1) / k)%nat) in *.
  pose proof (H c) as Hc. pose proof (H (c - 1)%nat) as Hc1. pose proof (H (length (parents s row))) as Hl.
  destruct (decide (length (parents s row) < c)%nat) as [Hlt|]; [exfalso; nia|].
  destruct (decide (c < length (parents s row))%nat) as [Hlt|]; [exfalso; nia|]. lia.
Qed.

Lemma parents_cons s row :
  row <> [] ->
  parents s row = mkRef (foldl Expand EmptyBox (RBox <$> take k row)) s :: parents (s + Z.of_nat k) (drop k row).
Proof.
  intros Hr. apply list_eq. intros [|q]; cbn [lookup list_lookup]; rewrite !parents_lookup.
  - rewrite decide_True by (destruct row; [done|simpl; lia]). rewrite Nat.mul_0_l, drop_0. by rewrite Z.add_0_r.
  - rewrite length_drop, drop_drop. replace (k + q * k)%nat with (S q * k)%nat by lia.
    destruct (decide (S q * k < length row)%nat), (decide (q * k < length row - k)%nat); try lia; [|done].
    do 2 f_equal. lia.
Qed.

(** ** The loops of [New] *)

Lemma parentLoop_spec m fuel e ns x p j nd :
  (S m <= fuel)%nat -> (p < x)%nat -> (x + S m <= length ns)%nat -> ns !! p = Some nd ->
  (j + S m <= k)%nat -> (x + S m <= e)%nat -> (j + S m = k \/ x + S m = e)%nat ->
  parentLoop fuel (Z.of_nat k) (Z.of_nat e) ns (Z.of_nat x) (Z.of_nat p) (Z.of_nat j) =
  Ok (<[p := mkRef (foldl Expand (RBox nd) (RBox <$> take (S m) (drop x ns))) (Offset nd)]> ns,
      Z.of_nat (x + S m), Z.of_nat (if decide (j + S m = k)%nat then S p else p), bool_decide (j + S m = k)%nat).
Proof.
  revert fuel ns x j nd. induction m as [|m IH]; intros fuel ns x j nd Hf Hp Hx Hnd Hj He Hend;
    (destruct fuel as [|fuel]; [lia|]); cbn [parentLoop]; rewrite !at_nat, Hnd; cbn [rbind];
    destruct (lookup_lt_is_Some_2 ns x) as [n Hn]; try lia; rewrite Hn; cbn [rbind];
    rewrite put_nat by (apply lookup_lt_Some in Hnd; lia); cbn [rbind]; rewrite !of_nat_succ, !of_nat_eqb;
    rewrite (drop_S ns n x Hn).
  - cbn [take fmap list_fmap foldl]. destruct (decide (j + 1 = k)%nat) as [E|E].
    + rewrite !bool_decide_true by lia. by replace (x + 1)%nat with (S x) by lia.
    + rewrite bool_decide_false by lia. rewrite bool_decide_true by lia. rewrite bool_decide_false by lia. by replace (x + 1)%nat with (S x) by lia.
  - rewrite bool_decide_false by lia. rewrite bool_decide_false by lia.
    erewrite IH; [|lia|lia|rewrite length_insert; lia|apply list_lookup_insert_eq; by apply lookup_lt_Some in Hnd|lia..].
    rewrite list_insert_insert_eq, drop_insert_lt by lia. cbn [RBox Offset take fmap list_fmap foldl].
    replace (S x + S m)%nat with (x + S (S m))%nat by lia. replace (S j + S m)%nat with (j + S (S m))%nat by lia. done.
Qed.

Lemma levelLoop_spec fuel e ns x p :
  (e - x < fuel)%nat -> (x <= e <= length ns)%nat -> (p + length (parents (Z.of_nat x) (take (e - x) (drop x ns))) <= x)%nat ->
  let row := take (e - x) (drop x ns) in
  levelLoop fuel (Z.of_nat k) (Z.of_nat e) ns (Z.of_nat x) (Z.of_nat p) =
  Ok (take p ns ++ parents (Z.of_nat x) row ++ drop (p + length (parents (Z.of_nat x) row)) ns).
Proof.
  revert ns x p. induction fuel as [|fuel IH]; intros ns x p Hf He Hp row; [lia|]. cbn [levelLoop].
  assert (length row = e - x)%nat as Hrow by (unfold row; rewrite length_take, length_drop; lia).
  destruct (Z.ltb_spec (Z.of_nat x) (Z.of_nat e)) as [Hlt|Hge].
  2: { assert (row = []) as -> by (apply length_zero_iff_nil; lia). cbn [parents parentsF length app].
       by rewrite Nat.add_0_r, take_drop. }
  assert (row <> []) as Hne by (intros E; rewrite E in Hrow; simpl in Hrow; lia).
  fold row in Hp. rewrite (parents_cons _ _ Hne) in Hp |- *. cbn [length] in Hp.
  rewrite put_nat by lia. cbn [rbind]. rewrite Nat2Z.id.
  change 0 with (Z.of_nat 0). set (m := (Nat.min k (e - x) - 1)%nat).
  erewrite (parentLoop_spec m); [|lia|lia|rewrite length_insert; lia|apply list_lookup_insert_eq; lia|lia..].
  rewrite list_insert_insert_eq, drop_insert_lt by lia. cbn [RBox Offset rbind Nat.add].
  set (nd := mkRef (foldl Expand EmptyBox (RBox <$> take k row)) (Z.of_nat x)).
  assert (take (S m) (drop x ns) = take k row) as ->.
  { unfold row. rewrite take_take. f_equal. lia. }
  fold nd. assert (<[p:=nd]> ns = take p ns ++ nd :: drop (S p) ns) as Hins.
  { apply insert_take_drop. lia. }
  destruct (decide (S m = k)) as [Em|Em].
  - rewrite bool_decide_true by done. rewrite Em.
    assert (drop k row = take (e - (x + k)) (drop (x + k) (<[p:=nd]> ns))) as Hrest.
    { unfold row. rewrite skipn_firstn_comm, drop_drop, drop_insert_lt by lia. f_equal. lia. }
    rewrite Hrest, <- Nat2Z.inj_add in *. rewrite IH; [|lia|rewrite length_insert; lia|lia].
    f_equal. rewrite Hins at 1. rewrite take_app_ge by (rewrite length_take; lia).
    rewrite length_take, (Nat.min_l p) by lia. replace (S p - p)%nat with 1%nat by lia.
    rewrite <- app_assoc. cbn [take firstn app length].
    rewrite Nat.add_succ_comm. by rewrite !drop_insert_lt, take_0 by lia.
  - rewrite bool_decide_false by done. assert (drop k row = []) as -> by (apply drop_ge; lia).
    cbn [parents parentsF length app]. rewrite Hins. by replace (p + 1)%nat with (S p) by lia.
Qed.

(** [d] counts a row, [ds] those above it. *)
Fixpoint chain (d : nat) (ds : list nat) : Prop :=
  match ds with [] => True | d1 :: ds => d1 = ((d + k - 1) / k)%nat /\ chain d1 ds end.

(** The array: a row under the rows over it. *)
Fixpoint tower (ds : list nat) (row : list node) : list node :=
  match ds with
  | [] => row
  | _ :: ds' => tower ds' (parents (Z.of_nat (sum_list ds)) row) ++ row
  end.

Lemma buildLevels_spec ds d above row rest :
  chain d ds -> length row = d -> length above = sum_list ds ->
  buildLevels (Z.of_nat k) (bounds (Z.of_nat <$> d :: ds)) (above ++ row ++ rest) = Ok (tower ds row ++ rest).
Proof.
  revert d above row rest. induction ds as [|d1 ds IH]; intros d above row rest Hc Hr Ha.
  { destruct above; [done|simpl in Ha; lia]. }
  destruct Hc as [Hd1 Hc]. rewrite !fmap_cons. cbn [bounds]. rewrite buildLevels_cons. cbn [lstart lend].
  change (mkLevel (sumZ (Z.of_nat <$> ds)) (sumZ (Z.of_nat <$> ds) + Z.of_nat d1) :: bounds (Z.of_nat <$> ds))
    with (bounds (Z.of_nat <$> d1 :: ds)).
  rewrite <- fmap_cons, !sumZ_nat, <- Nat2Z.inj_add.
  set (s := sum_list (d1 :: ds)) in *. replace (Z.to_nat (Z.of_nat (s + d) - Z.of_nat s)) with d by lia.
  assert (take (s + d - s) (drop s (above ++ row ++ rest)) = row) as Hrow.
  { rewrite <- Ha, drop_app_length. replace (length above + d - length above)%nat with (length row) by lia. apply take_app_length. }
  assert (length (parents (Z.of_nat s) row) = d1) as Hp by (rewrite length_parents; by subst d).
  assert (s = d1 + sum_list ds)%nat as Hs by done.
  rewrite levelLoop_spec; rewrite ?Hrow, ?Hp; [|lia|rewrite !length_app; lia|lia]. cbn [rbind].
  replace (sum_list ds + d1)%nat with (length above) by lia. rewrite drop_app_length, take_app_le by lia.
  rewrite IH; [|done|done|rewrite length_take; lia]. cbn [tower]. by rewrite <- app_assoc.
Qed.

Lemma ceil_nat x : (1 <= x)%nat -> ceil_div (Z.of_nat x) (Z.of_nat k) = Z.of_nat ((x + k - 1) / k).
Proof. intros Hx. unfold ceil_div. rewrite Nat2Z.inj_div. f_equal. lia. Qed.

Lemma climb_nat f x :
  (1 <= x)%nat -> exists ds, climb f (Z.of_nat x) (Z.of_nat k) = Z.of_nat <$> ds /\ chain x ds.
Proof.
  revert x. induction f as [|f IH]; intros x Hx; [by exists []|]. rewrite climb_S, ceil_nat by done.
  pose proof (ceil_div_pos (Z.of_nat k) ltac:(lia) (Z.of_nat x) ltac:(lia)) as Hp. rewrite ceil_nat in Hp by done.
  case_match; [by exists [((x + k - 1) / k)%nat]|].
  destruct (IH ((x + k - 1) / k)%nat ltac:(lia)) as (ds & -> & Hc).
  by exists (((x + k - 1) / k)%nat :: ds).
Qed.
End rows.

(** The counts of the levels above the leaves. *)
Definition layers (n k : Z) : list nat := Z.to_nat <$> climb levelFuel n k.

Lemma layers_spec n k :
  (1 <= n)%nat -> (2 <= k)%nat ->
  climb levelFuel (Z.of_nat n) (Z.of_nat k) = Z.of_nat <$> layers (Z.of_nat n) (Z.of_nat k) /\
  chain k n (layers (Z.of_nat n) (Z.of_nat k)).
Proof.
  intros Hn Hk. destruct (climb_nat k Hk levelFuel n Hn) as (ds & E & Hc). unfold layers. rewrite E.
  assert (Z.to_nat <$> (Z.of_nat <$> ds) = ds) as ->; [|done].
  rewrite <- list_fmap_compose. rewrite <- (list_fmap_id ds) at 2. apply list_fmap_ext. intros i x _. simpl. lia.
Qed.

(** [New] lays out the tower of the references. *)
Lemma New_spec refs k :
  refs <> [] -> (2 <= k)%nat -> Z.of_nat k < 2 ^ 16 -> let n := Z.of_nat (length refs) in
  total n (Z.of_nat k) * 40 <= MaxInt ->
  New refs (Z.of_nat k) =
  Ok (mkTree n (Z.of_nat k) (bounds (counts n (Z.of_nat k))) (tower k (layers n (Z.of_nat k)) refs)).
Proof.
  intros Hr Hk Hk16 n Ht. assert (1 <= length refs)%nat as Hn by (destruct refs; [done|simpl; lia]).
  destruct (layers_spec (length refs) k Hn ltac:(lia)) as [Hcl Hch]. fold n in Hcl, Hch.
  assert (total n (Z.of_nat k) = Z.of_nat (length refs + sum_list (layers n (Z.of_nat k)))) as Htot.
  { unfold total, counts. rewrite sumZ_cons, Hcl, sumZ_nat. lia. }
  unfold MaxInt in Ht. assert (1 <= n <= MaxInt) as Hn1 by (unfold MaxInt; lia).
  unfold New. fold n. rewrite Size_total by (unfold MaxInt in *; lia). unfold MaxInt in *.
  rewrite (proj2 (Z.ltb_ge _ _)), (proj2 (Z.ltb_ge _ _)) by lia. cbn [rbind]. unfold noo.
  rewrite levelify_spec by (unfold MaxInt; lia). cbn [rbind]. unfold counts at 1. cbn [bounds rbind levels nodes].
  change (at_ _ 0) with (Ok (E := rtError) (mkLevel (sumZ (climb levelFuel n (Z.of_nat k))) (sumZ (climb levelFuel n (Z.of_nat k)) + n))).
  cbn [rbind lstart lend]. rewrite Hcl, sumZ_nat.
  rewrite copyRefs_spec by (rewrite length_replicate; lia). cbn [rbind].
  rewrite drop_ge by (rewrite length_replicate; lia).
  rewrite <- sumZ_nat.
  assert (counts n (Z.of_nat k) = Z.of_nat <$> length refs :: layers n (Z.of_nat k)) as Hcs.
  { unfold counts. by rewrite Hcl. }
  rewrite Hcs at 1.
  rewrite (buildLevels_spec k) by (done || lia || (rewrite length_take, length_replicate, sumZ_nat; lia)).
  cbn [rbind]. by rewrite app_nil_r.
Qed.
