(* ===== verification/PackedSearch.v ===== *)
(** * Searching a packed R-tree

    [search] ends on any array of nodes; on the array [New] lays out it finds each reference
    that meets the query once, whatever the bag of tickets and whether the nodes are in
    memory or fetched as they are needed; with a min-heap it finds them in their order. *)

From Stdlib Require Import Ascii String ZArith Lia Bool SpecFloat.
From stdpp Require Import base list strings option sets sorting.
From S2P Require Import Prelude GoStd Strconv Bytes Containers Heap PackedRTree PackedBuild.

Local Open Scope Z_scope.

(** ** Bags of tickets

    What [search] relies on: a bag keeps its tickets. *)
Class Bag (bag : ticketBag) : Prop := {
  push_perm : forall q t, push bag q t ≡ₚ t :: q;
  pop_perm : forall q t q', pop bag q = Some (t, q') -> q ≡ₚ t :: q';
  pop_some : forall q, q <> [] -> is_Some (pop bag q);
}.

#[global] Instance stackBag_laws : Bag stackBag.
Proof.
  split; cbn.
  - intros q t. unfold stackPush. by rewrite Permutation_app_comm.
  - intros q t q'. unfold stackPop. destruct (reverse q) as [|x r] eqn:E; [done|]. intros [= -> <-].
    by rewrite <- (reverse_involutive q), E, reverse_cons, Permutation_app_comm.
  - intros q Hq. unfold stackPop. destruct (reverse q) eqn:E; [|by eexists].
    by rewrite <- (reverse_involutive q), E in Hq.
Qed.
#[global] Instance Less_sw : StrictWeak Less.
Proof. split; unfold Less; intros; boolify; lia. Qed.
#[global] Instance heapBag_laws : Bag heapBag.
Proof.
  split; cbn.
  - intros q t. apply Heap.Push_perm.
  - intros q t q'. apply Heap.Pop_perm.
  - intros q Hq. destruct (Heap.Pop_nonempty Less q Hq) as (x & h & E). by exists (x, h).
Qed.

Lemma foldl_push bag `{!Bag bag} q ts : foldl (push bag) q ts ≡ₚ ts ++ q.
Proof.
  revert q. induction ts as [|t ts IH]; intros q; [done|]. cbn [foldl]. rewrite IH, push_perm.
  symmetry. apply Permutation_middle.
Qed.

(** ** Termination on any nodes *)

Lemma at_Err {A} (l : list A) i e : at_ l i = Err e -> e = IndexPanic.
Proof. unfold at_. repeat case_match; congruence. Qed.
Lemma int64_le x : - 2 ^ 63 <= x -> int64 x <= x.
Proof.
  intros Hx. unfold int64, wrap64. pose proof (Z.mod_pos_bound x (2 ^ 64) ltac:(lia)).
  pose proof (Z.div_mod x (2 ^ 64) ltac:(lia)).
  destruct (Z.ltb_spec (x mod 2 ^ 64) (2 ^ 63)); [|lia].
  destruct (Z.le_gt_cases 0 (x / 2 ^ 64)); [lia|]. assert (x / 2 ^ 64 = -1) by nia. lia.
Qed.

Section termination.
Context {S : Type} (bag : ticketBag) `{!Bag bag}.
Context (fetch : option (Z -> Z -> list node -> S -> result rtError (list node * S))).
Context (Hfetch : forall f i j ns st, fetch = Some f -> f i j ns st <> Err OutOfFuel).

(** The work a ticket can cause. *)
Definition weight (k : nat) (t : ticket) : Z := (Z.of_nat k + 1) ^ (level t + 1).
Definition weights (k : nat) (q : list ticket) : Z := zsum (weight k) q.

(** The nodes of a ticket make tickets of the level below, one each at most. *)
Lemma searchNodes_total count b ls leaf lvl ns pos q r :
  match searchNodes bag count b ls leaf lvl ns pos q r with
  | Ok (q', r') => exists ts, q' ≡ₚ ts ++ q /\ (length ts <= count)%nat /\ Forall (fun t => level t = lvl - 1 /\ is_int64 (nodeIndex t)) ts
  | Err e => e = IndexPanic
  end.
Proof.
  revert pos q r. induction count as [|count IH]; intros pos q r.
  { cbn. exists []. split_and!; [done|done|constructor]. }
  cbn [searchNodes]. destruct (at_ ns pos) as [n|e] eqn:Ea; cbn [rbind]; [|by eapply at_Err].
  set (qr := if negb _ then _ else _).
  assert (exists ts, qr.1 ≡ₚ ts ++ q /\ (length ts <= 1)%nat /\ Forall (fun t => level t = lvl - 1 /\ is_int64 (nodeIndex t)) ts)
    as (t1 & P1 & P2 & P3).
  { unfold qr. destruct (negb _); [|destruct leaf]; [exists []; cbn; split_and!; [done|lia|constructor]..|]. exists [mkTicket (int64 (Offset n)) (lvl - 1)]. cbn.
    split_and!; [apply push_perm|done|]. apply Forall_singleton. split; [done|apply int64_range]. }
  clearbody qr. destruct qr as [q1 r1]. specialize (IH (pos + 1) q1 r1).
  destruct (searchNodes _ _ _ _ _ _ _ _ _ _) as [[q2 r2]|]; [|done].
  destruct IH as (ts & H1 & H2 & H3). exists (ts ++ t1). cbn in P1.
  split_and!; [by rewrite H1, P1, <- app_assoc|rewrite length_app; lia|by apply Forall_app].
Qed.

Lemma weights_level k l ts :
  0 <= l -> Forall (fun t => level t = l - 1 /\ is_int64 (nodeIndex t)) ts -> weights k ts = Z.of_nat (length ts) * (Z.of_nat k + 1) ^ l.
Proof.
  intros Hl. induction 1 as [|t ts [Ht _] _ IH]; [done|]. unfold weights in *. rewrite zsum_cons, IH.
  unfold weight. rewrite Ht. replace (l - 1 + 1) with l by lia. cbn [length]. lia.
Qed.

Lemma searchLoop_total fuel prt b ns st q r :
  0 <= nodeSize prt -> q <> [] -> Forall (fun t => -1 <= level t /\ is_int64 (nodeIndex t)) q ->
  weights (Z.to_nat (nodeSize prt)) q <= Z.of_nat fuel ->
  searchLoop bag fetch fuel prt b ns st q r <> Err OutOfFuel.
Proof.
  set (k := Z.to_nat (nodeSize prt)). intros Hk. revert ns st q r.
  induction fuel as [|fuel IH]; intros ns st q r Hq Hl Hw.
  - exfalso. destruct q as [|t q]; [done|]. unfold weights in Hw. rewrite zsum_cons in Hw.
    assert (0 < weight k t) by (apply Z.pow_pos_nonneg; [lia|]; apply Forall_cons in Hl as [[? _] _]; lia).
    assert (0 <= zsum (weight k) q); [|lia]. apply zsum_nonneg. intros x Hx. apply Z.lt_le_incl, Z.pow_pos_nonneg; [lia|].
    rewrite Forall_forall in Hl. destruct (Hl x ltac:(by right)) as [? _]. lia.
  - cbn [searchLoop]. destruct (pop_some q Hq) as [[t q'] Ep]. rewrite Ep. pose proof (pop_perm _ _ _ Ep) as Hp.
    rewrite Hp in Hl. apply Forall_cons in Hl as [[Hlt Hit] Hl].
    destruct (at_ (levels prt) (level t)) as [lv|x] eqn:E1; cbn [rbind]; [|by apply at_Err in E1 as ->].
    destruct (at_ (levels prt) 0) as [l0|x] eqn:E2; cbn [rbind]; [|by apply at_Err in E2 as ->].
    assert (0 <= level t) by (unfold at_ in E1; destruct (Z.ltb_spec (level t) 0); [done|lia]).
    set (e := if _ <? _ then _ else _).
    destruct (match fetch with None => _ | Some f => _ end) as [[ns1 st1]|x] eqn:Ef; cbn [rbind].
    2: { destruct fetch as [f|]; [|done]. intros [= ->]. by eapply Hfetch. }
    pose proof (searchNodes_total (Z.to_nat (e - nodeIndex t)) b (lstart l0) (lstart l0 <=? nodeIndex t) (level t) ns1 (nodeIndex t) q' r) as HN.
    destruct (searchNodes _ _ _ _ _ _ _ _ _ _) as [[q2 r2]|x]; cbn [rbind]; [|by subst].
    destruct HN as (ts & H1 & H2 & H3). destruct q2 as [|t2 q2]; [done|].
    assert (length ts <= k)%nat.
    { etrans; [exact H2|]. pose proof (int64_le (nodeIndex t + nodeSize prt)). unfold is_int64 in Hit.
      unfold e, k. destruct (Z.ltb_spec (lend lv) (int64 (nodeIndex t + nodeSize prt))); lia. }
    apply IH; [done| |].
    + rewrite H1. apply Forall_app. split; [|done].
      eapply Forall_impl; [done|]. intros x [Hx ?]; simpl in Hx. split; [lia|done].
    + unfold weights in *. rewrite H1, zsum_app. rewrite Hp, zsum_cons in Hw.
      fold (weights k ts). rewrite (weights_level k (level t)) by (done || lia).
      unfold weight at 1 in Hw. rewrite Z.pow_add_r, Z.pow_1_r in Hw by lia.
      pose proof (Z.pow_pos_nonneg (Z.of_nat k + 1) (level t) ltac:(lia) ltac:(lia)). nia.
Qed.
End termination.

Lemma search_ends {S} bag `{!Bag bag}
    (fetch : option (Z -> Z -> list node -> S -> result rtError (list node * S))) prt b st :
  (forall f i j ns st, fetch = Some f -> f i j ns st <> Err OutOfFuel) -> 0 <= nodeSize prt ->
  search bag fetch prt b st <> Err OutOfFuel.
Proof.
  intros Hf Hk. unfold search. apply searchLoop_total; [done..| |].
  - apply Forall_singleton. cbn. split; [lia|done].
  - unfold weights, zsum, searchFuel, weight. cbn. rewrite Nat2Z.inj_pow, Nat2Z.inj_succ.
    replace (Z.of_nat (length (levels prt)) - 1 + 1) with (Z.of_nat (length (levels prt))) by lia. lia.
Qed.

(** Whatever the nodes hold, also when they were read from a damaged file, a search
    ends: with results, or with the panic of an index out of range. *)
Theorem search_terminates {S} bag `{!Bag bag}
    (fetch : option (Z -> Z -> list node -> S -> result rtError (list node * S))) prt b st :
  (forall f i j ns st, fetch = Some f -> f i j ns st <> Err OutOfFuel) -> 0 <= nodeSize prt ->
  search bag fetch prt b st <> Err OutOfFuel.
Proof. intros. by apply search_ends. Qed.

(** ** What is below a ticket *)

Fixpoint hitsFrom (b : Box) (i : nat) (refs : list Ref) : list Result :=
  match refs with
  | [] => []
  | r :: refs =>
    (if intersects b (RBox r) then [mkResult (Offset r) (Z.of_nat i)] else []) ++ hitsFrom b (S i) refs
  end.
(** The references that meet the query, in their order. *)
Definition hits (b : Box) (refs : list Ref) : list Result := hitsFrom b 0 refs.

Lemma hitsFrom_app b i l l' : hitsFrom b i (l ++ l') = hitsFrom b i l ++ hitsFrom b (i + length l) l'.
Proof.
  revert i. induction l as [|r l IH]; intros i; [by rewrite Nat.add_0_r|]. cbn [app hitsFrom length].
  rewrite IH, <- app_assoc. by replace (S i + length l)%nat with (i + S (length l))%nat by lia.
Qed.
Lemma hitsFrom_none b i l : (forall r, r ∈ l -> intersects b (RBox r) = false) -> hitsFrom b i l = [].
Proof.
  revert i. induction l as [|r l IH]; intros i Hn; [done|]. cbn [hitsFrom].
  rewrite Hn, IH by set_solver. done.
Qed.

Lemma hitsFrom_bounds b i l x : x ∈ hitsFrom b i l -> Z.of_nat i <= RefIndex x < Z.of_nat (i + length l).
Proof.
  revert i. induction l as [|r l IH]; intros i; [by intros ?%not_elem_of_nil|]. cbn [hitsFrom length].
  intros [Hx|Hx]%elem_of_app.
  - case_match; [|by apply not_elem_of_nil in Hx]. apply list_elem_of_singleton in Hx as ->. simpl. lia.
  - apply IH in Hx. lia.
Qed.
Lemma hitsFrom_sorted b i l : StronglySorted (fun x y => RefIndex x < RefIndex y) (hitsFrom b i l).
Proof.
  revert i. induction l as [|r l IH]; intros i; [constructor|]. cbn [hitsFrom]. case_match; [|apply IH].
  cbn. constructor; [apply IH|]. apply Forall_forall. intros x Hx%hitsFrom_bounds. simpl. lia.
Qed.

Section rows_above.
Context (k : nat) (Hk : (2 <= k)%nat).

(** The rows of the tower, from the leaves up. *)
Fixpoint rowAt (ds : list nat) (row : list node) (l : nat) : list node :=
  match l, ds with
  | O, _ => row
  | S l, _ :: ds' => rowAt ds' (parents k (Z.of_nat (sum_list ds)) row) l
  | S _, [] => []
  end.

Lemma rowAt_length d es r l : chain k d es -> length r = d -> length (rowAt es r l) = default 0%nat ((d :: es) !! l).
Proof.
  revert d r l. induction es as [|e es IH]; intros d r [|l] Hc Hr; cbn [rowAt]; [done..|].
  destruct Hc as [-> Hc]. cbn [lookup list_lookup]. apply IH; [done|]. rewrite length_parents by done. by subst d.
Qed.

Lemma length_tower d es r : chain k d es -> length r = d -> length (tower k es r) = (sum_list es + d)%nat.
Proof.
  revert d r. induction es as [|e es IH]; intros d r Hc Hr; [done|]. destruct Hc as [-> Hc]. cbn [tower].
  rewrite length_app, (IH _ _ Hc) by (rewrite length_parents by done; by subst d). simpl. lia.
Qed.

Lemma tower_row d es r l q x :
  chain k d es -> length r = d -> rowAt es r l !! q = Some x -> tower k es r !! (sum_list (drop l es) + q)%nat = Some x.
Proof.
  revert d r l. induction es as [|e es IH]; intros d r [|l] Hc Hr Hx; cbn [rowAt] in Hx; [done..| |].
  - destruct Hc as [-> Hc]. cbn [tower drop].
    rewrite lookup_app_r; rewrite (length_tower _ es _ Hc) by (rewrite length_parents by done; by subst d).
    2: { simpl. lia. }
    rewrite <- Hx. f_equal. simpl. lia.
  - destruct Hc as [-> Hc]. cbn [tower drop]. assert (length (parents k (Z.of_nat (sum_list ((d + k - 1) / k :: es)%nat)) r) = ((d + k - 1) / k)%nat) as Hp
      by (rewrite length_parents by done; by subst d).
    specialize (IH _ _ _ Hc Hp Hx). rewrite lookup_app_l; [done|]. by apply lookup_lt_Some in IH.
Qed.

Lemma rowAt_offset es r l q x :
  rowAt es r (S l) !! q = Some x -> Offset x = Z.of_nat (sum_list (drop l es) + q * k).
Proof.
  revert r l. induction es as [|e es IH]; intros r l Hx; [done|]. destruct l as [|l]; [|by apply (IH _ l) in Hx].
  cbn [rowAt] in Hx. destruct es; cbn [rowAt] in Hx.
  all: rewrite parents_lookup in Hx by done; case_decide; [|done]; injection Hx as <-; cbn; lia.
Qed.

(** A node [m] rows over the references covers those it stands for. *)
Definition node_ok (refs : list Ref) (m : nat) (row : list node) : Prop :=
  (forall j, (j < length refs)%nat -> (j / k ^ m < length row)%nat) /\
  (forall q x, row !! q = Some x -> no_nan (RBox x) = true /\
     forall j r, refs !! j = Some r -> (j / k ^ m = q)%nat -> covers (RBox x) (RBox r)).

Lemma div_pow_S j m : (j / k ^ S m = j / k ^ m / k)%nat.
Proof. rewrite Nat.pow_succ_r', (Nat.mul_comm k). by rewrite Nat.Div0.div_div. Qed.

Lemma parents_ok refs m s r : node_ok refs m r -> node_ok refs (S m) (parents k s r).
Proof.
  intros [Hf Hn]. split.
  - intros j Hj. rewrite div_pow_S, length_parents by done. specialize (Hf j Hj).
    pose proof (Nat.Div0.div_le_mono (j / k ^ m + k) (length r + k - 1) k ltac:(lia)) as H.
    replace (j / k ^ m + k)%nat with (j / k ^ m + 1 * k)%nat in H by lia. rewrite Nat.div_add in H by lia. lia.
  - intros q x Hx. rewrite parents_lookup in Hx by done. case_decide as Hq; [|done]. injection Hx as <-. cbn [RBox].
    assert (Forall (fun c => no_nan c = true) (RBox <$> take k (drop (q * k) r))) as Hall.
    { apply Forall_forall. intros c (y & -> & Hy)%list_elem_of_fmap.
      apply elem_of_take in Hy as (i & Hy & _). rewrite lookup_drop in Hy. by apply Hn in Hy as [? _]. }
    destruct (foldl_Expand _ EmptyBox eq_refl Hall) as (H1 & _ & H3). split; [done|].
    intros j rf Hj Hdiv. rewrite div_pow_S in Hdiv. set (q' := (j / k ^ m)%nat) in *.
    assert (q * k <= q' < q * k + k)%nat as Hq'.
    { subst q. pose proof (Nat.div_mod_eq q' k). pose proof (Nat.mod_upper_bound q' k ltac:(lia)). lia. }
    destruct (lookup_lt_is_Some_2 r q') as [y Hy]; [apply Hf; by apply lookup_lt_Some in Hj|].
    intros b Hb. apply (H3 (RBox y)).
    + apply list_elem_of_fmap. exists y. split; [done|]. apply elem_of_take. exists (q' - q * k)%nat.
      rewrite lookup_drop. split; [|lia]. rewrite <- Hy. f_equal. lia.
    + destruct (Hn _ _ Hy) as [_ Hcov]. by apply (Hcov j rf).
Qed.

Lemma rowAt_ok refs es r l m : (l <= length es)%nat -> node_ok refs m r -> node_ok refs (m + l) (rowAt es r l).
Proof.
  revert r l m. induction es as [|e es IH]; intros r [|l] m Hl Hr; cbn [rowAt length] in *; try lia; [by rewrite Nat.add_0_r..|].
  rewrite <- Nat.add_succ_comm. apply IH; [lia|]. by apply parents_ok.
Qed.
End rows_above.

Lemma bounds_lookup cs l :
  bounds (Z.of_nat <$> cs) !! l =
  (fun c => mkLevel (Z.of_nat (sum_list (drop (S l) cs))) (Z.of_nat (sum_list (drop (S l) cs) + c))) <$> cs !! l.
Proof.
  revert l. induction cs as [|c cs IH]; intros l; [done|]. destruct l as [|l]; [|by apply IH].
  cbn -[sum_list]. rewrite sumZ_nat. by rewrite Nat2Z.inj_add.
Qed.

Section tree.
Context (refs : list Ref) (k : nat) (Hk : (2 <= k)%nat).
(** The counts of the rows: that of the references, and those above. *)
Context (n : nat) (Hn : length refs = n) (ds : list nat) (Hds : chain k n ds).

Definition start (l : nat) : nat := sum_list (drop l ds).
Definition count (l : nat) : nat := default 0%nat ((n :: ds) !! l).
Definition row (l : nat) : list node := rowAt k ds refs l.
Definition laidOut : list node := tower k ds refs.

Lemma level_at l : (l <= length ds)%nat ->
  at_ (bounds (Z.of_nat <$> n :: ds)) (Z.of_nat l) =
  Ok (mkLevel (Z.of_nat (start l)) (Z.of_nat (start l + count l))).
Proof.
  intros Hl. rewrite at_nat, bounds_lookup. unfold count, start.
  destruct (lookup_lt_is_Some_2 (n :: ds) l) as [c Hc]; [simpl; lia|]. rewrite Hc. done.
Qed.
Lemma length_levels : length (bounds (Z.of_nat <$> n :: ds)) = S (length ds).
Proof.
  change (S (length ds)) with (length (n :: ds)). generalize (n :: ds). clear.
  intros cs. induction cs as [|c cs IH]; [done|]. cbn. by rewrite <- IH.
Qed.

Lemma row_length l : length (row l) = count l.
Proof. apply rowAt_length; [done|done|done]. Qed.
Lemma row_at l q x : row l !! q = Some x -> laidOut !! (start l + q)%nat = Some x.
Proof. eapply tower_row; [done|done|done]. Qed.
Lemma row_some l q : (q < count l)%nat -> exists x, row l !! q = Some x.
Proof. intros Hq. apply lookup_lt_is_Some. by rewrite row_length. Qed.

Lemma chain_lookup d es l c c' :
  chain k d es -> (d :: es) !! l = Some c -> (d :: es) !! S l = Some c' -> c' = ((c + k - 1) / k)%nat.
Proof.
  clear. revert d l. induction es as [|e es IH]; intros d l Hc H1 H2; [by destruct l|]. destruct Hc as [-> Hc].
  destruct l as [|l]; [cbn in *; congruence|]. by apply (IH _ l Hc).
Qed.
Lemma child_lt l q : (S l <= length ds)%nat -> (q < count (S l) -> q * k < count l)%nat.
Proof.
  intros Hl. unfold count. destruct (lookup_lt_is_Some_2 (n :: ds) l) as [c Hc]; [simpl; lia|].
  destruct (lookup_lt_is_Some_2 (n :: ds) (S l)) as [c' Hc']; [simpl; lia|]. rewrite Hc, Hc'. cbn [default].
  rewrite (chain_lookup _ _ _ _ _ Hds Hc Hc'). clear -Hk.
  pose proof (Nat.div_mod_eq (c + k - 1) k). pose proof (Nat.mod_upper_bound (c + k - 1) k ltac:(lia)). simpl. nia.
Qed.
Lemma start_S l : (S l <= length ds)%nat -> start l = (count (S l) + start (S l))%nat.
Proof.
  intros Hl. unfold start, count. destruct (lookup_lt_is_Some_2 ds l) as [c Hc]; [lia|].
  rewrite (drop_S _ _ _ Hc). change ((n :: ds) !! S l) with (ds !! l). by rewrite Hc.
Qed.
Lemma start_le l l' : (l <= l')%nat -> (start l' <= start l)%nat.
Proof.
  intros Hl. unfold start. rewrite <- (take_drop (l' - l) (drop l ds)), sum_list_with_app, drop_drop.
  replace (l + (l' - l))%nat with l' by lia. lia.
Qed.

(** The results among the references from [a] on and before [c]. *)
Definition sl (b : Box) (a c : nat) : list Result := hitsFrom b a (take (c - a) (drop a refs)).

Lemma sl_app b a c d : (a <= c <= d)%nat -> sl b a c ++ sl b c d = sl b a d.
Proof.
  intros H. unfold sl. replace (d - a)%nat with ((c - a) + (d - c))%nat by lia.
  rewrite <- take_take_drop, hitsFrom_app, drop_drop. replace (a + (c - a))%nat with c by lia.
  destruct (decide (c <= length refs)%nat).
  - rewrite length_take, length_drop. replace (a + (c - a) `min` (length refs - a))%nat with c by lia. done.
  - rewrite (drop_ge refs c), take_nil by lia. done.
Qed.
Lemma sl_all b c : (n <= c)%nat -> sl b 0 c = hits b refs.
Proof. intros. unfold sl. rewrite drop_0, take_ge; [done|]. lia. Qed.
Lemma sl_empty b a c : (n <= a)%nat -> sl b a c = [].
Proof. intros. unfold sl. rewrite drop_ge, take_nil by lia. done. Qed.
Lemma sl_one b a x : refs !! a = Some x ->
  sl b a (S a) = if intersects b (RBox x) then [mkResult (Offset x) (Z.of_nat a)] else [].
Proof.
  intros Hx. unfold sl. rewrite (drop_S _ _ _ Hx). replace (S a - a)%nat with 1%nat by lia. cbn.
  by rewrite take_0, app_nil_r.
Qed.

(** A ticket for the nodes of level [l] from the [q]th on. *)
Definition tk (l q : nat) : ticket := mkTicket (Z.of_nat (start l + q)) (Z.of_nat l).
Definition lv (t : ticket) : nat := Z.to_nat (level t).
Definition qq (t : ticket) : nat := Z.to_nat (nodeIndex t) - start (lv t).
Definition ans (b : Box) (t : ticket) : list Result :=
  sl b (qq t * k ^ lv t) ((qq t + k) * k ^ lv t).
Definition valid (t : ticket) : Prop :=
  exists l q, t = tk l q /\ (l <= length ds)%nat /\ (q < count l)%nat.

Lemma lv_tk l q : lv (tk l q) = l.
Proof. unfold lv, tk. simpl. lia. Qed.
Lemma qq_tk l q : qq (tk l q) = q.
Proof. unfold qq. rewrite lv_tk. unfold tk. cbn [nodeIndex]. lia. Qed.

(** The tickets the nodes from the [q]th of level [S l] on give. *)
Fixpoint kids (b : Box) (l q m : nat) : list ticket :=
  match m with
  | O => []
  | S m =>
    match row (S l) !! q with
    | Some x => if intersects b (RBox x) then tk l (q * k) :: kids b l (S q) m else kids b l (S q) m
    | None => kids b l (S q) m
    end
  end.

Context (Hnan : Forall (fun r => no_nan (RBox r) = true) refs).

Lemma row_ok l : (l <= length ds)%nat -> node_ok k refs l (row l).
Proof.
  intros Hl. apply (rowAt_ok k Hk refs ds refs l 0 Hl). split.
  - intros j Hj. by rewrite Nat.pow_0_r, Nat.div_1_r.
  - intros q x Hx. rewrite Forall_lookup in Hnan. split; [by eapply Hnan|].
    intros j r Hj Hq. rewrite Nat.pow_0_r, Nat.div_1_r in Hq. subst j. simplify_eq. by intros ?.
Qed.

(** Nothing is found under a node that does not meet the query. *)
Lemma sl_outside b l q x :
  (l <= length ds)%nat -> row l !! q = Some x -> intersects b (RBox x) = false -> sl b (q * k ^ l) (S q * k ^ l) = [].
Proof.
  intros Hl Hx Hi. apply hitsFrom_none. intros r Hr. apply elem_of_take in Hr as (i & Hi1 & Hi2). rewrite lookup_drop in Hi1.
  destruct (row_ok l Hl) as [_ Hrow]. destruct (Hrow q x Hx) as [_ Hcov].
  apply not_true_iff_false. intros Hb. apply not_true_iff_false in Hi. apply Hi. apply (Hcov _ r Hi1); [|done].
  assert (0 < k ^ l)%nat by (apply Nat.neq_0_lt_0, Nat.pow_nonzero; lia).
  symmetry. apply Nat.div_unique with (r := i); lia.
Qed.

Lemma kids_ans b l q m :
  (S l <= length ds)%nat -> (q + m <= count (S l))%nat ->
  mjoin (ans b <$> kids b l q m) = sl b (q * k ^ S l) ((q + m) * k ^ S l).
Proof.
  intros Hl. revert q. induction m as [|m IH]; intros q Hq.
  { cbn. rewrite Nat.add_0_r. unfold sl. by rewrite Nat.sub_diag, take_0. }
  cbn [kids]. destruct (row_some (S l) q) as [x Hx]; [lia|]. rewrite Hx.
  rewrite <- (sl_app b (q * k ^ S l) (S q * k ^ S l)) by (split; apply Nat.mul_le_mono_r; lia).
  replace (q + S m)%nat with (S q + m)%nat by lia. destruct (intersects b (RBox x)) eqn:E.
  - rewrite fmap_cons. cbn [mjoin list_join]. rewrite <- IH by lia. f_equal. unfold ans. rewrite lv_tk, qq_tk.
    rewrite Nat.pow_succ_r'. f_equal; lia.
  - rewrite (sl_outside b (S l) q x) by done. cbn [app]. apply IH. lia.
Qed.

Lemma kids_elem b l q m t : t ∈ kids b l q m -> exists i x, (q <= i < q + m)%nat /\ row (S l) !! i = Some x /\ t = tk l (i * k).
Proof.
  revert q. induction m as [|m IH]; intros q; [by intros ?%not_elem_of_nil|]. cbn [kids].
  destruct (row (S l) !! q) as [x|] eqn:E; [destruct (intersects b (RBox x))|]; [intros [->|Ht]%elem_of_cons| |].
  1: exists q, x; split_and!; [lia..|done|done].
  all: intros; edestruct IH as (i & y & ? & ? & ?); [done|]; exists i, y; split_and!; [lia..|done|done].
Qed.

Lemma kids_valid b l q m : (S l <= length ds)%nat -> Forall valid (kids b l q m).
Proof.
  intros Hl. apply Forall_forall. intros t (i & x & _ & Hi & ->)%kids_elem. exists l, (i * k)%nat.
  split_and!; [done|lia|]. apply child_lt; [done|]. apply lookup_lt_Some in Hi. by rewrite row_length in Hi.
Qed.

(** ** One ticket *)

Section step.
Context {S : Type} (bag : ticketBag) `{!Bag bag}.

Lemma searchNodes_leaf m b lvl ns q Q R :
  (forall i x, (q <= i < q + m)%nat -> refs !! i = Some x -> ns !! (start 0 + i)%nat = Some x) -> (q + m <= n)%nat ->
  searchNodes bag m b (Z.of_nat (start 0)) true lvl ns (Z.of_nat (start 0 + q)) Q R = Ok (Q, R ++ sl b q (q + m)).
Proof.
  revert q R. induction m as [|m IH]; intros q R Hns Hq.
  { cbn. rewrite Nat.add_0_r. unfold sl. by rewrite Nat.sub_diag, take_0, app_nil_r. }
  destruct (lookup_lt_is_Some_2 refs q) as [x Hx]; [lia|]. cbn [searchNodes]. rewrite at_nat, (Hns q x) by (done || lia). cbn [rbind].
  rewrite <- (sl_app b q (Datatypes.S q)) by lia. rewrite (sl_one b q x Hx).
  rewrite of_nat_succ, <- Nat.add_succ_r. replace (q + Datatypes.S m)%nat with (Datatypes.S q + m)%nat by lia.
  destruct (intersects b (RBox x)); cbn [negb].
  - rewrite IH by (lia || (intros; apply Hns; [lia|done])). rewrite app_assoc.
    by replace (Z.of_nat (start 0 + q) - Z.of_nat (start 0)) with (Z.of_nat q) by lia.
  - rewrite IH by (lia || (intros; apply Hns; [lia|done])). done.
Qed.

Lemma searchNodes_inner m b ls l ns q Q R :
  (Datatypes.S l <= length ds)%nat -> Z.of_nat (length laidOut) < 2 ^ 63 ->
  (forall i x, (q <= i < q + m)%nat -> row (Datatypes.S l) !! i = Some x -> ns !! (start (Datatypes.S l) + i)%nat = Some x) ->
  (q + m <= count (Datatypes.S l))%nat ->
  searchNodes bag m b ls false (Z.of_nat (Datatypes.S l)) ns (Z.of_nat (start (Datatypes.S l) + q)) Q R =
  Ok (foldl (push bag) Q (kids b l q m), R).
Proof.
  intros Hl H63. revert q Q. induction m as [|m IH]; intros q Q Hns Hq; [done|].
  destruct (row_some (Datatypes.S l) q) as [x Hx]; [lia|]. cbn [searchNodes kids]. rewrite at_nat, (Hns q x) by (done || lia). cbn [rbind].
  rewrite Hx, of_nat_succ, <- Nat.add_succ_r. destruct (intersects b (RBox x)); cbn [negb].
  - rewrite IH by (lia || (intros; apply Hns; [lia|done])). cbn [foldl]. do 4 f_equal.
    unfold tk. f_equal; [|lia]. pose proof (rowAt_offset k Hk _ _ _ _ _ Hx) as Ho. fold (start l) in Ho.
    rewrite Ho. apply int64_id.
    destruct (row_some l (q * k)) as [y Hy]; [apply child_lt; [done|lia]|].
    apply row_at, lookup_lt_Some in Hy. unfold is_int64. lia.
  - rewrite IH by (lia || (intros; apply Hns; [lia|done])). done.
Qed.

(** The nodes a ticket asks for are those of the tree; a fetch may fail. *)
Context (fetch : option (Z -> Z -> list node -> S -> result rtError (list node * S))).
Context (I : list node -> S -> Prop) (fails : rtError -> Prop).
Context (Hfetch : match fetch with
  | None => forall ns st, I ns st -> ns = laidOut
  | Some f => forall i j ns st, I ns st -> (i < j <= length laidOut)%nat ->
    match f (Z.of_nat i) (Z.of_nat j) ns st with
    | Ok (ns', st') => I ns' st' /\ forall p, (i <= p < j)%nat -> ns' !! p = laidOut !! p
    | Err e => fails e
    end
  end).
Context (H63 : Z.of_nat (length laidOut) + Z.of_nat k < 2 ^ 63).

Definition shape (ns : list node) : packedRTree :=
  mkTree (Z.of_nat n) (Z.of_nat k) (bounds (Z.of_nat <$> n :: ds)) ns.

(** The tickets and results after a ticket. *)
Definition after (b : Box) (l q : nat) (Q : list ticket) (R : list Result) : list ticket * list Result :=
  match l with
  | O => (Q, R ++ ans b (tk 0 q))
  | Datatypes.S l' => (foldl (push bag) Q (kids b l' q (k `min` (count l - q))), R)
  end.

Lemma count_covers l : (l <= length ds)%nat -> (n <= count l * k ^ l)%nat.
Proof.
  intros Hl. destruct (row_ok l Hl) as [Hf _]. destruct (decide (n = 0)%nat); [lia|].
  specialize (Hf (n - 1)%nat ltac:(lia)). rewrite row_length in Hf.
  assert (k ^ l <> 0)%nat by (apply Nat.pow_nonzero; lia).
  pose proof (Nat.div_mod_eq (n - 1) (k ^ l)). pose proof (Nat.mod_upper_bound (n - 1) (k ^ l)). nia.
Qed.

Lemma ans_clip b l q : (l <= length ds)%nat -> (q < count l)%nat ->
  sl b (q * k ^ l) ((q + k `min` (count l - q)) * k ^ l) = ans b (tk l q).
Proof.
  intros Hl Hq. unfold ans. rewrite lv_tk, qq_tk. pose proof (count_covers l Hl).
  destruct (Nat.min_spec k (count l - q)) as [[? ->]|[? ->]]; [done|].
  rewrite <- (sl_app b _ ((q + (count l - q)) * k ^ l) ((q + k) * k ^ l)) by (split; apply Nat.mul_le_mono_r; lia).
  rewrite (sl_empty b ((q + (count l - q)) * k ^ l)); [by rewrite app_nil_r|]. by replace (q + (count l - q))%nat with (count l) by lia.
Qed.

Lemma position_lt l q : (q < count l)%nat -> (start l + q < length laidOut)%nat.
Proof. intros [x Hx]%row_some. by apply row_at, lookup_lt_Some in Hx. Qed.

Lemma ticket_end l q : (l <= length ds)%nat -> (q < count l)%nat ->
  let e := int64 (nodeIndex (tk l q) + Z.of_nat k) in
  (if Z.of_nat (start l + count l) <? e then Z.of_nat (start l + count l) else e) =
  Z.of_nat (start l + q + k `min` (count l - q)).
Proof.
  intros Hl Hq. cbv zeta. pose proof (position_lt l q Hq). cbn [tk nodeIndex].
  rewrite int64_id by (unfold is_int64; lia).
  destruct (Z.ltb_spec (Z.of_nat (start l + count l)) (Z.of_nat (start l + q) + Z.of_nat k)); lia.
Qed.

Lemma ticket_leaf l q : (l <= length ds)%nat -> (q < count l)%nat ->
  (Z.of_nat (start 0) <=? nodeIndex (tk l q)) = (l =? 0)%nat.
Proof.
  intros Hl Hq. cbn [tk nodeIndex]. destruct l as [|l]; [apply Z.leb_le; lia|]. apply Z.leb_gt.
  pose proof (start_S l Hl). pose proof (start_le 0 l). lia.
Qed.

Lemma iterate fuel b ns0 ns st l q Q Q' R :
  pop bag Q = Some (tk l q, Q') -> (l <= length ds)%nat -> (q < count l)%nat -> I ns st ->
  (exists e, fails e /\ searchLoop bag fetch (Datatypes.S fuel) (shape ns0) b ns st Q R = Err e) \/
  (exists ns' st', I ns' st' /\
    searchLoop bag fetch (Datatypes.S fuel) (shape ns0) b ns st Q R =
    match after b l q Q' R with
    | ([], R2) => Ok (R2, st')
    | (Q2, R2) => searchLoop bag fetch fuel (shape ns0) b ns' st' Q2 R2
    end).
Proof.
  intros Hpop Hl Hq HI. pose proof (position_lt l q Hq) as Hpos. cbn [searchLoop]. rewrite Hpop.
  cbn [levels nodeSize shape level tk]. rewrite level_at by done. cbn [rbind lend]. rewrite (ticket_end l q) by done.
  change (at_ (bounds (Z.of_nat <$> n :: ds)) 0) with (at_ (bounds (Z.of_nat <$> n :: ds)) (Z.of_nat 0)).
  rewrite (level_at 0) by lia. cbn [rbind lstart]. rewrite (ticket_leaf l q) by done.
  set (m := (k `min` (count l - q))%nat). change (nodeIndex (tk l q)) with (Z.of_nat (start l + q)).
  assert (start l + q + m <= length laidOut)%nat as Hend.
  { pose proof (position_lt l (count l - 1)). lia. }
  assert (exists x, match fetch with None => Ok (ns, st) | Some f => f (Z.of_nat (start l + q)) (Z.of_nat (start l + q + m)) ns st end = x /\
    match x with
    | Ok (ns', st') => I ns' st' /\ forall p, (start l + q <= p < start l + q + m)%nat -> ns' !! p = laidOut !! p
    | Err e => fails e
    end) as ([[ns' st']|e] & -> & Hx); cbn [rbind].
  { destruct fetch as [f|]; [eexists; split; [done|]; apply Hfetch; [done|lia]|].
    eexists; split; [done|]. split; [done|]. by rewrite (Hfetch _ _ HI). }
  2: { left. by exists e. }
  right. exists ns', st'. destruct Hx as [HI' Hns]. split; [done|].
  replace (Z.to_nat (Z.of_nat (start l + q + m) - Z.of_nat (start l + q))) with m by lia.
  assert (forall i x, (q <= i < q + m)%nat -> row l !! i = Some x -> ns' !! (start l + i)%nat = Some x) as Hrow.
  { intros i x Hi Hx. rewrite Hns by lia. by apply row_at. }
  destruct l as [|l]; cbn [Nat.eqb after].
  - assert (q + m <= n)%nat by (unfold m; assert (count 0 = n) by done; lia).
    assert (row 0 = refs) as Hr0 by (unfold row; by destruct ds). rewrite Hr0 in Hrow.
    rewrite searchNodes_leaf by done. cbn [rbind].
    pose proof (ans_clip b 0 q ltac:(lia) Hq) as Ha. rewrite !Nat.mul_1_r in Ha. fold m in Ha. rewrite Ha. by destruct Q'.
  - rewrite searchNodes_inner by (done || lia). cbn [rbind]. by destruct (foldl _ _ _).
Qed.

(** ** All tickets *)

Lemma after_ans b l q Q Q' R R' :
  (l <= length ds)%nat -> (q < count l)%nat -> Forall valid Q -> after b l q Q R = (Q', R') ->
  Forall valid Q' /\ R' ++ mjoin (ans b <$> Q') ≡ₚ R ++ ans b (tk l q) ++ mjoin (ans b <$> Q).
Proof.
  intros Hl Hq HQ. destruct l as [|l]; cbn [after]; intros [= <- <-]; [by rewrite <- app_assoc|].
  split; [rewrite (foldl_push bag); apply Forall_app; split; [by apply kids_valid|done]|].
  assert (ans b <$> foldl (push bag) Q (kids b l q (k `min` (count (Datatypes.S l) - q))) ≡ₚ
    (ans b <$> kids b l q (k `min` (count (Datatypes.S l) - q))) ++ (ans b <$> Q)) as -> by (rewrite <- fmap_app; f_equiv; apply (foldl_push bag)).
  rewrite join_app, kids_ans by lia. by rewrite (ans_clip b (Datatypes.S l) q).
Qed.

Lemma searchLoop_perm fuel b ns0 ns st Q R :
  Q <> [] -> Forall valid Q -> I ns st ->
  match searchLoop bag fetch fuel (shape ns0) b ns st Q R with
  | Ok (R', st') => R' ≡ₚ R ++ mjoin (ans b <$> Q) /\ exists ns', I ns' st'
  | Err e => fails e \/ e = OutOfFuel
  end.
Proof.
  revert ns st Q R. induction fuel as [|fuel IH]; intros ns st Q R HQ Hv HI; [by right|].
  destruct (pop_some Q HQ) as [[t Q1] Hpop]. pose proof (pop_perm _ _ _ Hpop) as Hp.
  rewrite Hp in Hv. apply Forall_cons in Hv as [(l & q & -> & Hl & Hq) Hv].
  destruct (iterate fuel b ns0 ns st l q Q Q1 R Hpop Hl Hq HI) as [(e & He & ->)|(ns' & st' & HI' & ->)]; [by left|].
  destruct (after b l q Q1 R) as [Q2 R2] eqn:Ea. destruct (after_ans _ _ _ _ _ _ _ Hl Hq Hv Ea) as [Hv2 Ha].
  assert (R2 ++ mjoin (ans b <$> Q2) ≡ₚ R ++ mjoin (ans b <$> Q)) as Hall by (rewrite Ha; f_equiv; by rewrite Hp).
  destruct Q2 as [|t2 Q2]; [split; [rewrite <- Hall; by rewrite app_nil_r|eauto]|].
  specialize (IH ns' st' (t2 :: Q2) R2 ltac:(done) Hv2 HI'). destruct (searchLoop _ _ _ _ _ _ _ _ _) as [[R' s']|e]; [|done].
  destruct IH as [H1 H2]. split; [by rewrite H1, Hall|done].
Qed.

Context (Hn1 : (1 <= n)%nat) (Htop : count (length ds) = 1%nat).
Context (Hfuel : forall f i j ns st, fetch = Some f -> f i j ns st <> Err OutOfFuel).

Definition top : ticket := tk (length ds) 0.
Lemma top_eq ns : mkTicket 0 (Z.of_nat (length (levels (shape ns))) - 1) = top.
Proof.
  cbn [shape levels]. rewrite length_levels. unfold top, tk, start. rewrite drop_all. f_equal. lia.
Qed.
Lemma top_valid : Forall valid [top].
Proof. apply Forall_singleton. exists (length ds), 0%nat. split_and!; [done|lia|]. rewrite Htop. lia. Qed.
Lemma top_ans b : ans b top = hits b refs.
Proof.
  unfold ans, top. rewrite lv_tk, qq_tk, Nat.mul_0_l. apply sl_all.
  pose proof (count_covers (length ds) ltac:(lia)). rewrite Htop in *. nia.
Qed.

Lemma search_spec b ns st :
  I ns st ->
  match search bag fetch (shape ns) b st with
  | Ok (R, st') => R ≡ₚ hits b refs /\ exists ns', I ns' st'
  | Err e => fails e
  end.
Proof.
  intros HI. pose proof (search_ends bag fetch (shape ns) b st Hfuel ltac:(simpl; lia)) as Ht.
  unfold search in *. rewrite top_eq in *. cbn [nodes shape] in *.
  pose proof (searchLoop_perm (searchFuel (shape ns)) b ns ns st [top] [] ltac:(done) top_valid HI) as Hp.
  cbn [fmap list_fmap mjoin list_join] in Hp. rewrite app_nil_r, top_ans in Hp.
  destruct (searchLoop _ _ _ _ _ _ _ _ _) as [[R st']|e]; [done|]. destruct Hp as [Hp| ->]; [done|by destruct Ht].
Qed.
End step.

(** ** The order of a stream

    With the heap the tickets come level by level and in order: all are at level [l] from
    the [m]th node on, or at the level below for nodes before those under the [m]th. *)

Section order.
Context {S : Type} (fetch : option (Z -> Z -> list node -> S -> result rtError (list node * S))).
Context (I : list node -> S -> Prop) (fails : rtError -> Prop).
Context (Hfetch : match fetch with
  | None => forall ns st, I ns st -> ns = laidOut
  | Some f => forall i j ns st, I ns st -> (i < j <= length laidOut)%nat ->
    match f (Z.of_nat i) (Z.of_nat j) ns st with
    | Ok (ns', st') => I ns' st' /\ forall p, (i <= p < j)%nat -> ns' !! p = laidOut !! p
    | Err e => fails e
    end
  end).
Context (H63 : Z.of_nat (length laidOut) + Z.of_nat k < 2 ^ 63).

Definition pending (l m : nat) (t : ticket) : Prop :=
  exists i, ((t = tk l (i * k) /\ m <= i * k)%nat \/ (exists l', l = Datatypes.S l' /\ t = tk l' (i * k) /\ i < m)%nat).

(** Results so far: those before the [m]th leaf, and none before the leaves. *)
Definition foundSoFar (l m : nat) (R : list Result) : Prop :=
  StronglySorted (fun x y => RefIndex x < RefIndex y) R /\
  match l with O => Forall (fun x => RefIndex x < Z.of_nat m) R | Datatypes.S _ => R = [] end.

Definition inOrder (l m : nat) (Q : list ticket) (R : list Result) : Prop :=
  Heap.heap Less Q /\ NoDup Q /\ Forall valid Q /\ Forall (pending l m) Q /\ foundSoFar l m R.

Lemma tk_inj l q l' q' : tk l q = tk l' q' -> l = l' /\ q = q'.
Proof. unfold tk. intros [= H1 H2]. assert (l = l') as -> by lia. split; [done|]. lia. Qed.

(** Without tickets of a level, the level below is next. *)
Lemma inOrder_next l m Q R :
  (forall i, tk (Datatypes.S l) (i * k) ∉ Q) -> inOrder (Datatypes.S l) m Q R -> inOrder l 0 Q R.
Proof.
  intros Hno (H1 & H2 & H3 & H4 & [H5 H6]). split_and!; [done..| |].
  - rewrite Forall_forall in *. intros t Ht. destruct (H4 t Ht) as [i [[-> _]|(l' & [= <-] & -> & Hi)]]; [by destruct (Hno i)|].
    exists i. left. split; [done|lia].
  - split; [done|]. rewrite H6. by destruct l.
Qed.

(** The least ticket is of the upper level if there is one. *)
Lemma least_level l m Q t Q' R :
  inOrder l m Q R -> pop heapBag Q = Some (t, Q') ->
  exists l' m' i, t = tk l' (i * k) /\ (m' <= i * k)%nat /\ inOrder l' m' Q R.
Proof.
  intros Ho Hpop. pose proof Ho as (H1 & H2 & H3 & H4 & H5). pose proof (Heap.Pop_perm _ _ _ _ Hpop) as Hp.
  pose proof (Heap.Pop_spec _ _ _ _ H1 Hpop) as [_ Hmin].
  assert (t ∈ Q) as Ht by (rewrite Hp; by left).
  rewrite Forall_forall in H4. destruct (H4 t Ht) as [i [[-> Hi]|(l' & -> & -> & Hi)]]; [by exists l, m, i|].
  exists l', 0%nat, i. split_and!; [done|lia|]. apply (inOrder_next _ m); [|done]. intros j Hj.
  rewrite Forall_forall in H3. destruct (H3 _ Hj) as (l2 & q2 & [<- <-]%tk_inj & Hl & Hq).
  rewrite Hp in Hj. apply elem_of_cons in Hj as [[? _]%tk_inj|Hj]; [lia|]. specialize (Hmin _ Hj).
  unfold Less in Hmin. cbn [tk nodeIndex] in Hmin. apply Z.ltb_ge in Hmin. pose proof (start_S l' Hl). lia.
Qed.

Lemma kids_NoDup b l q m : NoDup (kids b l q m).
Proof.
  revert q. induction m as [|m IH]; intros q; cbn [kids]; [constructor|].
  destruct (row _ !! q) as [x0|]; [destruct (intersects b (RBox x0))|]; [|apply IH..]. constructor; [|apply IH].
  intros (i & x & Hi & _ & [_ E]%tk_inj)%kids_elem. nia.
Qed.
Lemma pushes_heap Q ts : Heap.heap Less Q -> Heap.heap Less (foldl (push heapBag) Q ts).
Proof.
  revert Q. induction ts as [|t ts IH]; intros Q HQ; [done|]. cbn [foldl]. apply IH.
  change (push heapBag Q t) with (Heap.Push Less Q t). apply Heap.Push_heap; [apply _|done].
Qed.

(** What is left is further on. *)
Lemma rest_pending l m i Q Q' R :
  inOrder l m Q R -> (m <= i * k)%nat -> pop heapBag Q = Some (tk l (i * k), Q') ->
  Forall (fun t => exists j, (t = tk l (j * k) /\ i * k + k <= j * k)%nat \/
                             (exists l', l = Datatypes.S l' /\ t = tk l' (j * k) /\ j < m)%nat) Q'.
Proof.
  intros (H1 & H2 & H3 & H4 & H5) Hm Hpop. pose proof (Heap.Pop_perm _ _ _ _ Hpop) as Hp.
  pose proof (Heap.Pop_spec _ _ _ _ H1 Hpop) as [_ Hmin]. rewrite Hp in H2, H4.
  apply NoDup_cons in H2 as [Hnot _]. apply Forall_cons in H4 as [_ H4]. rewrite Forall_forall in *.
  intros t Ht. destruct (H4 t Ht) as [j [[-> Hj]|(l' & -> & -> & Hj)]]; exists j; [left|right; by exists l'].
  split; [done|]. specialize (Hmin _ Ht). unfold Less in Hmin. cbn [tk nodeIndex] in Hmin. apply Z.ltb_ge in Hmin.
  assert (i <> j) by (intros ->; done). nia.
Qed.

Lemma after_order b l m i Q Q' Q2 R R2 :
  inOrder l m Q R -> (m <= i * k)%nat -> pop heapBag Q = Some (tk l (i * k), Q') ->
  after heapBag b l (i * k) Q' R = (Q2, R2) -> inOrder l (i * k + k) Q2 R2.
Proof.
  intros Ho Hm Hpop Ha. pose proof (rest_pending _ _ _ _ _ _ Ho Hm Hpop) as Hrest.
  destruct Ho as (H1 & H2 & H3 & H4 & [H5 H6]). pose proof (Heap.Pop_perm _ _ _ _ Hpop) as Hp.
  pose proof (Heap.Pop_spec _ _ _ _ H1 Hpop) as [Hh _]. rewrite Hp in H2, H3.
  apply NoDup_cons in H2 as [_ H2]. apply Forall_cons in H3 as [(l0 & q0 & [<- <-]%tk_inj & Hl & Hq) H3].
  destruct l as [|l]; cbn [after] in Ha; injection Ha as <- <-.
  - split_and!; [done..| |].
    + eapply Forall_impl; [done|]. intros t [j [[-> Hj]|(l' & ? & _)]]; [|done]. exists j. by left.
    + unfold ans. rewrite lv_tk, qq_tk, !Nat.mul_1_r. split.
      * apply StronglySorted_app_2; [|done|apply hitsFrom_sorted].
        intros x y Hx Hy%hitsFrom_bounds. rewrite Forall_forall in H6. specialize (H6 x Hx). lia.
      * apply Forall_app. split; [eapply Forall_impl; [done|]; simpl; lia|].
        apply Forall_forall. intros y Hy%hitsFrom_bounds. rewrite length_take in Hy. lia.
  - split_and!; [by apply pushes_heap| | | |split; [done|done]].
    + rewrite (foldl_push heapBag). apply NoDup_app. split_and!; [apply kids_NoDup| |done].
      intros t (j & x & Hj & _ & ->)%kids_elem Ht. rewrite Forall_forall in Hrest.
      destruct (Hrest _ Ht) as [j' [[[? _]%tk_inj _]|(l' & [= <-] & [_ E]%tk_inj & Hj')]]; [lia|]. nia.
    + rewrite (foldl_push heapBag). apply Forall_app. split; [by apply kids_valid|done].
    + rewrite (foldl_push heapBag). apply Forall_app. split.
      * apply Forall_forall. intros t (j & x & Hj & _ & ->)%kids_elem. exists j. right. exists l. split_and!; [done..|lia].
      * eapply Forall_impl; [done|]. intros t [j [[-> Hj]|(l' & -> & -> & Hj)]]; exists j; [by left|right].
        exists l'. split_and!; [done..|lia].
Qed.

Lemma searchLoop_sorted fuel b ns0 ns st l m Q R R' st' :
  Q <> [] -> inOrder l m Q R -> I ns st ->
  searchLoop heapBag fetch fuel (shape ns0) b ns st Q R = Ok (R', st') ->
  StronglySorted (fun x y => RefIndex x < RefIndex y) R'.
Proof.
  revert ns st l m Q R. induction fuel as [|fuel IH]; intros ns st l m Q R HQ Ho HI; [done|].
  destruct (pop_some (bag := heapBag) Q HQ) as [[t Q1] Hpop].
  destruct (least_level _ _ _ _ _ _ Ho Hpop) as (l1 & m1 & i & -> & Hm & Ho1).
  pose proof Ho1 as (_ & _ & H3 & _). rewrite (Heap.Pop_perm _ _ _ _ Hpop) in H3.
  apply Forall_cons in H3 as [(l0 & q0 & [<- <-]%tk_inj & Hl & Hq) _].
  destruct (iterate heapBag fetch I fails Hfetch H63 fuel b ns0 ns st l1 (i * k) Q Q1 R Hpop Hl Hq HI) as [(e & He & ->)|(ns' & st1 & HI' & ->)]; [done|].
  destruct (after heapBag b l1 (i * k) Q1 R) as [Q2 R2] eqn:Ea.
  pose proof (after_order _ _ _ _ _ _ _ _ _ Ho1 Hm Hpop Ea) as Ho2.
  destruct Q2 as [|t2 Q2]; [|by eapply IH]. intros [= <- <-]. apply Ho2.
Qed.

Context (Hn1 : (1 <= n)%nat) (Htop : count (length ds) = 1%nat).
Context (Hfuel : forall f i j ns st, fetch = Some f -> f i j ns st <> Err OutOfFuel).

Lemma search_sorted b ns st :
  I ns st ->
  match search heapBag fetch (shape ns) b st with
  | Ok (R, st') => R = hits b refs /\ exists ns', I ns' st'
  | Err e => fails e
  end.
Proof.
  intros HI. pose proof (search_spec heapBag fetch I fails Hfetch H63 Hn1 Htop Hfuel b ns st HI) as Hs.
  destruct (search _ _ _ _ _) as [[R st']|e] eqn:E; [|done]. destruct Hs as [Hp Hns]. split; [|done].
  assert (AntiSymm (=) (fun x y : Result => RefIndex x < RefIndex y)) by (intros x y ? ?; lia).
  eapply (StronglySorted_unique (fun x y : Result => RefIndex x < RefIndex y)); [|apply hitsFrom_sorted|done].
  unfold search in E. rewrite top_eq in E by done. eapply (searchLoop_sorted _ b ns _ _ (length ds) 0 [top] []); [done| |done|exact E].
  split_and!; [|apply NoDup_singleton|by apply top_valid| |].
  - intros j Hj. simpl in Hj. lia.
  - apply Forall_singleton. exists 0%nat. left. split; [done|lia].
  - split; [constructor|]. by destruct (length ds).
Qed.
End order.
End tree.
