(* ===== verification/PackedStream.v ===== *)
(** * Packed R-trees in files

    [Marshal], [Unmarshal] and [Seek] with the byte order of the host as a parameter: the
    functions of [native_littleendian.go] and [native_bigendian.go]. A reader is its
    contents and a position; reading past the end fails. *)

From Stdlib Require Import Ascii String ZArith Lia Bool SpecFloat.
From stdpp Require Import base list strings option sets sorting.
From S2P Require Import Prelude GoStd Strconv Bytes Containers Heap PackedRTree PackedBuild PackedSearch.

Local Open Scope Z_scope.

(** ** Nodes in memory *)

(** A 64-bit word on a big-endian or a little-endian host. *)
Definition wordBytes (big : bool) (z : Z) : list ascii := if big then be_bytes 8 z else le_bytes 8 z.
Definition wordValue (big : bool) (l : list ascii) : Z := if big then be_value l else le_value l.

Definition nodeBytes (big : bool) (nd : node) : list ascii :=
  wordBytes big (XMin (RBox nd)) ++ wordBytes big (YMin (RBox nd)) ++ wordBytes big (XMax (RBox nd)) ++
  wordBytes big (YMax (RBox nd)) ++ wordBytes big (wrap64 (Offset nd)).
Definition nodesBytes (big : bool) (ns : list node) : list ascii := ns ≫= nodeBytes big.

Definition nodeOf (big : bool) (l : list ascii) : node :=
  let word i := wordValue big (take 8 (drop (8 * i) l)) in
  mkRef (mkBox (word 0%nat) (word 1%nat) (word 2%nat) (word 3%nat)) (int64 (word 4%nat)).
(** The memory of [count] nodes. *)
Fixpoint nodesOf (big : bool) (count : nat) (l : list ascii) : list node :=
  match count with O => [] | S count => nodeOf big (take 40 l) :: nodesOf big count (drop 40 l) end.

(** ** Byte orders ([native_*.go]) *)

(** Reverse each group of eight bytes; an incomplete group is out of range. *)
Fixpoint swapGroups (fuel : nat) (b : list ascii) : result rtError (list ascii) :=
  match fuel, b with
  | _, [] => Ok []
  | S fuel, a0 :: a1 :: a2 :: a3 :: a4 :: a5 :: a6 :: a7 :: r =>
    let? r := swapGroups fuel r in Ok (a7 :: a6 :: a5 :: a4 :: a3 :: a2 :: a1 :: a0 :: r)
  | _, _ => Err IndexPanic
  end.
Definition fixLittleEndianOctets (big : bool) (b : list ascii) : result rtError (list ascii) :=
  if big then swapGroups (length b) b else Ok b.

(** The buffer of the big-endian writer: eight bytes at a time from [p] at [n]; [room] is
    the length of the buffer. *)
Fixpoint fillBuffer (fuel : nat) (p : list ascii) (n i room : nat) : result rtError (list ascii) :=
  match fuel with
  | O => Ok []
  | S fuel =>
    if (room <=? i)%nat then Ok []
    else if (length p <=? n + i + 7)%nat || (room <=? i + 7)%nat then Err IndexPanic
    else
      let? r := fillBuffer fuel p n (i + 8) room in
      Ok (reverse (take 8 (drop (n + i) p)) ++ r)
  end.
Fixpoint writeBuffers (fuel : nat) (p : list ascii) (n room : nat) : result rtError (list ascii) :=
  match fuel with
  | O => Err OutOfFuel
  | S fuel =>
    if (n <? length p)%nat then
      let room := if (length p - n <? room)%nat then (length p - n)%nat else room in
      let? buf := fillBuffer room p n 0 room in
      let? rest := writeBuffers fuel p (n + room) room in
      Ok (buf ++ rest)
    else Ok []
  end.
Definition bufferSize : nat := Z.to_nat 8095.
Definition writeLittleEndianOctets (big : bool) (p : list ascii) : result rtError (list ascii) :=
  if big then
    if negb (length p mod 8 =? 0)%nat then Err (Panic "len(p) must be exact multiple of 8")
    else writeBuffers (S (length p)) p 0 bufferSize
  else Ok p.

(** ** Writing and reading a whole index *)

(** The bytes written to [w]. *)
Definition Marshal (big : bool) (prt : packedRTree) : result rtError (list ascii) :=
  match nodes prt with
  | [] => Err IndexPanic
  | _ => writeLittleEndianOctets big (nodesBytes big (nodes prt))
  end.

(** An [io.ReadSeeker]. *)
Record reader := mkReader { content : list ascii; pos : Z }.

(** [io.ReadFull] of [count] bytes. *)
Definition ReadFull (r : reader) (count : nat) : result ioError (list ascii) * reader :=
  let avail := drop (Z.to_nat (pos r)) (content r) in
  if (count <=? length avail)%nat then (Ok (take count avail), mkReader (content r) (pos r + Z.of_nat count))
  else (Err (if (length avail =? 0)%nat then EOF else ErrUnexpectedEOF),
        mkReader (content r) (pos r + Z.of_nat (length avail))).

(** [Seek(offset, io.SeekCurrent)] and [Seek(offset, io.SeekStart)]. *)
Definition seekTo (r : reader) (p : Z) : result ioError (Z * reader) :=
  if p <? 0 then Err NegativePosition else Ok (p, mkReader (content r) p).
Definition SeekCurrent (r : reader) (offset : Z) : result ioError (Z * reader) := seekTo r (pos r + offset).
Definition SeekStart (r : reader) (offset : Z) : result ioError (Z * reader) := seekTo r offset.

Definition Unmarshal (big : bool) (r : reader) (numRefs nodeSize : Z) : result rtError (packedRTree * reader) :=
  let? _ := Size numRefs nodeSize in
  let? prt := noo numRefs nodeSize in
  let count := length (nodes prt) in
  match ReadFull r (40 * count) with
  | (Err e, _) => Err (Wrapped "failed to read index bytes" [] e)
  | (Ok dst, r) =>
    let? dst := fixLittleEndianOctets big dst in
    Ok (mkTree numRefs nodeSize (levels prt) (nodesOf big count dst), r)
  end.

(** ** Searching a stream ([Seek]) *)

Definition readLittleEndianNodes (big : bool) (r : reader) (i j : Z) (ns : list node)
    : result rtError (result ioError (list node) * reader) :=
  if (i <? 0) || (Z.of_nat (length ns) <=? i) || (j <? i) then Err IndexPanic
  else
    let count := Z.to_nat (j - i) in
    match ReadFull r (40 * count) with
    | (Err e, r) => Ok (Err e, r)
    | (Ok b, r) =>
      let? b := fixLittleEndianOctets big b in
      Ok (Ok (take (Z.to_nat i) ns ++ nodesOf big count b ++ drop (Z.to_nat j) ns), r)
    end.

(** The closure [fetch]; its state is the reader and the variable [offset]. *)
Definition fetchNodes (big : bool) (startOffset : Z) (i j : Z) (ns : list node) (st : reader * Z)
    : result rtError (list node * (reader * Z)) :=
  let '(rs, offset) := st in
  let rel := startOffset + i * numNodeBytes - offset in
  let? (offset, rs) :=
    if negb (rel =? 0) then
      match SeekCurrent rs rel with
      | Ok (o, rs) => Ok (o, rs)
      | Err e => Err (Wrapped "failed to seek to node %d, rel. offset %d" [i; rel] e)
      end
    else Ok (offset, rs) in
  let? (res, rs) := readLittleEndianNodes big rs i j ns in
  match res with
  | Err e => Err (Wrapped "failed to read nodes [%d..%d), rel. offset %d" [i; j; rel] e)
  | Ok ns => Ok (ns, (rs, offset + (j - i) * numNodeBytes))
  end.

Definition Seek (big : bool) (rs : reader) (numRefs nodeSize : Z) (b : Box) : result rtError (list Result * reader) :=
  match SeekCurrent rs 0 with
  | Err e => Err (Wrapped "failed to cache index start offset" [] e)
  | Ok (startOffset, rs) =>
    let? sz := Size numRefs nodeSize in
    if 2 ^ 63 - 1 - startOffset <? sz then Err (Text "index end offset overflows int64")
    else
      let endOffset := startOffset + sz in
      let? prt := noo numRefs nodeSize in
      let? (sr, (rs, offset)) :=
        search heapBag (Some (fetchNodes big startOffset)) prt b (rs, startOffset) in
      if negb (endOffset =? offset) then
        match SeekStart rs endOffset with
        | Err e => Err (Wrapped "failed to skip to end of index after Seek" [] e)
        | Ok (_, rs) => Ok (sr, rs)
        end
      else Ok (sr, rs)
  end.

(** ** Words *)

Lemma wordValue_Bytes big z : is_uint64 z -> wordValue big (wordBytes big z) = z.
Proof. intros Hz. destruct big; [by apply be_value_bytes|by apply le_value_bytes]. Qed.
Lemma length_wordBytes big z : length (wordBytes big z) = 8%nat.
Proof. destruct big; [apply length_be_bytes|apply length_le_bytes]. Qed.
Lemma wordBytes_reverse big z : reverse (wordBytes big z) = wordBytes (negb big) z.
Proof. destruct big; [apply reverse_involutive|done]. Qed.

Definition nodeWords (nd : node) : list Z :=
  [XMin (RBox nd); YMin (RBox nd); XMax (RBox nd); YMax (RBox nd); wrap64 (Offset nd)].
Definition words (big : bool) (ws : list Z) : list ascii := ws ≫= wordBytes big.

Lemma words_cat big a b : words big (a ++ b) = words big a ++ words big b.
Proof. apply bind_app. Qed.
Lemma nodeBytes_words big nd : nodeBytes big nd = words big (nodeWords nd).
Proof. unfold words, nodeBytes, nodeWords. cbn. by rewrite app_nil_r. Qed.
Lemma nodesBytes_words big ns : nodesBytes big ns = words big (ns ≫= nodeWords).
Proof.
  induction ns as [|nd ns IH]; [done|]. unfold nodesBytes in *. cbn [mbind list_bind].
  by rewrite words_cat, IH, nodeBytes_words.
Qed.
Lemma length_words big ws : length (words big ws) = (8 * length ws)%nat.
Proof. induction ws as [|w ws IH]; [done|]. unfold words in *. cbn. rewrite length_app, IH, length_wordBytes. lia. Qed.
Lemma length_nodesBytes big ns : length (nodesBytes big ns) = (40 * length ns)%nat.
Proof.
  rewrite nodesBytes_words, length_words. induction ns as [|nd ns IH]; [done|]. cbn in *. lia.
Qed.

Lemma swapGroups_cons fuel g r :
  length g = 8%nat -> swapGroups (S fuel) (g ++ r) = (let? r := swapGroups fuel r in Ok (reverse g ++ r)).
Proof. intros Hg. do 8 (destruct g as [|? g]; [done|]). by destruct g. Qed.
Lemma swapGroups_words big ws fuel :
  (length ws <= fuel)%nat -> swapGroups fuel (words big ws) = Ok (words (negb big) ws).
Proof.
  revert fuel. induction ws as [|w ws IH]; intros fuel Hf; [by destruct fuel|]. destruct fuel as [|fuel]; [simpl in Hf; lia|].
  unfold words in *. cbn [mbind list_bind]. rewrite swapGroups_cons by apply length_wordBytes.
  rewrite IH by (simpl in Hf; lia). cbn [rbind]. by rewrite wordBytes_reverse.
Qed.
Lemma swapGroups_short fuel b : (length b < 8)%nat -> b <> [] -> swapGroups fuel b = Err IndexPanic.
Proof.
  intros Hl Hb. destruct b as [|a0 b]; [done|]. destruct fuel; [done|].
  do 7 (destruct b as [|? b]; [done|]). simpl in Hl. lia.
Qed.
Lemma swapGroups_bad fuel b :
  (length b <= fuel)%nat -> (length b mod 8 <> 0)%nat -> swapGroups fuel b = Err IndexPanic.
Proof.
  revert b. induction fuel as [|fuel IH]; intros b Hf Hm; [destruct b; [done|simpl in Hf; lia]|].
  destruct (decide (length b < 8)%nat); [apply swapGroups_short; [done|by intros ->]|].
  rewrite <- (take_drop 8 b), swapGroups_cons by (rewrite length_take; lia).
  rewrite IH; [done|rewrite length_drop; lia|]. rewrite length_drop.
  replace (length b) with ((length b - 8) + 1 * 8)%nat in Hm by lia. by rewrite Nat.Div0.mod_add in Hm.
Qed.

(** The buffer is the swap of the bytes it takes. *)
Lemma fillBuffer_swap fuel p n i room :
  (room - i <= fuel)%nat -> (i <= room)%nat -> (n + room <= length p)%nat ->
  fillBuffer fuel p n i room = swapGroups fuel (take (room - i) (drop (n + i) p)).
Proof.
  revert i. induction fuel as [|fuel IH]; intros i Hf Hi Hp.
  { by replace (room - i)%nat with 0%nat by lia. }
  cbn [fillBuffer]. destruct (Nat.leb_spec room i) as [Hr|Hr].
  { replace (room - i)%nat with 0%nat by lia. done. }
  set (b := take (room - i) (drop (n + i) p)).
  assert (length b = room - i)%nat as Hb by (unfold b; rewrite length_take, length_drop; lia).
  destruct (Nat.leb_spec room (i + 7)) as [H7|H7].
  - rewrite orb_true_r. symmetry. apply swapGroups_short; [lia|]. intros E. rewrite E in Hb. simpl in Hb. lia.
  - rewrite (proj2 (Nat.leb_gt _ _)) by lia. cbn [orb]. rewrite IH by lia.
    rewrite <- (take_drop 8 b), swapGroups_cons by (rewrite length_take; lia).
    assert (take 8 b = take 8 (drop (n + i) p)) as -> by (unfold b; rewrite take_take; f_equal; lia).
    assert (drop 8 b = take (room - (i + 8)) (drop (n + (i + 8)) p)) as ->; [|done].
    unfold b. rewrite skipn_firstn_comm, drop_drop. f_equal; [lia|f_equal; lia].
Qed.

(** A big-endian host writes what fits its buffer, and panics on more. *)
Lemma writeLittleEndianOctets_spec big ws :
  writeLittleEndianOctets big (words big ws) =
  if big && (8095 <? 8 * Z.of_nat (length ws)) then Err IndexPanic else Ok (words false ws).
Proof.
  unfold writeLittleEndianOctets. destruct big; [|done]. cbn [andb].
  pose proof (length_words true ws) as Hl. set (p := words true ws) in *.
  assert (length p mod 8 = 0)%nat as Hm by (rewrite Hl, Nat.mul_comm; apply Nat.Div0.mod_mul).
  rewrite Hm. cbn [Nat.eqb negb]. unfold bufferSize. cbn [writeBuffers].
  destruct (Nat.ltb_spec 0 (length p)) as [H0|H0].
  2: { assert (length ws = 0)%nat as ->%length_zero_iff_nil by lia. done. }
  rewrite Nat.sub_0_r. destruct (Nat.ltb_spec (length p) (Z.to_nat 8095)) as [Hs|Hs].
  - rewrite (proj2 (Z.ltb_ge _ _)) by lia. rewrite fillBuffer_swap by lia.
    rewrite Nat.sub_0_r, Nat.add_0_l, drop_0, take_ge by lia. unfold p at 2. rewrite swapGroups_words by lia. cbn [rbind negb].
    destruct (length p) as [|n] eqn:E; [lia|]. cbn [writeBuffers]. rewrite Nat.add_0_l, E, Nat.ltb_irrefl. cbn [rbind].
    by rewrite app_nil_r.
  - rewrite (proj2 (Z.ltb_lt _ _)); [|destruct (Z.eqb_spec (8 * Z.of_nat (length ws)) 8095); lia].
    rewrite fillBuffer_swap by lia. rewrite swapGroups_bad; [done|rewrite length_take; lia|].
    rewrite length_take, length_drop, Nat.min_l by lia. by vm_compute.
Qed.

(** ** Nodes in 64-bit words *)

Definition box_wf (b : Box) : Prop := is_uint64 (XMin b) /\ is_uint64 (YMin b) /\ is_uint64 (XMax b) /\ is_uint64 (YMax b).
Definition ref_wf (r : Ref) : Prop := box_wf (RBox r) /\ is_int64 (Offset r).

Lemma word_at big ws i w : ws !! i = Some w -> take 8 (drop (8 * i) (words big ws)) = wordBytes big w.
Proof.
  revert i. induction ws as [|v ws IH]; intros i Hi; [done|]. unfold words in *. cbn [mbind list_bind].
  destruct i as [|i]; cbn [lookup list_lookup] in Hi.
  - injection Hi as ->. rewrite Nat.mul_0_r, drop_0, <- (length_wordBytes big w). apply take_app_length.
  - rewrite <- (IH i Hi). f_equal. replace (8 * S i)%nat with (length (wordBytes big v) + 8 * i)%nat by (rewrite length_wordBytes; lia).
    by rewrite <- drop_drop, drop_app_length.
Qed.

Lemma nodeOf_Bytes big nd : ref_wf nd -> nodeOf big (nodeBytes big nd) = nd.
Proof.
  intros [(H1 & H2 & H3 & H4) H5]. rewrite nodeBytes_words. unfold nodeOf. cbv zeta.
  rewrite (word_at big (nodeWords nd) 0 (XMin (RBox nd))), (word_at big (nodeWords nd) 1 (YMin (RBox nd))),
    (word_at big (nodeWords nd) 2 (XMax (RBox nd))), (word_at big (nodeWords nd) 3 (YMax (RBox nd))),
    (word_at big (nodeWords nd) 4 (wrap64 (Offset nd))) by done.
  rewrite !wordValue_Bytes by (done || apply wrap64_bounds). rewrite int64_wrap64 by done. by destruct nd as [[]].
Qed.

Lemma nodesOf_Bytes big ns : Forall ref_wf ns -> nodesOf big (length ns) (nodesBytes big ns) = ns.
Proof.
  induction 1 as [|nd ns Hnd _ IH]; [done|]. unfold nodesBytes in *. cbn [length nodesOf mbind list_bind].
  assert (length (nodeBytes big nd) = 40%nat) as Hl by (by rewrite nodeBytes_words, length_words).
  rewrite <- Hl at 1 2. rewrite take_app_length, drop_app_length, IH. by rewrite nodeOf_Bytes.
Qed.

Lemma fix_nodes big ns : fixLittleEndianOctets big (nodesBytes false ns) = Ok (nodesBytes big ns).
Proof.
  unfold fixLittleEndianOctets. destruct big; [|done]. rewrite !nodesBytes_words, swapGroups_words; [done|].
  rewrite length_words. lia.
Qed.

Lemma nodesBytes_app big a b : nodesBytes big (a ++ b) = nodesBytes big a ++ nodesBytes big b.
Proof. apply bind_app. Qed.
Lemma nodesBytes_take big i ns : take (40 * i) (nodesBytes big ns) = nodesBytes big (take i ns).
Proof.
  destruct (decide (i <= length ns)%nat) as [Hi|Hi].
  - rewrite <- (take_drop i ns) at 1. rewrite nodesBytes_app. rewrite take_app_le by (rewrite length_nodesBytes, length_take; lia).
    apply take_ge. rewrite length_nodesBytes, length_take. lia.
  - rewrite !take_ge; [done|lia|rewrite length_nodesBytes; lia].
Qed.
Lemma nodesBytes_drop big i ns : drop (40 * i) (nodesBytes big ns) = nodesBytes big (drop i ns).
Proof.
  destruct (decide (i <= length ns)%nat) as [Hi|Hi].
  - rewrite <- (take_drop i ns) at 1. rewrite nodesBytes_app. apply drop_app_length'. rewrite length_nodesBytes, length_take. lia.
  - rewrite !drop_ge; [done|lia|rewrite length_nodesBytes; lia].
Qed.

(** [New] makes words of words. *)
Lemma Expand_wf b c : box_wf b -> box_wf c -> box_wf (Expand b c).
Proof. intros (? & ? & ? & ?) (? & ? & ? & ?). unfold box_wf. cbn. split_and!; by case_match. Qed.
Lemma foldl_Expand_wf l b : box_wf b -> Forall box_wf l -> box_wf (foldl Expand b l).
Proof. intros Hb Hl. revert b Hb. induction Hl as [|c l Hc _ IH]; intros b Hb; [done|]. by apply IH, Expand_wf. Qed.
Lemma EmptyBox_wf : box_wf EmptyBox.
Proof. by vm_compute. Qed.

Lemma parents_wf k s row :
  (2 <= k)%nat -> Forall ref_wf row -> 0 <= s -> s + Z.of_nat (length row) < 2 ^ 63 -> Forall ref_wf (parents k s row).
Proof.
  intros Hk Hr Hs H63. apply Forall_lookup. intros q x Hx. rewrite parents_lookup in Hx by done. case_decide as Hq; [|done].
  injection Hx as <-. split; cbn.
  - apply foldl_Expand_wf; [apply EmptyBox_wf|]. apply Forall_fmap. apply Forall_take, Forall_drop.
    eapply Forall_impl; [done|]. by intros ? [? _].
  - unfold is_int64. lia.
Qed.

Lemma tower_wf k d ds row :
  (2 <= k)%nat -> chain k d ds -> length row = d -> Forall ref_wf row ->
  Z.of_nat (sum_list ds + d) < 2 ^ 63 -> Forall ref_wf (tower k ds row).
Proof.
  intros Hk. revert d row. induction ds as [|e ds IH]; intros d row Hc Hl Hr H63; [done|]. destruct Hc as [-> Hc].
  cbn [tower]. apply Forall_app. split; [|done].
  assert (sum_list (((d + k - 1) / k)%nat :: ds) = (d + k - 1) / k + sum_list ds)%nat as E by done.
  eapply IH; [done|by rewrite length_parents, Hl|apply parents_wf; [done..|lia|lia]|lia].
Qed.

(** ** An index *)

(** References that [New] takes: at least one, made of 64-bit words, and not too many. *)
Record indexable (refs : list Ref) (k : nat) : Prop := {
  ix_refs : refs <> [];
  ix_k : (2 <= k)%nat;
  ix_k16 : Z.of_nat k < 2 ^ 16;
  ix_wf : Forall ref_wf refs;
  ix_size : total (Z.of_nat (length refs)) (Z.of_nat k) * 40 <= MaxInt;
}.

Section index.
Context (refs : list Ref) (k : nat) (Hix : indexable refs k).

Definition above : list nat := layers (Z.of_nat (length refs)) (Z.of_nat k).
Definition tree : packedRTree := shape k (length refs) above (laidOut refs k above).

Lemma length_refs : (1 <= length refs)%nat.
Proof using Hix. destruct Hix. destruct refs; [done|simpl; lia]. Qed.
Lemma above_chain : chain k (length refs) above.
Proof using Hix. apply layers_spec; [apply length_refs|apply Hix]. Qed.
Lemma above_counts : counts (Z.of_nat (length refs)) (Z.of_nat k) = Z.of_nat <$> length refs :: above.
Proof using Hix. unfold counts. rewrite fmap_cons. f_equal. apply layers_spec; [apply length_refs|apply Hix]. Qed.
Lemma total_nodes : Z.of_nat (sum_list above + length refs) = total (Z.of_nat (length refs)) (Z.of_nat k).
Proof using Hix. unfold total. rewrite above_counts, sumZ_nat. cbn. lia. Qed.
Lemma length_laidOut : length (laidOut refs k above) = (sum_list above + length refs)%nat.
Proof using Hix. apply length_tower; [apply Hix|apply above_chain|done]. Qed.
Lemma size_bound : 40 * Z.of_nat (length (laidOut refs k above)) <= MaxInt.
Proof using Hix. rewrite length_laidOut, total_nodes. destruct Hix. lia. Qed.
Lemma size_eq : Size (Z.of_nat (length refs)) (Z.of_nat k) = Ok (40 * Z.of_nat (length (laidOut refs k above))).
Proof using Hix.
  pose proof size_bound as Hs. rewrite length_laidOut, total_nodes in *. pose proof length_refs. destruct Hix.
  unfold MaxInt in *. rewrite <- total_nodes in *.
  rewrite Size_total by (unfold MaxInt; lia). rewrite <- total_nodes. unfold MaxInt.
  rewrite !(proj2 (Z.ltb_ge _ _)) by lia. f_equal. lia.
Qed.
Lemma nodes_wf : Forall ref_wf (laidOut refs k above).
Proof using Hix.
  pose proof size_bound as Hs. rewrite length_laidOut in Hs. unfold MaxInt in Hs.
  eapply tower_wf; [apply Hix|apply above_chain|done|apply Hix|lia].
Qed.

Lemma noo_eq : noo (Z.of_nat (length refs)) (Z.of_nat k) =
  Ok (shape k (length refs) above (replicate (length (laidOut refs k above)) zeroNode)).
Proof using Hix.
  pose proof size_bound as Hs. rewrite length_laidOut in Hs. pose proof total_nodes as Ht. pose proof length_refs as Hl.
  unfold noo. unfold MaxInt in *.
  rewrite levelify_spec by (unfold MaxInt; destruct Hix; lia). cbn [rbind]. rewrite above_counts.
  rewrite fmap_cons. cbn [bounds lend]. rewrite sumZ_nat, length_laidOut.
  replace (Z.to_nat (Z.of_nat (sum_list above) + Z.of_nat (length refs))) with (sum_list above + length refs)%nat by lia.
  unfold shape. rewrite fmap_cons. cbn [bounds]. by rewrite sumZ_nat.
Qed.
Lemma New_eq : New refs (Z.of_nat k) = Ok tree.
Proof using Hix.
  rewrite New_spec by apply Hix. unfold tree, shape. by rewrite above_counts.
Qed.

Lemma top_count : count (length refs) above (length above) = 1%nat.
Proof using Hix.
  pose proof size_bound as Hs. rewrite length_laidOut, total_nodes in Hs. pose proof total_nodes. pose proof length_refs.
  unfold MaxInt in Hs. destruct (climb_sum (Z.of_nat k) ltac:(destruct Hix; lia) 63 (Z.of_nat (length refs))) as (_ & Hlast & _).
  { change (Z.of_nat 63) with 63. lia. }
  change (climb 64 (Z.of_nat (length refs)) (Z.of_nat k)) with (climb levelFuel (Z.of_nat (length refs)) (Z.of_nat k)) in Hlast.
  unfold count. destruct (layers_spec (length refs) k length_refs (ix_k _ _ Hix)) as [E _]. fold above in E. rewrite E in Hlast.
  rewrite fmap_last in Hlast. destruct (last above) as [x|] eqn:Ex; [|done]. injection Hlast as Hx.
  rewrite last_lookup in Ex. destruct above as [|y l]; [done|]. cbn [length Nat.pred] in *.
  change ((length refs :: y :: l) !! S (length l)) with ((y :: l) !! length l). rewrite Ex. cbn. lia.
Qed.
End index.

Lemma search_order_bound refs k : indexable refs k -> Z.of_nat (length (laidOut refs k (above refs k))) + Z.of_nat k < 2 ^ 63.
Proof. intros Hix. pose proof (size_bound _ _ Hix). destruct Hix. unfold MaxInt in *. lia. Qed.

(** ** Fetching *)

Lemma fix_fuel big b : fixLittleEndianOctets big b <> Err OutOfFuel.
Proof.
  unfold fixLittleEndianOctets. destruct big; [|done]. generalize (length b). intros fuel. revert b.
  induction fuel as [|fuel IH]; intros b; [by destruct b|]. do 8 (destruct b as [|? b]; [done|]). cbn [swapGroups].
  specialize (IH b). by destruct (swapGroups fuel b).
Qed.
Lemma fetch_fuel big s i j ns r o : fetchNodes big s i j ns (r, o) <> Err OutOfFuel.
Proof.
  unfold fetchNodes, readLittleEndianNodes.
  match goal with |- context [rbind ?x _] => destruct x as [[o1 r1]|e] eqn:E end; cbn [rbind].
  2: { repeat case_match; congruence. }
  destruct (_ || _ || _); [done|]. destruct (ReadFull r1 _) as [[b|e] r2]; [|done].
  pose proof (fix_fuel big b). destruct (fixLittleEndianOctets big b); cbn [rbind]; [done|congruence].
Qed.

Section fetch.
Context (refs : list Ref) (k : nat) (Hix : indexable refs k) (big : bool).
(** A file with the index after [pre], cut to [m] bytes. *)
Context (pre post : list ascii) (m : nat).

Let ns0 : list node := laidOut refs k (above refs k).
Let file : list ascii := take m (pre ++ nodesBytes false ns0 ++ post).
Let startOffset : Z := Z.of_nat (length pre).

Definition reading (ns : list node) (st : reader * Z) : Prop :=
  content st.1 = file /\ pos st.1 = st.2 /\ 0 <= st.2 /\ length ns = length ns0.
(** A read fails only where the file is cut. *)
Definition cut (e : rtError) : Prop :=
  (exists text args io, e = Wrapped text args io) /\ (m < length pre + 40 * length ns0)%nat.

Lemma file_slice i count :
  (40 * (i + count) <= length (nodesBytes false ns0))%nat ->
  (40 * count <= length (drop (length pre + 40 * i) file))%nat ->
  take (40 * count) (drop (length pre + 40 * i) file) = nodesBytes false (take count (drop i ns0)).
Proof.
  intros H1 H2. rewrite <- nodesBytes_take, <- nodesBytes_drop. unfold file in *.
  rewrite skipn_firstn_comm in H2 |- *. rewrite length_take in H2. rewrite take_take.
  rewrite Nat.min_l by lia. rewrite <- drop_drop, drop_app_length, drop_app_le by lia.
  rewrite take_app_le; [done|]. rewrite length_drop. lia.
Qed.

Lemma fetch_reads i j ns st :
  reading ns st -> (i < j <= length ns0)%nat ->
  match fetchNodes big startOffset (Z.of_nat i) (Z.of_nat j) ns st with
  | Ok (ns', st') => reading ns' st' /\ forall p, (i <= p < j)%nat -> ns' !! p = ns0 !! p
  | Err e => cut e
  end.
Proof.
  destruct st as [rs offset]. intros (Hc & Hp & H0 & Hl) Hij. cbn [fst snd] in *. unfold fetchNodes.
  set (rel := startOffset + Z.of_nat i * numNodeBytes - offset).
  assert (exists rs', (if negb (rel =? 0) then
      match SeekCurrent rs rel with
      | Ok (o, rs) => Ok (o, rs)
      | Err e => Err (Wrapped "failed to seek to node %d, rel. offset %d" [Z.of_nat i; rel] e)
      end
    else Ok (offset, rs)) = Ok (startOffset + Z.of_nat i * 40, rs') /\ rs' = mkReader file (startOffset + Z.of_nat i * 40))
    as (rs' & -> & ->).
  { unfold SeekCurrent, seekTo, numNodeBytes in *. destruct rs as [c ps]; cbn in Hc, Hp; subst c ps. cbn.
    destruct (Z.eqb_spec rel 0) as [E|E]; cbn [negb].
    - eexists. split; [|done]. unfold rel in E. do 2 f_equal; [lia|f_equal; lia].
    - replace (offset + rel) with (startOffset + Z.of_nat i * 40) by lia.
      rewrite (proj2 (Z.ltb_ge _ _)) by lia. by eexists. }
  cbn [rbind]. unfold readLittleEndianNodes.
  rewrite !(proj2 (Z.ltb_ge _ _)), (proj2 (Z.leb_gt _ _)) by lia. cbn [orb].
  replace (Z.to_nat (Z.of_nat j - Z.of_nat i)) with (j - i)%nat by lia. unfold ReadFull. cbn [pos content].
  replace (Z.to_nat (startOffset + Z.of_nat i * 40)) with (length pre + 40 * i)%nat by lia.
  destruct (Nat.leb_spec (40 * (j - i)) (length (drop (length pre + 40 * i) file))) as [Hr|Hr].
  - rewrite file_slice by (try rewrite length_nodesBytes; lia). rewrite fix_nodes. cbn [rbind].
    set (part := take (j - i) (drop i ns0)).
    assert (length part = j - i)%nat as Hpart by (unfold part; rewrite length_take, length_drop; lia).
    assert (nodesOf big (j - i) (nodesBytes big part) = part) as ->.
    { rewrite <- Hpart. apply nodesOf_Bytes, Forall_take, Forall_drop, nodes_wf, Hix. }
    rewrite !Nat2Z.id. split.
    + split_and!; cbn [fst snd content pos]; [done|unfold numNodeBytes; lia..|].
      rewrite !length_app, length_take, length_drop, Hpart. lia.
    + intros p Hpp. rewrite lookup_app_r by (rewrite length_take; lia). rewrite length_take, Nat.min_l by lia.
      rewrite lookup_app_l by lia. unfold part. rewrite lookup_take_lt, lookup_drop by lia. f_equal. lia.
  - cbn [rbind]. split; [by eexists _, _, _|]. rewrite length_drop in Hr. unfold file in Hr.
    rewrite length_take, !length_app, length_nodesBytes in Hr. lia.
Qed.
End fetch.

Lemma Search_hits refs k b :
  indexable refs k -> Forall (fun r => no_nan (RBox r) = true) refs ->
  exists R, Search (tree refs k) b = Ok R /\ R ≡ₚ hits b refs.
Proof.
  intros Hix Hnan.
  pose proof (search_spec refs k (ix_k _ _ Hix) (length refs) eq_refl (above refs k) (above_chain _ _ Hix) Hnan
    stackBag None (fun ns (_ : unit) => ns = laidOut refs k (above refs k)) (fun _ => False) (fun ns st H => H)
    (search_order_bound _ _ Hix) (length_refs _ _ Hix) (top_count _ _ Hix) ltac:(done) b _ tt eq_refl) as Hs.
  unfold Search, tree. destruct (search _ _ _ _ _) as [[R []]|e]; [|done]. exists R. cbn [rbind].
  split; [done|apply Hs].
Qed.

(** C31. [New] then [Search] is the search of the list: every reference whose box meets the
    query is found once, no other is, and nothing fails or panics. *)
Theorem New_Search refs k b :
  indexable refs k -> Forall (fun r => no_nan (RBox r) = true) refs ->
  exists t R, New refs (Z.of_nat k) = Ok t /\ Search t b = Ok R /\ R ≡ₚ hits b refs.
Proof.
  intros Hix Hnan. destruct (Search_hits refs k b Hix Hnan) as (R & HS & HR).
  exists (tree refs k), R. split; [by apply New_eq|done].
Qed.

Lemma Marshal_eq big t :
  nodes t <> [] ->
  Marshal big t = if big && (8095 <? 40 * Z.of_nat (length (nodes t))) then Err IndexPanic else Ok (nodesBytes false (nodes t)).
Proof.
  intros Hn. unfold Marshal. destruct (nodes t) as [|n1 ns1] eqn:En; [done|]. rewrite <- En.
  rewrite !nodesBytes_words, writeLittleEndianOctets_spec.
  replace (8 * Z.of_nat (length (nodes t ≫= nodeWords))) with (40 * Z.of_nat (length (nodes t))); [done|].
  pose proof (length_nodesBytes big (nodes t)) as H. rewrite nodesBytes_words, length_words in H. lia.
Qed.

Lemma tree_nonempty refs k : indexable refs k -> nodes (tree refs k) <> [].
Proof.
  intros Hix. pose proof (length_refs _ _ Hix). pose proof (length_laidOut _ _ Hix) as Hlen.
  change (nodes (tree refs k)) with (laidOut refs k (above refs k)). intros E. rewrite E in Hlen. cbn [length] in Hlen. lia.
Qed.

Lemma Unmarshal_tree refs k big pre post :
  indexable refs k ->
  let bytes := nodesBytes false (nodes (tree refs k)) in
  Unmarshal big (mkReader (pre ++ bytes ++ post) (Z.of_nat (length pre))) (Z.of_nat (length refs)) (Z.of_nat k) =
  Ok (tree refs k, mkReader (pre ++ bytes ++ post) (Z.of_nat (length pre + length bytes))).
Proof.
  intros Hix. pose proof (nodes_wf _ _ Hix) as Hwf. pose proof (size_eq _ _ Hix) as Hsz.
  pose proof (noo_eq _ _ Hix) as Hnoo. unfold tree. cbn [shape nodes].
  generalize dependent (laidOut refs k (above refs k)). intros ns Hwf Hsz Hnoo. set (bytes := nodesBytes false ns).
  unfold Unmarshal. rewrite Hsz, Hnoo. cbn [rbind nodes shape]. rewrite length_replicate. unfold ReadFull. cbn [pos content].
  assert (length bytes = 40 * length ns)%nat as Hb by apply length_nodesBytes.
  rewrite Nat2Z.id, drop_app_length.
  rewrite (proj2 (Nat.leb_le _ _)) by (rewrite length_app; lia).
  rewrite take_app_length' by done. unfold bytes at 1. rewrite fix_nodes. cbn [rbind].
  rewrite nodesOf_Bytes by done. cbn [levels shape]. rewrite <- Hb. by rewrite Nat2Z.inj_add.
Qed.

(** C33. A tree written on a host of either byte order is read back as it was on a host of
    either order, from the middle of a file, and the reader is left behind it. The
    big-endian writer has a buffer of 8095 bytes, and panics on a longer index. *)
Theorem Marshal_Unmarshal refs k t big big' pre post :
  indexable refs k -> New refs (Z.of_nat k) = Ok t ->
  match Marshal big t with
  | Ok bytes =>
    Size (Z.of_nat (length refs)) (Z.of_nat k) = Ok (Z.of_nat (length bytes)) /\
    Unmarshal big' (mkReader (pre ++ bytes ++ post) (Z.of_nat (length pre))) (Z.of_nat (length refs)) (Z.of_nat k) =
    Ok (t, mkReader (pre ++ bytes ++ post) (Z.of_nat (length pre + length bytes)))
  | Err e => e = IndexPanic /\ big = true /\ 8095 < 40 * Z.of_nat (length (nodes t))
  end.
Proof.
  intros Hix Hnew. rewrite (New_eq _ _ Hix) in Hnew. injection Hnew as <-.
  rewrite Marshal_eq by by apply tree_nonempty. destruct (big && _) eqn:Eb.
  { by apply andb_true_iff in Eb as [-> Eb%Z.ltb_lt]. }
  split; [|by apply Unmarshal_tree]. rewrite length_nodesBytes, (size_eq _ _ Hix). f_equal.
  change (nodes (tree refs k)) with (laidOut refs k (above refs k)). lia.
Qed.

Lemma Seek_hits refs k big pre post m b :
  indexable refs k -> Forall (fun r => no_nan (RBox r) = true) refs ->
  let bytes := nodesBytes false (laidOut refs k (above refs k)) in
  Z.of_nat (length pre + length bytes) < 2 ^ 63 ->
  let rs := mkReader (take m (pre ++ bytes ++ post)) (Z.of_nat (length pre)) in
  match Seek big rs (Z.of_nat (length refs)) (Z.of_nat k) b with
  | Ok (R, rs') => R = hits b refs /\ rs' = mkReader (content rs) (Z.of_nat (length pre + length bytes))
  | Err e => (exists text args io, e = Wrapped text args io) /\ (m < length pre + length bytes)%nat
  end.
Proof.
  intros Hix Hnan bytes H63 rs. unfold Seek, SeekCurrent, seekTo. cbn [pos rs]. rewrite Z.add_0_r.
  rewrite (proj2 (Z.ltb_ge _ _)) by lia. rewrite (size_eq _ _ Hix). cbn [rbind content].
  assert (length bytes = 40 * length (laidOut refs k (above refs k)))%nat as Hb by apply length_nodesBytes.
  rewrite (proj2 (Z.ltb_ge _ _)) by lia. rewrite (noo_eq _ _ Hix). cbn [rbind].
  set (fetch := fetchNodes big (Z.of_nat (length pre))).
  assert (forall f i j ns st, Some fetch = Some f -> f i j ns st <> Err OutOfFuel) as Hfuel.
  { intros f i j ns [r o] [= <-]. apply fetch_fuel. }
  pose proof (search_sorted refs k (ix_k _ _ Hix) (length refs) eq_refl (above refs k) (above_chain _ _ Hix) Hnan
    (Some fetch) (reading refs k pre post m) (cut refs k pre m)
    (fetch_reads refs k Hix big pre post m) (search_order_bound _ _ Hix) (length_refs _ _ Hix) (top_count _ _ Hix)
    Hfuel b (replicate (length (laidOut refs k (above refs k))) zeroNode) (rs, Z.of_nat (length pre))) as Hs.
  specialize (Hs (conj eq_refl (conj eq_refl (conj (Nat2Z.is_nonneg _) (length_replicate _ _))))).
  unfold rs in Hs. destruct (search _ _ _ _ _) as [[R [rs' offset]]|e]; cbn [rbind].
  2: { by rewrite Hb. }
  destruct Hs as [-> [ns' (Hc & Hp & H0 & _)]]. cbn [fst snd] in *.
  destruct (Z.eqb_spec (Z.of_nat (length pre) + 40 * Z.of_nat (length (laidOut refs k (above refs k)))) offset) as [E|E];
    cbn [negb].
  - split; [done|]. destruct rs' as [c ps]. cbn in Hc, Hp. subst c ps. f_equal. lia.
  - unfold SeekStart, seekTo. rewrite (proj2 (Z.ltb_ge _ _)) by lia. split; [done|]. rewrite Hc. f_equal. lia.
Qed.

(** ** An example *)

Module PackedExample.
Definition at_pt (x y : Z) : Box :=
  let f z := Float64bits (f64_of_Z z) in mkBox (f x) (f y) (f (x + 1)) (f (y + 1)).
Definition some_refs : list Ref :=
  [mkRef (at_pt 0 0) 100; mkRef (at_pt 5 5) 140; mkRef (at_pt (-3) 2) 180; mkRef (at_pt 9 (-1)) 220; mkRef (at_pt 6 6) 260].
Definition query : Box := let f z := Float64bits (f64_of_Z z) in mkBox (f 5) (f 5) (f 8) (f 8).

Lemma some_indexable : indexable some_refs 2.
Proof. split; [done|lia|done|repeat constructor; by vm_compute|by vm_compute]. Qed.
Lemma some_no_nan : Forall (fun r => no_nan (RBox r) = true) some_refs.
Proof. repeat constructor. Qed.

Definition index_of (r : result rtError packedRTree) : packedRTree := match r with Ok t => t | Err _ => mkTree 0 0 [] [] end.
Definition some_tree : packedRTree := index_of (New some_refs 2).
Lemma some_tree_New : New some_refs 2 = Ok some_tree.
Proof. by vm_compute. Qed.
Definition bytes_of_tree : list ascii := match Marshal false some_tree with Ok b => b | Err _ => [] end.

Lemma example_search :
  Search some_tree query = Ok [mkResult 260 4; mkResult 140 1] /\
  Seek true (mkReader (bytes_of "fgb" ++ bytes_of_tree ++ bytes_of "data") 3) 5 2 query =
  Ok ([mkResult 140 1; mkResult 260 4], mkReader (bytes_of "fgb" ++ bytes_of_tree ++ bytes_of "data") 443).
Proof. by vm_compute. Qed.

(** The results of [Seek] come in the order of the references, not of their offsets. *)
Lemma seek_reference_order :
  (let? (R, _) := Seek false (mkReader (nodesBytes false (nodes (index_of (New (reverse some_refs) 2)))) 0) 5 2 query in Ok R)
  = Ok [mkResult 260 0; mkResult 140 3].
Proof. by vm_compute. Qed.

(** An index that leads outside itself can make the search panic. *)
Definition damaged : packedRTree :=
  mkTree (numRefs some_tree) (nodeSize some_tree) (levels some_tree) (<[0%nat := mkRef query (-1)]> (nodes some_tree)).
Lemma damaged_panics : Search damaged query = Err IndexPanic.
Proof. by vm_compute. Qed.
Lemma search_terminates_witness : search heapBag (Some (fetchNodes false 0)) damaged query (mkReader [] 0, 0) <> Err OutOfFuel.
Proof.
  refine (search_terminates heapBag (Some (fetchNodes false 0)) damaged query (mkReader [] 0, 0) _ _).
  - intros f i j ns [r o] [= <-]. apply fetch_fuel.
  - by vm_compute.
Defined.

(** A reference with a NaN meets every query, and is not found: the box over it is not
    extended by it. *)
Definition nan_refs : list Ref := [mkRef (mkBox 0x7FF8000000000001 0 0 0) 100].
Lemma nan_missed :
  hits query nan_refs = [] /\ hits (at_pt 0 0) nan_refs = [mkResult 100 0] /\
  Search (index_of (New nan_refs 2)) (at_pt 0 0) = Ok [].
Proof. by vm_compute. Qed.

Lemma New_Search_witness :
  exists t R, New some_refs 2 = Ok t /\ Search t query = Ok R /\ R ≡ₚ [mkResult 140 1; mkResult 260 4].
Proof. exact (New_Search some_refs 2 query some_indexable some_no_nan). Defined.

Lemma Marshal_Unmarshal_witness :
  Unmarshal true (mkReader ([] ++ bytes_of_tree ++ []) 0) 5 2 = Ok (some_tree, mkReader ([] ++ bytes_of_tree ++ []) 440).
Proof.
  pose proof (Marshal_Unmarshal some_refs 2 some_tree false true [] [] some_indexable some_tree_New) as H.
  replace (Marshal false some_tree) with (Ok (E := rtError) bytes_of_tree) in H by by vm_compute.
  destruct H as [_ H]. exact H.
Defined.


(** The big-endian writer stops at its buffer. *)
Lemma bigendian_panics : Marshal true (index_of (New (replicate 110 (mkRef (at_pt 0 0) 1)) 2)) = Err IndexPanic.
Proof. by vm_compute. Qed.
End PackedExample.
