(* ===== verification/Hilbert.v ===== *)
(** * The Hilbert curve of packed R-trees ([packedrtree/hilbert.go])

    [hilbertOfXY] computes sixteen levels of the curve at once with bit operations on
    words; here it is proved to be the curve that is read off digit by digit, which visits
    every cell of the square once and moves to a neighbour at each step. *)

From Stdlib Require Import Ascii String ZArith Lia Bool SpecFloat.
From stdpp Require Import base list strings option sets sorting.
From S2P Require Import Prelude GoStd Strconv Bytes Containers PackedRTree.

Local Open Scope Z_scope.

(** ** The code *)

Definition HilbertOrder : Z := 16.
Definition hilbertMax : Z := 2 ^ HilbertOrder - 1.
Definition u32 (z : Z) : Z := z mod 2 ^ 32.

(** Spread the sixteen bits of a word over its even positions. *)
Definition spread (i : Z) : Z :=
  let i := Z.land (Z.lor i (u32 (Z.shiftl i 8))) 0x00FF00FF in
  let i := Z.land (Z.lor i (u32 (Z.shiftl i 4))) 0x0F0F0F0F in
  let i := Z.land (Z.lor i (u32 (Z.shiftl i 2))) 0x33333333 in
  Z.land (Z.lor i (u32 (Z.shiftl i 1))) 0x55555555.

(** The four words after the first block of assignments. *)
Definition hilbertStart (x y : Z) : Z * Z * Z * Z :=
  let a := Z.lxor x y in
  let b := Z.lxor 0xFFFF a in
  let c := Z.lxor 0xFFFF (Z.lor x y) in
  let d := Z.land x (Z.lxor y 0xFFFF) in
  (Z.lor a (Z.shiftr b 1),
   Z.lxor (Z.shiftr a 1) a,
   Z.lxor (Z.lxor (Z.shiftr c 1) (Z.land b (Z.shiftr d 1))) c,
   Z.lxor (Z.lxor (Z.land a (Z.shiftr c 1)) (Z.shiftr d 1)) d).

(** The block that is repeated with shifts 2, 4 and 8. *)
Definition hilbertBlock (k : Z) (w : Z * Z * Z * Z) : Z * Z * Z * Z :=
  let '(a, b, c, d) := w in
  (Z.lxor (Z.land a (Z.shiftr a k)) (Z.land b (Z.shiftr b k)),
   Z.lxor (Z.land a (Z.shiftr b k)) (Z.land b (Z.shiftr (Z.lxor a b) k)),
   Z.lxor c (Z.lxor (Z.land a (Z.shiftr c k)) (Z.land b (Z.shiftr d k))),
   Z.lxor d (Z.lxor (Z.land b (Z.shiftr c k)) (Z.land (Z.lxor a b) (Z.shiftr d k)))).

(** The code does not compute the first two words of the last block, which it does not use. *)
Definition hilbertOfXY (x y : Z) : Z :=
  let '(_, _, C, D) := hilbertBlock 8 (hilbertBlock 4 (hilbertBlock 2 (hilbertStart x y))) in
  let a := Z.lxor C (Z.shiftr C 1) in
  let b := Z.lxor D (Z.shiftr D 1) in
  let i0 := Z.lxor x y in
  let i1 := Z.lor b (Z.lxor 0xFFFF (Z.lor i0 a)) in
  Z.lor (u32 (Z.shiftl (spread i1) 1)) (spread i0).

Definition midX (b : Box) : float64 :=
  f64_div (f64_add (Float64frombits (XMin b)) (Float64frombits (XMax b))) (f64_of_Z 2).
Definition midY (b : Box) : float64 :=
  f64_div (f64_add (Float64frombits (YMin b)) (Float64frombits (YMax b))) (f64_of_Z 2).
Definition Width (b : Box) : float64 := f64_sub (Float64frombits (XMax b)) (Float64frombits (XMin b)).
Definition Height (b : Box) : float64 := f64_sub (Float64frombits (YMax b)) (Float64frombits (YMin b)).

(** [uint32(x)] of a float: by way of a 64-bit integer, as amd64 does. *)
Definition uint32_of_f64 (x : float64) : Z := u32 (int64_of_f64 x).

Definition hilbertOfCenter (b : Box) (ex ey ew eh : float64) : Z :=
  let cell mid e w :=
    if negb (f64_eq w f64_zero)
    then uint32_of_f64 (f64_floor (f64_mul (f64_of_Z hilbertMax) (f64_div (f64_sub mid e) w)))
    else 0 in
  hilbertOfXY (cell (midX b) ex ew) (cell (midY b) ey eh).

(** [Less] of [hilbertSortable]: descending. *)
Definition hilbertLess (bounds : Box) (a b : Ref) : bool :=
  let h r := hilbertOfCenter (RBox r) (Float64frombits (XMin bounds)) (Float64frombits (YMin bounds)) (Width bounds) (Height bounds) in
  h b <? h a.

(** [HilbertSort] by a sort that keeps the order of equal references; [sort.Sort] may give
    another order of those. *)
Definition HilbertSort (refs : list Ref) (bounds : Box) : list Ref := sort_by (hilbertLess bounds) refs.

(** ** The curve, digit by digit

    The state is the orientation of the current square; a step takes the next bits of the
    two coordinates to a digit and the orientation of the quarter. *)

Definition state := (bool * bool)%type.
Definition digit (s : state) (x y : bool) : Z :=
  let '(C, D) := s in
  if xorb x y then (if xorb x C then 3 else 1) else (if xorb x D then 2 else 0).
Definition turn (s : state) (x y : bool) : state :=
  let '(C, D) := s in
  let a := xorb x y in
  (xorb (negb (x || y)) (xorb C (negb a && D)), xorb (x && negb y) (xorb (a && C) D)).

Fixpoint curve (n : nat) (s : state) (x y : Z) : Z :=
  match n with
  | O => 0
  | S m =>
    let bx := Z.testbit x (Z.of_nat m) in
    let by_ := Z.testbit y (Z.of_nat m) in
    digit s bx by_ * 4 ^ Z.of_nat m + curve m (turn s bx by_) x y
  end.
Definition upright : state := (false, false).

Lemma curve_ex : curve 2 upright 3 1 = 12 /\ hilbertOfXY 3 1 = curve 16 upright 3 1.
Proof. by vm_compute. Qed.

(** ** Bits of the words *)

Definition bit (z : Z) (i : nat) : bool := Z.testbit z (Z.of_nat i).

Lemma bit_lxor a b i : bit (Z.lxor a b) i = xorb (bit a i) (bit b i).
Proof. apply Z.lxor_spec. Qed.
Lemma bit_land a b i : bit (Z.land a b) i = bit a i && bit b i.
Proof. apply Z.land_spec. Qed.
Lemma bit_lor a b i : bit (Z.lor a b) i = bit a i || bit b i.
Proof. apply Z.lor_spec. Qed.
Lemma bit_shiftr a k i : bit (Z.shiftr a (Z.of_nat k)) i = bit a (i + k).
Proof. unfold bit. rewrite Z.shiftr_spec by lia. f_equal. lia. Qed.
Lemma bit_ffff i : bit 0xFFFF i = (i <? 16)%nat.
Proof.
  unfold bit. change 0xFFFF with (Z.ones 16). rewrite Z.testbit_ones_nonneg by lia.
  destruct (Nat.ltb_spec i 16), (Z.ltb_spec (Z.of_nat i) 16); lia || done.
Qed.
Lemma bit_high z i : 0 <= z < 2 ^ 16 -> (16 <= i)%nat -> bit z i = false.
Proof.
  intros Hz Hi. unfold bit. destruct (decide (z = 0)) as [->|]; [apply Z.bits_0|].
  apply Z.bits_above_log2; [lia|]. apply Z.log2_lt_pow2; [lia|].
  eapply Z.lt_le_trans; [apply Hz|]. apply Z.pow_le_mono_r; lia.
Qed.
Create Rewrite HintDb bits.
#[local] Hint Rewrite bit_lxor bit_land bit_lor bit_ffff : bits.

(** ** The words as matrices

    The last two words are vectors of bits, the first two matrices [((A, B), (B, A + B))]
    over the bits; a step of the curve is the affine map [turn]. *)

Definition vadd (v w : bool * bool) : bool * bool := (xorb v.1 w.1, xorb v.2 w.2).
Definition mv (m v : bool * bool) : bool * bool :=
  (xorb (m.1 && v.1) (m.2 && v.2), xorb (m.2 && v.1) (xorb m.1 m.2 && v.2)).
Definition mm (m m' : bool * bool) : bool * bool :=
  (xorb (m.1 && m'.1) (m.2 && m'.2), xorb (m.1 && m'.2) (m.2 && xorb m'.1 m'.2)).
(** The linear part of [turn], and its constant. *)
Definition lin (a : bool) (v : bool * bool) : bool * bool := (xorb v.1 (negb a && v.2), xorb (a && v.1) v.2).
Definition const (x y : bool) : bool * bool := (negb (x || y), x && negb y).

Ltac bools := repeat match goal with
  | v : (bool * bool)%type |- _ => destruct v
  | b : bool |- _ => destruct b
  end; reflexivity.

Lemma mv_mm m m' v : mv (mm m m') v = mv m (mv m' v).
Proof. bools. Qed.
Lemma mv_zero m : mv m (false, false) = (false, false).
Proof. bools. Qed.
Lemma lin_zero a : lin a (false, false) = (false, false).
Proof. bools. Qed.
Lemma lin_vadd a v w : lin a (vadd v w) = vadd (lin a v) (lin a w).
Proof. bools. Qed.
Lemma vadd_assoc u v w : vadd (vadd u v) w = vadd u (vadd v w).
Proof. bools. Qed.
Lemma vadd_zero v : vadd v (false, false) = v.
Proof. bools. Qed.
Lemma turn_affine s x y : turn s x y = vadd (const x y) (lin (xorb x y) s).
Proof. unfold state in s. bools. Qed.
Lemma pair_matrix a a' v : mv (a || negb a', xorb a' a) v = lin a (lin a' v).
Proof. bools. Qed.

Section words.
Context (x y : Z) (Hx : 0 <= x < 2 ^ 16) (Hy : 0 <= y < 2 ^ 16).

Definition edge (i : nat) : bool := xorb (bit x i) (bit y i).
Definition const_at (i : nat) : bool * bool := if (i <? 16)%nat then const (bit x i) (bit y i) else (false, false).

(** The orientation after [n] steps that end at bit [i], from the upright one. *)
Fixpoint part (i n : nat) : bool * bool :=
  match n with O => (false, false) | S n => vadd (const_at i) (lin (edge i) (part (S i) n)) end.
Fixpoint prod (i n : nat) (v : bool * bool) : bool * bool :=
  match n with O => v | S n => lin (edge i) (prod (S i) n v) end.

Lemma prod_zero i n : prod i n (false, false) = (false, false).
Proof. revert i. induction n as [|n IH]; intros i; [done|]. cbn. by rewrite IH, lin_zero. Qed.
Lemma prod_app i n m v : prod i (n + m) v = prod i n (prod (i + n) m v).
Proof.
  revert i. induction n as [|n IH]; intros i; cbn; [by rewrite Nat.add_0_r|]. rewrite IH. by rewrite Nat.add_succ_r.
Qed.
Lemma part_app i n m : part i (n + m) = vadd (part i n) (prod i n (part (i + n) m)).
Proof.
  revert i. induction n as [|n IH]; intros i; cbn; [rewrite Nat.add_0_r; by destruct (part i m)|].
  rewrite IH, lin_vadd, <- vadd_assoc. by rewrite Nat.add_succ_r.
Qed.
Lemma part_high i n : (16 <= i)%nat -> part i n = (false, false).
Proof.
  revert i. induction n as [|n IH]; intros i Hi; cbn; [done|]. rewrite IH, lin_zero by lia.
  unfold const_at. by rewrite (proj2 (Nat.ltb_ge _ _)) by lia.
Qed.

(** The words stand for [n] steps. *)
Definition stands (n : nat) (w : Z * Z * Z * Z) : Prop :=
  let '(A, B, C, D) := w in
  (forall i v, (i + n <= 16)%nat -> mv (bit A i, bit B i) v = prod i n v) /\
  (forall i, (bit C i, bit D i) = part i n).

Lemma start_stands : stands 2 (hilbertStart x y).
Proof.
  unfold hilbertStart. split.
  - intros i v Hi. autorewrite with bits. change 1 with (Z.of_nat 1). rewrite !bit_shiftr. autorewrite with bits.
    rewrite (proj2 (Nat.ltb_lt _ _)) by lia. cbn [prod]. rewrite <- pair_matrix. unfold edge.
    rewrite Nat.add_1_r. by destruct (xorb (bit x (S i)) (bit y (S i))).
  - intros i. autorewrite with bits. change 1 with (Z.of_nat 1). rewrite !bit_shiftr. autorewrite with bits. cbn [part].
    rewrite Nat.add_1_r. unfold const_at, edge.
    destruct (Nat.ltb_spec i 16).
    + destruct (Nat.ltb_spec (S i) 16).
      * unfold const, lin, vadd. cbn.
        destruct (bit x i), (bit y i), (bit x (S i)), (bit y (S i)); reflexivity.
      * rewrite (bit_high x (S i)), (bit_high y (S i)) by done. unfold const, lin, vadd. cbn.
        destruct (bit x i), (bit y i); reflexivity.
    + rewrite (proj2 (Nat.ltb_ge _ _)) by lia.
      rewrite (bit_high x i), (bit_high y i), (bit_high x (S i)), (bit_high y (S i)) by (done || lia). reflexivity.
Qed.

Lemma block_stands n w : stands n w -> stands (n + n) (hilbertBlock (Z.of_nat n) w).
Proof.
  destruct w as [[[A B] C] D]. intros [HM HV]. cbn [hilbertBlock]. split.
  - intros i v Hi. autorewrite with bits. rewrite !bit_shiftr. autorewrite with bits.
    change (mv (mm (bit A i, bit B i) (bit A (i + n), bit B (i + n))) v = prod i (n + n) v).
    rewrite mv_mm, prod_app, !HM by lia. done.
  - intros i. autorewrite with bits. rewrite !bit_shiftr. autorewrite with bits.
    change (vadd (bit C i, bit D i) (mv (bit A i, bit B i) (bit C (i + n), bit D (i + n))) = part i (n + n)).
    rewrite !HV, part_app. destruct (decide (i + n <= 16)%nat) as [Hi|Hi]; [by rewrite HM|].
    rewrite (part_high (i + n) n) by lia. by rewrite mv_zero, prod_zero.
Qed.

Lemma words_stand : stands 16 (hilbertBlock 8 (hilbertBlock 4 (hilbertBlock 2 (hilbertStart x y)))).
Proof.
  apply (block_stands 8), (block_stands 4), (block_stands 2), start_stands.
Qed.

(** The bits of the result are the digits. *)
Definition orientation (i : nat) : state := part i (16 - i).

Lemma part_16 i : (i <= 16)%nat -> part i 16 = orientation i.
Proof.
  intros Hi. unfold orientation. replace 16%nat with ((16 - i) + i)%nat at 1 by lia.
  rewrite part_app, (part_high (i + (16 - i)) i) by lia. by rewrite prod_zero, vadd_zero.
Qed.
Lemma orientation_turn m : (m < 16)%nat -> orientation m = turn (orientation (S m)) (bit x m) (bit y m).
Proof.
  intros Hm. unfold orientation. replace (16 - m)%nat with (S (16 - S m)) by lia. cbn [part].
  rewrite turn_affine. unfold const_at. by rewrite (proj2 (Nat.ltb_lt _ _)).
Qed.

Definition sum_digits (n : nat) (f : nat -> Z) : Z := foldr Z.add 0 ((fun m => f m * 4 ^ Z.of_nat m) <$> seq 0 n).
Lemma sum_digits_S n f : sum_digits (S n) f = sum_digits n f + f n * 4 ^ Z.of_nat n.
Proof.
  unfold sum_digits. rewrite seq_S, fmap_app, foldr_app. cbn. rewrite Z.add_0_r.
  generalize (f n * 4 ^ Z.of_nat n). intros z. induction (fmap _ _) as [|a l IH]; cbn; [lia|]. rewrite IH. lia.
Qed.

Lemma curve_digits n :
  (n <= 16)%nat ->
  curve n (orientation n) x y = sum_digits n (fun m => digit (orientation (S m)) (bit x m) (bit y m)).
Proof.
  induction n as [|n IH]; intros Hn; [done|]. cbn [curve]. rewrite sum_digits_S, <- IH by lia.
  fold (bit x n) (bit y n). rewrite <- orientation_turn by lia. lia.
Qed.
End words.

Lemma sum_digits_ext n f g : (forall m, (m < n)%nat -> f m = g m) -> sum_digits n f = sum_digits n g.
Proof.
  intros H. unfold sum_digits. f_equal. apply list_fmap_ext. intros i m [-> Hm]%lookup_seq. by rewrite H.
Qed.
Lemma sum_digits_add n f g a b : sum_digits n (fun m => a * f m + b * g m) = a * sum_digits n f + b * sum_digits n g.
Proof. induction n as [|n IH]; [cbn; lia|]. rewrite !sum_digits_S, IH. lia. Qed.

(** ** Spreading the bits *)

(** One line of [spread], on bits. *)
Definition line (k : nat) (m : Z) (f : nat -> bool) (j : nat) : bool :=
  (f j || (if (j <? k)%nat then false else f (j - k)%nat)) && bit m j.

Lemma bit_line k m i j :
  0 <= m < 2 ^ 32 -> bit (Z.land (Z.lor i (u32 (Z.shiftl i (Z.of_nat k)))) m) j = line k m (bit i) j.
Proof.
  intros Hm. unfold line. rewrite bit_land, bit_lor. destruct (decide (j < 32)%nat) as [Hj|Hj].
  - do 2 f_equal. unfold bit, u32. rewrite Z.mod_pow2_bits_low by lia. rewrite Z.shiftl_spec by lia.
    destruct (Nat.ltb_spec j k); [apply Z.testbit_neg_r; lia|]. f_equal. lia.
  - assert (bit m j = false) as ->; [|by rewrite !andb_false_r]. unfold bit.
    destruct (decide (m = 0)) as [->|]; [apply Z.bits_0|]. apply Z.bits_above_log2; [lia|].
    apply Z.log2_lt_pow2; [lia|]. eapply Z.lt_le_trans; [apply Hm|]. apply Z.pow_le_mono_r; lia.
Qed.
Lemma line_ext k m f g j : (forall j, f j = g j) -> line k m f j = line k m g j.
Proof. intros E. unfold line. by rewrite !E. Qed.

Lemma bit_spread z j :
  bit (spread z) j =
  line 1 0x55555555 (line 2 0x33333333 (line 4 0x0F0F0F0F (line 8 0x00FF00FF (bit z)))) j.
Proof.
  unfold spread. cbv zeta. rewrite (bit_line 1) by lia. apply line_ext. intros j1.
  rewrite (bit_line 2) by lia. apply line_ext. intros j2. rewrite (bit_line 4) by lia. apply line_ext. intros j3.
  by rewrite (bit_line 8) by lia.
Qed.

Lemma bit_spread_even z j : 0 <= z < 2 ^ 16 ->
  bit (spread z) j = if Nat.even j then bit z (j / 2) else false.
Proof.
  intros Hz. rewrite bit_spread. destruct (decide (j < 32)%nat) as [Hj|Hj].
  - assert (forall i, (16 <= i)%nat -> bit z i = false) as Hh by (intros; by apply bit_high).
    revert Hh. generalize (bit z). intros f Hh.
    do 32 (destruct j as [|j]; [cbv -[orb andb]; rewrite ?orb_false_r, ?andb_true_r, ?andb_false_r, ?orb_false_r; (reflexivity || (rewrite ?Hh by lia; reflexivity))|]). lia.
  - unfold line at 1. assert (bit 0x55555555 j = false) as ->.
    { unfold bit. apply Z.bits_above_log2; [lia|]. change (Z.log2 0x55555555) with 30. lia. }
    rewrite andb_false_r. destruct (Nat.even j); [|done]. symmetry. apply bit_high; [done|].
    change 16%nat with (32 / 2)%nat. apply Nat.Div0.div_le_mono. lia.
Qed.

Lemma sum_digits_head n f : sum_digits (S n) f = f 0%nat + 4 * sum_digits n (fun m => f (S m)).
Proof.
  induction n as [|n IH]; [cbn; lia|]. rewrite sum_digits_S, IH, sum_digits_S.
  rewrite (Nat2Z.inj_succ n), Z.pow_succ_r by lia. lia.
Qed.
Lemma bit_sum_digits n f j :
  bit (sum_digits n (fun m => Z.b2z (f m))) j = if Nat.even j && (j / 2 <? n)%nat then f (j / 2)%nat else false.
Proof.
  revert f j. induction n as [|n IH]; intros f j.
  { rewrite andb_false_r. apply Z.bits_0. }
  rewrite (sum_digits_head n (fun m => Z.b2z (f m))). set (w := sum_digits n _).
  destruct j as [|[|j]].
  - unfold bit. replace (Z.b2z (f 0%nat) + 4 * w) with (Z.b2z (f 0%nat) + 2 * (2 * w)) by lia. by rewrite Z.testbit_0_r || rewrite Z.add_b2z_double_bit0.
  - unfold bit. change (Z.of_nat 1) with (Z.succ 0). replace (Z.b2z (f 0%nat) + 4 * w) with (2 * (2 * w) + Z.b2z (f 0%nat)) by lia.
    rewrite Z.testbit_succ_r by lia. by rewrite Z.testbit_even_0.
  - unfold bit. rewrite !Nat2Z.inj_succ. replace (Z.b2z (f 0%nat) + 4 * w) with (2 * (2 * w) + Z.b2z (f 0%nat)) by lia.
    rewrite Z.testbit_succ_r, Z.testbit_even_succ by lia. fold (bit w j). unfold w. rewrite IH.
    replace (S (S j) / 2)%nat with (S (j / 2)); [done|]. replace (S (S j)) with (j + 1 * 2)%nat by lia. rewrite Nat.div_add by lia. lia.
Qed.
Lemma spread_ok z : 0 <= z < 2 ^ 16 -> spread z = sum_digits 16 (fun m => Z.b2z (bit z m)).
Proof.
  intros Hz. apply Z.bits_inj'. intros j Hj. replace j with (Z.of_nat (Z.to_nat j)) by lia. generalize (Z.to_nat j). clear j Hj. intros j.
  fold (bit (spread z) j) (bit (sum_digits 16 (fun m => Z.b2z (bit z m))) j). rewrite bit_spread_even, bit_sum_digits by done.
  destruct (Nat.even j); [|done]. cbn [andb]. destruct (Nat.ltb_spec (j / 2) 16); [done|]. by apply bit_high.
Qed.
Lemma sum_digits_bound n f : (forall m, 0 <= f m <= 3) -> 0 <= sum_digits n f < 4 ^ Z.of_nat n.
Proof.
  intros H. induction n as [|n IH]; [cbn; lia|]. rewrite sum_digits_S, Nat2Z.inj_succ, Z.pow_succ_r by lia.
  specialize (H n). nia.
Qed.
Lemma spread_disjoint i j : Z.land (Z.shiftl (spread i) 1) (spread j) = 0.
Proof.
  unfold spread. cbv zeta.
  match goal with |- Z.land (Z.shiftl (Z.land ?a _) _) (Z.land ?b _) = _ => generalize a, b end. intros a b.
  rewrite Z.shiftl_land. rewrite <- Z.land_assoc, (Z.land_comm b), (Z.land_assoc _ _ b).
  change (Z.land (Z.shiftl 0x55555555 1) 0x55555555) with 0. by rewrite Z.land_0_l, Z.land_0_r.
Qed.
Lemma interleave i1 i0 : 0 <= i1 < 2 ^ 16 -> 0 <= i0 < 2 ^ 16 ->
  Z.lor (u32 (Z.shiftl (spread i1) 1)) (spread i0) = 2 * spread i1 + spread i0.
Proof.
  intros H1 H0. assert (2 * spread i1 < 2 ^ 32 /\ 0 <= spread i1) as [B1 B2].
  { rewrite (spread_ok i1 H1). rewrite <- (Z.add_0_r (2 * _)), <- (Z.mul_0_l (sum_digits 16 (fun _ => 0))).
    rewrite <- (sum_digits_add 16 (fun m => Z.b2z (bit i1 m)) (fun _ => 0) 2 0).
    split; [|apply sum_digits_bound; intros m; destruct (bit i1 m); cbn; lia].
    apply (sum_digits_bound 16). intros m. destruct (bit i1 m); cbn; lia. }
  unfold u32.
  rewrite Z.shiftl_mul_pow2 at 1 by lia. rewrite Z.mod_small by lia. rewrite <- Z.shiftl_mul_pow2 by lia.
  rewrite <- Z.lxor_lor by apply spread_disjoint. rewrite <- Z.add_nocarry_lxor by apply spread_disjoint.
  rewrite Z.shiftl_mul_pow2 by lia. lia.
Qed.

(** ** The code computes the curve *)

Lemma word16 z : (forall i, (16 <= i)%nat -> bit z i = false) -> 0 <= z < 2 ^ 16.
Proof.
  intros Hb. assert (z = z mod 2 ^ 16) as ->; [|apply Z.mod_pos_bound; lia]. apply Z.bits_inj'. intros j Hj.
  destruct (Z.lt_ge_cases j 16); [by rewrite Z.mod_pow2_bits_low|].
  rewrite Z.mod_pow2_bits_high by lia. specialize (Hb (Z.to_nat j) ltac:(lia)). unfold bit in Hb. by rewrite Z2Nat.id in Hb by lia.
Qed.

Lemma digit_bits s x y :
  let '(C, D) := s in let '(C', D') := turn s x y in
  2 * Z.b2z (xorb D' D || negb (xorb x y || xorb C' C)) + Z.b2z (xorb x y) = digit s x y.
Proof. by destruct s as [[] []], x, y. Qed.

Lemma hilbertOfXY_curve x y :
  0 <= x < 2 ^ 16 -> 0 <= y < 2 ^ 16 -> hilbertOfXY x y = curve 16 upright x y.
Proof.
  intros Hx Hy. unfold hilbertOfXY. pose proof (words_stand x y Hx Hy) as Hs.
  destruct (hilbertBlock 8 _) as [[[A B] C] D]. destruct Hs as [_ HV].
  assert (forall i, bit C i = (part x y i 16).1) as HC by (intros i; by rewrite <- HV).
  assert (forall i, bit D i = (part x y i 16).2) as HD by (intros i; by rewrite <- HV).
  set (a := Z.lxor C _). set (b := Z.lxor D _). set (i0 := Z.lxor x y). set (i1 := Z.lor b _).
  assert (forall i, (16 <= i)%nat -> part x y i 16 = (false, false)) as Hp by (intros; by apply part_high).
  assert (forall i, bit a i = xorb (part x y i 16).1 (part x y (S i) 16).1) as Ha.
  { intros i. unfold a. rewrite bit_lxor. change 1 with (Z.of_nat 1). by rewrite bit_shiftr, !HC, Nat.add_1_r. }
  assert (forall i, bit b i = xorb (part x y i 16).2 (part x y (S i) 16).2) as Hb.
  { intros i. unfold b. rewrite bit_lxor. change 1 with (Z.of_nat 1). by rewrite bit_shiftr, !HD, Nat.add_1_r. }
  assert (0 <= i0 < 2 ^ 16) as H0 by (apply word16; intros i Hi; unfold i0; by rewrite bit_lxor, !bit_high).
  assert (forall i, bit i1 i = bit b i || xorb (i <? 16)%nat (bit i0 i || bit a i)) as Hi1.
  { intros i. unfold i1. by rewrite bit_lor, bit_lxor, bit_lor, bit_ffff. }
  assert (0 <= i1 < 2 ^ 16) as H1.
  { apply word16. intros i Hi. rewrite Hi1, Ha, Hb, !Hp by lia. rewrite (proj2 (Nat.ltb_ge _ _)) by lia.
    by rewrite (bit_high i0) by done. }
  rewrite interleave, !spread_ok by done.
  rewrite <- (Z.mul_1_l (sum_digits 16 (fun m => Z.b2z (bit i0 m)))), <- sum_digits_add.
  change upright with (orientation x y 16). rewrite (curve_digits x y) by lia.
  apply sum_digits_ext. intros m Hm. rewrite Hi1, Ha, Hb, !part_16, (proj2 (Nat.ltb_lt _ _)) by (done || lia).
  pose proof (digit_bits (orientation x y (S m)) (bit x m) (bit y m)) as Hd. rewrite <- orientation_turn in Hd by done.
  unfold i0. rewrite bit_lxor. destruct (orientation x y (S m)) as [C1 D1], (orientation x y m) as [C2 D2].
  cbn [fst snd] in *. rewrite <- Hd. rewrite xorb_true_l. lia.
Qed.

(** ** The curve goes through every cell *)

(** The bits of the quarter with a digit. *)
Definition quarter (s : state) (d : Z) : bool * bool :=
  let '(C, D) := s in
  if d =? 0 then (D, D) else if d =? 1 then (C, negb C) else if d =? 2 then (negb D, negb D) else (negb C, C).

Fixpoint cell (n : nat) (s : state) (d : Z) : Z * Z :=
  match n with
  | O => (0, 0)
  | S m =>
    let '(bx, by_) := quarter s (d / 4 ^ Z.of_nat m) in
    let '(x, y) := cell m (turn s bx by_) (d mod 4 ^ Z.of_nat m) in
    (Z.b2z bx * 2 ^ Z.of_nat m + x, Z.b2z by_ * 2 ^ Z.of_nat m + y)
  end.

Lemma digit_quarter s d : 0 <= d < 4 -> digit s (quarter s d).1 (quarter s d).2 = d.
Proof. intros Hd. assert (d = 0 \/ d = 1 \/ d = 2 \/ d = 3) as [->|[->|[->| ->]]] by lia; by destruct s as [[] []]. Qed.
Lemma quarter_digit s x y : quarter s (digit s x y) = (x, y).
Proof. by destruct s as [[] []], x, y. Qed.
Lemma digit_range s x y : 0 <= digit s x y < 4.
Proof. by destruct s as [[] []], x, y. Qed.

Lemma cell_range n s d : 0 <= (cell n s d).1 < 2 ^ Z.of_nat n /\ 0 <= (cell n s d).2 < 2 ^ Z.of_nat n.
Proof.
  revert s d. induction n as [|n IH]; intros s d; [cbn; lia|]. cbn [cell]. destruct (quarter s _) as [bx by_].
  specialize (IH (turn s bx by_) (d mod 4 ^ Z.of_nat n)). destruct (cell n _ _) as [x y]. cbn [fst snd] in *.
  rewrite Nat2Z.inj_succ, Z.pow_succ_r by lia. destruct bx, by_; cbn [Z.b2z]; lia.
Qed.

Lemma top_bit n (b : bool) x : 0 <= x < 2 ^ Z.of_nat n -> Z.testbit (Z.b2z b * 2 ^ Z.of_nat n + x) (Z.of_nat n) = b.
Proof.
  intros Hx. rewrite Z.testbit_eqb by lia. rewrite Z.div_add_l by lia. rewrite Z.div_small by done. by destruct b.
Qed.
Lemma low_bits_u32 n m (b : bool) x : (m < n)%nat -> Z.testbit (Z.b2z b * 2 ^ Z.of_nat n + x) (Z.of_nat m) = Z.testbit x (Z.of_nat m).
Proof.
  intros Hm. rewrite <- (Z.mod_pow2_bits_low _ (Z.of_nat n)) by lia. rewrite <- (Z.mod_pow2_bits_low x (Z.of_nat n)) by lia.
  f_equal. rewrite Z.add_comm, Z.mod_add by lia. done.
Qed.
Lemma curve_low n k s (bx by_ : bool) x y :
  (n <= k)%nat -> curve n s (Z.b2z bx * 2 ^ Z.of_nat k + x) (Z.b2z by_ * 2 ^ Z.of_nat k + y) = curve n s x y.
Proof.
  revert s. induction n as [|n IH]; intros s Hn; [done|]. cbn [curve]. rewrite !low_bits_u32 by lia. by rewrite IH by lia.
Qed.

Lemma curve_cell n s d : 0 <= d < 4 ^ Z.of_nat n -> curve n s (cell n s d).1 (cell n s d).2 = d.
Proof.
  revert s d. induction n as [|n IH]; intros s d Hd; [cbn in *; lia|].
  rewrite Nat2Z.inj_succ, Z.pow_succ_r in Hd by lia. cbn [cell curve].
  assert (0 < 4 ^ Z.of_nat n) as H4 by (apply Z.pow_pos_nonneg; lia).
  assert (0 <= d / 4 ^ Z.of_nat n < 4) as Hq by (split; [apply Z.div_pos; lia|apply Z.div_lt_upper_bound; lia]).
  pose proof (digit_quarter s _ Hq) as Hdq. destruct (quarter s _) as [bx by_]. cbn [fst snd] in Hdq.
  pose proof (cell_range n (turn s bx by_) (d mod 4 ^ Z.of_nat n)) as [Rx Ry].
  specialize (IH (turn s bx by_) (d mod 4 ^ Z.of_nat n) ltac:(apply Z.mod_pos_bound; lia)).
  destruct (cell n _ _) as [x y]. cbn [fst snd] in *. rewrite !top_bit by done. rewrite curve_low, IH, Hdq by lia.
  pose proof (Z.div_mod d (4 ^ Z.of_nat n)). lia.
Qed.

Lemma curve_range n s x y : 0 <= curve n s x y < 4 ^ Z.of_nat n.
Proof.
  revert s. induction n as [|n IH]; intros s; [cbn; lia|]. cbn [curve]. rewrite Nat2Z.inj_succ, Z.pow_succ_r by lia.
  pose proof (digit_range s (Z.testbit x (Z.of_nat n)) (Z.testbit y (Z.of_nat n))).
  specialize (IH (turn s (Z.testbit x (Z.of_nat n)) (Z.testbit y (Z.of_nat n)))). nia.
Qed.

Lemma split_top n x : 0 <= x < 2 ^ Z.of_nat (S n) ->
  exists (b : bool) x', 0 <= x' < 2 ^ Z.of_nat n /\ x = Z.b2z b * 2 ^ Z.of_nat n + x'.
Proof.
  rewrite Nat2Z.inj_succ, Z.pow_succ_r by lia. intros Hx.
  destruct (Z.lt_ge_cases x (2 ^ Z.of_nat n)); [exists false, x|exists true, (x - 2 ^ Z.of_nat n)]; cbn [Z.b2z]; lia.
Qed.

Lemma cell_curve n s x y :
  0 <= x < 2 ^ Z.of_nat n -> 0 <= y < 2 ^ Z.of_nat n -> cell n s (curve n s x y) = (x, y).
Proof.
  revert s x y. induction n as [|n IH]; intros s x y Hx Hy; [cbn in *; f_equal; lia|].
  destruct (split_top n x Hx) as (bx & x' & Hx' & ->), (split_top n y Hy) as (by_ & y' & Hy' & ->).
  cbn [cell curve]. rewrite !top_bit, curve_low by done.
  pose proof (curve_range n (turn s bx by_) x' y') as Hr.
  rewrite Z.div_add_l by lia. rewrite (Z.div_small (curve _ _ _ _)) by done. rewrite Z.add_0_r.
  rewrite Z.add_comm, Z.mod_add by lia. rewrite Z.mod_small by done. rewrite quarter_digit, IH by done. done.
Qed.

(** ** The curve moves to a neighbour *)

Definition dist (p q : Z * Z) : Z := Z.abs (p.1 - q.1) + Z.abs (p.2 - q.2).

Lemma cell_first n C D : cell n (C, D) 0 = (Z.b2z D * (2 ^ Z.of_nat n - 1), Z.b2z D * (2 ^ Z.of_nat n - 1)).
Proof.
  revert C. induction n as [|n IH]; intros C; [cbn; f_equal; lia|]. cbn [cell]. rewrite Z.div_0_l, Z.mod_0_l by (apply Z.pow_nonzero; lia).
  rewrite Nat2Z.inj_succ, Z.pow_succ_r by lia. destruct C, D; cbn [quarter turn Z.eqb negb xorb andb orb]; rewrite IH; cbn [Z.b2z]; f_equal; lia.
Qed.
Lemma cell_last n C D : cell n (C, D) (4 ^ Z.of_nat n - 1) =
  (Z.b2z (negb C) * (2 ^ Z.of_nat n - 1), Z.b2z C * (2 ^ Z.of_nat n - 1)).
Proof.
  revert D. induction n as [|n IH]; intros D; [cbn; f_equal; lia|]. cbn [cell].
  rewrite !Nat2Z.inj_succ, !Z.pow_succ_r by lia. assert (0 < 4 ^ Z.of_nat n) by (apply Z.pow_pos_nonneg; lia).
  replace (4 * 4 ^ Z.of_nat n - 1) with (3 * 4 ^ Z.of_nat n + (4 ^ Z.of_nat n - 1)) by lia.
  rewrite Z.div_add_l, (Z.div_small (4 ^ Z.of_nat n - 1)), Z.add_0_r by lia.
  rewrite (Z.add_comm (3 * _)), Z.mod_add, Z.mod_small by lia.
  destruct C, D; cbv [quarter turn Z.eqb Pos.eqb negb xorb andb orb]; rewrite IH; cbn [Z.b2z negb]; f_equal; lia.
Qed.

Lemma quarter_step (s : state) q m P :
  0 <= q < 3 -> P = 2 ^ Z.of_nat m ->
  let '(bx, by_) := quarter s q in let '(bx', by_') := quarter s (q + 1) in
  let '(x, y) := cell m (turn s bx by_) (4 ^ Z.of_nat m - 1) in let '(x', y') := cell m (turn s bx' by_') 0 in
  dist (Z.b2z bx * P + x, Z.b2z by_ * P + y) (Z.b2z bx' * P + x', Z.b2z by_' * P + y') = 1.
Proof.
  intros Hq ->. assert (0 < 2 ^ Z.of_nat m) by (apply Z.pow_pos_nonneg; lia).
  assert (q = 0 \/ q = 1 \/ q = 2) as [->|[->| ->]] by lia; destruct s as [[] []];
    change (0 + 1) with 1; change (1 + 1) with 2; change (2 + 1) with 3;
    cbv [quarter turn Z.eqb Pos.eqb negb xorb andb orb]; rewrite cell_last, cell_first;
    cbn [Z.b2z negb]; unfold dist; cbn [fst snd]; lia.
Qed.

Lemma cell_adjacent n s d : 0 <= d -> d + 1 < 4 ^ Z.of_nat n -> dist (cell n s d) (cell n s (d + 1)) = 1.
Proof.
  revert s d. induction n as [|m IH]; intros s d Hd Hd1; [cbn in *; lia|].
  rewrite Nat2Z.inj_succ, Z.pow_succ_r in Hd1 by lia. set (F := 4 ^ Z.of_nat m) in *.
  assert (0 < F) as HF by (apply Z.pow_pos_nonneg; lia).
  pose proof (Z.div_mod d F ltac:(lia)) as Hdm. pose proof (Z.mod_pos_bound d F HF) as Hr.
  set (q := d / F) in *. set (r := d mod F) in *.
  assert (0 <= q < 4) as Hq by (split; [apply Z.div_pos; lia|apply Z.div_lt_upper_bound; lia]).
  cbn [cell]. fold F. fold q r. destruct (Z.lt_ge_cases (r + 1) F) as [Hs|Hs].
  - assert ((d + 1) / F = q) as -> by (symmetry; apply Z.div_unique with (r := r + 1); lia).
    assert ((d + 1) mod F = r + 1) as -> by (symmetry; apply Z.mod_unique with (q := q); lia).
    destruct (quarter s q) as [bx by_]. specialize (IH (turn s bx by_) r ltac:(lia) Hs).
    destruct (cell m _ r) as [x y], (cell m _ (r + 1)) as [x' y']. unfold dist in *. cbn [fst snd] in *. lia.
  - assert (r = F - 1) as -> by lia. assert (q < 3) by nia.
    assert ((d + 1) / F = q + 1) as -> by (symmetry; apply Z.div_unique with (r := 0); lia).
    assert ((d + 1) mod F = 0) as -> by (symmetry; apply Z.mod_unique with (q := q + 1); lia).
    pose proof (quarter_step s q m _ ltac:(lia) eq_refl) as Hstep. fold F in Hstep.
    destruct (quarter s q) as [bx by_], (quarter s (q + 1)) as [bx' by_'].
    by destruct (cell m _ (F - 1)) as [x y], (cell m _ 0) as [x' y'].
Qed.

(** C36. [hilbertOfXY] numbers the cells of the square of side 65536 along a Hilbert curve:
    every number below [2 ^ 32] is that of exactly one cell, and the cells of consecutive
    numbers are neighbours. *)
Theorem hilbert_curve d :
  0 <= d < 2 ^ 32 ->
  exists x y, 0 <= x < 2 ^ 16 /\ 0 <= y < 2 ^ 16 /\ hilbertOfXY x y = d /\
    (forall x' y', 0 <= x' < 2 ^ 16 -> 0 <= y' < 2 ^ 16 -> hilbertOfXY x' y' = d -> x' = x /\ y' = y) /\
    (forall x' y', 0 <= x' < 2 ^ 16 -> 0 <= y' < 2 ^ 16 -> hilbertOfXY x' y' = d + 1 -> dist (x, y) (x', y') = 1).
Proof.
  intros Hd. change (2 ^ 32) with (4 ^ Z.of_nat 16) in Hd. pose proof (cell_range 16 upright d) as [Rx Ry].
  change (Z.of_nat 16) with 16 in Rx, Ry. pose proof (curve_cell 16 upright d Hd) as Hc.
  assert (forall x' y' e, 0 <= x' < 2 ^ 16 -> 0 <= y' < 2 ^ 16 -> hilbertOfXY x' y' = e -> (x', y') = cell 16 upright e) as Hinv.
  { intros x' y' e Hx' Hy' <-. rewrite hilbertOfXY_curve by done. by rewrite cell_curve. }
  exists (cell 16 upright d).1, (cell 16 upright d).2. split_and!; [lia..| | |].
  - by rewrite hilbertOfXY_curve.
  - intros x' y' Hx' Hy' E. rewrite <- (Hinv _ _ _ Hx' Hy' E). done.
  - intros x' y' Hx' Hy' E. rewrite (Hinv _ _ _ Hx' Hy' E), <- surjective_pairing. apply cell_adjacent; [lia|].
    pose proof (curve_range 16 upright x' y') as Hr. rewrite <- (hilbertOfXY_curve x' y'), E in Hr by done. lia.
Qed.

Lemma hilbert_curve_witness :
  exists x y, 0 <= x < 2 ^ 16 /\ 0 <= y < 2 ^ 16 /\ hilbertOfXY x y = 1000000.
Proof.
  destruct (hilbert_curve 1000000) as (x & y & Hx & Hy & H & _); [lia|]. by exists x, y.
Defined.

(** [HilbertSort] sorts, and loses nothing: an index of the sorted references is one of the
    references. *)
Lemma HilbertSort_perm refs bounds : HilbertSort refs bounds ≡ₚ refs.
Proof. apply sort_by_perm. Qed.
