(* ===== verification/Fgb.v ===== *)
(** * FlatGeobuf: states, errors and tables ([formats/flatgeobuf/flatgeobuf])

    What the file reader and the file writer share: the state machine of [stateful.go],
    the errors of [errors.go], the magic number of [spec.go] and the size-prefixed tables
    of [flatbuffers.go]. A method is a computation in a monad with the receiver as state,
    an error that ends it, and a panic. The accessors of the generated package [flat] and
    the FlatBuffers runtime they call are parameters. *)

From Stdlib Require Import Ascii String ZArith Lia Bool.
From stdpp Require Import base list strings option.
From S2P Require Import Prelude GoStd Strconv Bytes PackedRTree PackedStream.

Local Open Scope Z_scope.

(** ** Errors and panics *)

(** The error variables are compared by identity, so they are constructors of their own;
    [Txt], [Fmt] and [Wrap] are what [textErr], [fmtErr] and [wrapErr] return. *)
Inductive fgError :=
| ErrNoIndex | ErrNotSeekable | ErrClosed | errEndOfData | errUnexpectedState
| Io (e : ioError)
| ErrShortWrite
| Rt (e : rtError)
| FlatPanic
| Txt (text : string)
| Fmt (text : string) (args : list Z)
| Wrap (text : string) (args : list Z) (e : fgError).

Definition errHeaderNotCalled : string := "must call Header()".
Definition errHeaderAlreadyCalled : string := "Header() has already been called".
Definition errHeaderNodeSizeZero : string := "header node size 0 indicates no index".
Definition errIndexNotWritten : string := "header specifies index but no index written".
Definition errReadPastIndex : string := "read position is past index".
Definition errWritePastIndex : string := "write position is past index".
Definition errSeekingData : string := "failed to seek to data section".
Definition errIndexSize : string := "failed to calculate index size".
Definition errDiscardIndex : string := "failed to read past index".

(** A panic with a message that starts with [logic error], one of the packed R-tree, a
    slice out of range, a length [make] refuses, a failed type assertion, and a panic of the
    FlatBuffers code that nobody recovers. *)
Inductive fgPanic :=
| LogicError (text : string) (args : list Z)
| RtPanic (e : rtError)
| SlicePanic
| MakePanic (n : Z)
| NotASeeker
| FlatBuffersPanic.

#[global] Instance fgError_eq_dec : EqDecision fgError.
Proof. unfold EqDecision, Decision. decide equality; apply (_ : EqDecision _). Defined.
#[global] Instance fgPanic_eq_dec : EqDecision fgPanic.
Proof. solve_decision. Defined.

(** ** Methods *)

Inductive step (A : Type) :=
| Val (a : A)
| Raise (e : fgError)
| Panicked (p : fgPanic).
Arguments Val {A} a.
Arguments Raise {A} e.
Arguments Panicked {A} p.

Definition M (S A : Type) : Type := S -> step A * S.
#[global] Instance M_ret {S} : MRet (M S) := fun A a s => (Val a, s).
#[global] Instance M_bind {S} : MBind (M S) := fun A B k m s =>
  match m s with
  | (Val a, s) => k a s
  | (Raise e, s) => (Raise e, s)
  | (Panicked p, s) => (Panicked p, s)
  end.

Section methods.
Context {S : Type}.
Definition get : M S S := fun s => (Val s, s).
Definition modify (f : S -> S) : M S unit := fun s => (Val tt, f s).
Definition raise {A} (e : fgError) : M S A := fun s => (Raise e, s).
Definition panic {A} (p : fgPanic) : M S A := fun s => (Panicked p, s).
(** The error as a value. *)
Definition attempt {A} (m : M S A) : M S (result fgError A) := fun s =>
  match m s with
  | (Val a, s) => (Val (Ok a), s)
  | (Raise e, s) => (Val (Err e), s)
  | (Panicked p, s) => (Panicked p, s)
  end.
(** [_ = m]. *)
Definition ignore (m : M S unit) : M S unit := _ ← attempt m; mret tt.
(** [return v, m] of a method that also returns an error. *)
Definition withErr {A} (v : A) (m : M S unit) : M S (A * option fgError) :=
  r ← attempt m; mret (v, match r with Ok _ => None | Err e => Some e end).
(** A result of the packed R-tree package: an error of it is wrapped, or it panicked. *)
Definition fromRt {A} (r : result rtError A) (fail : rtError -> M S A) : M S A :=
  match r with
  | Ok a => mret a
  | Err ((Panic _ | IndexPanic | OutOfFuel) as e) => panic (RtPanic e)
  | Err e => fail e
  end.
End methods.

(** ** The state machine ([stateful.go]) *)

Inductive fstate :=
| uninitialized | beforeMagic | beforeHeader | afterHeader | beforeIndex | afterIndex | inData | eof.
Definition state_code (s : fstate) : Z :=
  match s with
  | uninitialized => 0x00 | beforeMagic => 0x11 | beforeHeader => 0x21 | afterHeader => 0x22
  | beforeIndex => 0x31 | afterIndex => 0x32 | inData => 0x42 | eof => 0x52
  end.
#[global] Instance fstate_eq_dec : EqDecision fstate.
Proof. solve_decision. Defined.

Record stateful := mkStateful { state : fstate; err : option fgError }.

(** A struct that embeds [stateful]. *)
Class Stateful (S : Type) := { st : S -> stateful; set_st : stateful -> S -> S }.

Inductive transitionType := outside | inside.

Section stateful.
Context {S : Type} `{!Stateful S}.

Definition get_state : M S fstate := s ← get; mret (state (st s)).
Definition set_state (x : fstate) : M S unit := modify (fun s => set_st (mkStateful x (err (st s))) s).
Definition get_err : M S (option fgError) := s ← get; mret (err (st s)).
Definition set_err (e : fgError) : M S unit := modify (fun s => set_st (mkStateful (state (st s)) (Some e)) s).

(** [a] is what [Close] of the stream returns, when it has that method. *)
Definition close (a : option (option fgError)) : M S unit :=
  e ← get_err;
  if decide (e = Some ErrClosed) then raise ErrClosed
  else
    set_err ErrClosed;;
    match a with
    | Some (Some e) => raise e
    | _ => mret tt
    end.

Definition toState (expected to : fstate) (tt_ : transitionType) : M S unit :=
  e ← get_err;
  match e with
  | Some e => raise e
  | None =>
    s ← get_state;
    if decide (s = expected) then set_state to
    else match tt_ with
         | inside => panic (LogicError "failed inside transition" [state_code expected; state_code to; state_code s])
         | outside => raise errUnexpectedState
         end
  end.

Definition toErr {A} (e : fgError) : M S A :=
  x ← get_err;
  match x with
  | Some _ => panic (LogicError "already in error state" [])
  | None => set_err e;; raise e
  end.
End stateful.

(** ** Streams *)

(** An [io.Writer] that takes [room] more bytes, any number if there is none. *)
Record sink := mkSink { written : list ascii; room : option nat }.
Definition Write (w : sink) (p : list ascii) : (Z * option fgError) * sink :=
  match room w with
  | None => ((Z.of_nat (length p), None), mkSink (written w ++ p) None)
  | Some r =>
    if (length p <=? r)%nat then ((Z.of_nat (length p), None), mkSink (written w ++ p) (Some (r - length p)%nat))
    else ((Z.of_nat r, Some ErrShortWrite), mkSink (written w ++ take r p) (Some 0%nat))
  end.

(** ** The magic number ([spec.go]) *)

Definition MinSpecMajorVersion : Z := 3.
Definition MaxSpecMajorVersion : Z := 3.
Definition headerMaxLen : Z := 32 * 1024 * 1024.
Definition magicLen : nat := 8.
Definition magic : list ascii := chr <$> [0x66; 0x67; 0x62; 0x03; 0x66; 0x67; 0x62; 0x01].
Record SpecVersion := mkSpec { Major : Z; Patch : Z }.

Definition Magic (r : reader) : result fgError SpecVersion * reader :=
  match ReadFull r magicLen with
  | (Err e, r) => (Err (Io e), r)
  | (Ok m, r) =>
    let same i := bool_decide (m !! i = magic !! i) in
    if forallb same [0; 1; 2; 4; 5; 6]%nat
    then (Ok (mkSpec (code (nth 3 m Ascii.zero)) (code (nth 7 m Ascii.zero))), r)
    else (Err (Txt "invalid magic number"), r)
  end.

(** ** Tables ([flatbuffers.go]) *)

(** A FlatBuffers table: its buffer and the position of its data. *)
Record table := mkTable { Bytes : list ascii; Pos : Z }.
#[global] Instance table_eq_dec : EqDecision table.
Proof. solve_decision. Defined.

Definition u32 (z : Z) : Z := z mod 2 ^ 32.
(** [flatbuffers.GetUint32] and [GetUOffsetT] of a buffer of four bytes at least. *)
Definition GetUint32 (b : list ascii) : Z := le_value (take 4 b).
(** The table [GetSizePrefixedRootAs...] gives for a buffer, and [Init] in [readFeature]. *)
Definition rootTable (tbl : list ascii) : table := mkTable tbl (u32 (4 + GetUint32 (drop 4 tbl))).

(** The accessors of [flat.Header] and [flat.Feature] the package uses; without a value when
    they panic. [GeometryXy] is the coordinates of [Geometry] if there is one, as bits. *)
Class FlatBuffers := {
  FeaturesCount : table -> option Z;
  IndexNodeSize : table -> option Z;
  GeometryXy : table -> option (option (list Z));
}.

Definition safeFlatBuffersInteraction {A} (f : option (result fgError A)) : result fgError A :=
  match f with Some r => r | None => Err FlatPanic end.

Definition tableSize (t : table) : result fgError Z :=
  if (length (Bytes t) <? 4)%nat
  then Err (Fmt "FlatBuffers table buffer is too small for a size prefix (need=%d, len=%d)" [4; Z.of_nat (length (Bytes t))])
  else Ok (GetUint32 (Bytes t)).

Definition writeSizePrefixedTable (w : sink) (t : table) : (Z * option fgError) * sink :=
  let len := Z.of_nat (length (Bytes t)) in
  match tableSize t with
  | Err e => ((0, Some e), w)
  | Ok size =>
    if len <? size + 4
    then ((0, Some (Fmt "FlatBuffers table buffer is smaller than size prefix indicates (need=%d+%d, len=%d, gap=%d)"
                     [4; size; len; size + 4 - len])), w)
    else Write w (take (Z.to_nat (u32 (4 + size))) (Bytes t))
  end.

(** The types of the two numbers of a header. *)
Class FlatBuffersLaws `{FlatBuffers} : Prop := {
  FeaturesCount_uint64 t n : FeaturesCount t = Some n -> 0 <= n < 2 ^ 64;
  IndexNodeSize_uint16 t n : IndexNodeSize t = Some n -> 0 <= n < 2 ^ 16;
}.

(** ** Runs *)

Section runs.
Context {S : Type}.
Lemma run_bind {A B} (m : M S A) (k : A -> M S B) s a s' x : m s = (Val a, s') -> k a s' = x -> (m ≫= k) s = x.
Proof. intros Hm Hk. unfold mbind, M_bind. by rewrite Hm. Qed.
Lemma run_attempt {A} (m : M S A) s a s' : m s = (Val a, s') -> attempt m s = (Val (Ok a), s').
Proof. unfold attempt. by intros ->. Qed.

Context `{!Stateful S}.
Lemma run_toState a b t (s : S) :
  err (st s) = None -> state (st s) = a -> toState a b t s = (Val tt, set_st (mkStateful b None) s).
Proof.
  intros He Hs. unfold toState, get_err, get_state, set_state, modify, get, mbind, M_bind, mret, M_ret.
  rewrite He, decide_True by done. by rewrite He.
Qed.
Lemma run_ignore a b t (s : S) :
  err (st s) = None -> state (st s) = a -> ignore (toState a b t) s = (Val tt, set_st (mkStateful b None) s).
Proof. intros He Hs. unfold ignore. eapply run_bind; [by apply run_attempt, run_toState|done]. Qed.
End runs.
(** The next statement of a method that runs as the lemma says. *)
Ltac run_as l := eapply run_bind; [by apply l|].
Ltac run := eapply run_bind; [reflexivity|].

(** ** Places in a file *)

(** The file continues with [b] at [p]. *)
Definition at_pos (file : list ascii) (p : Z) (b : list ascii) : Prop :=
  exists pre post, file = pre ++ b ++ post /\ p = Z.of_nat (length pre).

Lemma at_pos_app file p a b : at_pos file p (a ++ b) -> at_pos file p a /\ at_pos file (p + Z.of_nat (length a)) b.
Proof.
  intros (pre & post & -> & ->). split.
  - exists pre, (b ++ post). by rewrite <- app_assoc.
  - exists (pre ++ a), post. rewrite <- !app_assoc, length_app. split; [done|lia].
Qed.
Lemma at_pos_ReadFull file p b n :
  at_pos file p b -> length b = n -> ReadFull (mkReader file p) n = (Ok b, mkReader file (p + Z.of_nat n)).
Proof.
  intros (pre & post & -> & ->) Hn. unfold ReadFull. cbn [pos content]. rewrite Nat2Z.id, drop_app_length.
  rewrite (proj2 (Nat.leb_le _ _)) by (rewrite length_app; lia). by rewrite take_app_length'.
Qed.
