(* ===== verification/FgbWriter.v ===== *)
(** * Writing FlatGeobuf files ([file_writer.go])

    The methods of [FileWriter]. Each returns the number of bytes written and an error;
    the stream it writes to may run out of room. *)

From Stdlib Require Import Ascii String ZArith Lia Bool.
From stdpp Require Import base list strings option.
From S2P Require Import Prelude GoStd Strconv Bytes PackedRTree PackedStream Hilbert Fgb.

Local Open Scope Z_scope.

Record FileWriter := mkFileWriter {
  w_st : stateful; w_w : sink; w_numFeatures : Z; w_nodeSize : Z; w_featureIndex : Z }.
#[global] Instance FileWriter_stateful : Stateful FileWriter := {
  st := w_st;
  set_st s w := mkFileWriter s (w_w w) (w_numFeatures w) (w_nodeSize w) (w_featureIndex w) }.

Definition NewFileWriter (w : sink) : FileWriter := mkFileWriter (mkStateful uninitialized None) w 0 0 0.

Definition set_params (numFeatures nodeSize : Z) : M FileWriter unit :=
  modify (fun w => mkFileWriter (w_st w) (w_w w) numFeatures nodeSize (w_featureIndex w)).
Definition next_feature : M FileWriter unit :=
  modify (fun w => mkFileWriter (w_st w) (w_w w) (w_numFeatures w) (w_nodeSize w) (wrap64 (w_featureIndex w + 1))).
(** A write to the stream: the bytes that went out and the error. *)
Definition on_sink (f : sink -> (Z * option fgError) * sink) : M FileWriter (Z * option fgError) := fun w =>
  let '(r, k) := f (w_w w) in
  (Val r, mkFileWriter (w_st w) k (w_numFeatures w) (w_nodeSize w) (w_featureIndex w)).

Section writer.
(** The byte order of the host is big-endian or not. *)
Context `{!FlatBuffers} (big : bool).

Definition Header (hdr : table) : M FileWriter (Z * option fgError) :=
  match safeFlatBuffersInteraction (Ok <$> FeaturesCount hdr) with
  | Err e => mret (0, Some (Wrap "failed to get header feature count" [] e))
  | Ok numFeatures =>
  match safeFlatBuffersInteraction (Ok <$> IndexNodeSize hdr) with
  | Err e => mret (0, Some (Wrap "failed to get header index node size" [] e))
  | Ok nodeSize =>
  if nodeSize =? 1 then mret (0, Some (Txt "index node size may not be 1"))
  else
    r ← attempt (toState uninitialized beforeMagic outside);
    match r with
    | Err e => mret (0, Some (if decide (e = errUnexpectedState) then Txt errHeaderAlreadyCalled else e))
    | Ok _ =>
      '(n, e) ← on_sink (fun w => Write w magic);
      match e with
      | Some e => withErr n (toErr (Wrap "failed to write magic number" [] e))
      | None =>
        ignore (toState beforeMagic beforeHeader inside);;
        '(m, e) ← on_sink (fun w => writeSizePrefixedTable w hdr);
        let n := n + m in
        match e with
        | Some e => withErr n (toErr (Wrap "failed to write header" [] e))
        | None =>
          set_params numFeatures nodeSize;;
          ignore (toState beforeHeader afterHeader inside);;
          mret (n, None)
        end
      end
    end
  end end.

Definition canWriteIndex : M FileWriter unit :=
  w ← get;
  match err (st w) with
  | Some e => raise e
  | None =>
    match state (st w) with
    | uninitialized => raise (Txt errHeaderNotCalled)
    | afterHeader => if w_nodeSize w =? 0 then raise (Txt errHeaderNodeSizeZero) else mret tt
    | afterIndex | inData | eof => raise (Txt errWritePastIndex)
    | s => panic (LogicError "unexpected state looking to write index" [state_code s])
    end
  end.

Definition index (ix : packedRTree) : M FileWriter (Z * option fgError) :=
  set_state beforeIndex;;
  w ← get;
  if negb (w_numFeatures w =? wrap64 (numRefs ix)) then
    set_state afterHeader;;
    mret (0, Some (Fmt "feature count mismatch (header=%d, index=%d)" [w_numFeatures w; numRefs ix]))
  else if negb (w_nodeSize w =? nodeSize ix mod 2 ^ 16) then
    set_state afterHeader;;
    mret (0, Some (Fmt "node size mismatch (header=%d, index=%d)" [w_nodeSize w; nodeSize ix mod 2 ^ 16]))
  else
    bytes ← fromRt (Marshal big ix) (fun e => panic (RtPanic e));
    '(n, e) ← on_sink (fun k => Write k bytes);
    match e with
    | Some e => withErr n (toErr (Wrap "failed to write index" [] e))
    | None => ignore (toState beforeIndex afterIndex inside);; mret (n, None)
    end.

Definition Index (ix : packedRTree) : M FileWriter (Z * option fgError) :=
  r ← attempt canWriteIndex;
  match r with Err e => mret (0, Some e) | Ok _ => index ix end.

Definition canWriteData (n : Z) : M FileWriter unit :=
  w ← get;
  match err (st w) with
  | Some e => raise e
  | None =>
    match state (st w) with
    | uninitialized => raise (Txt errHeaderNotCalled)
    | afterHeader => if 0 <? w_nodeSize w then raise (Txt errIndexNotWritten) else mret tt
    | afterIndex | inData => mret tt
    | eof => raise (Fmt "all %d features indicated in header already written" [w_numFeatures w])
    | s => panic (LogicError "unexpected state looking to write data" [state_code s])
    end;;
    let left := wrap64 (w_numFeatures w - w_featureIndex w) in
    if (0 <? w_numFeatures w) && (left <? n)
    then raise (Fmt "%d of %d features indicated in header already written, writing %d more would create an excess of %d"
                  [w_featureIndex w; w_numFeatures w; n; n - left])
    else mret tt
  end.

Fixpoint dataLoop (i : Z) (n : Z) (p : list table) : M FileWriter (Z * option fgError) :=
  match p with
  | [] => mret (n, None)
  | t :: p =>
    '(m, e) ← on_sink (fun w => writeSizePrefixedTable w t);
    let n := n + m in
    match e with
    | Some e =>
      w ← get;
      let e := Wrap "failed to write feature %d at data index %d" [i; w_featureIndex w] e in
      (if 0 <? m then ignore (toErr e) else mret tt);;
      mret (n, Some e)
    | None => next_feature;; dataLoop (i + 1) n p
    end
  end.

Definition Data (p : list table) : M FileWriter (Z * option fgError) :=
  r ← attempt (canWriteData (Z.of_nat (length p)));
  match r with
  | Err e => mret (0, Some e)
  | Ok _ =>
    set_state inData;;
    '(n, e) ← dataLoop 0 0 p;
    match e with
    | Some e => mret (n, Some e)
    | None =>
      w ← get;
      (if (w_featureIndex w =? w_numFeatures w) && (0 <? w_numFeatures w)
       then ignore (toState inData eof inside) else mret tt);;
      mret (n, None)
    end
  end.

(** The coordinates, two at a time; an odd one at the end is left out. *)
Fixpoint expandXY (b : Box) (xy : list Z) : Box :=
  match xy with
  | x :: y :: xy => expandXY (ExpandXY b x y) xy
  | _ => b
  end.
Definition featureBounds (f : table) : result fgError Box :=
  safeFlatBuffersInteraction
    ((fun g => Ok (match g with Some xy => expandXY EmptyBox xy | None => EmptyBox end)) <$> GeometryXy f).

(** The references of the features from the [i]-th on, and the bounds of all. *)
Fixpoint featureRefs (i offset : Z) (bounds : Box) (p : list table) : result fgError (list Ref * Box) :=
  match p with
  | [] => Ok ([], bounds)
  | f :: p =>
    let inner e := Wrap "failed to index feature %d" [i] (Wrap "feature %d" [i] e) in
    match tableSize f with
    | Err e => Err (inner e)
    | Ok size =>
      match featureBounds f with
      | Err e => Err (inner e)
      | Ok b =>
        let? (refs, bounds) := featureRefs (i + 1) (int64 (offset + size + 4)) (Expand bounds b) p in
        Ok (mkRef b offset :: refs, bounds)
      end
    end
  end.

Definition IndexData (p : list table) : M FileWriter (Z * option fgError) :=
  r ← attempt canWriteIndex;
  match r with
  | Err e => mret (0, Some e)
  | Ok _ =>
    match featureRefs 0 0 EmptyBox p with
    | Err e => mret (0, Some e)
    | Ok (refs, bounds) =>
      w ← get;
      r ← attempt (fromRt (New (HilbertSort refs bounds) (w_nodeSize w)) (fun e => raise (Rt e)));
      match r with
      | Err e => mret (0, Some e)
      | Ok ix =>
        '(n, e) ← index ix;
        match e with
        | Some e => mret (n, Some e)
        | None => '(o, e) ← Data p; mret (n + o, e)
        end
      end
    end
  end.

Definition Close (a : option (option fgError)) : M FileWriter unit :=
  close a;;
  w ← get;
  if w_featureIndex w <? w_numFeatures w
  then raise (Fmt "truncated file: only wrote %d of %d header-indicated features" [w_featureIndex w; w_numFeatures w])
  else mret tt.
End writer.
