(* ===== verification/FgbReader.v ===== *)
(** * Reading FlatGeobuf files ([file_reader.go])

    The methods of [FileReader] over a stream that may or may not be an [io.Seeker]. *)

From Stdlib Require Import Ascii String ZArith Lia Bool.
From stdpp Require Import base list strings option sorting.
From S2P Require Import Prelude GoStd Strconv Bytes Containers PackedRTree PackedStream Fgb.

Local Open Scope Z_scope.

Record FileReader := mkFileReader {
  r_st : stateful; r_r : reader; r_seekable : bool;
  r_numFeatures : Z; r_nodeSize : Z; r_indexOffset : Z; r_dataOffset : Z;
  r_cachedIndex : option packedRTree; r_featureIndex : Z; r_featureOffset : Z }.
#[global] Instance FileReader_stateful : Stateful FileReader := {
  st := r_st;
  set_st s r := mkFileReader s (r_r r) (r_seekable r) (r_numFeatures r) (r_nodeSize r) (r_indexOffset r)
                  (r_dataOffset r) (r_cachedIndex r) (r_featureIndex r) (r_featureOffset r) }.

Definition NewFileReader (r : reader) (seekable : bool) : FileReader :=
  mkFileReader (mkStateful uninitialized None) r seekable 0 0 0 0 None 0 0.

Definition with_r (x : reader) (r : FileReader) : FileReader :=
  mkFileReader (r_st r) x (r_seekable r) (r_numFeatures r) (r_nodeSize r) (r_indexOffset r)
    (r_dataOffset r) (r_cachedIndex r) (r_featureIndex r) (r_featureOffset r).
Definition with_params (numFeatures nodeSize : Z) (r : FileReader) : FileReader :=
  mkFileReader (r_st r) (r_r r) (r_seekable r) numFeatures nodeSize (r_indexOffset r)
    (r_dataOffset r) (r_cachedIndex r) (r_featureIndex r) (r_featureOffset r).
Definition with_indexOffset (x : Z) (r : FileReader) : FileReader :=
  mkFileReader (r_st r) (r_r r) (r_seekable r) (r_numFeatures r) (r_nodeSize r) x
    (r_dataOffset r) (r_cachedIndex r) (r_featureIndex r) (r_featureOffset r).
Definition with_dataOffset (x : Z) (r : FileReader) : FileReader :=
  mkFileReader (r_st r) (r_r r) (r_seekable r) (r_numFeatures r) (r_nodeSize r) (r_indexOffset r)
    x (r_cachedIndex r) (r_featureIndex r) (r_featureOffset r).
Definition with_cachedIndex (x : packedRTree) (r : FileReader) : FileReader :=
  mkFileReader (r_st r) (r_r r) (r_seekable r) (r_numFeatures r) (r_nodeSize r) (r_indexOffset r)
    (r_dataOffset r) (Some x) (r_featureIndex r) (r_featureOffset r).
Definition with_feature (i o : Z) (r : FileReader) : FileReader :=
  mkFileReader (r_st r) (r_r r) (r_seekable r) (r_numFeatures r) (r_nodeSize r) (r_indexOffset r)
    (r_dataOffset r) (r_cachedIndex r) i o.

(** ** The stream *)

Definition readFull (count : nat) : M FileReader (list ascii) := fun r =>
  match ReadFull (r_r r) count with
  | (Ok b, x) => (Val b, with_r x r)
  | (Err e, x) => (Raise (Io e), with_r x r)
  end.
Definition readMagic : M FileReader SpecVersion := fun r =>
  match Magic (r_r r) with
  | (Ok v, x) => (Val v, with_r x r)
  | (Err e, x) => (Raise e, with_r x r)
  end.
(** [r.r.(io.Seeker).Seek] with [io.SeekStart] and [io.SeekCurrent]. *)
Definition seek (f : reader -> result ioError (Z * reader)) : M FileReader Z := fun r =>
  if r_seekable r then
    match f (r_r r) with
    | Ok (o, x) => (Val o, with_r x r)
    | Err e => (Raise (Io e), r)
    end
  else (Panicked NotASeeker, r).
Definition seekStart (offset : Z) : M FileReader Z := seek (fun x => SeekStart x offset).
Definition seekCurrent (offset : Z) : M FileReader Z := seek (fun x => SeekCurrent x offset).

(** [m], with its error in [toErr(wrapErr(...))]. *)
Definition orErr {A} (m : M FileReader A) (f : fgError -> fgError) : M FileReader A :=
  r ← attempt m;
  match r with Ok a => mret a | Err e => toErr (f e) end.

(** [r.Read(buf)] of a stream that gives what it has. *)
Definition read (count : Z) : M FileReader Z := fun r =>
  let avail := Z.of_nat (length (drop (Z.to_nat (pos (r_r r))) (content (r_r r)))) in
  if (0 <? count) && (avail =? 0) then (Raise (Io EOF), r)
  else let a := Z.min count avail in (Val a, with_r (mkReader (content (r_r r)) (pos (r_r r) + a)) r).

Definition discardBufferSize : Z := 8096.
(** The loop ends when [n] bytes are read or the stream ends: [fuel] bytes are enough. *)
Fixpoint discard (fuel : nat) (bufLen n : Z) : M FileReader unit :=
  match fuel with
  | O => panic (RtPanic OutOfFuel)
  | S fuel =>
    if 0 <? n then
      a ← (if n <? bufLen then read n else read bufLen);
      discard fuel bufLen (n - a)
    else mret tt
  end.

(** ** Offsets *)

Definition saveGenericOffset (get_ : FileReader -> Z) (set_ : Z -> FileReader -> FileReader) (name : string)
    : M FileReader unit :=
  r ← get;
  if get_ r =? 0 then
    if r_seekable r then
      offset ← orErr (seekCurrent 0) (Wrap ("failed to query " ++ name ++ " offset")%string []);
      modify (set_ offset)
    else mret tt
  else mret tt.
Definition saveIndexOffset : M FileReader unit := saveGenericOffset r_indexOffset with_indexOffset "index".
Definition saveDataOffset : M FileReader unit := saveGenericOffset r_dataOffset with_dataOffset "data".

Section reader.
Context `{!FlatBuffers} (big : bool).

(** [Header]: the table, when it is returned, and the error. *)
Definition Header : M FileReader (option table * option fgError) :=
  r ← attempt (toState uninitialized beforeMagic outside);
  match r with
  | Err e => mret (None, Some (if decide (e = errUnexpectedState) then Txt errHeaderAlreadyCalled else e))
  | Ok _ =>
    v ← attempt readMagic;
    match v with
    | Err e => withErr None (toErr (Wrap "failed to read magic number" [] e))
    | Ok v =>
    if (Major v <? MinSpecMajorVersion) || (MaxSpecMajorVersion <? Major v)
    then withErr None (toErr (Fmt "magic number has unsupported major version %d" [Major v]))
    else
      ignore (toState beforeMagic beforeHeader inside);;
      b ← attempt (readFull 4);
      match b with
      | Err e => withErr None (toErr (Wrap "header length read error" [] e))
      | Ok b =>
      let headerLen := GetUint32 b in
      if headerLen <? 4
      then withErr None (toErr (Fmt "header length %d not big enough for FlatBuffer uoffset_t" [headerLen]))
      else if headerMaxLen <? headerLen
      then withErr None (toErr (Fmt "header length %d exceeds limit of %d bytes" [headerLen; headerMaxLen]))
      else
        tl ← attempt (readFull (Z.to_nat headerLen));
        match tl with
        | Err e => withErr None (toErr (Wrap "failed to read header table (len=%d)" [headerLen] e))
        | Ok tl =>
        let hdr := rootTable (b ++ tl) in
        match safeFlatBuffersInteraction
                (numFeatures ← FeaturesCount hdr; nodeSize ← IndexNodeSize hdr; Some (Ok (numFeatures, nodeSize))) with
        | Err e => mret (None, Some e)
        | Ok (numFeatures, nodeSize) =>
        if MaxInt <? numFeatures
        then withErr (Some hdr)
               (toErr (Fmt "header feature count %d overflows limit of %d features" [numFeatures; MaxInt]))
        else if nodeSize =? 1
        then withErr (Some hdr) (toErr (Txt "header index node size 1 not allowed"))
        else
          modify (with_params numFeatures nodeSize);;
          r ← get;
          e ← attempt (if r_seekable r then
                         saveIndexOffset;;
                         (if (nodeSize =? 0) || (numFeatures =? 0) then saveDataOffset else mret tt)
                       else mret tt);
          match e with
          | Err e => mret (None, Some e)
          | Ok _ => ignore (toState beforeHeader afterHeader inside);; mret (Some hdr, None)
          end
        end end end end
  end.

Definition indexStateErr {A} (s : fstate) : M FileReader A :=
  r ← get;
  match s with
  | uninitialized => raise (Txt errHeaderNotCalled)
  | afterIndex | inData | eof =>
    if 0 <? r_indexOffset r
    then raise (Txt (errReadPastIndex ++ " (reader is an io.Seeker though, try Rewind)"))
    else raise (Txt errReadPastIndex)
  | _ => panic (LogicError "unexpected state looking to read index" [state_code s])
  end.

(** The first transition of [Index] and [IndexSearch]. *)
Definition enterIndex : M FileReader unit :=
  r ← attempt (toState afterHeader beforeIndex outside);
  match r with
  | Err e => if decide (e = errUnexpectedState) then s ← get_state; indexStateErr s else raise e
  | Ok _ => mret tt
  end.

Definition index : M FileReader packedRTree :=
  r ← get;
  '(prt, x) ← fromRt (Unmarshal big (r_r r) (r_numFeatures r) (r_nodeSize r))
                (fun e => toErr (Wrap "failed to read index" [] (Rt e)));
  modify (with_r x);;
  modify (with_cachedIndex prt);;
  r ← get;
  (if (r_dataOffset r =? 0) && r_seekable r then saveDataOffset else mret tt);;
  mret prt.

Definition Index : M FileReader packedRTree :=
  enterIndex;;
  r ← get;
  if (r_nodeSize r =? 0) || (r_numFeatures r =? 0) then
    ignore (toState beforeIndex afterIndex inside);;
    raise ErrNoIndex
  else
    match r_cachedIndex r with
    | Some prt =>
      orErr (seekStart (r_dataOffset r)) (Wrap "failed to seek past cached index" []);;
      ignore (toState beforeIndex afterIndex inside);;
      mret prt
    | None =>
      prt ← index;
      ignore (toState beforeIndex afterIndex inside);;
      mret prt
    end.

Definition readFeature : M FileReader table :=
  r ← get;
  let i := r_featureIndex r in
  let o := r_featureOffset r in
  b ← attempt (readFull 4);
  match b with
  | Err e =>
    if decide (e = Io EOF) then raise errEndOfData
    else toErr (Wrap "feature[%d] length read error (offset %d)" [i; o] e)
  | Ok b =>
    let featureLen := GetUint32 b in
    if featureLen <? 4
    then toErr (Fmt "feature[%d] length %d not big enough for FlatBuffer uoffset_t (offset %d)" [i; featureLen; o])
    else
      let tblLen := u32 (4 + featureLen) in
      if tblLen <? 4 then panic SlicePanic
      else
        tl ← orErr (readFull (Z.to_nat (tblLen - 4)))
               (Wrap "failed to read feature[%d] (offset=%d, len=%d)" [i; o; featureLen]);
        modify (with_feature (int64 (i + 1)) (int64 (o + (4 + featureLen))));;
        mret (rootTable (b ++ tl))
  end.

(** The search of [IndexSearch], sorted if it was made in memory. *)
Definition searchIndex (b : Box) : M FileReader (list Result) :=
  r ← get;
  if r_seekable r then
    match r_cachedIndex r with
    | Some prt =>
      sr ← fromRt (Search prt b) (fun e => panic (RtPanic e));
      orErr (seekStart (r_dataOffset r)) (Wrap "failed to seek past index" []);;
      mret (sort_by ResultLess sr)
    | None =>
      (if 0 <? r_indexOffset r
       then orErr (seekStart (r_indexOffset r)) (Wrap "failed to seek to index start" []);; mret tt
       else mret tt);;
      r ← get;
      '(sr, x) ← fromRt (Seek big (r_r r) (r_numFeatures r) (r_nodeSize r) b)
                   (fun e => toErr (Wrap "failed to seek-search index" [] (Rt e)));
      modify (with_r x);;
      mret sr
    end
  else
    match r_cachedIndex r with
    | None =>
      prt ← index;
      sr ← fromRt (Search prt b) (fun e => panic (RtPanic e));
      mret (sort_by ResultLess sr)
    | Some _ => panic (LogicError "index should not be cached" [])
    end.

(** [skip] of [IndexSearch]. *)
Definition skip (n : Z) : M FileReader unit :=
  r ← get;
  if r_seekable r then seekCurrent n;; mret tt
  else discard (S (length (content (r_r r)))) discardBufferSize n.

Fixpoint searchFeatures (i : Z) (sr : list Result) : M FileReader (list table) :=
  match sr with
  | [] => mret []
  | x :: sr =>
    r ← get;
    (if r_featureOffset r <? ResOffset x
     then orErr (skip (int64 (ResOffset x - r_featureOffset r)))
            (Wrap "failed to skip to feature %d (data offset %d) for search result %d" [RefIndex x; ResOffset x; i])
     else mret tt);;
    modify (with_feature (RefIndex x) (ResOffset x));;
    f ← attempt readFeature;
    match f with
    | Err e =>
      if decide (e = errEndOfData)
      then toErr (Wrap "data section ends before feature[%d]" [RefIndex x] (Io ErrUnexpectedEOF))
      else raise e
    | Ok f => fs ← searchFeatures (i + 1) sr; mret (f :: fs)
    end
  end.

Definition IndexSearch (b : Box) : M FileReader (list table) :=
  enterIndex;;
  r ← get;
  if (r_nodeSize r =? 0) || (r_numFeatures r =? 0) then
    set_state afterIndex;;
    raise ErrNoIndex
  else
    sr ← searchIndex b;
    ignore (toState beforeIndex afterIndex inside);;
    r ← get;
    (if r_dataOffset r =? 0 then saveDataOffset else mret tt);;
    ignore (toState afterIndex inData inside);;
    fs ← searchFeatures 0 sr;
    ignore (toState inData eof inside);;
    mret fs.

Definition skipIndex : M FileReader unit :=
  ignore (toState afterHeader beforeIndex inside);;
  r ← get;
  (if 0 <? r_dataOffset r then
     orErr (seekStart (r_dataOffset r)) (Wrap errSeekingData []);; mret tt
   else if 0 <? r_indexOffset r then
     indexSize ← fromRt (Size (r_numFeatures r) (r_nodeSize r)) (fun e => toErr (Wrap errIndexSize [] (Rt e)));
     let dataOffset := int64 (r_indexOffset r + indexSize) in
     modify (with_dataOffset dataOffset);;
     orErr (seekStart dataOffset) (Wrap errSeekingData []);; mret tt
   else if (0 <? r_nodeSize r) && (0 <? r_numFeatures r) then
     indexSize ← fromRt (Size (r_numFeatures r) (r_nodeSize r)) (fun e => toErr (Wrap errIndexSize [] (Rt e)));
     let bufSize := if indexSize <? discardBufferSize then indexSize else discardBufferSize in
     orErr (discard (S (length (content (r_r r)))) bufSize indexSize) (Wrap errDiscardIndex [])
   else mret tt);;
  ignore (toState beforeIndex afterIndex inside).

(** The loop of [Data]: the features read, and the error of an early return. *)
Fixpoint dataLoop (n : nat) (acc : list table) : M FileReader (list table * option (option fgError)) :=
  match n with
  | O => mret (acc, None)
  | S n =>
    f ← attempt readFeature;
    match f with
    | Err e =>
      if decide (e = errEndOfData) then
        ignore (toState inData eof inside);;
        mret (acc, Some (match acc with [] => Some (Io EOF) | _ => None end))
      else mret (acc, Some (Some e))
    | Ok f => dataLoop n (acc ++ [f])
    end
  end.

(** [Data] of a slice of [len] features: those it is filled with, and the error. *)
Definition Data (len : Z) : M FileReader (list table * option fgError) :=
  e ← get_err;
  match e with
  | Some e => mret ([], Some e)
  | None =>
    s ← get_state;
    e ← attempt (if decide (s = afterHeader) then skipIndex;; set_state inData else mret tt);
    match e with
    | Err e => mret ([], Some e)
    | Ok _ =>
      s ← get_state;
      (if decide (s = afterIndex) then set_state inData else mret tt);;
      s ← get_state;
      if decide (s = eof) then mret ([], Some (Io EOF))
      else if decide (s = uninitialized) then mret ([], Some (Txt errHeaderNotCalled))
      else
        ignore (toState inData inData inside);;
        r ← get;
        let rem := if 0 <? r_numFeatures r then int64 (r_numFeatures r - r_featureIndex r) else 0 in
        let n := if (0 <? r_numFeatures r) && (rem <? len) then rem else len in
        '(fs, early) ← dataLoop (Z.to_nat n) [];
        match early with
        | Some e => mret (fs, e)
        | None =>
          (if n =? rem then ignore (toState inData eof inside) else mret tt);;
          mret (fs, None)
        end
    end
  end.

Definition dataRemBufferSize : Z := 1024.
(** The size of a [flat.Feature] in memory, and what [make] allocates at most. *)
Definition featureSize : Z := 32.
Definition maxAlloc : Z := 2 ^ 48.

(** The loop over full buffers; it ends when a call of [Data] returns [io.EOF]. *)
Fixpoint dataRemLoop (fuel : nat) (q : list table) : M FileReader (list table * option fgError) :=
  match fuel with
  | O => panic (RtPanic OutOfFuel)
  | S fuel =>
    '(p, e) ← Data dataRemBufferSize;
    let q := q ++ p in
    match e with
    | Some e => mret (q, if decide (e = Io EOF) then None else Some e)
    | None => dataRemLoop fuel q
    end
  end.

(** The first call of [Data] is that of the loop with an empty [q]. *)
Definition DataRem : M FileReader (list table * option fgError) :=
  r ← get;
  match err (st r) with
  | Some e => mret ([], Some e)
  | None =>
    if decide (state (st r) = eof) then mret ([], Some (Io EOF))
    else if 0 <? r_numFeatures r then
      let rem := int64 (r_numFeatures r - r_featureIndex r) in
      if (rem <? 0) || (maxAlloc <? rem * featureSize) then panic (MakePanic rem)
      else
        '(p, e) ← Data rem;
        if decide (e = None \/ e = Some (Io EOF)) then
          if negb (Z.of_nat (length p) =? rem)
          then withErr p (toErr (Wrap "expected to read %d features but read %d"
                                   [rem; Z.of_nat (length p)] (Io ErrUnexpectedEOF)))
          else mret (p, None)
        else mret (p, e)
    else dataRemLoop (S (S (length (content (r_r r))))) []
  end.

Definition Rewind : M FileReader unit :=
  r ← get;
  match err (st r) with
  | Some e => raise e
  | None =>
    if state_code (state (st r)) <? state_code afterHeader then raise (Txt errHeaderNotCalled)
    else if r_indexOffset r =? 0 then raise ErrNotSeekable
    else if decide (state (st r) = afterHeader) then mret tt
    else
      orErr (seekStart (r_indexOffset r)) (Wrap "failed to seek to end of header" []);;
      set_state afterHeader;;
      modify (with_feature 0 0)
  end.

Definition Close (a : option (option fgError)) : M FileReader unit := close a.
End reader.
