(* ===== verification/FgbSafe.v ===== *)
(** * The reader of FlatGeobuf files keeps its states ([file_reader.go])

    Any sequence of calls on any stream: the panics that the code marks as logic errors do
    not happen, loops end, and what can still panic is a damaged index, a table length that
    wraps around and an allocation. *)

From Stdlib Require Import Ascii String ZArith Lia Bool.
From stdpp Require Import base list strings option sorting.
From S2P Require Import Prelude GoStd Strconv Bytes Containers PackedRTree PackedBuild PackedSearch PackedStream Fgb FgbReader.

Local Open Scope Z_scope.

(** ** Errors of the packed R-tree *)

Definition rt_clean {A} (r : result rtError A) : Prop :=
  match r with Err (PackedRTree.Panic _) | Err OutOfFuel => False | _ => True end.

Lemma Size_clean n k : 1 <= n <= MaxInt -> 2 <= k < 2 ^ 16 -> rt_clean (Size n k) /\ Size n k <> Err IndexPanic.
Proof. intros Hn Hk. rewrite Size_total by done. by repeat case_match. Qed.

Lemma Size_pos n k z : 1 <= n <= MaxInt -> 2 <= k < 2 ^ 16 -> Size n k = Ok z -> 0 < z.
Proof.
  intros Hn Hk. rewrite Size_total by done. destruct (climb_total n k Hn Hk) as [_ Ht].
  do 2 (destruct (_ <? _); [done|]). intros [= <-]. lia.
Qed.

Lemma noo_Ok n k z : 1 <= n <= MaxInt -> 2 <= k < 2 ^ 16 -> Size n k = Ok z -> exists prt, noo n k = Ok prt /\ nodeSize prt = k.
Proof.
  intros Hn Hk Hz. rewrite Size_total in Hz by done. destruct (Z.ltb_spec MaxInt (total n k)) as [|Ht]; [done|].
  unfold noo. rewrite levelify_spec by done. cbn [rbind]. unfold counts. cbn [bounds]. by eexists.
Qed.

Lemma fix_clean big b : rt_clean (fixLittleEndianOctets big b).
Proof.
  unfold fixLittleEndianOctets. destruct big; [|done]. remember (length b) as fuel eqn:E. 
  assert (length b <= fuel)%nat as H by lia. clear E. revert b H.
  induction fuel as [|fuel IH]; intros b Hb; [by destruct b|]. do 8 (destruct b as [|? b]; [done|]). cbn [swapGroups].
  specialize (IH b ltac:(simpl in Hb; lia)). by destruct (swapGroups fuel b) as [|[]].
Qed.

Lemma fetch_clean big s i j ns st : rt_clean (fetchNodes big s i j ns st).
Proof.
  unfold fetchNodes, readLittleEndianNodes. destruct st as [r o].
  destruct (negb _); [destruct (SeekCurrent _ _) as [[o1 r1]|]; [|done]|]; cbn [rbind];
    (destruct (_ || _ || _); [done|]); destruct (ReadFull _ _) as [[b|] r2]; try done;
    pose proof (fix_clean big b); by destruct (fixLittleEndianOctets big b) as [|[]].
Qed.

Section search_clean.
Context {S : Type} (bag : ticketBag) `{!Bag bag}.
Context (fetch : option (Z -> Z -> list node -> S -> result rtError (list node * S))).
Context (Hclean : forall f i j ns st, fetch = Some f -> rt_clean (f i j ns st)).

Lemma searchLoop_errors fuel prt b ns st q r e :
  searchLoop bag fetch fuel prt b ns st q r = Err e ->
  e = IndexPanic \/ e = OutOfFuel \/ exists f i j ns st, fetch = Some f /\ f i j ns st = Err e.
Proof using All.
  revert ns st q r. induction fuel as [|fuel IH]; intros ns st q r; [intros [= <-]; tauto|]. cbn [searchLoop].
  destruct (pop bag q) as [[x q']|]; [|intros [= <-]; tauto].
  destruct (at_ (levels prt) (level x)) as [lv|y] eqn:E1; cbn [rbind]; [|apply at_Err in E1 as ->; intros [= <-]; tauto].
  destruct (at_ (levels prt) 0) as [l0|y] eqn:E2; cbn [rbind]; [|apply at_Err in E2 as ->; intros [= <-]; tauto].
  destruct (match fetch with None => _ | Some f => _ end) as [[ns1 st1]|y] eqn:E3; cbn [rbind].
  2: { intros [= ->]. do 2 right. destruct fetch as [f|]; [|done]. by eexists _, _, _, _, _. }
  set (c := if _ <? _ then _ else _).
  pose proof (searchNodes_total bag (Z.to_nat (c - nodeIndex x)) b (lstart l0) (lstart l0 <=? nodeIndex x) (level x) ns1 (nodeIndex x) q' r) as HN.
  destruct (searchNodes _ _ _ _ _ _ _ _ _ _) as [[q2 r2]|y]; cbn [rbind]; [|subst; intros [= <-]; tauto].
  destruct q2; [done|apply IH].
Qed.

Lemma search_errors prt b st e :
  0 <= nodeSize prt -> search bag fetch prt b st = Err e ->
  e = IndexPanic \/ exists f i j ns st, fetch = Some f /\ f i j ns st = Err e.
Proof using All.
  intros Hk H. assert (e <> OutOfFuel) as Hne.
  { intros ->. eapply (search_ends bag fetch prt b st); [|done..]. intros f i j ns x Hf E.
    pose proof (Hclean f i j ns x Hf) as Hc. by rewrite E in Hc. }
  apply searchLoop_errors in H. tauto.
Qed.
Lemma search_clean prt b st : 0 <= nodeSize prt -> rt_clean (search bag fetch prt b st).
Proof using All.
  intros Hk. destruct (search bag fetch prt b st) as [|e] eqn:E; [done|].
  destruct (search_errors _ _ _ _ Hk E) as [->|(f & i & j & ns & x & Hf & E')]; [done|].
  pose proof (Hclean f i j ns x Hf) as Hc. by rewrite E' in Hc.
Qed.
End search_clean.

Lemma Search_errors prt b e : 0 <= nodeSize prt -> Search prt b = Err e -> e = IndexPanic.
Proof.
  intros Hk. unfold Search. destruct (search _ _ _ _ _) as [[]|e'] eqn:E; [done|]. intros [= <-].
  by destruct (search_errors stackBag None ltac:(done) prt b tt e' Hk E) as [->|(f & ? & ? & ? & ? & ? & _)].
Qed.

Lemma Seek_clean big rs n k b : 1 <= n <= MaxInt -> 2 <= k < 2 ^ 16 -> rt_clean (Seek big rs n k b).
Proof.
  intros Hn Hk. unfold Seek. destruct (SeekCurrent rs 0) as [[o rs']|]; [|done].
  destruct (Size_clean n k Hn Hk) as [Hs _]. destruct (Size n k) as [z|e] eqn:Ez; cbn [rbind]; [|by destruct e].
  destruct (_ <? _); [done|]. destruct (noo_Ok n k z Hn Hk Ez) as (prt & -> & Hp). cbn [rbind].
  pose proof (search_clean heapBag (Some (fetchNodes big o)) ltac:(intros f i j ns st [= <-]; apply fetch_clean) prt b (rs', o)
    ltac:(lia)) as H.
  destruct (search _ _ _ _ _) as [[R [rs1 o1]]|e]; cbn [rbind]; [|by destruct e].
  destruct (negb _); [|done]. by destruct (SeekStart _ _) as [[]|].
Qed.

Lemma Unmarshal_clean big r n k :
  1 <= n <= MaxInt -> 2 <= k < 2 ^ 16 ->
  rt_clean (Unmarshal big r n k) /\ (forall prt r', Unmarshal big r n k = Ok (prt, r') -> nodeSize prt = k /\ pos r <= pos r' /\ content r' = content r).
Proof.
  intros Hn Hk. unfold Unmarshal.
  destruct (Size_clean n k Hn Hk) as [Hs _]. destruct (Size n k) as [z|e] eqn:Ez; cbn [rbind]; [|by destruct e].
  destruct (noo_Ok n k z Hn Hk Ez) as (prt & -> & Hp). cbn [rbind]. unfold ReadFull.
  destruct (_ <=? _)%nat; [|by destruct (_ =? _)%nat].
  pose proof (fix_clean big (take (40 * length (nodes prt)) (drop (Z.to_nat (pos r)) (content r)))) as Hc.
  destruct (fixLittleEndianOctets _ _) as [d|e]; cbn [rbind]; [|by destruct e].
  split; [done|]. intros p r' [= <- <-]. cbn. split_and!; [done|lia|done].
Qed.

(** ** Outcomes of a method *)

(** What a stream can make the code panic with: an index that leads outside itself, a
    length of a table that wraps around, a number of features beyond every allocation. *)
Definition input_panic (p : fgPanic) : Prop :=
  match p with
  | RtPanic IndexPanic | SlicePanic => True
  | MakePanic n => maxAlloc < n * featureSize
  | _ => False
  end.

Definition ok {S A} (m : M S A) (Q : A -> S -> Prop) (E : fgError -> S -> Prop) (s : S) : Prop :=
  match m s with
  | (Val a, s') => Q a s'
  | (Raise e, s') => E e s'
  | (Panicked p, _) => input_panic p
  end.

Lemma ok_ret {S A} (a : A) Q E (s : S) : Q a s -> ok (mret a) Q E s.
Proof. done. Qed.
Lemma ok_bind {S A B} (m : M S A) (k : A -> M S B) Q E s :
  ok m (fun a => ok (k a) Q E) E s -> ok (m ≫= k) Q E s.
Proof. unfold ok, mbind, M_bind. by destruct (m s) as [[] ?]. Qed.
Lemma ok_attempt {S A} (m : M S A) Q E s :
  ok m (fun a => Q (Ok a)) (fun e => Q (Err e)) s -> ok (attempt m) Q E s.
Proof. unfold ok, attempt. by destruct (m s) as [[] ?]. Qed.
Lemma ok_get {S} Q E (s : S) : Q s s -> ok get Q E s.
Proof. done. Qed.
Lemma ok_modify {S} (f : S -> S) Q E s : Q tt (f s) -> ok (modify f) Q E s.
Proof. done. Qed.
Lemma ok_raise {S A} e Q E (s : S) : E e s -> ok (raise (A := A) e) Q E s.
Proof. done. Qed.
Lemma ok_mono {S A} (m : M S A) (Q Q' : A -> S -> Prop) (E E' : fgError -> S -> Prop) s :
  ok m Q E s -> (forall a s, Q a s -> Q' a s) -> (forall e s, E e s -> E' e s) -> ok m Q' E' s.
Proof. unfold ok. destruct (m s) as [[] ?]; eauto. Qed.
Lemma ok_fromRt {S A} (r : result rtError A) (f : rtError -> M S A) Q E s :
  rt_clean r -> (forall a, r = Ok a -> Q a s) -> (forall e, r = Err e -> e <> IndexPanic -> ok (f e) Q E s) -> ok (fromRt r f) Q E s.
Proof. intros Hr HQ HE. destruct r as [a|[]]; try done; [by apply HQ|by apply HE..]. Qed.

Section states.
Context {S : Type} `{!Stateful S}.
Lemma ok_toErr {A} e Q E (s : S) :
  err (st s) = None -> E e (set_st (mkStateful (state (st s)) (Some e)) s) -> ok (toErr (A := A) e) Q E s.
Proof. intros H HE. unfold ok, toErr, get_err, mbind, M_bind, get. cbn. by rewrite H. Qed.
Lemma ok_withErr {A} (v : A) e Q E (s : S) :
  err (st s) = None -> Q (v, Some e) (set_st (mkStateful (state (st s)) (Some e)) s) -> ok (withErr v (toErr e)) Q E s.
Proof. intros H HQ. apply ok_bind, ok_attempt. by apply ok_toErr. Qed.
Lemma ok_toState a b t Q E (s : S) :
  err (st s) = None -> state (st s) = a -> Q tt (set_st (mkStateful b None) s) -> ok (toState a b t) Q E s.
Proof.
  intros H <- HQ. unfold ok, toState, get_err, get_state, set_state, mbind, M_bind, get, mret, M_ret. cbn.
  rewrite H. cbn. destruct (decide _); [|done]. cbn. by rewrite H.
Qed.
Lemma ok_ignore a b t Q E (s : S) :
  err (st s) = None -> state (st s) = a -> Q tt (set_st (mkStateful b None) s) -> ok (ignore (toState a b t)) Q E s.
Proof. intros. by apply ok_bind, ok_attempt, ok_toState. Qed.
(** A transition from outside, in any state. *)
Lemma ok_outside a b Q E (s : S) :
  (forall e, err (st s) = Some e -> E e s) ->
  (err (st s) = None -> state (st s) = a -> Q tt (set_st (mkStateful b None) s)) ->
  (err (st s) = None -> state (st s) <> a -> E errUnexpectedState s) -> ok (toState a b outside) Q E s.
Proof.
  intros H1 H2 H3. unfold ok, toState, get_err, get_state, set_state, mbind, M_bind, get, mret, M_ret. cbn.
  destruct (err (st s)) eqn:He; [by apply H1|]. cbn. destruct (decide _); [|by apply H3]. cbn. rewrite He. by apply H2.
Qed.
Lemma ok_set_state x Q E (s : S) : Q tt (set_st (mkStateful x (err (st s))) s) -> ok (set_state x) Q E s.
Proof. done. Qed.
Lemma ok_get_state Q E (s : S) : Q (state (st s)) s -> ok get_state Q E s.
Proof. done. Qed.
Lemma ok_get_err Q E (s : S) : Q (err (st s)) s -> ok get_err Q E s.
Proof. done. Qed.
End states.

(** ** The invariant of the reader *)

Definition params (r : FileReader) : Prop :=
  0 <= r_numFeatures r <= MaxInt /\ (r_nodeSize r = 0 \/ 2 <= r_nodeSize r < 2 ^ 16) /\
  (r_seekable r = true -> r_nodeSize r = 0 \/ r_numFeatures r = 0 -> 0 < r_dataOffset r).

(** What holds in every state. *)
Definition common (r : FileReader) : Prop :=
  (r_indexOffset r <> 0 \/ r_dataOffset r <> 0 -> r_seekable r = true) /\
  (forall prt, r_cachedIndex r = Some prt -> 0 <= nodeSize prt) /\
  (state (st r) <> eof -> 0 <= pos (r_r r)).

Definition good (r : FileReader) : Prop :=
  common r /\
  match state (st r) with
  | uninitialized => r_cachedIndex r = None /\ r_featureIndex r = 0 /\ 0 <= pos (r_r r) /\ r_dataOffset r = 0 /\ r_numFeatures r = 0
  | afterHeader => params r /\ r_featureIndex r = 0 /\ (r_cachedIndex r <> None -> r_seekable r = true)
  | afterIndex => params r /\ r_featureIndex r = 0
  | inData => params r /\ (0 < r_numFeatures r -> 0 <= r_featureIndex r < r_numFeatures r)
  | eof => params r
  | _ => False
  end.

(** The errors the reader can be left with are not the ones that callers compare with. *)
Definition kept_error (e : fgError) : Prop := e <> errUnexpectedState /\ e <> Io EOF.

(** After an error that is kept, nothing else is needed. *)
Definition inv (r : FileReader) : Prop :=
  (forall e, err (st r) = Some e -> kept_error e) /\ (err (st r) = None -> good r).

Section safe.
Context {FB : FlatBuffers} {FBL : FlatBuffersLaws} (big : bool).

(** The bytes that are left. *)
Definition left (r : FileReader) : nat := length (drop (Z.to_nat (pos (r_r r))) (content (r_r r))).

Lemma ok_readFull n Q E r :
  (forall b x, pos (r_r r) <= pos x -> pos x = pos (r_r r) + Z.of_nat n -> (0 <= pos (r_r r) -> (left (with_r x r) + n = left r)%nat) -> Q b (with_r x r)) ->
  (forall e x, pos (r_r r) <= pos x -> E (Io e) (with_r x r)) -> ok (readFull n) Q E r.
Proof.
  intros HQ HE. unfold ok, readFull, ReadFull. fold (left r). destruct (Nat.leb_spec n (left r)); cbn.
  - apply HQ; cbn; try lia. intros Hp. unfold left in *. cbn. rewrite Z2Nat.inj_add, <- drop_drop, Nat2Z.id, !length_drop in * by lia. lia.
  - apply HE. cbn. lia.
Qed.
Lemma ok_seek f Q E r :
  r_seekable r = true -> (forall o x, f (r_r r) = Ok (o, x) -> Q o (with_r x r)) -> (forall e, E (Io e) r) -> ok (seek f) Q E r.
Proof. intros Hs HQ HE. unfold ok, seek. rewrite Hs. destruct (f (r_r r)) as [[o x]|e]; [by apply HQ|apply HE]. Qed.
Lemma ok_orErr {A} (m : M FileReader A) f Q E r :
  ok m Q (fun e r' => err (st r') = None /\ E (f e) (set_st (mkStateful (state (st r')) (Some (f e))) r')) r ->
  ok (orErr m f) Q E r.
Proof.
  intros H. apply ok_bind, ok_attempt. eapply ok_mono; [exact H|done|]. intros e s [He HE]. by apply ok_toErr.
Qed.

(** A method that fails leaves the reader in its error state. *)
Definition failed (e : fgError) (r : FileReader) : Prop := err (st r) = Some e /\ kept_error e.

Lemma ok_orErr_failed {A} (m : M FileReader A) f Q r :
  (forall e, kept_error (f e)) -> ok m Q (fun _ r' => err (st r') = None) r -> ok (orErr m f) Q failed r.
Proof.
  intros Hf H. apply ok_orErr. eapply ok_mono; [exact H|done|]. intros e s He. split; [done|]. split; [by destruct s|done].
Qed.
Lemma ok_toErr_failed {A} e Q r :
  err (st r) = None -> kept_error e -> ok (toErr (A := A) e) Q failed r.
Proof. intros He Hne. apply ok_toErr; [done|]. split; [by destruct r|done]. Qed.

Lemma ok_discard fuel bufLen n Q E r :
  0 <= pos (r_r r) -> 0 < bufLen -> (length (drop (Z.to_nat (pos (r_r r))) (content (r_r r))) < fuel)%nat ->
  (forall x, 0 <= pos x -> content x = content (r_r r) -> Q tt (with_r x r)) ->
  (forall e x, 0 <= pos x -> E e (with_r x r)) -> ok (discard fuel bufLen n) Q E r.
Proof.
  intros Hp Hb. revert n r Hp. induction fuel as [|fuel IH]; intros n r Hp Hf HQ HE; [lia|].
  cbn [discard]. destruct (Z.ltb_spec 0 n).
  2: { apply ok_ret. specialize (HQ (r_r r) Hp eq_refl). by destruct r. }
  apply ok_bind.
  assert (forall c, 0 < c -> ok (read c) (fun a => ok (discard fuel bufLen (n - a)) Q E) E r) as Hr.
  { intros c Hc. unfold ok, read. rewrite (proj2 (Z.ltb_lt 0 c)) by done. cbn [andb].
    set (avail := drop (Z.to_nat (pos (r_r r))) (content (r_r r))) in *. destruct (Z.eqb_spec (Z.of_nat (length avail)) 0) as [E0|E0].
    { specialize (HE (Io EOF) (r_r r) Hp). by destruct r. }
    assert (length avail = length (content (r_r r)) - Z.to_nat (pos (r_r r)))%nat as Hl by apply length_drop.
    apply IH; cbn [pos content r_r with_r]; [lia| |exact HQ|exact HE]. rewrite length_drop, Z2Nat.inj_add by lia. lia. }
  destruct (n <? bufLen); apply Hr; lia.
Qed.

Lemma ok_saveOffset get_ set_ name Q r :
  err (st r) = None -> (get_ r <> 0 \/ r_seekable r = false -> Q tt r) ->
  (r_seekable r = true -> 0 <= pos (r_r r) -> Q tt (set_ (pos (r_r r)) r)) -> ok (saveGenericOffset get_ set_ name) Q failed r.
Proof.
  intros He H1 H2. apply ok_bind, ok_get. destruct (Z.eqb_spec (get_ r) 0); [|apply H1; by left].
  destruct (r_seekable r) eqn:Hs; [|apply H1; by right]. apply ok_bind, ok_orErr_failed, ok_seek; [done|done| |done].
  intros o x Hx. apply ok_modify. unfold SeekCurrent, seekTo in Hx. rewrite Z.add_0_r in Hx.
  destruct (Z.ltb_spec (pos (r_r r)) 0); [done|]. injection Hx as <- <-.
  assert (with_r (mkReader (content (r_r r)) (pos (r_r r))) r = r) as -> by (by destruct r as [? []]). by apply H2.
Qed.

Lemma inv_failed e r : failed e r -> inv r.
Proof. intros (He & Hk). split; [|by rewrite He]. intros e' E. congruence. Qed.
Lemma inv_err s e r : kept_error e -> inv (set_st (mkStateful s (Some e)) r).
Proof. intros He. split; destruct r; cbn; [congruence|done]. Qed.

Lemma ok_failed {A} (m : M FileReader A) Q r : ok m Q failed r -> ok m Q (fun _ => inv) r.
Proof. intros H. eapply ok_mono; [exact H|done|]. apply inv_failed. Qed.

(** What [Header] returns when the FlatBuffers code panics, after which nothing is known. *)
Definition header_failed {A} (v : option A * option fgError) : Prop := v = (None, Some FlatPanic).

Lemma ok_readMagic Q E r :
  (forall v x, pos (r_r r) <= pos x -> Q v (with_r x r)) ->
  (forall e x, pos (r_r r) <= pos x -> E e (with_r x r)) -> ok readMagic Q E r.
Proof.
  intros HQ HE. unfold ok, readMagic, Magic, ReadFull.
  destruct (_ <=? _)%nat; [|apply HE; cbn [pos]; lia]. destruct (forallb _ _); [apply HQ|apply HE]; cbn [pos]; lia.
Qed.

Lemma header_values_range t n k :
  (numFeatures ← FeaturesCount t; nodeSize ← IndexNodeSize t; Some (Ok (E := fgError) (numFeatures, nodeSize))) = Some (Ok (n, k)) ->
  0 <= n < 2 ^ 64 /\ 0 <= k < 2 ^ 16.
Proof using FBL.
  destruct (FeaturesCount t) as [n'|] eqn:En; cbn; [|done]. destruct (IndexNodeSize t) as [k'|] eqn:Ek; cbn; [|done].
  intros [= <- <-]. split; [by eapply FeaturesCount_uint64|by eapply IndexNodeSize_uint16].
Qed.

(** In the middle of a method, after the header. *)
Definition between (x : fstate) (r : FileReader) : Prop :=
  err (st r) = None /\ state (st r) = x /\ common r /\ params r.

Lemma between_move x y r : x <> eof -> between x r -> between y (set_st (mkStateful y None) r).
Proof.
  intros Hx (He & Hs & (H1 & H2 & H3) & Hp). split_and!; [done|done| |done]. split_and!; [done|done|].
  intros _. apply H3. by rewrite Hs.
Qed.
(** An error that is kept. *)
Ltac kept := apply ok_withErr; [done|right; by apply inv_err].

(** The end of [Header], after the table was read. *)
Lemma Header_save r n k hdr :
  common r -> err (st r) = None -> state (st r) = beforeHeader -> r_cachedIndex r = None -> r_featureIndex r = 0 ->
  r_dataOffset r = 0 -> 0 < pos (r_r r) -> 0 <= n <= MaxInt -> 0 <= k < 2 ^ 16 -> k <> 1 ->
  ok (modify (with_params n k);;
      r ← get;
      e ← attempt (if r_seekable r then
                     saveIndexOffset;; (if (k =? 0) || (n =? 0) then saveDataOffset else mret tt)
                   else mret tt);
      match e with
      | Err e => mret (None, Some e)
      | Ok _ => ignore (toState beforeHeader afterHeader inside);; mret (Some hdr, None)
      end) (fun (v : option table * _) r' => header_failed v \/ inv r') (fun _ _ => False) r.
Proof.
  intros (Hc1 & Hc2 & Hc3) He Hs Hcached Hfi Hdo Hp Hn Hk Hk1. apply ok_bind, ok_modify, ok_bind, ok_get, ok_bind, ok_attempt.
  assert (forall r', err (st r') = None -> state (st r') = beforeHeader -> r_cachedIndex r' = None -> r_featureIndex r' = 0 ->
    common r' -> params r' ->
    ok (ignore (toState beforeHeader afterHeader inside);; mret (Some hdr, None))
      (fun (v : option table * option fgError) r' => header_failed v \/ inv r') (fun _ _ => False) r') as Hend.
  { intros r' He' Hs' Hc' Hf' Hcm Hpm. apply ok_bind, ok_ignore; [done|done|]. apply ok_ret. right. split; [done|]. intros _.
    destruct (between_move beforeHeader afterHeader r' ltac:(done) ltac:(by split_and!)) as (_ & _ & Hcm' & Hpm').
    split; [exact Hcm'|]. cbn. split_and!; [exact Hpm|done|by rewrite Hc']. }
  assert (forall e r', failed e r' -> ok (mret (None, Some e))
      (fun (v : option table * option fgError) r' => header_failed v \/ inv r') (fun _ _ => False) r') as Hfail.
  { intros e r' Hf. apply ok_ret. right. by eapply inv_failed. }
  destruct r as [s x sk n0 k0 io do ci fi fo]. cbn in *. destruct sk.
  2: { apply ok_ret, Hend; try done; unfold common, params; cbn; split_and!; try done; intros; lia. }
  apply ok_bind. eapply ok_mono; [apply (ok_saveOffset _ _ _ (fun _ r' => exists io', r' = mkFileReader s x true n k io' do ci fi fo))|..].
  - done.
  - intros _. by eexists.
  - intros _ _. by eexists.
  - intros [] r' [io' ->]. cbn [r_dataOffset]. subst do.
    destruct ((k =? 0) || (n =? 0)) eqn:E0.
    + eapply ok_mono; [apply (ok_saveOffset _ _ _ (fun _ r' => r' = mkFileReader s x true n k io' (pos x) ci fi fo))|..]; try done.
      * cbn. intros [?|?]; done.
      * intros [] r' ->. apply Hend; try done; unfold common, params; cbn; split_and!; try done; intros; lia.
    + boolify. destruct E0 as [E1 E2]. apply ok_ret, Hend; try done; unfold common, params; cbn; split_and!; try done; intros; lia.
  - done.
Qed.

Lemma Header_safe r :
  inv r -> ok Header (fun v r' => header_failed v \/ inv r') (fun _ _ => False) r.
Proof using FBL.
  intros Hi. unfold Header. apply ok_bind, ok_attempt, ok_outside.
  { intros e He. apply ok_ret. by right. }
  2: { intros He Hs. apply ok_ret. by right. }
  intros He Hs. pose proof (proj2 Hi He) as Hg. unfold good in Hg. rewrite Hs in Hg.
  destruct Hg as ((Hc1 & Hc2 & Hc3) & Hcached & Hfi & Hpos & Hdo & Hn0).
  apply ok_bind, ok_attempt, ok_readMagic; intros v x Hx; [|kept].
  destruct (_ || _); [kept|].
  apply ok_bind, ok_ignore; [done|done|]. apply ok_bind, ok_attempt, ok_readFull; [|intros; kept].
  intros b y Hy1 Hy2 _. destruct (_ <? _); [kept|]. destruct (_ <? _); [kept|].
  apply ok_bind, ok_attempt, ok_readFull; [|intros; kept].
  intros tl z Hz1 Hz2 _. set (hdr := rootTable (b ++ tl)). unfold safeFlatBuffersInteraction.
  destruct (_ ≫= _) as [[[n k]|e]|] eqn:Eh.
  2: { by destruct (FeaturesCount hdr), (IndexNodeSize hdr). }
  2: { apply ok_ret. by left. }
  apply header_values_range in Eh as [Hn Hk]. destruct (Z.ltb_spec MaxInt n); [kept|].
  destruct (Z.eqb_spec k 1); [kept|]. cbn in Hx, Hy1, Hy2, Hz1, Hz2. change (Z.of_nat 4) with 4 in *.
  apply Header_save; try done; cbn; [|lia..]. unfold common. cbn. split_and!; [done..|lia].
Qed.

(** ** The index *)

Lemma ok_enterIndex Q r :
  inv r -> (err (st r) = None -> state (st r) = afterHeader -> Q tt (set_st (mkStateful beforeIndex None) r)) ->
  ok enterIndex Q (fun _ => inv) r.
Proof.
  intros Hi HQ. apply ok_bind, ok_attempt, ok_outside.
  - intros e He. destruct (decide _) as [->|]; [by destruct (proj1 Hi _ He)|by apply ok_raise].
  - done.
  - intros He Hs. apply ok_bind, ok_get_state. destruct (proj2 Hi He) as [_ Hg]. unfold indexStateErr. apply ok_bind, ok_get.
    destruct (state (st r)) eqn:Es; try done; try by destruct (0 <? r_indexOffset r).
Qed.

Lemma ok_index Q r :
  err (st r) = None -> 1 <= r_numFeatures r <= MaxInt -> 2 <= r_nodeSize r < 2 ^ 16 ->
  (forall prt x do, nodeSize prt = r_nodeSize r -> pos (r_r r) <= pos x ->
     (do = r_dataOffset r \/ r_seekable r = true) -> Q prt (with_dataOffset do (with_cachedIndex prt (with_r x r)))) ->
  ok (index big) Q failed r.
Proof.
  intros He Hn Hk HQ. destruct (Unmarshal_clean big (r_r r) _ _ Hn Hk) as [Hc HU].
  apply ok_bind, ok_get, ok_bind, ok_fromRt; [done| |].
  2: { intros e _ _. by apply ok_toErr_failed. }
  intros [prt x] Hx. destruct (HU _ _ Hx) as (Hp & Hpos & _).
  apply ok_bind, ok_modify, ok_bind, ok_modify, ok_bind, ok_get, ok_bind.
  assert (forall do, (do = r_dataOffset r \/ r_seekable r = true) ->
    ok (mret prt) Q failed (with_dataOffset do (with_cachedIndex prt (with_r x r)))) as Hend.
  { intros do Hd. apply ok_ret. by apply HQ. }
  destruct r as [s x0 sk n0 k0 io do ci fi fo]. cbn in *. destruct ((do =? 0) && sk) eqn:Ed.
  - apply ok_saveOffset; [done| |].
    + cbn. intros _. apply (Hend do). by left.
    + cbn. intros Hsk _. apply (Hend (pos x)). by right.
  - apply ok_ret. apply (Hend do). by left.
Qed.

Lemma noindex_false r : (r_nodeSize r =? 0) || (r_numFeatures r =? 0) = false -> params r -> 1 <= r_numFeatures r <= MaxInt /\ 2 <= r_nodeSize r < 2 ^ 16.
Proof. intros H (H1 & H2 & _). boolify. lia. Qed.

Lemma between_inv_afterIndex r : between beforeIndex r -> r_featureIndex r = 0 -> inv (set_st (mkStateful afterIndex None) r).
Proof.
  intros H Hf. destruct (between_move beforeIndex afterIndex r ltac:(done) H) as (He & Hs & Hc & Hp). split; [done|]. intros _. split; [done|].
  by rewrite Hs.
Qed.
Lemma inv_between r : inv r -> err (st r) = None -> state (st r) = afterHeader ->
  between afterHeader r /\ r_featureIndex r = 0 /\ (r_cachedIndex r <> None -> r_seekable r = true).
Proof. intros [_ Hi] He Hs. destruct (Hi He) as [Hc Hg]. rewrite Hs in Hg. by destruct Hg as (? & ? & ?). Qed.

Lemma ok_seekStart o Q E r :
  r_seekable r = true -> (0 <= o -> Q o (with_r (mkReader (content (r_r r)) o) r)) -> (forall e, E (Io e) r) -> ok (seekStart o) Q E r.
Proof.
  intros Hs HQ HE. apply ok_seek; [done| |done]. intros o' x. unfold SeekStart, seekTo. destruct (Z.ltb_spec o 0); [done|].
  intros [= <- <-]. by apply HQ.
Qed.
Lemma between_seek x p r : between x r -> 0 <= p -> between x (with_r (mkReader (content (r_r r)) p) r).
Proof. intros (He & Hs & (H1 & H2 & _) & Hp) Hx. by split_and!. Qed.

Lemma ok_leaveIndex {A} (m : M FileReader A) r :
  between beforeIndex r -> r_featureIndex r = 0 -> (forall r, ok m (fun _ r' => r' = r) (fun _ r' => r' = r) r) ->
  ok (ignore (toState beforeIndex afterIndex inside);; m) (fun _ => inv) (fun _ => inv) r.
Proof.
  intros Hb Hf Hm. pose proof (between_inv_afterIndex _ Hb Hf) as Hi. destruct Hb as (He & Hs & _). apply ok_bind, ok_ignore; [done..|].
  eapply ok_mono; [apply Hm|..]; by intros ? ? ->.
Qed.

Lemma Index_safe r : inv r -> ok (Index big) (fun _ => inv) (fun _ => inv) r.
Proof.
  intros Hi. apply ok_bind, ok_enterIndex; [done|]. intros He Hs. destruct (inv_between _ Hi He Hs) as (Hb & Hf & Hcs).
  apply (between_move _ beforeIndex) in Hb; [|done]. set (r1 := set_st _ r) in *.
  change (r_featureIndex r) with (r_featureIndex r1) in Hf. change (r_cachedIndex r <> None -> r_seekable r1 = true) in Hcs.
  change (r_cachedIndex r) with (r_cachedIndex r1) in Hcs. clearbody r1. clear r Hi He Hs. apply ok_bind, ok_get.
  destruct (_ || _) eqn:E0; [apply ok_leaveIndex; [done..|intros ?; exact eq_refl]|]. destruct (noindex_false _ E0) as [Hn Hk]; [apply Hb|].
  destruct (r_cachedIndex r1) as [prt|] eqn:Ec; apply ok_bind, ok_failed.
  - apply ok_orErr_failed; [done|]. apply ok_seekStart; [by apply Hcs| |intros; apply Hb].
    intros Hd. apply ok_leaveIndex; [by apply between_seek|done|intros ?; exact eq_refl].
  - apply ok_index; [apply Hb|done..|]. intros prt x do Hprt Hx Hd. apply ok_leaveIndex; [|done|intros ?; exact eq_refl].
    destruct Hb as (He & Hs & (H1 & H2 & H3) & Hp1 & Hp2 & Hp3). split_and!; [done..| |].
    + unfold common. cbn. split_and!; [|intros p [= <-]; lia|].
      * destruct Hd as [->|Hd]; [done|by intros].
      * intros H. specialize (H3 H). lia.
    + split; [exact Hp1|split; [exact Hp2|]]. cbn. intros _ [?|?]; lia.
Qed.

(** ** Features *)

(** A feature was read, or the data ended, or the reader failed. *)
Lemma ok_readFeature Q E r :
  err (st r) = None ->
  (forall f x o, pos (r_r r) <= pos x -> (0 <= pos (r_r r) -> (left (with_r x r) < left r)%nat) ->
     Q f (with_feature (int64 (r_featureIndex r + 1)) o (with_r x r))) ->
  (forall x, pos (r_r r) <= pos x -> E errEndOfData (with_r x r)) ->
  (forall e r', failed e r' -> e <> errEndOfData -> E e r') -> ok readFeature Q E r.
Proof.
  intros He HQ Hend Hfail. apply ok_bind, ok_get, ok_bind, ok_attempt, ok_readFull.
  2: { intros e x Hx. destruct (decide _); [by apply ok_raise, Hend|]. apply ok_toErr; [done|]. by apply Hfail. }
  intros b x Hx1 Hx2 Hl. cbv zeta. destruct (_ <? _).
  { apply ok_toErr; [done|]. by apply Hfail. }
  destruct (_ <? _); [done|]. apply ok_bind, ok_orErr, ok_readFull.
  2: { intros e y Hy. split; [done|]. by apply Hfail. }
  intros tl y Hy1 Hy2 Hl2. apply ok_bind, ok_modify, ok_ret. cbn in Hl2, Hy1.
  apply (HQ (rootTable (b ++ tl)) y); [lia|]. intros Hp. specialize (Hl Hp). specialize (Hl2 ltac:(lia)).
  unfold left in *. cbn in *. lia.
Qed.

Lemma ok_skip n Q E r :
  (r_seekable r = false -> 0 <= pos (r_r r)) ->
  (forall x, (r_seekable r = false -> 0 <= pos x) -> Q tt (with_r x r)) ->
  (forall e x, E e (with_r x r)) -> ok (skip n) Q E r.
Proof.
  intros Hp HQ HE. apply ok_bind, ok_get. destruct (r_seekable r) eqn:Hs.
  - apply ok_bind, ok_seek; [done| |].
    + intros o x _. apply ok_ret. by apply HQ.
    + intros e. assert (with_r (r_r r) r = r) as <- by by destruct r. apply HE.
  - apply ok_discard; [by apply Hp|done| | |].
    + rewrite length_drop. lia.
    + intros x Hx _. by apply HQ.
    + intros e x _. apply HE.
Qed.

Lemma ok_searchFeatures i sr r :
  err (st r) = None -> (r_seekable r = false -> 0 <= pos (r_r r)) ->
  ok (searchFeatures i sr) (fun _ r' => exists x j o, r' = with_feature j o (with_r x r)) failed r.
Proof.
  revert i r. induction sr as [|x sr IH]; intros i r He Hp.
  { apply ok_ret. exists (r_r r), (r_featureIndex r), (r_featureOffset r). by destruct r. }
  cbn [searchFeatures]. apply ok_bind, ok_get, ok_bind.
  assert (forall y, (r_seekable r = false -> 0 <= pos y) ->
    ok (modify (with_feature (RefIndex x) (ResOffset x));;
        f ← attempt readFeature;
        match f with
        | Err e => if decide (e = errEndOfData)
                   then toErr (Wrap "data section ends before feature[%d]" [RefIndex x] (Io ErrUnexpectedEOF)) else raise e
        | Ok f => fs ← searchFeatures (i + 1) sr; mret (f :: fs)
        end) (fun _ r' => exists x j o, r' = with_feature j o (with_r x r)) failed (with_r y r)) as Hrest.
  { intros y Hy. apply ok_bind, ok_modify, ok_bind, ok_attempt, ok_readFeature; [done|..].
    - intros f z o Hz _. apply ok_bind. cbn in Hz. eapply ok_mono; [apply IH; [done|]|..].
      + cbn. intros Hs. specialize (Hy Hs). lia.
      + intros fs r' (z' & j & o' & ->). apply ok_ret. by exists z', j, o'.
      + done.
    - intros z Hz. cbn. by apply ok_toErr_failed.
    - intros e r' Hf Hne. destruct (decide _); [done|]. by apply ok_raise. }
  destruct (_ <? _).
  - apply ok_orErr_failed; [done|]. by apply ok_skip.
  - apply ok_ret. assert (with_r (r_r r) r = r) as <- by by destruct r. by apply Hrest.
Qed.

Lemma ok_searchIndex b Q r :
  err (st r) = None -> 1 <= r_numFeatures r <= MaxInt -> 2 <= r_nodeSize r < 2 ^ 16 ->
  (r_cachedIndex r <> None -> r_seekable r = true) -> (forall prt, r_cachedIndex r = Some prt -> 0 <= nodeSize prt) ->
  (forall sr r', err (st r') = None -> state (st r') = state (st r) -> r_seekable r' = r_seekable r ->
    (r_indexOffset r = r_indexOffset r') -> (r_dataOffset r' = r_dataOffset r \/ r_seekable r = true) ->
    r_numFeatures r' = r_numFeatures r -> r_nodeSize r' = r_nodeSize r ->
    (forall prt, r_cachedIndex r' = Some prt -> 0 <= nodeSize prt) ->
    (r_seekable r = false -> pos (r_r r) <= pos (r_r r')) -> Q sr r') ->
  ok (searchIndex big b) Q failed r.
Proof.
  intros He Hn Hk Hcs Hcn HQ. apply ok_bind, ok_get.
  assert (forall prt (r' : FileReader), 0 <= nodeSize prt -> forall (Q' : _ -> _ -> Prop) E, (forall sr, Q' sr r') ->
    ok (fromRt (Search prt b) (fun e => panic (RtPanic e))) Q' E r') as Hsearch.
  { intros prt r' Hprt Q' E HQ'. apply ok_fromRt; [|done|].
    - pose proof (Search_errors prt b) as H. destruct (Search prt b) as [|e]; [done|]. by rewrite (H e).
    - intros e H1 H2. by rewrite (Search_errors _ _ _ Hprt H1) in H2. }
  destruct (r_seekable r) eqn:Hs; destruct (r_cachedIndex r) as [prt|] eqn:Ec.
  - apply ok_bind, Hsearch; [by apply Hcn|]. intros sr. apply ok_bind, ok_orErr_failed; [done|].
    apply ok_seekStart; [done| |done]. intros _. apply ok_ret. apply HQ; try done; [by left|]. cbn. rewrite Ec. by intros ? [= <-]; apply Hcn.
  - apply ok_bind.
    assert (forall r', (exists x, r' = with_r x r) ->
      ok (r ← get; '(sr, x) ← fromRt (Seek big (r_r r) (r_numFeatures r) (r_nodeSize r) b)
            (fun e => toErr (Wrap "failed to seek-search index" [] (Rt e))); modify (with_r x);; mret sr) Q failed r') as Hseek.
    { intros ? [x ->]. apply ok_bind, ok_get, ok_bind, ok_fromRt; [by apply Seek_clean| |].
      - intros [sr y] _. apply ok_bind, ok_modify, ok_ret. apply HQ; try done; [by left|]. cbn. by rewrite Ec.
      - intros e _ _. by apply ok_toErr_failed. }
    destruct (_ <? _).
    + apply ok_bind, ok_orErr_failed; [done|]. apply ok_seekStart; [done| |done]. intros _. apply ok_ret, Hseek. by eexists.
    + apply ok_ret, Hseek. exists (r_r r). by destruct r.
  - by specialize (Hcs ltac:(done)).
  - apply ok_bind, ok_index; [done..|]. intros prt x do Hprt Hx Hdo. apply ok_bind, Hsearch; [lia|]. intros sr. apply ok_ret.
    apply HQ; try done; cbn; [by rewrite Hs in Hdo|]. intros p [= <-]. lia.
Qed.

(** At the end of the data nothing is said of the position. *)
Lemma inv_eof r :
  (r_indexOffset r <> 0 \/ r_dataOffset r <> 0 -> r_seekable r = true) ->
  (forall prt, r_cachedIndex r = Some prt -> 0 <= nodeSize prt) -> params r -> inv (set_st (mkStateful eof None) r).
Proof. intros H1 H2 Hp. split; [done|]. intros _. by split_and!. Qed.

Lemma IndexSearch_safe b r : inv r -> ok (IndexSearch big b) (fun _ => inv) (fun _ => inv) r.
Proof.
  intros Hi. apply ok_bind, ok_enterIndex; [done|]. intros He Hs. destruct (inv_between _ Hi He Hs) as (Hb & Hf & Hcs).
  apply (between_move _ beforeIndex) in Hb; [|done]. set (r1 := set_st _ r) in *.
  change (r_featureIndex r) with (r_featureIndex r1) in Hf. change (r_cachedIndex r <> None -> r_seekable r1 = true) in Hcs.
  change (r_cachedIndex r) with (r_cachedIndex r1) in Hcs. clearbody r1. clear r Hi He Hs. apply ok_bind, ok_get.
  destruct (_ || _) eqn:E0.
  { apply ok_bind, ok_set_state, ok_raise. destruct Hb as (He & Hb). rewrite He. by apply between_inv_afterIndex. }
  destruct (noindex_false _ E0) as [Hn Hk]; [apply Hb|]. destruct Hb as (He & Hs & (H1 & H2 & H3) & Hp1 & Hp2 & Hp3).
  apply ok_bind, ok_failed, ok_searchIndex; [done..|]. intros sr r2 He2 Hs2 Hsk Hio Hdo Hn2 Hk2 Hc2 Hpos2.
  rewrite Hs in Hs2. apply ok_bind, ok_ignore; [done..|]. apply ok_bind, ok_get, ok_bind, ok_failed.
  assert (forall do, do = r_dataOffset r2 \/ r_seekable r2 = true ->
    ok (ignore (toState afterIndex inData inside);; fs ← searchFeatures 0 sr; ignore (toState inData eof inside);; mret fs)
      (fun _ => inv) (fun _ => inv) (with_dataOffset do (set_st (mkStateful afterIndex None) r2))) as Hrest.
  { intros do Hd. apply ok_bind, ok_ignore; [done..|]. apply ok_bind, ok_failed.
    eapply ok_mono; [apply ok_searchFeatures; [done|]| |done].
    - cbn. intros Hf2. rewrite Hsk in Hf2. specialize (Hpos2 Hf2). assert (0 <= pos (r_r r1)); [apply H3; by rewrite Hs|lia].
    - intros fs r' (x & j & o & ->). apply ok_bind, ok_ignore; [done..|]. apply ok_ret. apply inv_eof; cbn.
      + rewrite Hsk, <- Hio in *. intros [Hx|Hx]; [by apply H1; left|]. destruct Hd as [->|]; [|done].
        destruct Hdo as [Hdo|]; [|done]. apply H1. right. congruence.
      + done.
      + unfold params. cbn. rewrite Hn2, Hk2. split_and!; [lia..|]. intros _ [?|?]; lia. }
  change (r_dataOffset (set_st _ r2)) with (r_dataOffset r2). destruct (r_dataOffset r2 =? 0).
  - apply ok_saveOffset; [done| |].
    + intros _. assert (forall r', with_dataOffset (r_dataOffset r') r' = r') as E by by intros [].
      rewrite <- (E (set_st _ r2)). apply Hrest. by left.
    + cbn. intros Hx _. apply Hrest. by right.
  - apply ok_ret. assert (forall r', with_dataOffset (r_dataOffset r') r' = r') as E by by intros [].
    rewrite <- (E (set_st _ r2)). apply Hrest. by left.
Qed.

(** ** Reading features in sequence *)

Definition keeps (r r' : FileReader) : Prop :=
  r_numFeatures r' = r_numFeatures r /\ r_featureIndex r' = r_featureIndex r /\ content (r_r r') = content (r_r r).

Lemma ok_skipIndex Q r :
  between afterHeader r -> (forall r', between afterIndex r' -> keeps r r' -> Q tt r') -> ok skipIndex Q failed r.
Proof.
  intros Hb HQ. unfold skipIndex. pose proof (between_move afterHeader beforeIndex r ltac:(done) Hb) as Hb1.
  apply ok_bind, ok_ignore; [apply Hb..|]. set (r1 := set_st _ r) in *. assert (keeps r r1) as Hk1 by done. clearbody r1.
  apply ok_bind, ok_get.
  assert (forall r', between beforeIndex r' -> keeps r1 r' -> ok (ignore (toState beforeIndex afterIndex inside)) Q failed r') as Hend.
  { intros r' Hb' Hk'. apply ok_ignore; [apply Hb'..|]. apply HQ; [by apply (between_move beforeIndex)|].
    destruct Hk1 as (? & ? & ?), Hk' as (? & ? & ?). unfold keeps. cbn. split_and!; congruence. }
  assert (forall o do, (do = r_dataOffset r1 \/ r_seekable r1 = true /\ (r_nodeSize r1 <> 0 /\ r_numFeatures r1 <> 0)) -> 0 <= o ->
    between beforeIndex (with_r (mkReader (content (r_r r1)) o) (with_dataOffset do r1))) as Hmove.
  { intros o do Hd Ho. destruct Hb1 as (He & Hs & (H1 & H2 & H3) & Hp1 & Hp2 & Hp3). split_and!; [done..| |].
    - unfold common. cbn. split_and!; [|done|done]. destruct Hd as [->|[? _]]; [done|by intros].
    - unfold params. cbn. split; [done|split; [done|]]. destruct Hd as [->|[? ?]]; [done|lia]. }
  pose proof Hb1 as (He & Hs & (H1 & H2 & H3) & Hp1 & Hp2 & Hp3). apply ok_bind.
  destruct (Z.ltb_spec 0 (r_dataOffset r1)).
  { apply ok_bind, ok_orErr_failed; [done|]. apply ok_seekStart; [apply H1; lia| |done]. intros Ho. apply ok_ret, Hend; [|done].
    by apply between_seek. }
  destruct (Z.ltb_spec 0 (r_indexOffset r1)).
  { assert (r_seekable r1 = true) as Hsk by (apply H1; lia).
    assert (1 <= r_numFeatures r1 <= MaxInt /\ 2 <= r_nodeSize r1 < 2 ^ 16) as [Hn Hk].
    { destruct (Z.eq_dec (r_nodeSize r1) 0); [specialize (Hp3 Hsk ltac:(tauto)); lia|].
      destruct (Z.eq_dec (r_numFeatures r1) 0); [specialize (Hp3 Hsk ltac:(tauto)); lia|]. lia. }
    destruct (Size_clean _ _ Hn Hk) as [Hc Hni]. apply ok_bind, ok_fromRt; [done| |].
    2: { intros e _ _. by apply ok_toErr_failed. }
    intros z _. apply ok_bind, ok_modify, ok_bind, ok_orErr_failed; [done|]. apply ok_seekStart; [done| |done].
    intros Ho. apply ok_ret, Hend; [|done]. apply Hmove; [right; split; [done|lia]|done]. }
  destruct (_ && _) eqn:E0.
  - apply andb_true_iff in E0 as [Hk0%Z.ltb_lt Hn0%Z.ltb_lt]. assert (1 <= r_numFeatures r1 <= MaxInt) as Hn by lia. assert (2 <= r_nodeSize r1 < 2 ^ 16) as Hk by lia.
    destruct (Size_clean _ _ Hn Hk) as [Hc Hni]. apply ok_bind, ok_fromRt; [done| |].
    2: { intros e _ _. by apply ok_toErr_failed. }
    intros z Hz. apply ok_orErr_failed; [done|]. apply ok_discard.
    + apply H3. by rewrite Hs.
    + pose proof (Size_pos _ _ _ Hn Hk Hz). unfold discardBufferSize. destruct (_ <? _); lia.
    + rewrite length_drop. lia.
    + intros x Hx Hcx. apply Hend; [|done]. destruct x as [c o]. cbn in Hcx. subst c. by apply between_seek.
    + done.
  - apply ok_ret. by apply Hend.
Qed.

(** The features in [n] steps: all of them, or an early end after which nothing is pending. *)
Lemma ok_dataLoop n acc r :
  between inData r -> (0 < r_numFeatures r -> 0 <= r_featureIndex r /\ r_featureIndex r + Z.of_nat n <= r_numFeatures r) ->
  ok (dataLoop n acc) (fun v r' =>
      match v.2 with
      | None => between inData r' /\ r_numFeatures r' = r_numFeatures r /\
                (0 < r_numFeatures r -> r_featureIndex r' = r_featureIndex r + Z.of_nat n) /\ (left r' + n <= left r)%nat
      | Some None => inv r' /\ state (st r') = eof /\ err (st r') = None /\ r_numFeatures r' = r_numFeatures r
      | Some (Some e) => inv r' /\ (e = Io EOF -> err (st r') = None)
      end) (fun _ _ => False) r.
Proof.
  revert acc r. induction n as [|n IH]; intros acc r Hb Hn.
  { apply ok_ret. cbn. split_and!; [done|done|lia|lia]. }
  cbn [dataLoop]. pose proof Hb as (He & Hs & (H1 & H2 & H3) & Hp). assert (0 <= pos (r_r r)) as Hpos by (apply H3; by rewrite Hs).
  apply ok_bind, ok_attempt, ok_readFeature; [done|..].
  - intros f x o Hx Hl. specialize (Hl Hpos). set (r1 := with_feature _ o (with_r x r)).
    assert (0 < r_numFeatures r -> r_featureIndex r1 = r_featureIndex r + 1) as Hfi.
    { intros H0. specialize (Hn H0). destruct Hp as [Hp _]. unfold MaxInt in Hp. apply int64_id. unfold is_int64. lia. }
    eapply ok_mono; [apply IH|..].
    + split_and!; [done|done| |done]. split_and!; [done|done|]. cbn. lia.
    + change (r_numFeatures r1) with (r_numFeatures r). intros H0. rewrite Hfi by done. specialize (Hn H0). lia.
    + intros [fs [[e|]|]] r'; cbn [snd]; [done|done|]. intros (Hb' & Hn' & Hf' & Hl'). split_and!; [done|done| |].
      * intros H0. rewrite Hf', Hfi by done. lia.
      * change (left r1) with (left (with_r x r)) in Hl'. lia.
    + done.
  - intros x Hx. rewrite decide_True by done. apply ok_bind, ok_ignore; [done..|]. apply ok_ret. cbn [snd].
    assert (inv (set_st (mkStateful eof None) (with_r x r))) by by apply inv_eof. by destruct acc.
  - intros e r' Hf Hne. rewrite decide_False by done. apply ok_ret. cbn. split; [by eapply inv_failed|]. intros ->. by destruct Hf as [_ []].
Qed.

(** The calls of [Data] that a file of unknown length can still take. *)
Definition calls (r : FileReader) : nat :=
  match state (st r) with
  | eof => 0
  | inData => S (left r)
  | _ => S (length (content (r_r r)))
  end.

Lemma left_le r : (left r <= length (content (r_r r)))%nat.
Proof. unfold left. rewrite length_drop. lia. Qed.

(** [Data] once the reader is in the data section. *)
Lemma Data_body len r :
  0 <= len -> between inData r -> (0 < r_numFeatures r -> 0 <= r_featureIndex r < r_numFeatures r) ->
  ok (ignore (toState inData inData inside);;
      r ← get;
      let rem := if 0 <? r_numFeatures r then int64 (r_numFeatures r - r_featureIndex r) else 0 in
      let n := if (0 <? r_numFeatures r) && (rem <? len) then rem else len in
      '(fs, early) ← dataLoop (Z.to_nat n) [];
      match early with
      | Some e => mret (fs, e)
      | None => (if n =? rem then ignore (toState inData eof inside) else mret tt);; mret (fs, None)
      end) (fun (v : list table * option fgError) r' => inv r' /\
        (v.2 = None \/ v.2 = Some (Io EOF) -> err (st r') = None) /\
        (v.2 = None -> r_numFeatures r = 0 -> 0 < len -> r_numFeatures r' = 0 /\ err (st r') = None /\
           (state (st r') = eof \/ state (st r') = inData /\ left r' < left r)%nat)) (fun _ _ => False) r.
Proof.
  intros Hlen Hb Hfi. apply ok_bind, ok_ignore; [apply Hb..|]. apply (between_move inData inData) in Hb; [|done].
  set (r1 := set_st _ r) in *. change (0 < r_numFeatures r1 -> 0 <= r_featureIndex r1 < r_numFeatures r1) in Hfi.
  change (r_numFeatures r) with (r_numFeatures r1). change (left r) with (left r1). clearbody r1. clear r. apply ok_bind, ok_get. cbv zeta.
  set (rem := if 0 <? _ then int64 _ else 0). set (n := if (0 <? _) && _ then rem else len).
  assert (r_numFeatures r1 = 0 /\ rem = 0 /\ n = len \/ 0 < r_numFeatures r1 /\ rem = r_numFeatures r1 - r_featureIndex r1 /\ 0 <= n <= rem) as Hn.
  { destruct Hb as (_ & _ & _ & Hp & _). unfold MaxInt in Hp. unfold n, rem. destruct (Z.ltb_spec 0 (r_numFeatures r1)) as [H0|H0]; cbn [andb].
    - right. specialize (Hfi H0). rewrite int64_id by (unfold is_int64; lia).
      destruct (Z.ltb_spec (r_numFeatures r1 - r_featureIndex r1) len); lia.
    - left. lia. }
  clearbody n rem. apply ok_bind. eapply ok_mono; [apply ok_dataLoop; [done|lia]| |done].
  intros [fs [[e|]|]] r' H; cbn [snd] in H.
  - apply ok_ret. destruct H as [Hi He]. split_and!; [done| |done]. intros [|[= ->]]; [done|by apply He].
  - apply ok_ret. destruct H as (Hi & Hs & He & Hx). split_and!; [done|done|]. intros _ H0 _. rewrite Hx. tauto.
  - destruct H as (Hb' & Hn' & Hf' & Hl). pose proof Hb' as (He' & Hs' & (C1 & C2 & C3) & Hp'). apply ok_bind.
    destruct (Z.eqb_spec n rem) as [E|E].
    + apply ok_ignore; [done..|]. apply ok_ret. split_and!; [by apply inv_eof|done|]. cbn. intros _ H0 _. rewrite Hn'. tauto.
    + apply ok_ret, ok_ret. split_and!; [|done|intros _ H0 Hl0; rewrite Hn'; split_and!; [done|done|right; split; [done|lia]]].
      split; [rewrite He'; congruence|]. intros _. split; [done|]. rewrite Hs'. split; [done|]. rewrite Hn'. intros H0. rewrite Hf' by done. lia.
Qed.

Lemma Data_safe len r :
  0 <= len -> inv r ->
  ok (Data len) (fun v r' => inv r' /\ (v.2 = None \/ v.2 = Some (Io EOF) -> err (st r') = None) /\ (v.2 = None -> r_numFeatures r = 0 -> 0 < len ->
      r_numFeatures r' = 0 /\ err (st r') = None /\ (calls r' < calls r)%nat)) (fun _ _ => False) r.
Proof.
  intros Hlen Hi. apply ok_bind, ok_get_err. destruct (err (st r)) as [e|] eqn:He.
  { apply ok_ret. split_and!; [done| |done]. intros [|[= ->]]; [done|]. by destruct (proj1 Hi _ He). }
  destruct (proj2 Hi He) as [Hc Hg]. apply ok_bind, ok_get_state, ok_bind, ok_attempt.
  (* the rest of the method, in the data section *)
  assert (forall r', between inData r' -> r_numFeatures r' = r_numFeatures r -> (0 < r_numFeatures r' -> 0 <= r_featureIndex r' < r_numFeatures r') ->
    (state (st r) <> eof /\ (left r' < calls r))%nat ->
    ok (s ← get_state;
      if decide (s = eof) then mret ([], Some (Io EOF))
      else if decide (s = uninitialized) then mret ([], Some (Txt errHeaderNotCalled))
      else
        ignore (toState inData inData inside);;
        r ← get;
        let rem := if 0 <? r_numFeatures r then int64 (r_numFeatures r - r_featureIndex r) else 0 in
        let n := if (0 <? r_numFeatures r) && (rem <? len) then rem else len in
        '(fs, early) ← dataLoop (Z.to_nat n) [];
        match early with
        | Some e => mret (fs, e)
        | None => (if n =? rem then ignore (toState inData eof inside) else mret tt);; mret (fs, None)
        end) (fun (v : list table * option fgError) r' => inv r' /\ (v.2 = None \/ v.2 = Some (Io EOF) -> err (st r') = None) /\ (v.2 = None -> r_numFeatures r = 0 -> 0 < len ->
      r_numFeatures r' = 0 /\ err (st r') = None /\ (calls r' < calls r)%nat)) (fun _ _ => False) r') as Hrest.
  { intros r' Hb Hn Hf [Hne Hcalls]. pose proof Hb as (He' & Hs' & _). apply ok_bind, ok_get_state. rewrite Hs'.
    rewrite !decide_False by done. eapply ok_mono; [by apply Data_body| |done].
    intros [fs e] r2 (Hi2 & He2 & H2). split_and!; [done|done|]. intros Hv H0 Hl. rewrite Hn in H2. destruct (H2 Hv H0 Hl) as (H3 & H4 & H5).
    split_and!; [done|done|]. unfold calls at 1. destruct H5 as [->|[-> H5]]; [|lia]. destruct (state (st r)) eqn:Es; try done; unfold calls; rewrite Es; lia. }
  pose proof (left_le r) as Hle. destruct (decide (state (st r) = afterHeader)) as [Es|Es].
  { rewrite Es in Hg. destruct Hg as (Hp & Hf & _). apply ok_bind.
    eapply (ok_mono _ (fun _ r' => between afterIndex r' /\ keeps r r')); [apply ok_skipIndex; [by split_and!|done]| |].
    - intros [] r' [Hb (Hn & Hfi & Hcon)]. apply ok_set_state. apply (between_move _ inData) in Hb as Hb2; [|done].
      destruct Hb as (-> & _). apply ok_bind, ok_get_state, ok_bind. cbn [state st set_st]. rewrite decide_False by done.
      apply ok_ret, Hrest; [done|done|cbn; lia|]. rewrite Es. split; [done|]. unfold calls. rewrite Es, <- Hcon.
      pose proof (left_le r'). change (left (set_st _ r')) with (left r'). lia.
    - intros e r' Hf'. apply ok_ret. split_and!; [by eapply inv_failed| |done]. intros [|[= ->]]; [done|]. by destruct Hf' as [_ []]. }
  apply ok_ret, ok_bind, ok_get_state, ok_bind. destruct (decide (state (st r) = afterIndex)) as [Ei|Ei].
  { rewrite Ei in Hg. destruct Hg as (Hp & Hf). apply ok_set_state. rewrite He. apply Hrest; [|done|cbn; lia|].
    - apply (between_move afterIndex); [done|]. by split_and!.
    - unfold calls. rewrite Ei. change (left (set_st _ r)) with (left r). split; [done|lia]. }
  apply ok_ret. destruct (state (st r)) eqn:Es'; try done.
  - apply ok_bind, ok_get_state. rewrite Es', decide_False, decide_True by done. by apply ok_ret.
  - destruct Hg as [Hp Hf]. apply Hrest; [by split_and!|done|done|]. unfold calls. rewrite Es'. split; [done|lia].
  - apply ok_bind, ok_get_state. rewrite Es', decide_True by done. by apply ok_ret.
Qed.

Lemma dataRemLoop_safe fuel q r :
  inv r -> r_numFeatures r = 0 -> (calls r < fuel)%nat -> ok (dataRemLoop fuel q) (fun _ => inv) (fun _ _ => False) r.
Proof.
  revert q r. induction fuel as [|fuel IH]; intros q r Hi H0 Hc; [lia|]. cbn [dataRemLoop].
  apply ok_bind. eapply ok_mono; [apply (Data_safe dataRemBufferSize); done| |done].
  intros [p [e|]] r' (Hi' & _ & H); [by apply ok_ret|]. destruct (H eq_refl H0 ltac:(done)) as (H1 & _ & H3).
  apply IH; [done|done|lia].
Qed.

Lemma DataRem_safe r : inv r -> ok DataRem (fun _ => inv) (fun _ _ => False) r.
Proof.
  intros Hi. apply ok_bind, ok_get. destruct (err (st r)) as [e|] eqn:He; [by apply ok_ret|].
  destruct (decide _) as [|Hne]; [by apply ok_ret|]. destruct (proj2 Hi He) as [Hc Hg].
  destruct (Z.ltb_spec 0 (r_numFeatures r)) as [H0|H0].
  - cbv zeta. set (rem := int64 _).
    assert (0 <= rem) as Hrem.
    { unfold rem. assert (0 <= r_featureIndex r <= r_numFeatures r /\ r_numFeatures r <= MaxInt) as Hr; [|unfold MaxInt in Hr; rewrite int64_id; unfold is_int64; lia].
      destruct (state (st r)); try done; destruct Hg as (Hp & Hg); [lia|..]; destruct Hp as [Hp _]; lia. }
    rewrite (proj2 (Z.ltb_ge rem 0)) by done. cbn [orb]. destruct (Z.ltb_spec maxAlloc (rem * featureSize)); [done|].
    apply ok_bind. eapply ok_mono; [by apply (Data_safe rem)| |done]. intros [p e] r' (Hi' & He' & _).
    destruct (decide _) as [E|E]; [|by apply ok_ret]. destruct (negb _); [|by apply ok_ret].
    apply ok_withErr; [by apply He'|]. by apply inv_err.
  - apply dataRemLoop_safe; [done| |].
    + destruct (state (st r)); try done; destruct Hg as (Hp & Hg); [lia|..]; destruct Hp as [Hp _]; lia.
    + unfold calls. pose proof (left_le r). destruct (state (st r)); lia.
Qed.

Lemma Rewind_safe r : inv r -> ok Rewind (fun _ => inv) (fun _ => inv) r.
Proof.
  intros Hi. apply ok_bind, ok_get. destruct (err (st r)) as [e|] eqn:He; [by apply ok_raise|].
  destruct (proj2 Hi He) as [(H1 & H2 & H3) Hg]. destruct (Z.ltb_spec (state_code (state (st r))) (state_code afterHeader)) as [Hs|Hs]; [by apply ok_raise|].
  destruct (Z.eqb_spec (r_indexOffset r) 0) as [|Hio]; [by apply ok_raise|]. destruct (decide _); [by apply ok_ret|].
  assert (params r) as Hp.
  { destruct (state (st r)); try done; by destruct Hg. }
  assert (r_seekable r = true) as Hsk by (apply H1; by left).
  apply ok_bind, ok_failed, ok_orErr_failed; [done|]. apply ok_seekStart; [done| |done]. intros Ho.
  apply ok_bind, ok_set_state, ok_modify. split.
  - intros e E. change (err (st r) = Some e) in E. congruence.
  - intros _. split; [by split_and!|]. cbn. by split_and!.
Qed.

Lemma Close_safe a r : inv r -> ok (Close a) (fun _ => inv) (fun _ => inv) r.
Proof.
  intros Hi. apply ok_bind, ok_get_err. destruct (decide _) as [E|E]; [by apply ok_raise|].
  apply ok_bind, ok_modify. assert (inv (set_st (mkStateful (state (st r)) (Some ErrClosed)) r)) by by apply inv_err.
  destruct a as [[e|]|]; [by apply ok_raise|by apply ok_ret..].
Qed.
End safe.

(** ** Sequences of calls *)

Inductive call :=
| CallHeader | CallIndex | CallIndexSearch (b : Box) | CallData (len : nat) | CallDataRem | CallRewind
| CallClose (a : option (option fgError)).

(** The error a call returns, or its panic. *)
Inductive outcome := Returned (e : option fgError) | Crashed (p : fgPanic).

Section calls.
Context {FB : FlatBuffers} (big : bool).

Definition outcomeOf {A} (f : A -> option fgError) (x : step A * FileReader) : outcome * FileReader :=
  match x with
  | (Val a, r) => (Returned (f a), r)
  | (Raise e, r) => (Returned (Some e), r)
  | (Panicked p, r) => (Crashed p, r)
  end.
Definition perform (c : call) (r : FileReader) : outcome * FileReader :=
  match c with
  | CallHeader => outcomeOf snd (Header r)
  | CallIndex => outcomeOf (fun _ => None) (Index big r)
  | CallIndexSearch b => outcomeOf (fun _ => None) (IndexSearch big b r)
  | CallData len => outcomeOf snd (Data (Z.of_nat len) r)
  | CallDataRem => outcomeOf snd (DataRem r)
  | CallRewind => outcomeOf (fun _ => None) (Rewind r)
  | CallClose a => outcomeOf (fun _ => None) (Close a r)
  end.
(** The outcomes of a sequence of calls; a panic ends it. *)
Fixpoint performs (cs : list call) (r : FileReader) : list outcome :=
  match cs with
  | [] => []
  | c :: cs =>
    match perform c r with
    | (Crashed p, _) => [Crashed p]
    | (o, r) => o :: performs cs r
    end
  end.

Lemma perform_ok {A} (m : M FileReader A) f (Q : A -> FileReader -> Prop) (E : fgError -> FileReader -> Prop) r :
  ok m Q E r ->
  match outcomeOf f (m r) with
  | (Returned e, r') => (exists a, e = f a /\ Q a r') \/ (exists x, e = Some x /\ E x r')
  | (Crashed p, _) => input_panic p
  end.
Proof.
  unfold ok, outcomeOf. destruct (m r) as [[a|e|p] r']; [left; by eexists|right; by eexists|done].
Qed.

Context {FBL : FlatBuffersLaws}.

(** A call keeps the invariant, unless the FlatBuffers code panicked in [Header]. *)
Lemma perform_safe c r :
  inv r ->
  match perform c r with
  | (Returned e, r') => e = Some FlatPanic \/ inv r'
  | (Crashed p, _) => input_panic p
  end.
Proof using FBL.
  intros Hi.
  assert (forall A (m : M FileReader A) f, ok m (fun a r' => f a = Some FlatPanic \/ inv r') (fun _ => inv) r ->
    match outcomeOf f (m r) with
    | (Returned e, r') => e = Some FlatPanic \/ inv r'
    | (Crashed p, _) => input_panic p
    end) as H.
  { intros A m f Hok. pose proof (perform_ok m f _ _ r Hok) as H. destruct (outcomeOf f (m r)) as [[e|p] r']; [|done].
    destruct H as [(a & -> & H)|(x & -> & H)]; [done|by right]. }
  destruct c; apply H.
  - eapply ok_mono; [by apply Header_safe| |done]. intros v r' [->|]; [by left|by right].
  - eapply ok_mono; [by apply Index_safe| |done]. by right.
  - eapply ok_mono; [by apply IndexSearch_safe| |done]. by right.
  - eapply ok_mono; [apply Data_safe; [lia|done]| |done]. intros v r' [? _]. by right.
  - eapply ok_mono; [by apply DataRem_safe| |done]. by right.
  - eapply ok_mono; [by apply Rewind_safe| |done]. by right.
  - eapply ok_mono; [by apply Close_safe| |done]. by right.
Qed.

Lemma NewFileReader_inv file p sk : 0 <= p -> inv (NewFileReader (mkReader file p) sk).
Proof. intros Hp. split; [done|]. intros _. split; [split_and!; [by intros [?|?]|done|done]|]. by split_and!. Qed.

(** C28. Whatever the bytes of the stream, whether it can seek or not, and in whatever order
    the methods are called, as long as no call returned an error that comes from a panic of
    the FlatBuffers code: no call ends in one of the panics that the code marks as logic
    errors, none asserts a stream to seek that cannot, and every call ends; a panic that is
    left is an index that leads outside itself, a table length that wraps around, or an
    allocation. After such an error the claim fails ([flat_panic_then_logic_error]). *)
Theorem reader_calls_safe file p sk cs :
  0 <= p -> Returned (Some FlatPanic) ∉ performs cs (NewFileReader (mkReader file p) sk) ->
  Forall (fun o => match o with Crashed q => input_panic q | Returned _ => True end)
    (performs cs (NewFileReader (mkReader file p) sk)).
Proof using FBL.
  intros Hp. pose proof (NewFileReader_inv file p sk Hp) as Hi. revert Hi. generalize (NewFileReader (mkReader file p) sk).
  induction cs as [|c cs IH]; intros r Hi Hn; cbn [performs] in *; [constructor|].
  pose proof (perform_safe c r Hi) as H. destruct (perform c r) as [[e|x] r']; [|by repeat constructor].
  apply not_elem_of_cons in Hn as [Hne Hn]. constructor; [done|]. apply IH; [|done].
  destruct H as [->|H]; [done|done].
Qed.
End calls.
