(* ===== verification/FgbFile.v ===== *)
(** * FlatGeobuf files, written and read

    A file that [FileWriter] wrote is read back by [FileReader]: the header, the features
    in their order, and, through the index, those whose boxes meet a query. *)

From Stdlib Require Import Ascii String ZArith Lia Bool.
From stdpp Require Import base list strings option sorting.
From S2P Require Import Prelude GoStd Strconv Bytes Containers PackedRTree PackedBuild PackedSearch PackedStream Hilbert Fgb FgbWriter FgbReader FgbSafe.

Local Open Scope Z_scope.

(** ** Tables with their size *)

(** A size-prefixed root table at offset zero of a buffer of its own. *)
Definition sized (t : table) : Prop :=
  t = rootTable (Bytes t) /\ GetUint32 (Bytes t) + 4 = Z.of_nat (length (Bytes t)) /\
  8 <= Z.of_nat (length (Bytes t)) < 2 ^ 32.

Lemma writeTable_sized out t :
  sized t -> writeSizePrefixedTable (mkSink out None) t = ((Z.of_nat (length (Bytes t)), None), mkSink (out ++ Bytes t) None).
Proof.
  intros (_ & Hs & Hl). unfold writeSizePrefixedTable, tableSize. rewrite (proj2 (Nat.ltb_ge _ _)) by lia.
  rewrite (proj2 (Z.ltb_ge _ _)) by lia. unfold u32. rewrite Z.mod_small by lia.
  rewrite (take_ge (Bytes t)) by lia. done.
Qed.

Definition dataBytes (p : list table) : list ascii := p ≫= Bytes.
Lemma dataBytes_app p q : dataBytes (p ++ q) = dataBytes p ++ dataBytes q.
Proof. apply bind_app. Qed.

(** ** The writer *)

Definition writing (s : fstate) (out : list ascii) (n k i : Z) : FileWriter :=
  mkFileWriter (mkStateful s None) (mkSink out None) n k i.

Section writer.
Context {FB : FlatBuffers} (big : bool).

Lemma write_Header hdr n k :
  sized hdr -> FeaturesCount hdr = Some n -> IndexNodeSize hdr = Some k -> k <> 1 ->
  FgbWriter.Header hdr (NewFileWriter (mkSink [] None)) =
  (Val (8 + Z.of_nat (length (Bytes hdr)), None), writing afterHeader (magic ++ Bytes hdr) n k 0).
Proof.
  intros Hs Hn Hk Hk1. unfold FgbWriter.Header, safeFlatBuffersInteraction. rewrite Hn, Hk. cbn [fmap option_fmap option_map].
  rewrite (proj2 (Z.eqb_neq k 1)) by done.
  eapply run_bind; [by apply run_attempt, run_toState|]. run. run_as @run_ignore.
  eapply run_bind; [unfold on_sink; cbn [w_w set_st FileWriter_stateful]; by rewrite writeTable_sized|].
  run. run_as @run_ignore. done.
Qed.

Lemma write_dataLoop p i m s out n k j :
  Forall sized p -> 0 <= j -> j + Z.of_nat (length p) < 2 ^ 64 ->
  FgbWriter.dataLoop i m p (writing s out n k j) =
  (Val (m + Z.of_nat (length (dataBytes p)), None), writing s (out ++ dataBytes p) n k (j + Z.of_nat (length p))).
Proof.
  intros Hp. revert i m out j. induction Hp as [|t p Ht _ IH]; intros i m out j Hj H64.
  { cbn. unfold writing. by rewrite app_nil_r, !Z.add_0_r. }
  cbn [FgbWriter.dataLoop]. unfold mbind at 1, M_bind at 1, on_sink at 1. cbn [w_w writing]. rewrite writeTable_sized by done.
  cbn [length] in H64. unfold mbind, M_bind, next_feature, modify. cbn [writing w_st w_w w_numFeatures w_nodeSize w_featureIndex].
  unfold wrap64. rewrite Z.mod_small by lia. fold (writing s (out ++ Bytes t) n k (j + 1)). rewrite IH by lia.
  change (dataBytes (t :: p)) with (Bytes t ++ dataBytes p). rewrite length_app, app_assoc. cbn [length].
  replace (m + Z.of_nat (length (Bytes t)) + Z.of_nat (length (dataBytes p)))
    with (m + Z.of_nat (length (Bytes t) + length (dataBytes p))) by lia.
  by replace (j + 1 + Z.of_nat (length p)) with (j + Z.of_nat (S (length p))) by lia.
Qed.

Lemma write_Data p s out n k :
  Forall sized p -> s = afterHeader /\ k = 0 \/ s = afterIndex -> n = Z.of_nat (length p) -> 0 < n < 2 ^ 63 ->
  FgbWriter.Data p (writing s out n k 0) =
  (Val (Z.of_nat (length (dataBytes p)), None), writing eof (out ++ dataBytes p) n k n).
Proof.
  intros Hp Hs Hn H63. unfold FgbWriter.Data. unfold mbind at 1, M_bind at 1.
  assert (attempt (canWriteData (Z.of_nat (length p))) (writing s out n k 0) = (Val (Ok tt), writing s out n k 0)) as ->.
  { unfold attempt, canWriteData, mbind, M_bind, get. cbn [writing st FileWriter_stateful w_st state err w_nodeSize w_numFeatures w_featureIndex].
    rewrite Z.sub_0_r. unfold wrap64. rewrite Z.mod_small by lia. rewrite <- Hn, (proj2 (Z.ltb_ge n n)), andb_false_r by lia.
    destruct Hs as [[-> ->]| ->]; done. }
  unfold mbind at 1, M_bind at 1. cbn [set_state modify writing set_st st FileWriter_stateful w_st state err w_w w_numFeatures w_nodeSize w_featureIndex].
  fold (writing inData out n k 0). unfold mbind at 1, M_bind at 1. rewrite write_dataLoop by (done || lia).
  unfold mbind, M_bind, get. cbn [writing w_featureIndex w_numFeatures]. rewrite <- Hn, Z.add_0_l, Z.eqb_refl, (proj2 (Z.ltb_lt 0 n)) by lia.
  done.
Qed.

Lemma write_index ix out n k bytes :
  Marshal big ix = Ok bytes -> n = numRefs ix -> k = nodeSize ix -> 0 <= n < 2 ^ 63 -> 0 <= k < 2 ^ 16 ->
  FgbWriter.index big ix (writing afterHeader out n k 0) =
  (Val (Z.of_nat (length bytes), None), writing afterIndex (out ++ bytes) n k 0).
Proof.
  intros Hm -> -> Hn Hk. unfold FgbWriter.index, mbind, M_bind, get. cbn [set_state modify writing set_st st FileWriter_stateful w_st state err w_w w_numFeatures w_nodeSize w_featureIndex].
  unfold wrap64. rewrite !Z.mod_small by lia. rewrite !Z.eqb_refl. cbn [negb]. rewrite Hm. done.
Qed.

(** ** The references of features *)

Definition boxOf (f : table) : Box :=
  match GeometryXy f with Some (Some xy) => expandXY EmptyBox xy | _ => EmptyBox end.
(** One reference for each feature, with its offset in the data section. *)
Fixpoint refsFrom (o : Z) (p : list table) : list Ref :=
  match p with
  | [] => []
  | f :: p => mkRef (boxOf f) o :: refsFrom (o + Z.of_nat (length (Bytes f))) p
  end.
Definition boundsOf (p : list table) : Box := foldl Expand EmptyBox (boxOf <$> p).
(** In the order of the index. *)
Definition indexRefs (p : list table) : list Ref := HilbertSort (refsFrom 0 p) (boundsOf p).

(** A feature whose coordinates can be read. *)
Definition readable (f : table) : Prop :=
  sized f /\ exists g, GeometryXy f = Some g /\ match g with Some xy => Forall is_uint64 xy | None => True end.

Lemma length_refsFrom o p : length (refsFrom o p) = length p.
Proof. revert o. induction p as [|f p IH]; intros o; [done|]. cbn. by rewrite IH. Qed.
Lemma indexRefs_perm p : indexRefs p ≡ₚ refsFrom 0 p.
Proof. apply HilbertSort_perm. Qed.
Lemma length_indexRefs p : length (indexRefs p) = length p.
Proof. by rewrite indexRefs_perm, length_refsFrom. Qed.

Lemma featureBounds_eq f : readable f -> featureBounds f = Ok (boxOf f).
Proof. intros [_ (g & Hg & _)]. unfold featureBounds, boxOf. rewrite Hg. by destruct g. Qed.

Lemma featureRefs_eq i o bounds p :
  Forall readable p -> 0 <= o -> o + Z.of_nat (length (dataBytes p)) < 2 ^ 63 ->
  featureRefs i o bounds p = Ok (refsFrom o p, foldl Expand bounds (boxOf <$> p)).
Proof.
  intros Hp. revert i o bounds. induction Hp as [|f p Hf _ IH]; intros i o bounds Ho H63; [done|].
  change (dataBytes (f :: p)) with (Bytes f ++ dataBytes p) in H63. rewrite length_app in H63.
  pose proof (proj1 Hf) as (_ & Hsz & Hl). cbn [featureRefs]. unfold tableSize. rewrite (proj2 (Nat.ltb_ge _ _)) by lia.
  rewrite featureBounds_eq by done. rewrite int64_id by (unfold is_int64; lia). rewrite IH by lia.
  by replace (o + GetUint32 (Bytes f) + 4) with (o + Z.of_nat (length (Bytes f))) by lia.
Qed.

Lemma lt_bits_no_nan a b : lt_bits a b = true -> IsNaN (Float64frombits a) = false /\ IsNaN (Float64frombits b) = false.
Proof. unfold lt_bits, f64_lt. by destruct (Float64frombits a), (Float64frombits b). Qed.

Lemma ExpandXY_ok b x y :
  is_uint64 x -> is_uint64 y -> box_wf b /\ no_nan b = true -> box_wf (ExpandXY b x y) /\ no_nan (ExpandXY b x y) = true.
Proof.
  intros Hx Hy [(W1 & W2 & W3 & W4) N]. split.
  - unfold box_wf, ExpandXY. cbn. split_and!; by case_match.
  - unfold no_nan in *. boolify. destruct N as [[[N1 N2] N3] N4]. unfold ExpandXY. cbn.
    split_and!; case_match; try done;
      match goal with H : lt_bits _ _ = true |- _ => by destruct (lt_bits_no_nan _ _ H) end.
Qed.
Lemma expandXY_ok b xy :
  Forall is_uint64 xy -> box_wf b /\ no_nan b = true -> box_wf (expandXY b xy) /\ no_nan (expandXY b xy) = true.
Proof.
  remember (length xy) as n eqn:En. assert (length xy <= n)%nat as Hn by lia. clear En.
  revert b xy Hn. induction n as [|n IH]; intros b xy Hn Hxy Hb; [destruct xy; [done|cbn in Hn; lia]|].
  destruct xy as [|x [|y xy]]; [done..|]. cbn [expandXY]. apply Forall_cons in Hxy as [Hx [Hy Hxy]%Forall_cons].
  apply IH; [cbn in Hn; lia|done|by apply ExpandXY_ok].
Qed.
Lemma boxOf_ok f : readable f -> box_wf (boxOf f) /\ no_nan (boxOf f) = true.
Proof.
  intros [_ (g & Hg & Hxy)]. unfold boxOf. rewrite Hg. assert (box_wf EmptyBox /\ no_nan EmptyBox = true) by by vm_compute.
  destruct g; [by apply expandXY_ok|done].
Qed.

Lemma refsFrom_ok o p :
  Forall readable p -> 0 <= o -> o + Z.of_nat (length (dataBytes p)) < 2 ^ 63 ->
  Forall (fun r => ref_wf r /\ no_nan (RBox r) = true) (refsFrom o p).
Proof.
  intros Hp. revert o. induction Hp as [|f p Hf _ IH]; intros o Ho H63; [constructor|].
  change (dataBytes (f :: p)) with (Bytes f ++ dataBytes p) in H63. rewrite length_app in H63. cbn [refsFrom].
  destruct (boxOf_ok f Hf). constructor; [|apply IH; lia]. split; [|done]. split; [done|]. unfold is_int64. cbn. lia.
Qed.

(** Features that can be indexed with nodes of [k] children. *)
Record indexed (p : list table) (k : nat) : Prop := {
  ixd_ne : p <> [];
  ixd_k : (2 <= k)%nat;
  ixd_k16 : Z.of_nat k < 2 ^ 16;
  ixd_read : Forall readable p;
  ixd_len : Z.of_nat (length (dataBytes p)) < 2 ^ 62;
  ixd_size : total (Z.of_nat (length p)) (Z.of_nat k) * 40 < 2 ^ 62;
}.

Section indexed.
Context (p : list table) (k : nat) (Hp : indexed p k).

Lemma refs_ok : Forall (fun r => ref_wf r /\ no_nan (RBox r) = true) (indexRefs p).
Proof using Hp. rewrite indexRefs_perm. destruct Hp. apply refsFrom_ok; [done|lia|lia]. Qed.
Lemma refs_no_nan : Forall (fun r => no_nan (RBox r) = true) (indexRefs p).
Proof using Hp. eapply Forall_impl; [apply refs_ok|]. by intros r [_ ?]. Qed.
Lemma refs_indexable : indexable (indexRefs p) k.
Proof using Hp.
  destruct Hp. split; [|done|done| |rewrite length_indexRefs; unfold MaxInt; lia].
  - intros E. apply (f_equal length) in E. rewrite length_indexRefs in E. by destruct p.
  - eapply Forall_impl; [apply refs_ok|]. by intros r [? _].
Qed.

Definition indexTree : packedRTree := tree (indexRefs p) k.
Definition indexBytes : list ascii := nodesBytes false (nodes indexTree).
(** On a big-endian machine longer indexes make the writer panic. *)
Definition fits : Prop := big = true -> Z.of_nat (length indexBytes) <= 8095.

Lemma write_IndexData out :
  fits -> let n := Z.of_nat (length p) in
  IndexData big p (writing afterHeader out n (Z.of_nat k) 0) =
  (Val (Z.of_nat (length indexBytes) + Z.of_nat (length (dataBytes p)), None),
   writing eof (out ++ indexBytes ++ dataBytes p) n (Z.of_nat k) n).
Proof using Hp.
  intros Hfit n. pose proof refs_indexable as Hix. destruct Hp as [Hne Hk2 Hk16 Hr Hlen Hsz].
  assert (0 < n < 2 ^ 62) as Hn.
  { pose proof (total_nodes _ _ Hix) as Ht. rewrite length_indexRefs in Ht. unfold n. destruct p; [done|]. cbn [length] in *. lia. }
  unfold IndexData. eapply run_bind.
  { apply run_attempt. unfold canWriteIndex. run. cbn. rewrite (proj2 (Z.eqb_neq _ _)) by lia. done. }
  rewrite featureRefs_eq by (done || lia). fold (boundsOf p). fold (indexRefs p). run. cbn [w_nodeSize writing].
  eapply run_bind; [apply run_attempt; rewrite (New_eq _ _ Hix); done|]. fold indexTree.
  eapply run_bind; [apply (write_index _ _ _ _ indexBytes)|].
  - rewrite Marshal_eq by by apply tree_nonempty. unfold fits, indexBytes in Hfit. rewrite length_nodesBytes in Hfit.
    destruct big; [|done]. specialize (Hfit eq_refl). rewrite (proj2 (Z.ltb_ge _ _)) by lia. done.
  - unfold indexTree. cbn [tree shape numRefs]. by rewrite length_indexRefs.
  - done.
  - lia.
  - lia.
  - eapply run_bind; [apply write_Data; [|by right|done|lia]|by rewrite <- app_assoc].
    eapply Forall_impl; [done|]. by intros f [? _].
Qed.
End indexed.
End writer.

(** ** The reader *)

Definition opened (s : fstate) (file : list ascii) (sk : bool) (n k io do : Z) (ci : option packedRTree) (pos i o : Z) : FileReader :=
  mkFileReader (mkStateful s None) (mkReader file pos) sk n k io do ci i o.

Section reader.
Context {FB : FlatBuffers} (big : bool).
Context (file : list ascii) (sk : bool).

Lemma read_full s n k io do ci p i o b m :
  at_pos file p b -> length b = m ->
  readFull m (opened s file sk n k io do ci p i o) = (Val b, opened s file sk n k io do ci (p + Z.of_nat m) i o).
Proof. intros Hb Hm. unfold readFull. cbn [r_r opened]. by rewrite (at_pos_ReadFull _ _ b). Qed.

Lemma read_feature s n k io do ci p i o t :
  sized t -> at_pos file p (Bytes t) -> is_int64 (i + 1) -> is_int64 (o + Z.of_nat (length (Bytes t))) ->
  readFeature (opened s file sk n k io do ci p i o) =
  (Val t, opened s file sk n k io do ci (p + Z.of_nat (length (Bytes t))) (i + 1) (o + Z.of_nat (length (Bytes t)))).
Proof.
  intros (Ht & Hsz & Hl) Hat Hi Ho. unfold readFeature. run.
  set (b := take 4 (Bytes t)). set (tl := drop 4 (Bytes t)). assert (Bytes t = b ++ tl) as Ebt by (unfold b, tl; by rewrite (take_drop 4)).
  assert (length b = 4%nat) as Hb by (unfold b; rewrite length_take; lia).
  rewrite Ebt in Hat. apply at_pos_app in Hat as [H1 H2]. rewrite Hb in H2.
  eapply run_bind; [by apply run_attempt, read_full|]. cbv beta iota zeta.
  assert (GetUint32 b = Z.of_nat (length (Bytes t)) - 4) as Eg.
  { unfold GetUint32 in *. replace (take 4 b) with (take 4 (Bytes t)); [lia|]. unfold b. by rewrite take_take. }
  rewrite Eg. rewrite (proj2 (Z.ltb_ge _ 4)) by lia. unfold u32. rewrite Z.mod_small by lia. rewrite (proj2 (Z.ltb_ge _ 4)) by lia.
  assert (length tl = Z.to_nat (4 + (Z.of_nat (length (Bytes t)) - 4) - 4)) as Htl by (unfold tl; rewrite length_drop; lia).
  eapply run_bind; [eapply run_bind; [by apply run_attempt, read_full|done]|].
  run. cbn [opened r_featureIndex r_featureOffset with_feature r_st r_r r_seekable r_numFeatures r_nodeSize r_indexOffset r_dataOffset r_cachedIndex].
  replace (o + (4 + (Z.of_nat (length (Bytes t)) - 4))) with (o + Z.of_nat (length (Bytes t))) by lia.
  rewrite !int64_id, <- Ebt, <- Ht by done.
  by replace (p + Z.of_nat 4 + Z.of_nat (Z.to_nat (4 + (Z.of_nat (length (Bytes t)) - 4) - 4)))
    with (p + Z.of_nat (length (Bytes t))) by lia.
Qed.

Lemma read_dataLoop s n k io do ci ps acc p i o :
  Forall sized ps -> at_pos file p (dataBytes ps) -> 0 <= i -> 0 <= o ->
  i + Z.of_nat (length ps) < 2 ^ 63 -> o + Z.of_nat (length (dataBytes ps)) < 2 ^ 63 ->
  dataLoop (length ps) acc (opened s file sk n k io do ci p i o) =
  (Val (acc ++ ps, None),
   opened s file sk n k io do ci (p + Z.of_nat (length (dataBytes ps))) (i + Z.of_nat (length ps)) (o + Z.of_nat (length (dataBytes ps)))).
Proof.
  intros Hps. revert acc p i o. induction Hps as [|t ps Ht _ IH]; intros acc p i o Hat Hi Ho Hi63 Ho63.
  { cbn. unfold opened. by rewrite app_nil_r, !Z.add_0_r. }
  change (dataBytes (t :: ps)) with (Bytes t ++ dataBytes ps) in *. rewrite length_app in *. cbn [length] in *.
  apply at_pos_app in Hat as [H1 H2]. cbn [dataLoop].
  eapply run_bind; [apply run_attempt, read_feature; [done|done|unfold is_int64; lia..]|].
  cbv beta iota. rewrite IH by (done || lia). rewrite <- app_assoc. cbn [app].
  replace (i + 1 + Z.of_nat (length ps)) with (i + Z.of_nat (S (length ps))) by lia.
  by rewrite !Nat2Z.inj_add, !Z.add_assoc.
Qed.

Lemma seek_current s n k io do ci p i o f :
  0 <= p -> orErr (seekCurrent 0) f (opened s file true n k io do ci p i o) = (Val p, opened s file true n k io do ci p i o).
Proof.
  intros Hp. assert (seekCurrent 0 (opened s file true n k io do ci p i o) = (Val p, opened s file true n k io do ci p i o)) as H.
  { unfold seekCurrent, seek, SeekCurrent, seekTo. cbn [opened r_seekable r_r pos content]. rewrite Z.add_0_r, (proj2 (Z.ltb_ge p 0)) by done. done. }
  eapply run_bind; [by apply run_attempt|done].
Qed.
Lemma save_index s n k do ci p i o :
  0 <= p -> saveIndexOffset (opened s file true n k 0 do ci p i o) = (Val tt, opened s file true n k p do ci p i o).
Proof. intros Hp. unfold saveIndexOffset, saveGenericOffset. run. cbn [r_indexOffset r_seekable opened]. by run_as seek_current. Qed.
Lemma save_data s n k io do ci p i o :
  0 <= p -> saveDataOffset (opened s file sk n k io do ci p i o) =
            (Val tt, opened s file sk n k io (if sk && (do =? 0) then p else do) ci p i o).
Proof.
  intros Hp. unfold saveDataOffset, saveGenericOffset. run. cbn [r_dataOffset r_seekable opened].
  destruct (do =? 0) eqn:E; [|by rewrite andb_false_r]. destruct sk; [by run_as seek_current|done].
Qed.

(** The header, in front of the rest of the file. *)
Lemma read_Header hdr n k :
  sized hdr -> Z.of_nat (length (Bytes hdr)) <= headerMaxLen -> FeaturesCount hdr = Some n -> IndexNodeSize hdr = Some k ->
  0 <= n <= MaxInt -> k <> 1 -> at_pos file 0 (magic ++ Bytes hdr) ->
  let h := 8 + Z.of_nat (length (Bytes hdr)) in
  Header (NewFileReader (mkReader file 0) sk) =
  (Val (Some hdr, None),
   opened afterHeader file sk n k (if sk then h else 0) (if sk && ((k =? 0) || (n =? 0)) then h else 0) None h 0 0).
Proof.
  intros (Ht & Hsz & Hl) Hmax En Ek Hn Hk Hat h. apply at_pos_app in Hat as [Hm Hat]. change (Z.of_nat (length magic)) with 8 in Hat.
  change (NewFileReader (mkReader file 0) sk) with (opened uninitialized file sk 0 0 0 0 None 0 0 0).
  unfold Header. eapply run_bind; [by apply run_attempt, run_toState|]. cbv beta iota.
  eapply (run_bind _ _ _ (Ok (mkSpec 3 1)) (opened beforeMagic file sk 0 0 0 0 None 8 0 0)).
  { apply run_attempt. unfold readMagic, Magic. cbn [r_r set_st FileReader_stateful opened].
    rewrite (at_pos_ReadFull _ _ magic) by done. reflexivity. }
  cbv beta iota. change ((Major (mkSpec 3 1) <? MinSpecMajorVersion) || (MaxSpecMajorVersion <? Major (mkSpec 3 1))) with false. cbv iota. run_as @run_ignore.
  set (b := take 4 (Bytes hdr)). set (tl := drop 4 (Bytes hdr)). assert (Bytes hdr = b ++ tl) as Ebt by (unfold b, tl; by rewrite (take_drop 4)).
  assert (length b = 4%nat) as Hb by (unfold b; rewrite length_take; lia).
  rewrite Ebt in Hat. apply at_pos_app in Hat as [H1 H2]. rewrite Hb in H2.
  eapply run_bind; [by apply run_attempt, read_full|]. cbv beta iota zeta.
  assert (GetUint32 b = Z.of_nat (length (Bytes hdr)) - 4) as Eg.
  { unfold GetUint32 in *. replace (take 4 b) with (take 4 (Bytes hdr)); [lia|]. unfold b. by rewrite take_take. }
  rewrite Eg. rewrite (proj2 (Z.ltb_ge _ 4)), (proj2 (Z.ltb_ge headerMaxLen _)) by lia.
  assert (length tl = Z.to_nat (Z.of_nat (length (Bytes hdr)) - 4)) as Htl by (unfold tl; rewrite length_drop; lia).
  eapply run_bind; [by apply run_attempt, read_full|]. cbv beta iota zeta.
  rewrite <- Ebt, <- Ht, En, Ek. cbn [mbind option_bind safeFlatBuffersInteraction].
  rewrite (proj2 (Z.ltb_ge MaxInt n)), (proj2 (Z.eqb_neq k 1)) by lia. run. run.
  replace (8 + Z.of_nat 4 + Z.of_nat (Z.to_nat (Z.of_nat (length (Bytes hdr)) - 4))) with h by lia.
  eapply (run_bind _ _ _ (Ok tt) (opened beforeHeader file sk n k (if sk then h else 0)
    (if sk && ((k =? 0) || (n =? 0)) then h else 0) None h 0 0)); [apply run_attempt|cbv beta iota; by run_as @run_ignore].
  unfold with_params. cbn [opened r_seekable r_numFeatures r_nodeSize r_indexOffset r_dataOffset r_cachedIndex r_featureIndex r_featureOffset r_st r_r].
  assert (forall io, saveDataOffset (opened beforeHeader file sk n k io 0 None h 0 0) =
    (Val tt, opened beforeHeader file sk n k io (if sk then h else 0) None h 0 0)) as Hd.
  { intros io. rewrite save_data by lia. by rewrite andb_true_r. }
  destruct sk; [|done]. eapply run_bind; [apply (save_index beforeHeader); lia|].
  cbn [andb]. destruct (_ || _); [apply Hd|done].
Qed.

Lemma read_discard fuel bufLen s n k io do ci b p i o :
  at_pos file p b -> 0 < bufLen -> (length b < fuel)%nat ->
  discard fuel bufLen (Z.of_nat (length b)) (opened s file sk n k io do ci p i o) =
  (Val tt, opened s file sk n k io do ci (p + Z.of_nat (length b)) i o).
Proof.
  intros Hat Hb. revert b p Hat. induction fuel as [|fuel IH]; intros b p Hat Hf; [lia|]. cbn [discard].
  destruct (Z.ltb_spec 0 (Z.of_nat (length b))) as [H0|H0].
  2: { replace (p + Z.of_nat (length b)) with p by lia. done. }
  set (c := Z.min (Z.of_nat (length b)) bufLen).
  assert (at_pos file (p + c) (drop (Z.to_nat c) b) /\ Z.of_nat (length (drop (Z.to_nat c) b)) = Z.of_nat (length b) - c) as [Hat2 Hl].
  { rewrite <- (take_drop (Z.to_nat c) b) in Hat. apply at_pos_app in Hat as [_ Hat]. rewrite length_take in Hat. rewrite length_drop.
    replace (Z.of_nat (Z.to_nat c `min` length b)) with c in Hat by lia. split; [done|lia]. }
  assert ((if Z.of_nat (length b) <? bufLen then read (Z.of_nat (length b)) else read bufLen) (opened s file sk n k io do ci p i o) =
    (Val c, opened s file sk n k io do ci (p + c) i o)) as Hr.
  { assert (forall x, x = c -> read x (opened s file sk n k io do ci p i o) = (Val c, opened s file sk n k io do ci (p + c) i o)) as Hx.
    { intros x ->. unfold read. cbn [opened r_r pos content]. destruct Hat as (pre & post & -> & ->).
      rewrite Nat2Z.id, drop_app_length, length_app, Nat2Z.inj_add.
      rewrite (proj2 (Z.ltb_lt 0 c)), (proj2 (Z.eqb_neq _ 0)) by lia. cbn [andb].
      by rewrite (Z.min_l c) by lia. }
    destruct (Z.ltb_spec (Z.of_nat (length b)) bufLen); apply Hx; lia. }
  eapply run_bind; [exact Hr|]. cbv beta. rewrite <- Hl, IH; [|done|lia]. unfold opened. do 3 f_equal. lia.
Qed.

(** Past the index, if there is one. *)
Lemma read_skipIndex n k ci b h i :
  0 < h -> at_pos file h b -> h + Z.of_nat (length b) < 2 ^ 63 ->
  k = 0 /\ b = [] \/ 2 <= k /\ 1 <= n /\ Size n k = Ok (Z.of_nat (length b)) /\ 0 < Z.of_nat (length b) ->
  let h' := h + Z.of_nat (length b) in
  skipIndex (opened afterHeader file sk n k (if sk then h else 0) (if sk && ((k =? 0) || (n =? 0)) then h else 0) ci h i 0) =
  (Val tt, opened afterIndex file sk n k (if sk then h else 0) (if sk then h' else 0) ci h' i 0).
Proof.
  intros Hh Hat H63 Hix h'. unfold skipIndex. run_as @run_ignore. run.
  eapply (run_bind _ _ _ tt (opened beforeIndex file sk n k (if sk then h else 0) (if sk then h' else 0) ci h' i 0)); [|by rewrite run_ignore].
  assert (forall do f, 0 <= do -> orErr (seekStart do) f (opened beforeIndex file true n k h do ci h i 0) =
    (Val do, opened beforeIndex file true n k h do ci do i 0)) as Hseek.
  { intros do f Hd. eapply run_bind; [apply (run_attempt _ _ do (opened beforeIndex file true n k h do ci do i 0))|done].
    unfold seekStart, seek, SeekStart, seekTo. cbn [opened r_seekable r_r content]. rewrite (proj2 (Z.ltb_ge do 0)) by done. done. }
  assert (forall bufLen f, 0 < bufLen ->
    orErr (discard (S (length file)) bufLen (Z.of_nat (length b))) f (opened beforeIndex file sk n k 0 0 ci h i 0) =
    (Val tt, opened beforeIndex file sk n k 0 0 ci h' i 0)) as Hdisc.
  { intros bufLen f Hb. eapply run_bind; [apply run_attempt, read_discard; [done|done|]|done].
    destruct Hat as (pre & post & -> & _). rewrite !length_app. lia. }
  destruct Hix as [[-> ->]|(Hk & Hn & Hsz & Hb)].
  - cbn in h'. unfold h'. rewrite Z.add_0_r. cbn [Z.eqb orb]. rewrite andb_true_r. destruct sk; cbn [set_st opened r_dataOffset r_indexOffset FileReader_stateful].
    + rewrite (proj2 (Z.ltb_lt 0 h)) by done. eapply run_bind; [apply Hseek; lia|done].
    + done.
  - rewrite (proj2 (Z.eqb_neq k 0)), (proj2 (Z.eqb_neq n 0)) by lia. cbn [orb]. rewrite andb_false_r.
    destruct sk; cbn [set_st opened r_dataOffset r_indexOffset r_numFeatures r_nodeSize FileReader_stateful].
    + change (0 <? 0) with false. rewrite (proj2 (Z.ltb_lt 0 h)) by done. rewrite Hsz. run. cbv zeta.
      rewrite int64_id by (unfold is_int64; lia). run. eapply run_bind; [apply (Hseek h'); lia|done].
    + change (0 <? 0) with false. rewrite (proj2 (Z.ltb_lt 0 k)), (proj2 (Z.ltb_lt 0 n)) by lia. cbn [andb]. rewrite Hsz. run.
      apply Hdisc. unfold discardBufferSize. destruct (_ <? _); lia.
Qed.

(** All features at once, when their number is in the header. *)
Lemma read_DataRem n k ci b ps h :
  0 < h -> at_pos file h (b ++ dataBytes ps) -> h + Z.of_nat (length b + length (dataBytes ps)) < 2 ^ 63 ->
  k = 0 /\ b = [] \/ 2 <= k /\ 1 <= n /\ Size n k = Ok (Z.of_nat (length b)) /\ 0 < Z.of_nat (length b) ->
  Forall sized ps -> n = Z.of_nat (length ps) -> 0 < n -> n * featureSize <= maxAlloc ->
  exists r, DataRem (opened afterHeader file sk n k (if sk then h else 0) (if sk && ((k =? 0) || (n =? 0)) then h else 0) ci h 0 0) =
    (Val (ps, None), r) /\ state (st r) = eof.
Proof.
  intros Hh Hat H63 Hix Hps Hn Hn0 Hal. apply at_pos_app in Hat as [Hb Hd]. unfold featureSize, maxAlloc in Hal.
  set (r0 := opened afterHeader _ _ _ _ _ _ _ _ _ _).
  pose proof (read_skipIndex n k ci b h 0 Hh Hb ltac:(lia) Hix) as Hskip. fold r0 in Hskip. cbv zeta in Hskip.
  set (h' := h + Z.of_nat (length b)) in *. set (io := if sk then h else 0) in *. set (do := if sk then h' else 0) in *.
  assert (Data n r0 = (Val (ps, None), opened eof file sk n k io do ci (h' + Z.of_nat (length (dataBytes ps))) n (Z.of_nat (length (dataBytes ps)))))
    as Hdata.
  { unfold Data. run. run. eapply run_bind.
    { apply run_attempt. cbn [opened r0 state st FileReader_stateful r_st]. rewrite decide_True by done.
      eapply run_bind; [exact Hskip|]. reflexivity. }
    cbv beta iota. run. eapply run_bind; [reflexivity|]. run. cbn [opened state st set_st FileReader_stateful r_st].
    rewrite !decide_False by done. run_as @run_ignore. run.
    cbn [opened set_st FileReader_stateful r_numFeatures r_featureIndex]. cbv zeta.
    rewrite (proj2 (Z.ltb_lt 0 n)) by done. rewrite Z.sub_0_r, int64_id by (unfold is_int64; lia).
    rewrite (proj2 (Z.ltb_ge n n)) by lia. cbn [andb]. rewrite Hn, Nat2Z.id.
    eapply run_bind; [apply (read_dataLoop inData _ k io do ci ps [] h' 0 0); (done || lia)|]. cbv beta iota. rewrite Z.eqb_refl. by run_as @run_ignore. }
  eexists. split; [|shelve]. unfold DataRem. run. cbn [opened r0 state err st FileReader_stateful r_st r_numFeatures r_featureIndex].
  rewrite decide_False by done. rewrite (proj2 (Z.ltb_lt 0 n)) by done. cbv zeta. rewrite Z.sub_0_r, int64_id by (unfold is_int64; lia).
  rewrite (proj2 (Z.ltb_ge n 0)), (proj2 (Z.ltb_ge _ _)) by (unfold maxAlloc, featureSize; lia). cbn [orb].
  eapply run_bind; [exact Hdata|]. cbv beta iota. rewrite decide_True by by left. rewrite <- Hn, Z.eqb_refl. reflexivity.
  Unshelve. done.
Qed.

(** ** Features found by the index *)

Lemma at_pos_between p q b : 0 <= p <= q -> at_pos file q b -> exists c, at_pos file p c /\ Z.of_nat (length c) = q - p.
Proof.
  intros Hpq (pre & post & -> & ->). exists (drop (Z.to_nat p) pre). split.
  - exists (take (Z.to_nat p) pre), (b ++ post). rewrite (app_assoc (take _ _)), take_drop. split; [done|]. rewrite length_take. lia.
  - rewrite length_drop. lia.
Qed.

(** Results in file order, each with the feature that is at its offset of the data at [d]. *)
Fixpoint found (d o : Z) (sel : list (Result * table)) : Prop :=
  match sel with
  | [] => True
  | (x, t) :: sel =>
    o <= ResOffset x /\ sized t /\ at_pos file (d + ResOffset x) (Bytes t) /\ is_int64 (RefIndex x + 1) /\
    ResOffset x + Z.of_nat (length (Bytes t)) < 2 ^ 63 /\ found d (ResOffset x + Z.of_nat (length (Bytes t))) sel
  end.

Lemma read_skip s n k io do ci p i o m b :
  0 <= p -> 0 <= m -> at_pos file (p + m) b ->
  skip m (opened s file sk n k io do ci p i o) = (Val tt, opened s file sk n k io do ci (p + m) i o).
Proof.
  intros Hp Hm Hat. unfold skip. run. cbn [opened r_seekable r_r content].
  destruct (at_pos_between p (p + m) b ltac:(lia) Hat) as (c & Hc & Hl).
  assert (discard (S (length file)) discardBufferSize m (opened s file sk n k io do ci p i o) = (Val tt, opened s file sk n k io do ci (p + m) i o)) as Hd.
  { replace m with (Z.of_nat (length c)) by lia. apply read_discard; [done|done|]. destruct Hc as (pre & post & -> & _). rewrite !length_app. lia. }
  destruct sk; [|exact Hd]. eapply run_bind; [|reflexivity]. unfold seekCurrent, seek, SeekCurrent, seekTo. cbn [opened r_seekable r_r content pos].
  rewrite (proj2 (Z.ltb_ge _ 0)) by lia. done.
Qed.

Lemma read_searchFeatures s n k io do ci d sel j i o :
  0 <= d -> 0 <= o -> found d o sel ->
  exists p' i' o', searchFeatures j sel.*1 (opened s file sk n k io do ci (d + o) i o) = (Val sel.*2, opened s file sk n k io do ci p' i' o').
Proof.
  intros Hd. revert j i o. induction sel as [|[x t] sel IH]; intros j i o Ho Hf.
  { eexists _, _, _. done. }
  destruct Hf as (Hox & Ht & Hat & Hri & H63 & Hf). pose proof Ht as (_ & _ & Hl).
  destruct (IH (j + 1) (RefIndex x + 1) (ResOffset x + Z.of_nat (length (Bytes t))) ltac:(lia) Hf) as (p' & i' & o' & Hrest).
  exists p', i', o'. cbn [fmap list_fmap fst snd searchFeatures]. run. cbn [opened r_featureOffset].
  eapply (run_bind _ _ _ tt (opened s file sk n k io do ci (d + ResOffset x) i o)).
  { destruct (Z.ltb_spec o (ResOffset x)) as [Hlt|Hge]; [|by replace (ResOffset x) with o by lia].
    rewrite int64_id by (unfold is_int64; lia). eapply run_bind; [apply run_attempt|].
    - eapply (read_skip _ _ _ _ _ _ (d + o) i o (ResOffset x - o)); [lia|lia|]. by replace (d + o + (ResOffset x - o)) with (d + ResOffset x) by lia.
    - cbv beta iota. by replace (d + o + (ResOffset x - o)) with (d + ResOffset x) by lia. }
  run. eapply run_bind; [apply run_attempt, (read_feature s n k io do ci (d + ResOffset x) (RefIndex x) (ResOffset x) t)|].
  - done.
  - done.
  - done.
  - unfold is_int64. lia.
  - cbv beta iota. rewrite <- Z.add_assoc. eapply run_bind; [exact Hrest|]. done.
Qed.

Definition meets (b : Box) (r : Ref) : Prop := intersects b (RBox r) = true.
#[local] Instance meets_dec b r : Decision (meets b r).
Proof. unfold meets. apply _. Defined.
(** The features whose boxes meet a query, in file order. *)
Definition matching (b : Box) (p : list table) : list table := filter (fun f => intersects b (boxOf f) = true) p.

Lemma found_matching b d o o' ps sr :
  Forall sized ps -> at_pos file (d + o) (dataBytes ps) -> 0 <= o' <= o -> o + Z.of_nat (length (dataBytes ps)) < 2 ^ 63 ->
  ResOffset <$> sr = Offset <$> filter (meets b) (refsFrom o ps) -> Forall (fun x => is_int64 (RefIndex x + 1)) sr ->
  exists sel, found d o' sel /\ sel.*1 = sr /\ sel.*2 = matching b ps.
Proof.
  intros Hps. revert o o' sr. induction Hps as [|t ps Ht _ IH]; intros o o' sr Hat Ho H63 Hsr Hri.
  { destruct sr; [|done]. by exists []. }
  change (dataBytes (t :: ps)) with (Bytes t ++ dataBytes ps) in *. rewrite length_app in H63. pose proof Ht as (_ & _ & Hl).
  apply at_pos_app in Hat as [Hat Hat2]. rewrite <- Z.add_assoc in Hat2. cbn [refsFrom] in Hsr. unfold matching. rewrite filter_cons.
  rewrite filter_cons in Hsr. unfold meets in Hsr at 1. cbn [RBox] in Hsr. fold (matching b ps). case_decide as Hm.
  - destruct sr as [|x sr]; [done|]. rewrite !fmap_cons in Hsr. injection Hsr as Hx Hsr. cbn [Offset] in Hx.
    apply Forall_cons in Hri as [Hrx Hri].
    destruct (IH (o + Z.of_nat (length (Bytes t))) (o + Z.of_nat (length (Bytes t))) sr) as (sel & Hf & H1 & H2); [done|lia|lia|done|done|].
    exists ((x, t) :: sel). split; [|by rewrite !fmap_cons, H1, H2, decide_True]. cbn [found]. rewrite Hx.
    split; [lia|]. split; [exact Ht|]. split; [exact Hat|]. split; [exact Hrx|]. split; [lia|exact Hf].
  - rewrite decide_False by done. apply (IH (o + Z.of_nat (length (Bytes t)))); [done|lia|lia|done|done].
Qed.

(** The offsets of the features that meet the query ascend. *)
Lemma refsFrom_above o ps r : r ∈ refsFrom o ps -> o <= Offset r.
Proof.
  revert o. induction ps as [|t ps IH]; intros o; [by intros ?%not_elem_of_nil|]. cbn [refsFrom].
  intros [->|Hr]%elem_of_cons; [done|]. apply IH in Hr. lia.
Qed.
Lemma refsFrom_ascending b o ps : StronglySorted Z.le (Offset <$> filter (meets b) (refsFrom o ps)).
Proof.
  revert o. induction ps as [|t ps IH]; intros o; [constructor|]. cbn [refsFrom]. rewrite filter_cons. case_decide; [|apply IH].
  rewrite fmap_cons. constructor; [apply IH|]. apply Forall_fmap, Forall_forall. intros r [_ Hr]%list_elem_of_filter.
  apply refsFrom_above in Hr. cbn. lia.
Qed.

Lemma hits_offsets b refs : ResOffset <$> hits b refs = Offset <$> filter (meets b) refs.
Proof.
  unfold hits. generalize 0%nat. induction refs as [|r refs IH]; intros i; [done|]. cbn [hitsFrom]. rewrite filter_cons, fmap_app, IH.
  destruct (intersects b (RBox r)) eqn:E; [by rewrite decide_True|]. rewrite decide_False; [done|]. unfold meets. by rewrite E.
Qed.
Lemma hits_indices b refs : Z.of_nat (length refs) < 2 ^ 62 -> Forall (fun x => is_int64 (RefIndex x + 1)) (hits b refs).
Proof.
  intros Hl. apply Forall_forall. intros x Hx. apply hitsFrom_bounds in Hx. unfold is_int64. lia.
Qed.

Lemma filter_ascending b refs : StronglySorted Z.le (Offset <$> refs) -> StronglySorted Z.le (Offset <$> filter (meets b) refs).
Proof.
  induction refs as [|r refs IH]; intros Hs; [constructor|]. rewrite fmap_cons in Hs. apply StronglySorted_inv in Hs as [Hs Hr].
  rewrite filter_cons. case_decide; [|by apply IH]. rewrite fmap_cons. constructor; [by apply IH|].
  rewrite Forall_fmap in Hr |- *. apply Forall_forall. intros x [_ Hx]%list_elem_of_filter. by eapply Forall_forall in Hr.
Qed.

(** Sorting by offset puts what the index found in file order. *)
Lemma sorted_offsets b ps R :
  R ≡ₚ hits b (indexRefs ps) -> ResOffset <$> sort_by ResultLess R = Offset <$> filter (meets b) (refsFrom 0 ps).
Proof.
  intros HR. apply (StronglySorted_unique Z.le).
  - assert (StronglySorted (fun x y => ResultLess y x = false) (sort_by ResultLess R)) as Hs.
    { apply Sorted_StronglySorted; [|apply sort_by_sorted].
      - intros x y z. unfold ResultLess. rewrite !Z.ltb_ge. lia.
      - intros x y. unfold ResultLess. rewrite Z.ltb_lt, Z.ltb_ge. lia. }
    revert Hs. generalize (sort_by ResultLess R). induction 1 as [|x l Hl IH Hx]; [constructor|]. rewrite fmap_cons. constructor; [done|].
    apply Forall_fmap. eapply Forall_impl; [exact Hx|]. intros y. unfold ResultLess. cbn. rewrite Z.ltb_ge. done.
  - apply refsFrom_ascending.
  - rewrite sort_by_perm, HR, hits_offsets. apply fmap_Permutation. by rewrite indexRefs_perm.
Qed.

Section search.
Context (ps : list table) (k : nat) (Hps : indexed ps k).
Let n : Z := Z.of_nat (length ps).

(** Results that the features can be read from. *)
Definition inOrderOf (b : Box) (sr : list Result) : Prop :=
  ResOffset <$> sr = Offset <$> filter (meets b) (refsFrom 0 ps) /\ Forall (fun x => is_int64 (RefIndex x + 1)) sr.

Lemma refs_count : Z.of_nat (length (indexRefs ps)) = n.
Proof. by rewrite length_indexRefs. Qed.
Lemma n_small : 0 < n < 2 ^ 62.
Proof using Hps.
  pose proof (total_nodes _ _ (refs_indexable _ _ Hps)) as Ht. rewrite length_indexRefs in Ht. pose proof (ixd_ne _ _ Hps).
  pose proof (ixd_size _ _ Hps). unfold n. destruct ps; [done|]. cbn [length] in *. lia.
Qed.

Lemma inOrder_sorted b R : R ≡ₚ hits b (indexRefs ps) -> inOrderOf b (sort_by ResultLess R).
Proof using Hps.
  intros HR. split; [by apply sorted_offsets|]. rewrite sort_by_perm, HR. apply hits_indices. rewrite refs_count. apply n_small.
Qed.

Context (h : Z) (Hh : 0 < h) (Hat : at_pos file h (indexBytes ps k ++ dataBytes ps)).
Let h' : Z := h + Z.of_nat (length (indexBytes ps k)).
Hypothesis H63 : h' + Z.of_nat (length (dataBytes ps)) < 2 ^ 63.

(** What is left of [IndexSearch] once the results are known. *)
Lemma read_IndexSearch io do ci b sr do1 ci1 :
  searchIndex big b (opened beforeIndex file sk n (Z.of_nat k) io do ci h 0 0) =
  (Val sr, opened beforeIndex file sk n (Z.of_nat k) io do1 ci1 h' 0 0) -> inOrderOf b sr ->
  exists r, IndexSearch big b (opened afterHeader file sk n (Z.of_nat k) io do ci h 0 0) = (Val (matching b ps), r) /\ state (st r) = eof.
Proof using Hps Hh Hat H63.
  intros Hs [Ho Hri]. pose proof n_small as Hn. pose proof (ixd_k _ _ Hps) as Hk.
  apply at_pos_app in Hat as [_ Hd]. fold h' in Hd. rewrite <- (Z.add_0_r h') in Hd.
  destruct (found_matching b h' 0 0 ps sr) as (sel & Hf & H1 & H2).
  { eapply Forall_impl; [apply Hps|]. by intros f [? _]. } { done. } { lia. } { lia. } { done. } { done. }
  set (do2 := if sk && (do1 =? 0) then h' else do1).
  destruct (read_searchFeatures inData n (Z.of_nat k) io do2 ci1 h' sel 0 0 0 ltac:(lia) ltac:(lia) Hf) as (p' & i' & o' & Hrun).
  rewrite Z.add_0_r, H1, H2 in Hrun. eexists. split; [|shelve]. unfold IndexSearch.
  eapply run_bind; [unfold enterIndex; eapply run_bind; [by apply run_attempt, run_toState|done]|]. run.
  cbn [opened set_st FileReader_stateful r_nodeSize r_numFeatures]. rewrite (proj2 (Z.eqb_neq _ 0)), (proj2 (Z.eqb_neq n 0)) by lia. cbn [orb].
  eapply run_bind; [exact Hs|]. run_as @run_ignore. run.
  eapply (run_bind _ _ _ tt (opened afterIndex file sk n (Z.of_nat k) io do2 ci1 h' 0 0)).
  { cbn [opened set_st FileReader_stateful r_dataOffset]. destruct (do1 =? 0) eqn:E.
    - eapply eq_trans; [apply (save_data afterIndex n (Z.of_nat k) io do1 ci1 h' 0 0); lia|]. unfold do2. by rewrite E.
    - unfold do2. by rewrite andb_false_r. }
  run_as @run_ignore. eapply run_bind; [exact Hrun|]. run_as @run_ignore. reflexivity.
  Unshelve. done.
Qed.

Lemma read_Unmarshal :
  Unmarshal big (mkReader file h) n (Z.of_nat k) = Ok (indexTree ps k, mkReader file h').
Proof using Hps Hh Hat H63.
  destruct (at_pos_app _ _ _ _ Hat) as [(pre & post & -> & ->) _].
  pose proof (Unmarshal_tree (indexRefs ps) k big pre post (refs_indexable _ _ Hps)) as H. cbv zeta in H.
  rewrite refs_count in H. unfold h', indexBytes, indexTree in *. rewrite H. by rewrite Nat2Z.inj_add.
Qed.
Lemma read_Search b : exists R, Search (indexTree ps k) b = Ok R /\ R ≡ₚ hits b (indexRefs ps).
Proof using Hps. apply Search_hits; [by apply refs_indexable|exact (refs_no_nan _ _ Hps)]. Qed.

(** A stream that cannot seek: the index is read and searched in memory. *)
Lemma search_forced b :
  sk = false -> exists sr, searchIndex big b (opened beforeIndex file sk n (Z.of_nat k) 0 0 None h 0 0) =
    (Val sr, opened beforeIndex file sk n (Z.of_nat k) 0 0 (Some (indexTree ps k)) h' 0 0) /\ inOrderOf b sr.
Proof using Hps Hh Hat H63.
  intros ->. destruct (read_Search b) as (R & HR & Hperm). exists (sort_by ResultLess R). split; [|by apply inOrder_sorted].
  unfold searchIndex. run. cbn [opened r_seekable r_cachedIndex].
  eapply run_bind. { unfold index. run. cbn [opened r_r r_numFeatures r_nodeSize]. rewrite read_Unmarshal. reflexivity. }
  rewrite HR. reflexivity.
Qed.

(** The index was read before, and the stream rewound. *)
Lemma search_cached b :
  sk = true -> exists sr, searchIndex big b (opened beforeIndex file sk n (Z.of_nat k) h h' (Some (indexTree ps k)) h 0 0) =
    (Val sr, opened beforeIndex file sk n (Z.of_nat k) h h' (Some (indexTree ps k)) h' 0 0) /\ inOrderOf b sr.
Proof using Hps Hh Hat H63.
  intros ->. destruct (read_Search b) as (R & HR & Hperm). exists (sort_by ResultLess R). split; [|by apply inOrder_sorted].
  unfold searchIndex. run. cbn [opened r_seekable r_cachedIndex r_dataOffset]. rewrite HR. run.
  eapply run_bind; [|reflexivity]. eapply run_bind; [apply (run_attempt _ _ h' (opened beforeIndex file true n (Z.of_nat k) h h' (Some (indexTree ps k)) h' 0 0))|reflexivity].
  unfold seekStart, seek, SeekStart, seekTo. cbn [opened r_seekable r_r content]. rewrite (proj2 (Z.ltb_ge h' 0)) by lia. done.
Qed.

(** A search of the stream; its results are in the order of the index. *)
Lemma search_stream b do :
  sk = true -> StronglySorted Z.le (Offset <$> indexRefs ps) ->
  exists sr, searchIndex big b (opened beforeIndex file sk n (Z.of_nat k) h do None h 0 0) =
    (Val sr, opened beforeIndex file sk n (Z.of_nat k) h do None h' 0 0) /\ inOrderOf b sr.
Proof using Hps Hh Hat H63.
  intros -> Hsort. exists (hits b (indexRefs ps)). split.
  - unfold searchIndex. run. cbn [opened r_seekable r_cachedIndex r_indexOffset]. rewrite (proj2 (Z.ltb_lt 0 h)) by done.
    eapply (run_bind _ _ _ tt (opened beforeIndex file true n (Z.of_nat k) h do None h 0 0)).
    { eapply run_bind; [|reflexivity]. eapply run_bind; [apply (run_attempt _ _ h (opened beforeIndex file true n (Z.of_nat k) h do None h 0 0))|reflexivity].
      unfold seekStart, seek, SeekStart, seekTo. cbn [opened r_seekable r_r content]. rewrite (proj2 (Z.ltb_ge h 0)) by lia. done. }
    run. cbn [opened r_r r_numFeatures r_nodeSize].
    destruct (at_pos_app _ _ _ _ Hat) as [(pre & post & Ef & Eh) _].
    pose proof (Seek_hits (indexRefs ps) k big pre post (length file) b (refs_indexable _ _ Hps) (refs_no_nan _ _ Hps)) as H. cbv zeta in H.
    change (nodesBytes false (laidOut (indexRefs ps) k (above (indexRefs ps) k))) with (indexBytes ps k) in H.
    specialize (H ltac:(unfold h' in H63; lia)). rewrite <- Ef, refs_count, <- Eh, take_ge in H by lia.
    destruct (Seek big (mkReader file h) n (Z.of_nat k) b) as [[R rs']|e].
    + destruct H as [-> ->]. cbn [content]. run. run. rewrite Nat2Z.inj_add, <- Eh. reflexivity.
    + destruct H as [_ H]. rewrite Ef, !length_app in H. lia.
  - split; [|apply hits_indices; rewrite refs_count; apply n_small]. rewrite hits_offsets.
    apply (StronglySorted_unique Z.le); [|apply refsFrom_ascending|by rewrite indexRefs_perm].
    by apply filter_ascending.
Qed.

(** Reading the index of a stream that can seek, and going back. *)
Lemma read_Index_Rewind :
  sk = true -> (Index big;; Rewind) (opened afterHeader file sk n (Z.of_nat k) h 0 None h 0 0) =
  (Val tt, opened afterHeader file sk n (Z.of_nat k) h h' (Some (indexTree ps k)) h 0 0).
Proof using Hps Hh Hat H63.
  pose proof (save_data beforeIndex n (Z.of_nat k) h 0 (Some (indexTree ps k)) h' 0 0 ltac:(lia)) as Hsave.
  intros ->. pose proof n_small as Hn. pose proof (ixd_k _ _ Hps) as Hk. cbn [andb Z.eqb] in Hsave.
  pose proof read_Unmarshal as HU. clearbody h'.
  eapply (run_bind _ _ _ (indexTree ps k) (opened afterIndex file true n (Z.of_nat k) h h' (Some (indexTree ps k)) h' 0 0)).
  - unfold Index. eapply run_bind; [unfold enterIndex; eapply run_bind; [by apply run_attempt, run_toState|done]|]. run.
    cbn [opened set_st FileReader_stateful r_nodeSize r_numFeatures r_cachedIndex].
    rewrite (proj2 (Z.eqb_neq _ 0)), (proj2 (Z.eqb_neq n 0)) by lia. cbn [orb].
    eapply (run_bind _ _ _ (indexTree ps k) (opened beforeIndex file true n (Z.of_nat k) h h' (Some (indexTree ps k)) h' 0 0)); [|by run_as @run_ignore].
    unfold index. run. cbn [opened r_r r_numFeatures r_nodeSize]. rewrite HU. run. run. run. run. cbn [with_cachedIndex with_r r_dataOffset r_seekable opened andb Z.eqb].
    eapply run_bind; [exact Hsave|reflexivity].
  - unfold Rewind. run. cbn [opened st FileReader_stateful r_st state err r_indexOffset].
    change (state_code afterIndex <? state_code afterHeader) with false. rewrite (proj2 (Z.eqb_neq h 0)), decide_False by (done || lia).
    eapply run_bind; [eapply run_bind; [apply (run_attempt _ _ h (opened afterIndex file true n (Z.of_nat k) h h' (Some (indexTree ps k)) h 0 0))|reflexivity]|].
    + unfold seekStart, seek, SeekStart, seekTo. cbn [opened r_seekable r_r content]. rewrite (proj2 (Z.ltb_ge h 0)) by lia. done.
    + run. done.
Qed.
End search.
End reader.

(** ** Whole files *)

Section files.
Context {FB : FlatBuffers}.

(** What the writer is given: a header that tells the number of features and the node size. *)
Record file_ok (hdr : table) (ps : list table) (k : nat) : Prop := {
  fo_hdr : sized hdr;
  fo_hdrlen : Z.of_nat (length (Bytes hdr)) <= headerMaxLen;
  fo_count : FeaturesCount hdr = Some (Z.of_nat (length ps));
  fo_node : IndexNodeSize hdr = Some (Z.of_nat k);
  fo_alloc : Z.of_nat (length ps) * featureSize <= maxAlloc;
  fo_size : Z.of_nat (length (dataBytes ps)) < 2 ^ 61;
  fo_kind : k = 0%nat /\ ps <> [] /\ Forall sized ps \/ indexed ps k;
}.

(** The calls that write a file, and what they return when there is no error. *)
Definition noErr {S A} (m : M S (A * option fgError)) : M S A :=
  '(a, e) ← m; match e with Some e => raise e | None => mret a end.
Definition writeFile (big : bool) (hdr : table) (ps : list table) (k : nat) : M FileWriter unit :=
  noErr (FgbWriter.Header hdr);;
  noErr (if (k =? 0)%nat then FgbWriter.Data ps else IndexData big ps);;
  FgbWriter.Close None.

Definition sectionBytes (ps : list table) (k : nat) : list ascii := if (k =? 0)%nat then [] else indexBytes ps k.
Definition fileBytes (hdr : table) (ps : list table) (k : nat) : list ascii :=
  magic ++ Bytes hdr ++ sectionBytes ps k ++ dataBytes ps.

Lemma file_sized hdr ps k : file_ok hdr ps k -> Forall sized ps.
Proof. intros []. destruct fo_kind0 as [(_ & _ & ?)|[]]; [done|]. eapply Forall_impl; [done|]. by intros f [? _]. Qed.
Lemma file_count hdr ps k : file_ok hdr ps k -> 0 < Z.of_nat (length ps) < 2 ^ 48.
Proof.
  intros []. unfold featureSize, maxAlloc in *. assert (ps <> []) as Hne by (destruct fo_kind0 as [(_ & ? & _)|[]]; done).
  destruct ps; [done|]. cbn [length] in *. lia.
Qed.

Lemma writeFile_bytes big hdr ps k :
  file_ok hdr ps k -> (k <> 0%nat -> fits big ps k) ->
  exists w, writeFile big hdr ps k (NewFileWriter (mkSink [] None)) = (Val tt, w) /\ w_w w = mkSink (fileBytes hdr ps k) None.
Proof.
  intros Hok Hfit. pose proof (file_count _ _ _ Hok) as Hn. pose proof (file_sized _ _ _ Hok) as Hps. destruct Hok.
  set (n := Z.of_nat (length ps)) in *. set (e := writing eof (fileBytes hdr ps k) n (Z.of_nat k) n).
  eexists. split; [|shelve]. unfold writeFile.
  eapply run_bind; [eapply run_bind; [by apply write_Header; [done..|destruct fo_kind0 as [[-> _]|[]]; lia]|done]|].
  eapply (run_bind _ _ _ (Z.of_nat (length (sectionBytes ps k)) + Z.of_nat (length (dataBytes ps))) e).
  - unfold e, fileBytes, sectionBytes. destruct fo_kind0 as [(-> & Hne & _)|Hix].
    + cbn [Nat.eqb app length]. eapply run_bind; [apply write_Data; [done|by left|done|lia]|]. by rewrite <- app_assoc.
    + pose proof (ixd_k _ _ Hix). destruct (Nat.eqb_spec k 0); [lia|].
      eapply run_bind; [apply write_IndexData; [done|by apply Hfit]|]. by rewrite <- app_assoc.
  - unfold FgbWriter.Close. eapply run_bind; [reflexivity|]. run. cbn. rewrite Z.ltb_irrefl. reflexivity.
  Unshelve. done.
Qed.

Lemma fileBytes_at hdr ps k :
  let h := 8 + Z.of_nat (length (Bytes hdr)) in
  at_pos (fileBytes hdr ps k) 0 (magic ++ Bytes hdr) /\ at_pos (fileBytes hdr ps k) h (sectionBytes ps k ++ dataBytes ps).
Proof.
  assert (at_pos (fileBytes hdr ps k) 0 ((magic ++ Bytes hdr) ++ sectionBytes ps k ++ dataBytes ps)) as H.
  { exists [], []. unfold fileBytes. by rewrite app_nil_r, <- app_assoc. }
  apply at_pos_app in H as [H1 H2]. split; [done|]. rewrite length_app in H2.
  by replace (8 + Z.of_nat (length (Bytes hdr))) with (0 + Z.of_nat (length magic + length (Bytes hdr))) by (change (length magic) with 8%nat; lia).
Qed.

(** The index is as long as [Size] says. *)
Lemma section_size ps k : indexed ps k -> Size (Z.of_nat (length ps)) (Z.of_nat k) = Ok (Z.of_nat (length (indexBytes ps k))) /\
  0 < Z.of_nat (length (indexBytes ps k)) < 2 ^ 62.
Proof.
  intros Hix. pose proof (refs_indexable _ _ Hix) as Hr. pose proof (size_eq _ _ Hr) as Hs. rewrite length_indexRefs in Hs.
  pose proof (length_laidOut _ _ Hr) as Hl. pose proof (total_nodes _ _ Hr) as Ht. pose proof (length_refs _ _ Hr).
  unfold indexBytes, indexTree. cbn [tree shape nodes]. rewrite length_nodesBytes. destruct Hix. rewrite length_indexRefs in *.
  split; [rewrite Hs; f_equal; lia|lia].
Qed.

Lemma file_read_Header hdr ps k sk :
  file_ok hdr ps k -> let h := 8 + Z.of_nat (length (Bytes hdr)) in
  Header (NewFileReader (mkReader (fileBytes hdr ps k) 0) sk) =
  (Val (Some hdr, None), opened afterHeader (fileBytes hdr ps k) sk (Z.of_nat (length ps)) (Z.of_nat k) (if sk then h else 0)
     (if sk && ((Z.of_nat k =? 0) || (Z.of_nat (length ps) =? 0)) then h else 0) None h 0 0).
Proof.
  intros Hok h. pose proof (file_count _ _ _ Hok). destruct (fileBytes_at hdr ps k) as [H1 _]. destruct Hok.
  apply read_Header; try done; [unfold MaxInt; lia|]. destruct fo_kind0 as [[-> _]|[]]; lia.
Qed.

(** C26. What [FileWriter] writes, [FileReader] reads: from the bytes of the calls [Header],
    [Data] or [IndexData], and [Close], the calls [Header] and [DataRem] return the header
    and all features in their order, whether there is an index or not, whether the stream can
    seek or not, and whatever the byte order of the writing machine. *)
Theorem file_roundtrip big hdr ps k sk :
  file_ok hdr ps k -> (k <> 0%nat -> fits big ps k) ->
  exists w r, writeFile big hdr ps k (NewFileWriter (mkSink [] None)) = (Val tt, w) /\
    (x ← Header; y ← DataRem; mret (x, y)) (NewFileReader (mkReader (written (w_w w)) 0) sk) =
    (Val ((Some hdr, None), (ps, None)), r).
Proof.
  intros Hok Hfit. destruct (writeFile_bytes big hdr ps k Hok Hfit) as (w & Hw & Ew). exists w. rewrite Ew. cbn [written].
  destruct (fileBytes_at hdr ps k) as [_ Hat]. pose proof (file_count _ _ _ Hok) as Hn. pose proof (file_sized _ _ _ Hok) as Hps.
  pose proof (file_read_Header hdr ps k sk Hok) as Hh. cbv zeta in *. set (h := 8 + Z.of_nat (length (Bytes hdr))) in *. destruct Hok.
  unfold headerMaxLen in *.
  destruct (read_DataRem (fileBytes hdr ps k) sk (Z.of_nat (length ps)) (Z.of_nat k) None (sectionBytes ps k) ps h) as (r & Hr & _); try done.
  - lia.
  - unfold sectionBytes. destruct fo_kind0 as [[-> _]|Hix]; [cbn; lia|]. destruct (section_size _ _ Hix). destruct (k =? 0)%nat; [cbn [length]; lia|]. unfold h. lia.
  - unfold sectionBytes. destruct fo_kind0 as [[-> _]|Hix]; [by left|right]. destruct (section_size _ _ Hix) as [-> ?].
    pose proof (ixd_k _ _ Hix). destruct (Nat.eqb_spec k 0); [lia|]. split_and!; [lia|lia|done|lia].
  - lia.
  - exists r. split; [done|]. eapply run_bind; [exact Hh|]. eapply run_bind; [exact Hr|]. done.
Qed.

(** The calls that search: of a stream that cannot seek, and of one that can, once the index
    was read. *)
Definition searchCalls (big : bool) (sk : bool) (b : Box) : M FileReader (list table) :=
  noErr Header;;
  (if sk then Index big;; Rewind else mret tt);;
  IndexSearch big b.

Lemma file_IndexSearch hdr ps k sk big b do ci m :
  file_ok hdr ps k -> indexed ps k ->
  let file := fileBytes hdr ps k in
  let n := Z.of_nat (length ps) in
  let h := 8 + Z.of_nat (length (Bytes hdr)) in
  let h' := h + Z.of_nat (length (indexBytes ps k)) in
  m (opened afterHeader file sk n (Z.of_nat k) (if sk then h else 0) 0 None h 0 0) =
    (Val tt, opened afterHeader file sk n (Z.of_nat k) (if sk then h else 0) do ci h 0 0) ->
  (exists sr do1 ci1, searchIndex big b (opened beforeIndex file sk n (Z.of_nat k) (if sk then h else 0) do ci h 0 0) =
    (Val sr, opened beforeIndex file sk n (Z.of_nat k) (if sk then h else 0) do1 ci1 h' 0 0) /\ inOrderOf ps b sr) ->
  exists r, (noErr Header;; m;; IndexSearch big b) (NewFileReader (mkReader file 0) sk) = (Val (matching b ps), r).
Proof.
  intros Hok Hix file n h h' Hm (sr & do1 & ci1 & Hs & Ho). pose proof (file_read_Header hdr ps k sk Hok) as Hh. cbv zeta in Hh.
  destruct (fileBytes_at hdr ps k) as [_ Hat]. pose proof (file_count _ _ _ Hok) as Hn. pose proof (ixd_k _ _ Hix) as Hk.
  unfold sectionBytes in Hat. destruct (Nat.eqb_spec k 0); [lia|].
  rewrite (proj2 (Z.eqb_neq (Z.of_nat k) 0)), (proj2 (Z.eqb_neq (Z.of_nat (length ps)) 0)), andb_false_r in Hh by lia.
  destruct (section_size _ _ Hix) as [_ Hsz]. destruct Hok. unfold headerMaxLen in *.
  destruct (read_IndexSearch big file sk ps k Hix h ltac:(lia) Hat ltac:(lia) _ do ci b sr do1 ci1 Hs Ho) as (r & Hr & _).
  exists r. eapply run_bind; [eapply run_bind; [exact Hh|done]|]. eapply run_bind; [exact Hm|]. exact Hr.
Qed.

(** C27. A search through the index that [IndexData] wrote returns exactly the features
    whose boxes meet the query, in file order: for a stream that cannot seek, and for one
    that can when the index was read before. *)
Theorem search_exact big big' hdr ps k sk b :
  file_ok hdr ps k -> indexed ps k -> fits big ps k ->
  exists w r, writeFile big hdr ps k (NewFileWriter (mkSink [] None)) = (Val tt, w) /\
    searchCalls big' sk b (NewFileReader (mkReader (written (w_w w)) 0) sk) = (Val (matching b ps), r).
Proof.
  intros Hok Hix Hfit. destruct (writeFile_bytes big hdr ps k Hok (fun _ => Hfit)) as (w & Hw & Ew). exists w. rewrite Ew. cbn [written].
  destruct (fileBytes_at hdr ps k) as [_ Hat]. pose proof (ixd_k _ _ Hix) as Hk. unfold sectionBytes in Hat.
  destruct (Nat.eqb_spec k 0) as [|_]; [lia|]. destruct (section_size _ _ Hix) as [_ Hsz].
  pose proof (fo_hdrlen _ _ _ Hok). pose proof (fo_size _ _ _ Hok). unfold headerMaxLen in *. unfold searchCalls. destruct sk.
  - edestruct (file_IndexSearch hdr ps k true big' b) as (r & Hr); [done|done|apply read_Index_Rewind; [done|lia|done|lia|done]| |by exists r].
    destruct (search_cached big' (fileBytes hdr ps k) true ps k Hix (8 + Z.of_nat (length (Bytes hdr))) ltac:(lia) Hat ltac:(lia) b eq_refl) as (sr & Hs & Ho).
    by eexists _, _, _.
  - edestruct (file_IndexSearch hdr ps k false big' b) as (r & Hr); [done|done|reflexivity| |by exists r].
    destruct (search_forced big' (fileBytes hdr ps k) false ps k Hix (8 + Z.of_nat (length (Bytes hdr))) ltac:(lia) Hat ltac:(lia) b eq_refl) as (sr & Hs & Ho).
    by eexists _, _, _.
Qed.

(** The search of a stream that can seek, without reading the index first, is exact when
    the offsets ascend in the order of the index. *)
Lemma search_stream_exact hdr ps k big b :
  file_ok hdr ps k -> indexed ps k -> StronglySorted Z.le (Offset <$> indexRefs ps) ->
  exists r, (noErr Header;; IndexSearch big b) (NewFileReader (mkReader (fileBytes hdr ps k) 0) true) = (Val (matching b ps), r).
Proof.
  intros Hok Hix Hsort. destruct (fileBytes_at hdr ps k) as [_ Hat]. pose proof (ixd_k _ _ Hix) as Hk. unfold sectionBytes in Hat.
  destruct (Nat.eqb_spec k 0) as [|_]; [lia|]. destruct (section_size _ _ Hix) as [_ Hsz].
  pose proof (fo_hdrlen _ _ _ Hok). pose proof (fo_size _ _ _ Hok). unfold headerMaxLen in *.
  edestruct (file_IndexSearch hdr ps k true big b 0 None (mret tt : M FileReader unit)) as (r & Hr); [done|done|reflexivity| |by exists r].
  destruct (search_stream big (fileBytes hdr ps k) true ps k Hix (8 + Z.of_nat (length (Bytes hdr))) ltac:(lia) Hat ltac:(lia) b 0 eq_refl Hsort) as (sr & Hs & Ho).
  by eexists _, _, _.
Qed.
End files.

(** ** An example *)

Module FgbExample.
(** Tables that hold their numbers at fixed places. *)
#[local] Instance flat : FlatBuffers := {
  FeaturesCount t := Some (le_value (take 8 (drop 8 (Bytes t))));
  IndexNodeSize t := Some (le_value (take 2 (drop 16 (Bytes t))));
  GeometryXy t := Some (Some [le_value (take 8 (drop 8 (Bytes t))); le_value (take 8 (drop 16 (Bytes t)))]) }.
#[local] Instance flat_laws : FlatBuffersLaws.
Proof.
  assert (forall m l n, Some (le_value (take m l)) = Some n -> 0 <= n < 256 ^ Z.of_nat m) as H.
  { intros m l n [= <-]. pose proof (le_value_bounds (take m l)) as [H1 H2]. split; [done|]. eapply Z.lt_le_trans; [exact H2|].
    apply Z.pow_le_mono_r; [done|]. rewrite length_take. lia. }
  split; intros t n Hn; [exact (H 8%nat _ _ Hn)|exact (H 2%nat _ _ Hn)].
Qed.

Definition tableOf (body : list ascii) : table := rootTable (le_bytes 4 (Z.of_nat (length body)) ++ body).
Definition header (n k : Z) : table := tableOf (le_bytes 4 4 ++ le_bytes 8 n ++ le_bytes 2 k).
Definition point (x y : Z) : table :=
  tableOf (le_bytes 4 4 ++ le_bytes 8 (Float64bits (f64_of_Z x)) ++ le_bytes 8 (Float64bits (f64_of_Z y))).
Definition some_points : list table := [point 0 0; point 1 0; point 100 100].
Definition square (a b : Z) : Box := let f z := Float64bits (f64_of_Z z) in mkBox (f a) (f a) (f b) (f b).

Lemma readable_point t x y :
  sized t -> GeometryXy t = Some (Some [x; y]) -> is_uint64 x -> is_uint64 y -> readable t.
Proof. intros Hs Hg Hx Hy. split; [done|]. exists (Some [x; y]). split; [done|]. by constructor; [|constructor; [|constructor]]. Qed.
Lemma some_readable : Forall readable some_points.
Proof.
  unfold some_points. constructor; [|constructor; [|constructor; [|constructor]]];
    (eapply readable_point; [|reflexivity|..]); by vm_compute.
Qed.
Lemma some_indexed : indexed some_points 2.
Proof. split; [done|lia|done|apply some_readable|by vm_compute|by vm_compute]. Qed.
Lemma some_file : file_ok (header 3 2) some_points 2.
Proof. split; [by vm_compute|by vm_compute|done|done|by vm_compute|by vm_compute|right; apply some_indexed]. Qed.

Lemma file_roundtrip_witness :
  exists w r, writeFile false (header 3 2) some_points 2 (NewFileWriter (mkSink [] None)) = (Val tt, w) /\
    (x ← Header; y ← DataRem; mret (x, y)) (NewFileReader (mkReader (written (w_w w)) 0) false) =
    (Val ((Some (header 3 2), None), (some_points, None)), r).
Proof. exact (file_roundtrip false (header 3 2) some_points 2 false some_file (fun _ H => match Bool.diff_false_true H with end)). Defined.
Lemma search_exact_witness :
  exists w r, writeFile false (header 3 2) some_points 2 (NewFileWriter (mkSink [] None)) = (Val tt, w) /\
    searchCalls true true (square 0 1) (NewFileReader (mkReader (written (w_w w)) 0) true) =
    (Val [point 0 0; point 1 0], r).
Proof. exact (search_exact false true (header 3 2) some_points 2 true (square 0 1) some_file some_indexed (fun H => match Bool.diff_false_true H with end)). Defined.

(** [IndexData] sorts the references along the curve and writes the features in the order
    they were given, so that the offsets need not ascend in the index; a search of a stream
    that can seek takes its results in that order, does not go back, and returns features that are
    not around the query. *)
Definition run_of {S A} (x : step A * S) : step A := x.1.
Lemma stream_search_wrong :
  matching (square 0 1) some_points = [point 0 0; point 1 0] /\
  run_of ((noErr Header;; IndexSearch false (square 0 1)) (NewFileReader (mkReader (fileBytes (header 3 2) some_points 2) 0) true)) =
  Val [point 1 0; point 100 100].
Proof. by vm_compute. Qed.

Lemma reader_calls_safe_witness :
  Forall (fun o => match o with Crashed q => input_panic q | Returned _ => True end)
    (performs false [CallHeader; CallIndex; CallHeader; CallIndexSearch (square 0 1); CallRewind; CallDataRem]
      (NewFileReader (mkReader (fileBytes (header 3 2) some_points 2) 0) false)).
Proof.
  refine (reader_calls_safe false (fileBytes (header 3 2) some_points 2) 0 false _ _ _); [done|].
  vm_compute. intros H. repeat (apply elem_of_cons in H as [H|H]; [done|]). by apply not_elem_of_nil in H.
Defined.

(** A header the FlatBuffers code panics on leaves the reader between two states, without an
    error: the next call is one of the panics marked as logic errors. *)
Lemma flat_panic_then_logic_error :
  performs (FB := {| FeaturesCount _ := None; IndexNodeSize _ := None; GeometryXy _ := None |}) false [CallHeader; CallIndex]
    (NewFileReader (mkReader (fileBytes (header 3 2) some_points 2) 0) false) =
  [Returned (Some FlatPanic); Crashed (LogicError "unexpected state looking to read index" [0x21])].
Proof. by vm_compute. Qed.

(** A length of a table that wraps around, and a count that cannot be allocated. *)
Lemma wrapped_length_panics :
  performs false [CallHeader; CallData 1]
    (NewFileReader (mkReader (magic ++ Bytes (header 0 0) ++ le_bytes 4 0xFFFFFFFE) 0) false) =
  [Returned None; Crashed SlicePanic].
Proof. by vm_compute. Qed.
Lemma huge_count_panics :
  performs false [CallHeader; CallDataRem] (NewFileReader (mkReader (magic ++ Bytes (header (2 ^ 60) 0)) 0) false) =
  [Returned None; Crashed (MakePanic (2 ^ 60))].
Proof. by vm_compute. Qed.

(** When the header does not tell the number of features, a call of [Data] with an empty slice
    ends the data. *)
Lemma empty_slice_ends :
  performs false [CallHeader; CallData 1; CallData 0; CallData 1]
    (NewFileReader (mkReader (magic ++ Bytes (header 0 0) ++ dataBytes some_points) 0) false) =
  [Returned None; Returned None; Returned None; Returned (Some (Io EOF))].
Proof. by vm_compute. Qed.
End FgbExample.
