(* ===== verification/PropCodec.v ===== *)
(** * Properties of features ([prop_writer.go], [prop_reader.go], [schema.go])

    The encoding of property values, and [ReadSchema], which reads the properties of a
    feature with the types of their columns. *)

From Stdlib Require Import Ascii String ZArith Lia Bool.
From stdpp Require Import base list strings option.
From S2P Require Import Prelude GoStd Strconv Bytes PackedRTree PackedStream Fgb.

Local Open Scope Z_scope.

(** ** Values *)

(** The types of [flat.ColumnType] that the reader knows, in the order of their codes. *)
Inductive ColumnType :=
| TByte | TUByte | TBool | TShort | TUShort | TInt | TUInt | TLong | TULong | TFloat | TDouble
| TString | TJson | TDateTime | TBinary.
#[global] Instance ColumnType_eq_dec : EqDecision ColumnType.
Proof. solve_decision. Defined.
Definition columnTypes : list ColumnType :=
  [TByte; TUByte; TBool; TShort; TUShort; TInt; TUInt; TLong; TULong; TFloat; TDouble; TString; TJson; TDateTime; TBinary].

(** A value as it is in the interface [any]; a float is its bits, and a slice may be nil. *)
Inductive propVal :=
| VInt (bits : Z) (signed : bool) (v : Z)
| VBool (b : bool)
| VFloat (bits : Z) (v : Z)
| VString (s : list ascii)
| VBytes (b : option (list ascii)).
#[global] Instance propVal_eq_dec : EqDecision propVal.
Proof. solve_decision. Defined.

(** Conversion to a signed integer of [w] bits. *)
Definition signed (w : Z) (x : Z) : Z := let u := x mod 2 ^ w in if u <? 2 ^ (w - 1) then u else u - 2 ^ w.

(** ** Writing *)

Definition byteAt (v : Z) (i : Z) : ascii := chr (Z.shiftr v (8 * i)).
Definition WriteByte (w : sink) (v : Z) := Write w [byteAt v 0].
Definition WriteUByte (w : sink) (v : Z) := Write w [byteAt v 0].
Definition WriteBool (w : sink) (v : bool) := Write w [chr (if v then 1 else 0)].
Definition WriteShort (w : sink) (v : Z) := Write w [byteAt v 0; byteAt v 1].
Definition WriteUShort (w : sink) (v : Z) := Write w [byteAt v 0; byteAt v 1].
Definition WriteInt (w : sink) (v : Z) := Write w [byteAt v 0; byteAt v 1; byteAt v 2; byteAt v 3].
Definition WriteUInt (w : sink) (v : Z) := Write w [byteAt v 0; byteAt v 1; byteAt v 2; byteAt v 3].
Definition WriteLong (w : sink) (v : Z) :=
  Write w [byteAt v 0; byteAt v 1; byteAt v 2; byteAt v 3; byteAt v 4; byteAt v 5; byteAt v 6; byteAt v 7].
Definition WriteULong (w : sink) (v : Z) :=
  Write w [byteAt v 0; byteAt v 1; byteAt v 2; byteAt v 3; byteAt v 4; byteAt v 5; byteAt v 6; byteAt v 7].
(** [flatbuffers.WriteFloat32] and [WriteFloat64] put the bits in little-endian order. *)
Definition WriteFloat (w : sink) (bits : Z) := Write w (le_bytes 4 bits).
Definition WriteDouble (w : sink) (bits : Z) := Write w (le_bytes 8 bits).
Definition WriteBinary (w : sink) (v : list ascii) : (Z * option fgError) * sink :=
  let len := Z.of_nat (length v) in
  if 2 ^ 32 - 1 <? len then ((0, Some (Fmt "property length %d overflows uint32" [len])), w)
  else
    let '((n, e), w) := WriteUInt w len in
    match e with
    | Some e => ((n, Some e), w)
    | None => let '((m, e), w) := Write w v in ((n + m, e), w)
    end.
Definition WriteString (w : sink) (v : list ascii) := WriteBinary w v.

(** ** Reading *)

(** The bytes put together with shifts and ors. *)
Fixpoint orBytes (i : Z) (l : list ascii) : Z :=
  match l with [] => 0 | c :: l => Z.lor (Z.shiftl (code c) (8 * i)) (orBytes (i + 1) l) end.

Definition readN (n : nat) : M reader (list ascii) := fun r =>
  match ReadFull r n with
  | (Ok b, r) => (Val b, r)
  | (Err e, r) => (Raise (Io e), r)
  end.
Definition ReadByte : M reader Z := b ← readN 1; mret (signed 8 (orBytes 0 b)).
Definition ReadUByte : M reader Z := b ← readN 1; mret (orBytes 0 b).
Definition ReadBool : M reader bool := b ← readN 1; mret (0 <? orBytes 0 b).
Definition ReadShort : M reader Z := b ← readN 2; mret (signed 16 (orBytes 0 b)).
Definition ReadUShort : M reader Z := b ← readN 2; mret (orBytes 0 b).
Definition ReadInt : M reader Z := b ← readN 4; mret (signed 32 (orBytes 0 b)).
Definition ReadUInt : M reader Z := b ← readN 4; mret (orBytes 0 b).
Definition ReadLong : M reader Z := b ← readN 8; mret (signed 64 (orBytes 0 b)).
Definition ReadULong : M reader Z := b ← readN 8; mret (orBytes 0 b).
Definition ReadFloat : M reader Z := b ← readN 4; mret (le_value b).
Definition ReadDouble : M reader Z := b ← readN 8; mret (le_value b).
Definition ReadBinary : M reader (list ascii) :=
  n ← ReadUInt;
  if MaxInt <? n then raise (Fmt "property length %d overflows int" [n])
  else readN (Z.to_nat n).
Definition ReadString : M reader (list ascii) := b ← ReadBinary; mret b.

(** ** Schemas *)

(** A [Schema]; an accessor that panics has no value. [Columns j] is the type of the column,
    if there is one; a type that the code does not know, or whose accessor panics, is its
    number or nothing. *)
Inductive column := Column (type : ColumnType) | UnknownColumn (code : Z) | BrokenColumn.
Record Schema := mkSchema { ColumnsLength : option Z; Columns : Z -> option (option column) }.
Record PropValue := mkPropValue { Value : propVal; ColIndex : Z; Type_ : ColumnType }.

(** [val.Value, err = m]: the error is kept in a variable that nobody reads. *)
Definition orZero {A} (m : M reader A) (zero : A) : M reader A :=
  x ← attempt m; mret (match x with Ok a => a | Err _ => zero end).
Definition readValue (t : ColumnType) : M reader propVal :=
  match t with
  | TByte => v ← orZero ReadByte 0; mret (VInt 8 true v)
  | TUByte => v ← orZero ReadUByte 0; mret (VInt 8 false v)
  | TBool => v ← orZero ReadBool false; mret (VBool v)
  | TShort => v ← orZero ReadShort 0; mret (VInt 16 true v)
  | TUShort => v ← orZero ReadUShort 0; mret (VInt 16 false v)
  | TInt => v ← orZero ReadInt 0; mret (VInt 32 true v)
  | TUInt => v ← orZero ReadUInt 0; mret (VInt 32 false v)
  | TLong => v ← orZero ReadLong 0; mret (VInt 64 true v)
  | TULong => v ← orZero ReadULong 0; mret (VInt 64 false v)
  | TFloat => v ← orZero ReadFloat 0; mret (VFloat 32 v)
  | TDouble => v ← orZero ReadDouble 0; mret (VFloat 64 v)
  | TString | TDateTime => v ← orZero ReadString []; mret (VString v)
  | TJson | TBinary => v ← orZero (b ← ReadBinary; mret (Some b)) None; mret (VBytes v)
  end.

Fixpoint schemaLoop (schema : Schema) (n : Z) (count : nat) (i : Z) (vals : list PropValue) : M reader (list PropValue) :=
  match count with
  | O => mret vals
  | S count =>
    col ← attempt ReadUShort;
    match col with
    | Err e => raise (Wrap "failed to read column index (for property %d of %d)" [i; n] e)
    | Ok j =>
    if n <=? j then raise (Fmt "schema has only %d columns, but property %d has column index %d" [n; i; j])
    else
      match safeFlatBuffersInteraction
              ((fun c => match c with Some c => Ok c | None => Err (Txt "column not found") end) <$> Columns schema j) with
      | Err e => raise (Wrap "failed to fetch column %d (for property %d of %d)" [j; i; n] e)
      | Ok (Column t) =>
        v ← readValue t;
        schemaLoop schema n count (i + 1) (vals ++ [mkPropValue v j t])
      | Ok (UnknownColumn c) => panic (LogicError "unknown column type" [c])
      | Ok BrokenColumn => panic FlatBuffersPanic
      end
    end
  end.

Definition ReadSchema (schema : Schema) : M reader (list PropValue) :=
  match safeFlatBuffersInteraction (Ok <$> ColumnsLength schema) with
  | Err e => raise (Wrap "failed to read schema column count" [] e)
  | Ok n =>
    if n <? 0 then panic (MakePanic n)
    else schemaLoop schema n (Z.to_nat n) 0 []
  end.

(** ** Types of values *)

Definition width (t : ColumnType) : Z :=
  match t with TByte | TUByte => 8 | TShort | TUShort => 16 | TInt | TUInt | TFloat => 32 | _ => 64 end.
Definition is_signed (t : ColumnType) : bool := match t with TByte | TShort | TInt | TLong => true | _ => false end.
Definition in_width (w : Z) (s : bool) (v : Z) : Prop :=
  if s then - 2 ^ (w - 1) <= v < 2 ^ (w - 1) else 0 <= v < 2 ^ w.

(** A value of the Go type of its column. *)
Definition typed (t : ColumnType) (v : propVal) : Prop :=
  match t, v with
  | (TByte | TUByte | TShort | TUShort | TInt | TUInt | TLong | TULong), VInt w s z =>
    w = width t /\ s = is_signed t /\ in_width w s z
  | TBool, VBool _ => True
  | (TFloat | TDouble), VFloat w z => w = width t /\ 0 <= z < 2 ^ w
  | (TString | TDateTime), VString s => Z.of_nat (length s) < 2 ^ 32
  | (TJson | TBinary), VBytes b => match b with Some b => Z.of_nat (length b) < 2 ^ 32 | None => True end
  | _, _ => False
  end.

(** ** Bytes *)

Lemma orBytes_value l i : 0 <= i -> orBytes i l = le_value l * 2 ^ (8 * i).
Proof.
  revert i. induction l as [|c l IH]; intros i Hi; [done|]. cbn [orBytes le_value]. rewrite IH by lia.
  rewrite Z.shiftl_mul_pow2 by lia. replace (8 * (i + 1)) with (8 + 8 * i) by lia. rewrite Z.pow_add_r by lia.
  rewrite <- Z.add_nocarry_lor. { change (2 ^ 8) with 256. lia. }
  apply Z.bits_inj'. intros m Hm. rewrite Z.land_spec, Z.bits_0, Z.mul_assoc.
  rewrite !Z.mul_pow2_bits by lia. destruct (Z.lt_ge_cases m (8 * i)) as [H|H].
  { rewrite (Z.testbit_neg_r (code c)) by lia. done. }
  destruct (Z.lt_ge_cases (m - 8 * i) 8) as [H8|H8].
  - rewrite (Z.testbit_neg_r (le_value l)) by lia. by rewrite andb_false_r.
  - rewrite Z.bits_above_log2; [done|pose proof (code_bounds c); lia|]. pose proof (code_bounds c) as Hc.
    destruct (Z.eq_dec (code c) 0) as [->|]; [cbn; lia|]. apply Z.log2_lt_pow2; [lia|].
    apply Z.lt_le_trans with (2 ^ 8); [lia|]. apply Z.pow_le_mono_r; lia.
Qed.
Lemma orBytes_le l : orBytes 0 l = le_value l.
Proof. rewrite orBytes_value by lia. rewrite Z.mul_1_r. done. Qed.

Lemma signed_range w x : 0 < w -> - 2 ^ (w - 1) <= signed w x < 2 ^ (w - 1).
Proof.
  intros Hw. unfold signed. pose proof (Z.mod_pos_bound x (2 ^ w) ltac:(apply Z.pow_pos_nonneg; lia)).
  assert (2 ^ w = 2 * 2 ^ (w - 1)) as E. { rewrite <- Z.pow_succ_r by lia. f_equal. lia. }
  destruct (Z.ltb_spec (x mod 2 ^ w) (2 ^ (w - 1))); lia.
Qed.
Lemma signed_id w x : 0 < w -> - 2 ^ (w - 1) <= x < 2 ^ (w - 1) -> signed w (x mod 2 ^ w) = x.
Proof.
  intros Hw Hx. unfold signed. assert (2 ^ w = 2 * 2 ^ (w - 1)) as E. { rewrite <- Z.pow_succ_r by lia. f_equal. lia. }
  rewrite Z.mod_mod by lia. destruct (Z.le_gt_cases 0 x).
  - rewrite Z.mod_small by lia. destruct (Z.ltb_spec x (2 ^ (w - 1))); lia.
  - replace (x mod 2 ^ w) with (x + 2 ^ w). 2: { apply Z.mod_unique with (-1); lia. }
    destruct (Z.ltb_spec (x + 2 ^ w) (2 ^ (w - 1))); lia.
Qed.

Fixpoint bytesUp (n : nat) (i v : Z) : list ascii :=
  match n with O => [] | S n => byteAt v i :: bytesUp n (i + 1) v end.
Lemma bytesUp_le n i v : 0 <= i -> bytesUp n i v = le_bytes n (Z.shiftr v (8 * i)).
Proof.
  revert i. induction n as [|n IH]; intros i Hi; [done|]. cbn [bytesUp le_bytes]. unfold byteAt. f_equal. rewrite IH by lia. f_equal.
  replace (8 * (i + 1)) with (8 * i + 8) by lia. rewrite <- Z.shiftr_shiftr by lia. by rewrite (Z.shiftr_div_pow2 _ 8).
Qed.
Lemma bytesUp_0 n v : bytesUp n 0 v = le_bytes n v.
Proof. rewrite bytesUp_le by lia. by rewrite Z.shiftr_0_r. Qed.

Lemma le_value_mod n v : le_value (le_bytes n v) = v mod 256 ^ Z.of_nat n.
Proof.
  revert v. induction n as [|n IH]; intros v; [by rewrite Z.mod_1_r|]. cbn [le_bytes le_value]. rewrite IH, code_chr, pow256_S.
  pose proof (Z.pow_pos_nonneg 256 (Z.of_nat n) ltac:(lia) ltac:(lia)). rewrite Z.rem_mul_r by lia. lia.
Qed.

(** ** Reading is typed *)

Lemma readN_spec n r :
  match readN n r with (Val b, _) => length b = n | (Raise _, _) => True | (Panicked _, _) => False end.
Proof.
  unfold readN, ReadFull. destruct (Nat.leb_spec n (length (drop (Z.to_nat (pos r)) (content r)))); [|done].
  rewrite length_take. lia.
Qed.
Lemma orZero_spec {A} (m : M reader A) z (P : A -> Prop) r :
  match m r with (Val a, _) => P a | (Raise _, _) => True | (Panicked _, _) => False end -> P z ->
  match orZero m z r with (Val a, _) => P a | _ => False end.
Proof. unfold orZero, mbind, M_bind, attempt. destruct (m r) as [[a|e|p] r']; done. Qed.
Lemma readInt_spec {A} n (f : Z -> A) (P : A -> Prop) r :
  (forall z, 0 <= z < 256 ^ Z.of_nat n -> P (f z)) ->
  match (b ← readN n; mret (f (orBytes 0 b))) r with (Val a, _) => P a | (Raise _, _) => True | (Panicked _, _) => False end.
Proof.
  intros HP. pose proof (readN_spec n r) as H. unfold mbind, M_bind. destruct (readN n r) as [[b|e|p] r']; try done.
  rewrite orBytes_le. apply HP. rewrite <- H. apply le_value_bounds.
Qed.
Lemma readFloat_spec n r :
  match (b ← readN n; mret (le_value b)) r with (Val a, _) => 0 <= a < 256 ^ Z.of_nat n | (Raise _, _) => True | (Panicked _, _) => False end.
Proof.
  pose proof (readN_spec n r) as H. unfold mbind, M_bind. destruct (readN n r) as [[b|e|p] r']; try done. rewrite <- H. apply le_value_bounds.
Qed.
Lemma ReadBinary_spec r :
  match ReadBinary r with (Val b, _) => Z.of_nat (length b) < 2 ^ 32 | (Raise _, _) => True | (Panicked _, _) => False end.
Proof.
  unfold ReadBinary. pose proof (readInt_spec 4 id (fun z => 0 <= z < 2 ^ 32) r ltac:(done)) as H. unfold id in H.
  unfold mbind at 1, M_bind at 1. fold ReadUInt in H. destruct (ReadUInt r) as [[n|e|p] r']; try done. destruct (_ <? _); [done|].
  pose proof (readN_spec (Z.to_nat n) r'). destruct (readN _ r') as [[b|e|p] r'']; try done. lia.
Qed.

Lemma map_spec {A B} (m : M reader A) (f : A -> B) (P : A -> Prop) (Q : B -> Prop) r :
  match m r with (Val a, _) => P a | _ => False end -> (forall a, P a -> Q (f a)) ->
  match (v ← m; mret (f v)) r with (Val b, _) => Q b | _ => False end.
Proof. intros Hm HQ. unfold mbind, M_bind. destruct (m r) as [[a|e|p] r']; try done. by apply HQ. Qed.

Lemma int_typed n w (sg : bool) (f : Z -> Z) r :
  w = 8 * Z.of_nat n -> (0 < n)%nat -> (forall z, 0 <= z < 256 ^ Z.of_nat n -> in_width w sg (f z)) ->
  match (v ← orZero (b ← readN n; mret (f (orBytes 0 b))) 0; mret (VInt w sg v)) r with
  | (Val v, _) => exists z, v = VInt w sg z /\ in_width w sg z
  | _ => False
  end.
Proof.
  intros Hw Hn Hf. eapply (map_spec _ _ (fun z => in_width w sg z)); [|by eexists]. apply orZero_spec.
  - by apply readInt_spec.
  - pose proof (Z.pow_pos_nonneg 2 (w - 1) ltac:(lia) ltac:(lia)). pose proof (Z.pow_pos_nonneg 2 w ltac:(lia) ltac:(lia)).
    unfold in_width. destruct sg; lia.
Qed.
Lemma readValue_typed t r : match readValue t r with (Val v, _) => typed t v | _ => False end.
Proof.
  assert (forall n w sg f (Q : propVal -> Prop), w = 8 * Z.of_nat n -> (0 < n)%nat -> (forall z, in_width w sg z -> Q (VInt w sg z)) ->
    (forall z, 0 <= z < 256 ^ Z.of_nat n -> in_width w sg (f z)) ->
    match (v ← orZero (b ← readN n; mret (f (orBytes 0 b))) 0; mret (VInt w sg v)) r with (Val v, _) => Q v | _ => False end) as Hint.
  { intros n w sg f Q Hw Hn HQ Hf. pose proof (int_typed n w sg f r Hw Hn Hf) as H.
    destruct (mbind (M := M reader) _ _ r) as [[v|e|p] r']; try done. destruct H as (z & -> & H). by apply HQ. }
  assert (forall w z, 0 < w -> in_width w true (signed w z)) as Hs by (intros w z Hw; by apply signed_range).
  assert (forall n w (Q : propVal -> Prop), (forall z, 0 <= z < 256 ^ Z.of_nat n -> Q (VFloat w z)) ->
    match (v ← orZero (b ← readN n; mret (le_value b)) 0; mret (VFloat w v)) r with (Val v, _) => Q v | _ => False end) as Hfl.
  { intros n w Q HQ. eapply (map_spec _ _ (fun z => 0 <= z < 256 ^ Z.of_nat n)); [|done]. apply orZero_spec; [apply readFloat_spec|].
    pose proof (Z.pow_pos_nonneg 256 (Z.of_nat n) ltac:(lia) ltac:(lia)). lia. }
  pose proof (ReadBinary_spec r) as Hb.
  assert (forall t, match t with TJson | TBinary => True | _ => False end ->
    match (v ← orZero (b ← ReadBinary; mret (Some b)) None; mret (VBytes v)) r with (Val v, _) => typed t v | _ => False end) as Hbin.
  { intros t' Ht. eapply (map_spec _ _ (fun o => match o with Some b => Z.of_nat (length b) < 2 ^ 32 | None => True end)).
    - apply (orZero_spec _ None); [|done]. unfold mbind, M_bind. by destruct (ReadBinary r) as [[b|e|p] r'].
    - intros o Ho. by destruct t'. }
  assert (forall t, match t with TString | TDateTime => True | _ => False end ->
    match (v ← orZero ReadString []; mret (VString v)) r with (Val v, _) => typed t v | _ => False end) as Hstr.
  { intros t' Ht. eapply (map_spec _ _ (fun b => Z.of_nat (length b) < 2 ^ 32)).
    - apply (orZero_spec _ []); [|done]. unfold ReadString, mbind, M_bind. by destruct (ReadBinary r) as [[b|e|p] r'].
    - intros o Ho. by destruct t'. }
  destruct t; cbn [readValue].
  - apply (Hint 1%nat 8 true (signed 8)); [done|lia|exact (fun z Hz => conj eq_refl (conj eq_refl Hz))|]. intros z _. by apply Hs.
  - apply (Hint 1%nat 8 false id); [done|lia|exact (fun z Hz => conj eq_refl (conj eq_refl Hz))|done].
  - eapply (map_spec _ _ (fun _ => True)); [|done]. apply orZero_spec; [|done]. by apply (readInt_spec 1 (fun z => 0 <? z)).
  - apply (Hint 2%nat 16 true (signed 16)); [done|lia|exact (fun z Hz => conj eq_refl (conj eq_refl Hz))|]. intros z _. by apply Hs.
  - apply (Hint 2%nat 16 false id); [done|lia|exact (fun z Hz => conj eq_refl (conj eq_refl Hz))|done].
  - apply (Hint 4%nat 32 true (signed 32)); [done|lia|exact (fun z Hz => conj eq_refl (conj eq_refl Hz))|]. intros z _. by apply Hs.
  - apply (Hint 4%nat 32 false id); [done|lia|exact (fun z Hz => conj eq_refl (conj eq_refl Hz))|done].
  - apply (Hint 8%nat 64 true (signed 64)); [done|lia|exact (fun z Hz => conj eq_refl (conj eq_refl Hz))|]. intros z _. by apply Hs.
  - apply (Hint 8%nat 64 false id); [done|lia|exact (fun z Hz => conj eq_refl (conj eq_refl Hz))|done].
  - apply (Hfl 4%nat 32). intros z Hz. exact (conj eq_refl Hz).
  - apply (Hfl 8%nat 64). intros z Hz. exact (conj eq_refl Hz).
  - exact (Hstr TString I).
  - exact (Hbin TJson I).
  - exact (Hstr TDateTime I).
  - exact (Hbin TBinary I).
Qed.

(** A schema all of whose columns can be read. *)
Definition known (schema : Schema) (n : Z) : Prop :=
  ColumnsLength schema = Some n /\ 0 <= n /\ forall j, 0 <= j < n -> exists t, Columns schema j = Some (Some (Column t)).

Definition prop_ok (schema : Schema) (n : Z) (p : PropValue) : Prop :=
  0 <= ColIndex p < n /\ Columns schema (ColIndex p) = Some (Some (Column (Type_ p))) /\ typed (Type_ p) (Value p).

Lemma ReadUShort_range r : match ReadUShort r with (Val j, _) => 0 <= j < 2 ^ 16 | (Raise _, _) => True | (Panicked _, _) => False end.
Proof. exact (readInt_spec 2 id (fun j => 0 <= j < 2 ^ 16) r (fun z Hz => Hz)). Qed.

Lemma schemaLoop_typed schema n count i vals r :
  (forall j, 0 <= j < n -> exists t, Columns schema j = Some (Some (Column t))) -> Forall (prop_ok schema n) vals ->
  match schemaLoop schema n count i vals r with
  | (Val vals', _) => Forall (prop_ok schema n) vals' /\ length vals' = (length vals + count)%nat
  | (Raise _, _) => True
  | (Panicked _, _) => False
  end.
Proof.
  intros Hc. revert i vals r. induction count as [|count IH]; intros i vals r Hv; [cbn; split; [done|lia]|].
  cbn [schemaLoop]. unfold mbind at 1, M_bind at 1, attempt. pose proof (ReadUShort_range r) as Hj.
  destruct (ReadUShort r) as [[j|e|p] r']; try done. destruct (Z.leb_spec n j); [done|]. destruct (Hc j ltac:(lia)) as [t Ht].
  rewrite Ht. cbn [fmap option_fmap option_map safeFlatBuffersInteraction]. unfold mbind, M_bind. pose proof (readValue_typed t r') as Hty.
  destruct (readValue t r') as [[v|e|p] r'']; try done. specialize (IH (i + 1) (vals ++ [mkPropValue v j t]) r'').
  rewrite length_app in IH. cbn [length] in IH. replace (length vals + S count)%nat with (length vals + 1 + count)%nat by lia.
  apply IH. apply Forall_app. split; [done|]. apply Forall_singleton. split; [cbn; lia|]. split; [exact Ht|exact Hty].
Qed.

(** C29. Whatever the bytes, [ReadSchema] of a schema all of whose columns can be read and
    have a known type does not panic. What it returns, if it returns no error, has as many
    values as the schema has columns, and each value names a column of the schema and has
    the Go type, and the range, of this column's type. The columns are those the bytes
    name: they need not be different. *)
Theorem ReadSchema_typed schema n r :
  known schema n ->
  match ReadSchema schema r with
  | (Val vals, _) => Forall (prop_ok schema n) vals /\ Z.of_nat (length vals) = n
  | (Raise _, _) => True
  | (Panicked _, _) => False
  end.
Proof.
  intros (Hn & Hn0 & Hc). unfold ReadSchema. rewrite Hn. cbn [fmap option_fmap option_map safeFlatBuffersInteraction].
  rewrite (proj2 (Z.ltb_ge n 0)) by done. pose proof (schemaLoop_typed schema n (Z.to_nat n) 0 [] r Hc (Forall_nil_2 _)) as H.
  destruct (schemaLoop _ _ _ _ _ r) as [[vals|e|p] r']; try done. destruct H as [H1 H2]. split; [done|]. cbn in H2. lia.
Qed.

(** ** Round trip *)

(** The bytes of a value, as the [Write] method of its type puts them. *)
Definition writeValue (w : sink) (t : ColumnType) (v : propVal) : (Z * option fgError) * sink :=
  match t, v with
  | TByte, VInt _ _ z => WriteByte w z
  | TUByte, VInt _ _ z => WriteUByte w z
  | TBool, VBool b => WriteBool w b
  | TShort, VInt _ _ z => WriteShort w z
  | TUShort, VInt _ _ z => WriteUShort w z
  | TInt, VInt _ _ z => WriteInt w z
  | TUInt, VInt _ _ z => WriteUInt w z
  | TLong, VInt _ _ z => WriteLong w z
  | TULong, VInt _ _ z => WriteULong w z
  | TFloat, VFloat _ z => WriteFloat w z
  | TDouble, VFloat _ z => WriteDouble w z
  | (TString | TDateTime), VString s => WriteString w s
  | (TJson | TBinary), VBytes (Some b) => WriteBinary w b
  | _, _ => ((0, None), w)
  end.
Fixpoint writeProps (w : sink) (ps : list PropValue) : option fgError * sink :=
  match ps with
  | [] => (None, w)
  | p :: ps =>
    let '((_, e), w) := WriteUShort w (ColIndex p) in
    match e with
    | Some e => (Some e, w)
    | None =>
      let '((_, e), w) := writeValue w (Type_ p) (Value p) in
      match e with Some e => (Some e, w) | None => writeProps w ps end
    end
  end.

Definition valueBytes (t : ColumnType) (v : propVal) : list ascii :=
  match v with
  | VInt w _ z => le_bytes (Z.to_nat (w / 8)) z
  | VBool b => [chr (if b then 1 else 0)]
  | VFloat w z => le_bytes (Z.to_nat (w / 8)) z
  | VString s => le_bytes 4 (Z.of_nat (length s)) ++ s
  | VBytes (Some b) => le_bytes 4 (Z.of_nat (length b)) ++ b
  | VBytes None => []
  end.
Definition propsBytes (ps : list PropValue) : list ascii :=
  ps ≫= (fun p => le_bytes 2 (ColIndex p) ++ valueBytes (Type_ p) (Value p)).

(** A value that was not left out. *)
Definition present (v : propVal) : Prop := v <> VBytes None.

Lemma Write_sink out p : Write (mkSink out None) p = ((Z.of_nat (length p), None), mkSink (out ++ p) None).
Proof. done. Qed.
Lemma writeBinary_bytes out b :
  Z.of_nat (length b) < 2 ^ 32 ->
  WriteBinary (mkSink out None) b = ((4 + Z.of_nat (length b), None), mkSink (out ++ le_bytes 4 (Z.of_nat (length b)) ++ b) None).
Proof.
  intros Hb. unfold WriteBinary, WriteUInt. rewrite (proj2 (Z.ltb_ge _ _)) by lia. rewrite !Write_sink.
  change [byteAt _ 0; _; _; _] with (bytesUp 4 0 (Z.of_nat (length b))). rewrite bytesUp_0, length_le_bytes. cbn [written room].
  by rewrite <- app_assoc.
Qed.

Lemma writeValue_bytes out t v :
  typed t v -> present v -> exists n, writeValue (mkSink out None) t v = ((n, None), mkSink (out ++ valueBytes t v) None).
Proof.
  intros Ht Hp. pose proof (bytesUp_0 1) as B1. pose proof (bytesUp_0 2) as B2. pose proof (bytesUp_0 4) as B4. pose proof (bytesUp_0 8) as B8.
  destruct t, v; try done; cbn [typed] in Ht;
    try (destruct Ht as (-> & Ht); cbn [width is_signed] in * );
    try (eexists; cbn [writeValue valueBytes]; unfold WriteByte, WriteUByte, WriteShort, WriteUShort, WriteInt, WriteUInt, WriteLong, WriteULong, WriteFloat, WriteDouble;
      rewrite Write_sink; do 3 f_equal; first [exact (B1 _)|exact (B2 _)|exact (B4 _)|exact (B8 _)|done]).
  - by eexists.
  - eexists. by apply writeBinary_bytes.
  - destruct b as [b|]; [|done]. eexists. by apply writeBinary_bytes.
  - eexists. by apply writeBinary_bytes.
  - destruct b as [b|]; [|done]. eexists. by apply writeBinary_bytes.
Qed.
Lemma writeProps_bytes ps out :
  Forall (fun p => typed (Type_ p) (Value p) /\ present (Value p)) ps ->
  writeProps (mkSink out None) ps = (None, mkSink (out ++ propsBytes ps) None).
Proof.
  intros Hps. revert out. induction Hps as [|p ps [Ht Hp] _ IH]; intros out; [cbn; by rewrite app_nil_r|].
  cbn [writeProps]. unfold WriteUShort. rewrite Write_sink. cbv beta iota.
  change [byteAt (ColIndex p) 0; byteAt (ColIndex p) 1] with (bytesUp 2 0 (ColIndex p)). rewrite bytesUp_0.
  destruct (writeValue_bytes (out ++ le_bytes 2 (ColIndex p)) _ _ Ht Hp) as [n ->]. rewrite IH. by rewrite <- !app_assoc.
Qed.

Section reading.
Context (file : list ascii).

Lemma read_N p b n : at_pos file p b -> length b = n -> readN n (mkReader file p) = (Val b, mkReader file (p + Z.of_nat n)).
Proof. intros Hat Hl. unfold readN. by rewrite (at_pos_ReadFull _ _ b). Qed.
Lemma read_int {A} (f : Z -> A) p n z :
  at_pos file p (le_bytes n z) ->
  (b ← readN n; mret (f (orBytes 0 b))) (mkReader file p) = (Val (f (z mod 256 ^ Z.of_nat n)), mkReader file (p + Z.of_nat n)).
Proof. intros Hat. eapply run_bind; [apply read_N; [done|apply length_le_bytes]|]. by rewrite orBytes_le, le_value_mod. Qed.
Lemma read_orZero {A} (m : M reader A) z r a r' : m r = (Val a, r') -> orZero m z r = (Val a, r').
Proof. intros Hm. eapply run_bind; [by apply run_attempt|done]. Qed.
Lemma read_binary p b :
  Z.of_nat (length b) < 2 ^ 32 -> at_pos file p (le_bytes 4 (Z.of_nat (length b)) ++ b) ->
  ReadBinary (mkReader file p) = (Val b, mkReader file (p + Z.of_nat (length (le_bytes 4 (Z.of_nat (length b)) ++ b)))).
Proof.
  intros Hb Hat. apply at_pos_app in Hat as [H1 H2]. rewrite length_le_bytes in H2.
  eapply run_bind; [apply (read_int (fun z => z)); exact H1|]. cbv beta. rewrite Z.mod_small by (change (256 ^ Z.of_nat 4) with (2 ^ 32); lia).
  rewrite (proj2 (Z.ltb_ge _ _)) by (unfold MaxInt; lia). rewrite Nat2Z.id.
  erewrite read_N by done. by rewrite length_app, length_le_bytes, Nat2Z.inj_add, Z.add_assoc.
Qed.

Lemma read_map {A B} (m : M reader A) z (f : A -> B) r a r' :
  m r = (Val a, r') -> (v ← orZero m z; mret (f v)) r = (Val (f a), r').
Proof. intros Hm. eapply run_bind; [by apply read_orZero|done]. Qed.
(** An integer of [n] bytes comes back when [g] undoes the reduction to its width. *)
Lemma read_width {A} (g : Z -> Z) (k : Z -> A) p n z :
  at_pos file p (le_bytes n z) -> g (z mod 256 ^ Z.of_nat n) = z ->
  (v ← orZero (b ← readN n; mret (g (orBytes 0 b))) 0; mret (k v)) (mkReader file p) =
  (Val (k z), mkReader file (p + Z.of_nat (length (le_bytes n z)))).
Proof. intros Hat Hg. rewrite length_le_bytes. apply read_map. rewrite (read_int g p n z Hat). by rewrite Hg. Qed.
Lemma read_float {A} (k : Z -> A) p n z :
  at_pos file p (le_bytes n z) -> 0 <= z < 256 ^ Z.of_nat n ->
  (v ← orZero (b ← readN n; mret (le_value b)) 0; mret (k v)) (mkReader file p) =
  (Val (k z), mkReader file (p + Z.of_nat (length (le_bytes n z)))).
Proof.
  intros Hat Hz. rewrite length_le_bytes. apply read_map. eapply run_bind; [apply read_N; [exact Hat|apply length_le_bytes]|].
  by rewrite le_value_mod, Z.mod_small.
Qed.

Lemma read_value p t v :
  typed t v -> present v -> at_pos file p (valueBytes t v) ->
  readValue t (mkReader file p) = (Val v, mkReader file (p + Z.of_nat (length (valueBytes t v)))).
Proof.
  intros Ht Hp. destruct t, v as [w s z|b|w z|s|[b|]]; try done; cbn [typed] in Ht;
    try (destruct Ht as (-> & -> & Hz); cbn [width is_signed in_width] in *; intros Hat);
    try (destruct Ht as (-> & Hz); cbn [width] in *; intros Hat).
  - apply (read_width (signed 8) (VInt 8 true) p 1 z Hat). by apply (signed_id 8).
  - apply (read_width (fun z => z) (VInt 8 false) p 1 z Hat). by apply Z.mod_small.
  - intros Hat. apply (read_map ReadBool). destruct b; apply (read_int (fun z => 0 <? z) p 1 _ Hat).
  - apply (read_width (signed 16) (VInt 16 true) p 2 z Hat). by apply (signed_id 16).
  - apply (read_width (fun z => z) (VInt 16 false) p 2 z Hat). by apply Z.mod_small.
  - apply (read_width (signed 32) (VInt 32 true) p 4 z Hat). by apply (signed_id 32).
  - apply (read_width (fun z => z) (VInt 32 false) p 4 z Hat). by apply Z.mod_small.
  - apply (read_width (signed 64) (VInt 64 true) p 8 z Hat). by apply (signed_id 64).
  - apply (read_width (fun z => z) (VInt 64 false) p 8 z Hat). by apply Z.mod_small.
  - by apply (read_float (VFloat 32) p 4 z Hat).
  - by apply (read_float (VFloat 64) p 8 z Hat).
  - intros Hat. apply (read_map ReadString). eapply run_bind; [by apply read_binary|done].
  - intros Hat. apply (read_map (b ← ReadBinary; mret (Some b))). eapply run_bind; [by apply read_binary|done].
  - intros Hat. apply (read_map ReadString). eapply run_bind; [by apply read_binary|done].
  - intros Hat. apply (read_map (b ← ReadBinary; mret (Some b))). eapply run_bind; [by apply read_binary|done].
Qed.

Lemma read_schemaLoop schema n ps i vals p :
  n <= 2 ^ 16 -> Forall (prop_ok schema n) ps -> Forall (fun p => present (Value p)) ps -> at_pos file p (propsBytes ps) ->
  schemaLoop schema n (length ps) i vals (mkReader file p) =
  (Val (vals ++ ps), mkReader file (p + Z.of_nat (length (propsBytes ps)))).
Proof.
  intros Hn Hps. revert i vals p. induction Hps as [|q ps (Hj & Hc & Ht) _ IH]; intros i vals p Hp Hat.
  { cbn. by rewrite app_nil_r, Z.add_0_r. }
  apply Forall_cons_1 in Hp as [Hq Hp]. change (propsBytes (q :: ps)) with ((le_bytes 2 (ColIndex q) ++ valueBytes (Type_ q) (Value q)) ++ propsBytes ps) in *.
  apply at_pos_app in Hat as [Hat H3]. apply at_pos_app in Hat as [H1 H2]. rewrite length_le_bytes in H2.
  cbn [length schemaLoop]. eapply run_bind.
  { apply run_attempt. unfold ReadUShort. apply (read_int (fun z => z)). exact H1. }
  cbv beta iota. rewrite Z.mod_small by (change (256 ^ Z.of_nat 2) with (2 ^ 16); lia).
  rewrite (proj2 (Z.leb_gt _ _)) by lia. rewrite Hc. cbn [fmap option_fmap option_map safeFlatBuffersInteraction].
  eapply run_bind; [by apply read_value|]. rewrite length_app, length_le_bytes in H3.
  rewrite !length_app, length_le_bytes, !Nat2Z.inj_add in *. rewrite !Z.add_assoc in *. rewrite IH by done.
  rewrite <- app_assoc. by destruct q.
Qed.
End reading.

(** C30. Properties come back, when there are as many of them as columns: writing that many
    values of columns of a schema, its column index first, each with the [Write] method of
    its type, and reading with [ReadSchema] returns the values, with their columns and
    types, in the order they were written, and leaves the reader behind them; whatever was
    in the stream before, and whatever follows. A feature that leaves out the columns it
    has no value for is not read back ([absent_column_fails]). *)
Theorem prop_roundtrip schema n ps before after :
  known schema n -> n <= 2 ^ 16 -> Z.of_nat (length ps) = n ->
  Forall (prop_ok schema n) ps -> Forall (fun p => present (Value p)) ps ->
  exists out, writeProps (mkSink before None) ps = (None, mkSink (before ++ out) None) /\
    ReadSchema schema (mkReader (before ++ out ++ after) (Z.of_nat (length before))) =
    (Val ps, mkReader (before ++ out ++ after) (Z.of_nat (length (before ++ out)))).
Proof.
  intros (Hn & Hn0 & _) H16 Hl Hps Hp. exists (propsBytes ps). split.
  { apply writeProps_bytes. rewrite Forall_forall in *. intros q Hq. split; [apply Hps, Hq|by apply Hp]. }
  unfold ReadSchema. rewrite Hn. cbn [fmap option_fmap option_map safeFlatBuffersInteraction].
  rewrite (proj2 (Z.ltb_ge n 0)) by done. rewrite <- Hl, Nat2Z.id, Hl.
  rewrite (read_schemaLoop _ schema n ps 0 []); [by rewrite length_app, Nat2Z.inj_add|done..|].
  by exists before, after.
Qed.

(** ** Examples *)

Module PropExample.

(** A population, an altitude below the sea, a name and an attachment. *)
Definition types : list ColumnType := [TUInt; TShort; TString; TBinary].
Definition schema : Schema :=
  mkSchema (Some 4) (fun j => if j <? 0 then Some None else Some (Column <$> types !! Z.to_nat j)).
Definition props : list PropValue :=
  [mkPropValue (VString (list_ascii_of_string "Ur")) 2 TString; mkPropValue (VInt 16 true (-7)) 1 TShort;
   mkPropValue (VInt 32 false 4000000000) 0 TUInt; mkPropValue (VBytes (Some [chr 255])) 3 TBinary].

Lemma schema_known : known schema 4.
Proof.
  split; [done|]. split; [lia|]. intros j Hj.
  assert (j = 0 \/ j = 1 \/ j = 2 \/ j = 3) as [->|[->|[->| ->]]] by lia; by eexists.
Defined.
Lemma props_ok : Forall (prop_ok schema 4) props.
Proof.
  unfold props. repeat constructor; cbn; try lia; done.
Defined.
Lemma props_present : Forall (fun p => present (Value p)) props.
Proof. repeat constructor; done. Defined.

Lemma ReadSchema_typed_witness :
  exists vals r, ReadSchema schema (mkReader (propsBytes props) 0) = (Val vals, r) /\
    Forall (prop_ok schema 4) vals /\ Z.of_nat (length vals) = 4.
Proof.
  pose proof (ReadSchema_typed schema 4 (mkReader (propsBytes props) 0) schema_known) as Ht.
  assert (match ReadSchema schema (mkReader (propsBytes props) 0) with (Val _, _) => true | _ => false end = true)
    as E by (vm_compute; reflexivity).
  destruct (ReadSchema schema (mkReader (propsBytes props) 0)) as [[vals|e|q] r]; [|discriminate E..].
  exists vals, r. split; [reflexivity|exact Ht].
Defined.

Lemma prop_roundtrip_witness :
  exists out, writeProps (mkSink [] None) props = (None, mkSink ([] ++ out) None) /\
    ReadSchema schema (mkReader ([] ++ out ++ [chr 9]) 0) = (Val props, mkReader ([] ++ out ++ [chr 9]) (Z.of_nat (length ([] ++ out)))).
Proof. exact (prop_roundtrip schema 4 props [] [chr 9] schema_known ltac:(lia) eq_refl props_ok props_present). Defined.

(** The error of the value itself is dropped: a stream that ends inside the last value gives a
    zero, and no error. *)
Definition one : Schema := mkSchema (Some 1) (fun _ => Some (Some (Column TUInt))).
Lemma truncated_value_is_zero :
  fst (writeProps (mkSink [] None) [mkPropValue (VInt 32 false 77) 0 TUInt]) = None /\
  ReadSchema one (mkReader (take 5 (propsBytes [mkPropValue (VInt 32 false 77) 0 TUInt])) 0) =
  (Val [mkPropValue (VInt 32 false 0) 0 TUInt], mkReader (take 5 (propsBytes [mkPropValue (VInt 32 false 77) 0 TUInt])) 5).
Proof. split; vm_compute; reflexivity. Qed.

(** A feature may leave out the columns it has no value for; [ReadSchema] asks for as many
    values as there are columns, and fails on it. *)
Lemma absent_column_fails :
  exists e, fst (ReadSchema schema (mkReader (propsBytes (take 3 props)) 0)) = Raise (Wrap "failed to read column index (for property %d of %d)" [3; 4] e).
Proof. eexists. vm_compute. reflexivity. Qed.

End PropExample.
