(* ===== verification/Effects.v ===== *)
(** * Computations with a state, errors and panics

    A Go function that changes what its pointers refer to and returns an error is a
    computation here: it takes a state and returns a value, an error or a panic, and the
    state as it is then. An error does not undo the changes. Triples say what a computation
    guarantees in each of the three cases. *)

From Stdlib Require Import Lia.
From stdpp Require Import base list option.
From S2P Require Import Prelude.

Inductive outcome (E P A : Type) : Type :=
| Ret (a : A)
| Throw (e : E)
| Crash (p : P).
Arguments Ret {E P A} a.
Arguments Throw {E P A} e.
Arguments Crash {E P A} p.

Definition eff (E P S A : Type) : Type := S -> outcome E P A * S.

#[global] Instance eff_ret {E P S} : MRet (eff E P S) := fun A a s => (Ret a, s).
#[global] Instance eff_bind {E P S} : MBind (eff E P S) := fun A B k m s =>
  match m s with
  | (Ret a, s) => k a s
  | (Throw e, s) => (Throw e, s)
  | (Crash p, s) => (Crash p, s)
  end.

Section operations.
Context {E P S : Type}.

Definition gets {A} (f : S -> A) : eff E P S A := fun s => (Ret (f s), s).
Definition put (f : S -> S) : eff E P S unit := fun s => (Ret tt, f s).
Definition throw {A} (e : E) : eff E P S A := fun s => (Throw e, s).
Definition crash {A} (p : P) : eff E P S A := fun s => (Crash p, s).
(** [x, err := m]: the error as a value. *)
Definition try {A} (m : eff E P S A) : eff E P S (result E A) := fun s =>
  match m s with
  | (Ret a, s) => (Ret (Ok a), s)
  | (Throw e, s) => (Ret (Err e), s)
  | (Crash p, s) => (Crash p, s)
  end.
(** [if err := m; err != nil { return f(err) }] *)
Definition wrap {A} (f : E -> E) (m : eff E P S A) : eff E P S A := fun s =>
  match m s with
  | (Throw e, s) => (Throw (f e), s)
  | r => r
  end.
(** A function that can only panic. *)
Definition orCrash {A} (r : result P A) : eff E P S A :=
  match r with Ok a => mret a | Err p => crash p end.
Fixpoint each {A} (f : A -> eff E P S unit) (l : list A) : eff E P S unit :=
  match l with [] => mret tt | x :: l => f x;; each f l end.

(** ** Triples *)

Definition triple {A} (Pre : S -> Prop) (m : eff E P S A) (Q : A -> S -> Prop) (EQ : E -> S -> Prop) (C : P -> Prop) : Prop :=
  forall s, Pre s ->
    match m s with
    | (Ret a, s') => Q a s'
    | (Throw e, s') => EQ e s'
    | (Crash p, _) => C p
    end.

Context (EQ : E -> S -> Prop) (C : P -> Prop).

Lemma t_ret {A} (a : A) Pre Q : (forall s, Pre s -> Q a s) -> triple Pre (mret a) Q EQ C.
Proof. intros H s Hs. by apply H. Qed.
Lemma t_bind {A B} (m : eff E P S A) (k : A -> eff E P S B) Pre R Q :
  triple Pre m R EQ C -> (forall a, triple (R a) (k a) Q EQ C) -> triple Pre (m ≫= k) Q EQ C.
Proof.
  intros Hm Hk s Hs. specialize (Hm s Hs). unfold mbind, eff_bind. destruct (m s) as [[a|e|p] s']; [|done..].
  by apply Hk.
Qed.
Lemma t_gets {A} (f : S -> A) Pre Q : (forall s, Pre s -> Q (f s) s) -> triple Pre (gets f) Q EQ C.
Proof. intros H s Hs. by apply H. Qed.
Lemma t_put (f : S -> S) Pre Q : (forall s, Pre s -> Q tt (f s)) -> triple Pre (put f) Q EQ C.
Proof. intros H s Hs. by apply H. Qed.
Lemma t_throw {A} (e : E) Pre (Q : A -> S -> Prop) : (forall s, Pre s -> EQ e s) -> triple Pre (throw e) Q EQ C.
Proof. intros H s Hs. by apply H. Qed.
Lemma t_crash {A} (p : P) Pre (Q : A -> S -> Prop) : (forall s, Pre s -> C p) -> triple Pre (crash p) Q EQ C.
Proof. intros H s Hs. by eapply H. Qed.
Lemma t_orCrash {A} (r : result P A) Pre Q :
  (forall s a, Pre s -> r = Ok a -> Q a s) -> (forall s p, Pre s -> r = Err p -> C p) -> triple Pre (orCrash r) Q EQ C.
Proof. intros H1 H2 s Hs. destruct r as [a|p]; [by apply H1|by eapply H2]. Qed.
Lemma t_try {A} (m : eff E P S A) Pre R EQ' Q :
  triple Pre m R EQ' C -> (forall a s, R a s -> Q (Ok a) s) -> (forall e s, EQ' e s -> Q (Err e) s) ->
  triple Pre (try m) Q EQ C.
Proof.
  intros Hm HR HE s Hs. specialize (Hm s Hs). unfold try. destruct (m s) as [[a|e|p] s']; [by apply HR|by apply HE|done].
Qed.
Lemma t_wrap {A} (f : E -> E) (m : eff E P S A) Pre Q EQ' :
  triple Pre m Q EQ' C -> (forall e s, EQ' e s -> EQ (f e) s) -> triple Pre (wrap f m) Q EQ C.
Proof. intros Hm HE s Hs. specialize (Hm s Hs). unfold wrap. destruct (m s) as [[a|e|p] s']; [done|by apply HE|done]. Qed.
Lemma t_each {A} (f : A -> eff E P S unit) l I :
  (forall x, x ∈ l -> triple I (f x) (fun _ => I) EQ C) -> triple I (each f l) (fun _ => I) EQ C.
Proof.
  induction l as [|x l IH]; intros Hf; cbn [each]; [by apply t_ret|].
  eapply t_bind; [apply Hf; by left|]. intros []. apply IH. intros y Hy. apply Hf. by right.
Qed.
Lemma t_pre {A} (m : eff E P S A) Pre Pre' Q : (forall s, Pre s -> Pre' s) -> triple Pre' m Q EQ C -> triple Pre m Q EQ C.
Proof. intros H Hm s Hs. apply Hm. by apply H. Qed.
Lemma t_pure {A} (m : eff E P S A) (X : Prop) Pre Q : (X -> triple Pre m Q EQ C) -> triple (fun s => X /\ Pre s) m Q EQ C.
Proof. intros H s [HX Hs]. by apply H. Qed.
Lemma t_exists {A B} (m : eff E P S A) (Pre : B -> S -> Prop) Q :
  (forall b, triple (Pre b) m Q EQ C) -> triple (fun s => exists b, Pre b s) m Q EQ C.
Proof. intros H s [b Hs]. by apply (H b). Qed.
End operations.

Lemma t_mono {E P S A} (m : eff E P S A) Pre (Q Q' : A -> S -> Prop) (EQ EQ' : E -> S -> Prop) (C C' : P -> Prop) :
  triple Pre m Q EQ C -> (forall a s, Q a s -> Q' a s) -> (forall e s, EQ e s -> EQ' e s) -> (forall p, C p -> C' p) ->
  triple Pre m Q' EQ' C'.
Proof. intros Hm HQ HE HC s Hs. specialize (Hm s Hs). destruct (m s) as [[a|e|p] s']; auto. Qed.
Lemma t_and {E P S A} (m : eff E P S A) Pre Pre' (Q Q' : A -> S -> Prop) (EQ EQ' : E -> S -> Prop) (C C' : P -> Prop) :
  triple Pre m Q EQ C -> triple Pre' m Q' EQ' C' ->
  triple (fun s => Pre s /\ Pre' s) m (fun a s => Q a s /\ Q' a s) (fun e s => EQ e s /\ EQ' e s) (fun p => C p /\ C' p).
Proof. intros H H' s [Hs Hs']. specialize (H s Hs). specialize (H' s Hs'). by destruct (m s) as [[a|e|p] s']. Qed.
