(* ===== verification/Enumer.v ===== *)
(** * Enumerations ([raster/geocube/*_enumer.go], [raster/utils/bitmap/dtype_enumer.go])

    The generated methods that print the values of an enumeration, parse them, and carry them
    to a database and back. The files are one template with the tables of each enumeration:
    the names in one string, cut by an index, and a map from names in capital and small
    letters to values. The functions take the tables as an argument. *)

From Stdlib Require Import Ascii String ZArith Lia Bool.
From stdpp Require Import base list strings option.
From S2P Require Import Prelude GoStd Strconv.

Local Open Scope Z_scope.

(** The type, its least value, [_Name], [_LowerName], [_Index], [_Values], the slices of
    [_NameToValueMap] (of the lower-case name if [true]), and those of [_Names]. *)
Record enumer := mkEnumer {
  typeName : string; base : Z; name : string; lowerName : string; index : list nat;
  values : list Z; cuts : list (bool * nat * nat * Z); nameCuts : list (nat * nat) }.

Definition slice (s : string) (a b : nat) : string := substring a (b - a) s.

Definition String_ (e : enumer) (i : Z) : string :=
  let i := i - base e in
  if (i <? 0) || (Z.of_nat (length (index e)) - 1 <=? i)
  then typeName e +:+ "(" +:+ FormatInt (i + base e) +:+ ")"
  else slice (name e) (nth (Z.to_nat i) (index e) 0%nat) (nth (Z.to_nat (i + 1)) (index e) 0%nat).

Definition nameToValueMap (e : enumer) : list (string * Z) :=
  (fun c : bool * nat * nat * Z => let '(low, a, b, v) := c in (slice (if low then lowerName e else name e) a b, v)) <$> cuts e.
Definition lookupName (e : enumer) (s : string) : option Z :=
  snd <$> head (filter (fun kv : string * Z => fst kv = s) (nameToValueMap e)).

(** [JobStateString] and its like. *)
Definition ofString (e : enumer) (s : string) : result string Z :=
  match lookupName e s with
  | Some v => Ok v
  | None =>
    match ToLower s ≫= lookupName e with
    | Some v => Ok v
    | None => Err (s +:+ " does not belong to " +:+ typeName e +:+ " values")
    end
  end.

Definition Strings (e : enumer) : list string := (fun c : nat * nat => let '(a, b) := c in slice (name e) a b) <$> nameCuts e.
Definition IsA (e : enumer) (i : Z) : bool := existsb (Z.eqb i) (values e).

(** What a driver can hand to [Scan]. *)
Inductive sqlValue := SqlNil | SqlBytes (s : string) | SqlString (s : string) | SqlStringer (s : string) | SqlOther.
Definition Value_ (e : enumer) (i : Z) : sqlValue := SqlString (String_ e i).
Definition Scan (e : enumer) (value : sqlValue) (i : Z) : result string Z :=
  match value with
  | SqlNil => Ok i
  | SqlBytes s | SqlString s | SqlStringer s => ofString e s
  | SqlOther => Err ("invalid value of " +:+ typeName e)
  end.

(** ** The tables *)

Definition JobState : enumer := mkEnumer "JobState" 0
  "NEWCREATEDCONSOLIDATIONINPROGRESSCONSOLIDATIONDONECONSOLIDATIONINDEXEDCONSOLIDATIONEFFECTIVECONSOLIDATIONFAILEDCONSOLIDATIONRETRYINGCONSOLIDATIONFORCERETRYINGCONSOLIDATIONCANCELLINGDELETIONINPROGRESSDELETIONEFFECTIVEDELETIONFAILEDDONEFAILEDINITIALISATIONFAILEDCANCELLATIONFAILEDABORTEDROLLBACKFAILEDDONEBUTUNTIDY"
  "newcreatedconsolidationinprogressconsolidationdoneconsolidationindexedconsolidationeffectiveconsolidationfailedconsolidationretryingconsolidationforceretryingconsolidationcancellingdeletioninprogressdeletioneffectivedeletionfaileddonefailedinitialisationfailedcancellationfailedabortedrollbackfaileddonebutuntidy"
  [0; 3; 10; 33; 50; 70; 92; 111; 132; 158; 181; 199; 216; 230; 234; 240; 260; 278; 285; 299; 312]%nat
  [0; 1; 2; 3; 4; 5; 6; 7; 8; 9; 10; 11; 12; 13; 14; 15; 16; 17; 18; 19]
  [(false, 0%nat, 3%nat, 0); (true, 0%nat, 3%nat, 0); (false, 3%nat, 10%nat, 1); (true, 3%nat, 10%nat, 1); (false, 10%nat, 33%nat, 2); (true, 10%nat, 33%nat, 2); (false, 33%nat, 50%nat, 3); (true, 33%nat, 50%nat, 3); (false, 50%nat, 70%nat, 4); (true, 50%nat, 70%nat, 4); (false, 70%nat, 92%nat, 5); (true, 70%nat, 92%nat, 5); (false, 92%nat, 111%nat, 6); (true, 92%nat, 111%nat, 6); (false, 111%nat, 132%nat, 7); (true, 111%nat, 132%nat, 7); (false, 132%nat, 158%nat, 8); (true, 132%nat, 158%nat, 8); (false, 158%nat, 181%nat, 9); (true, 158%nat, 181%nat, 9); (false, 181%nat, 199%nat, 10); (true, 181%nat, 199%nat, 10); (false, 199%nat, 216%nat, 11); (true, 199%nat, 216%nat, 11); (false, 216%nat, 230%nat, 12); (true, 216%nat, 230%nat, 12); (false, 230%nat, 234%nat, 13); (true, 230%nat, 234%nat, 13); (false, 234%nat, 240%nat, 14); (true, 234%nat, 240%nat, 14); (false, 240%nat, 260%nat, 15); (true, 240%nat, 260%nat, 15); (false, 260%nat, 278%nat, 16); (true, 260%nat, 278%nat, 16); (false, 278%nat, 285%nat, 17); (true, 278%nat, 285%nat, 17); (false, 285%nat, 299%nat, 18); (true, 285%nat, 299%nat, 18); (false, 299%nat, 312%nat, 19); (true, 299%nat, 312%nat, 19)]
  [(0, 3); (3, 10); (10, 33); (33, 50); (50, 70); (70, 92); (92, 111); (111, 132); (132, 158); (158, 181); (181, 199); (199, 216); (216, 230); (230, 234); (234, 240); (240, 260); (260, 278); (278, 285); (285, 299); (299, 312)]%nat.

Definition JobStatus : enumer := mkEnumer "JobStatus" 0
  "JobCreatedOrdersPreparedPrepareOrdersFailedSendOrdersFailedConsolidationDoneConsolidationFailedConsolidationRetryFailedConsolidationIndexedConsolidationIndexingFailedDatasetsSwappedSwapDatasetsFailedDeletionStartedStartDeletionFailedDeletionReadyDeletionNotReadyRemovalDoneDeletionDoneRemovalFailedDeletionFailedCancelledByUserCancelledByUserForcedCancellationFailedCancellationDoneRollbackFailedRollbackDoneRetriedRetryForcedContinue"
  "jobcreatedorderspreparedprepareordersfailedsendordersfailedconsolidationdoneconsolidationfailedconsolidationretryfailedconsolidationindexedconsolidationindexingfaileddatasetsswappedswapdatasetsfaileddeletionstartedstartdeletionfaileddeletionreadydeletionnotreadyremovaldonedeletiondoneremovalfaileddeletionfailedcancelledbyusercancelledbyuserforcedcancellationfailedcancellationdonerollbackfailedrollbackdoneretriedretryforcedcontinue"
  [0; 10; 24; 43; 59; 76; 95; 119; 139; 166; 181; 199; 214; 233; 246; 262; 273; 285; 298; 312; 327; 348; 366; 382; 396; 408; 415; 426; 434]%nat
  [0; 1; 2; 3; 4; 5; 6; 7; 8; 9; 10; 11; 12; 13; 14; 15; 16; 17; 18; 19; 20; 21; 22; 23; 24; 25; 26; 27]
  [(false, 0%nat, 10%nat, 0); (true, 0%nat, 10%nat, 0); (false, 10%nat, 24%nat, 1); (true, 10%nat, 24%nat, 1); (false, 24%nat, 43%nat, 2); (true, 24%nat, 43%nat, 2); (false, 43%nat, 59%nat, 3); (true, 43%nat, 59%nat, 3); (false, 59%nat, 76%nat, 4); (true, 59%nat, 76%nat, 4); (false, 76%nat, 95%nat, 5); (true, 76%nat, 95%nat, 5); (false, 95%nat, 119%nat, 6); (true, 95%nat, 119%nat, 6); (false, 119%nat, 139%nat, 7); (true, 119%nat, 139%nat, 7); (false, 139%nat, 166%nat, 8); (true, 139%nat, 166%nat, 8); (false, 166%nat, 181%nat, 9); (true, 166%nat, 181%nat, 9); (false, 181%nat, 199%nat, 10); (true, 181%nat, 199%nat, 10); (false, 199%nat, 214%nat, 11); (true, 199%nat, 214%nat, 11); (false, 214%nat, 233%nat, 12); (true, 214%nat, 233%nat, 12); (false, 233%nat, 246%nat, 13); (true, 233%nat, 246%nat, 13); (false, 246%nat, 262%nat, 14); (true, 246%nat, 262%nat, 14); (false, 262%nat, 273%nat, 15); (true, 262%nat, 273%nat, 15); (false, 273%nat, 285%nat, 16); (true, 273%nat, 285%nat, 16); (false, 285%nat, 298%nat, 17); (true, 285%nat, 298%nat, 17); (false, 298%nat, 312%nat, 18); (true, 298%nat, 312%nat, 18); (false, 312%nat, 327%nat, 19); (true, 312%nat, 327%nat, 19); (false, 327%nat, 348%nat, 20); (true, 327%nat, 348%nat, 20); (false, 348%nat, 366%nat, 21); (true, 348%nat, 366%nat, 21); (false, 366%nat, 382%nat, 22); (true, 366%nat, 382%nat, 22); (false, 382%nat, 396%nat, 23); (true, 382%nat, 396%nat, 23); (false, 396%nat, 408%nat, 24); (true, 396%nat, 408%nat, 24); (false, 408%nat, 415%nat, 25); (true, 408%nat, 415%nat, 25); (false, 415%nat, 426%nat, 26); (true, 415%nat, 426%nat, 26); (false, 426%nat, 434%nat, 27); (true, 426%nat, 434%nat, 27)]
  [(0, 10); (10, 24); (24, 43); (43, 59); (59, 76); (76, 95); (95, 119); (119, 139); (139, 166); (166, 181); (181, 199); (199, 214); (214, 233); (233, 246); (246, 262); (262, 273); (273, 285); (285, 298); (298, 312); (312, 327); (327, 348); (348, 366); (366, 382); (382, 396); (396, 408); (408, 415); (415, 426); (426, 434)]%nat.

Definition JobType : enumer := mkEnumer "JobType" 0
  "CONSOLIDATIONINGESTIONDELETION"
  "consolidationingestiondeletion"
  [0; 13; 22; 30]%nat
  [0; 1; 2]
  [(false, 0%nat, 13%nat, 0); (true, 0%nat, 13%nat, 0); (false, 13%nat, 22%nat, 1); (true, 13%nat, 22%nat, 1); (false, 22%nat, 30%nat, 2); (true, 22%nat, 30%nat, 2)]
  [(0, 13); (13, 22); (22, 30)]%nat.

Definition TaskState : enumer := mkEnumer "TaskState" 0
  "FAILEDCANCELLEDDONEPENDINGNEW"
  "failedcancelleddonependingnew"
  [0; 6; 15; 19; 26; 29]%nat
  [0; 1; 2; 3; 4]
  [(false, 0%nat, 6%nat, 0); (true, 0%nat, 6%nat, 0); (false, 6%nat, 15%nat, 1); (true, 6%nat, 15%nat, 1); (false, 15%nat, 19%nat, 2); (true, 15%nat, 19%nat, 2); (false, 19%nat, 26%nat, 3); (true, 19%nat, 26%nat, 3); (false, 26%nat, 29%nat, 4); (true, 26%nat, 29%nat, 4)]
  [(0, 6); (6, 15); (15, 19); (19, 26); (26, 29)]%nat.

Definition DatasetStatus : enumer := mkEnumer "DatasetStatus" 0
  "ACTIVETODELETEINACTIVE"
  "activetodeleteinactive"
  [0; 6; 14; 22]%nat
  [0; 1; 2]
  [(false, 0%nat, 6%nat, 0); (true, 0%nat, 6%nat, 0); (false, 6%nat, 14%nat, 1); (true, 6%nat, 14%nat, 1); (false, 14%nat, 22%nat, 2); (true, 14%nat, 22%nat, 2)]
  [(0, 6); (6, 14); (14, 22)]%nat.

Definition StorageClass : enumer := mkEnumer "StorageClass" 0
  "STANDARDINFREQUENTARCHIVEDEEPARCHIVEUNDEFINED"
  "standardinfrequentarchivedeeparchiveundefined"
  [0; 8; 18; 25; 36; 45]%nat
  [0; 1; 2; 3; 4]
  [(false, 0%nat, 8%nat, 0); (true, 0%nat, 8%nat, 0); (false, 8%nat, 18%nat, 1); (true, 8%nat, 18%nat, 1); (false, 18%nat, 25%nat, 2); (true, 18%nat, 25%nat, 2); (false, 25%nat, 36%nat, 3); (true, 25%nat, 36%nat, 3); (false, 36%nat, 45%nat, 4); (true, 36%nat, 45%nat, 4)]
  [(0, 8); (8, 18); (18, 25); (25, 36); (36, 45)]%nat.

Definition Compression : enumer := mkEnumer "Compression" 0
  "NOLOSSLESSLOSSYCUSTOM"
  "nolosslesslossycustom"
  [0; 2; 10; 15; 21]%nat
  [0; 1; 2; 3]
  [(false, 0%nat, 2%nat, 0); (true, 0%nat, 2%nat, 0); (false, 2%nat, 10%nat, 1); (true, 2%nat, 10%nat, 1); (false, 10%nat, 15%nat, 2); (true, 10%nat, 15%nat, 2); (false, 15%nat, 21%nat, 3); (true, 15%nat, 21%nat, 3)]
  [(0, 2); (2, 10); (10, 15); (15, 21)]%nat.

Definition Resampling : enumer := mkEnumer "Resampling" 1
  "NEARBILINEARCUBICCUBICSPLINELANCZOSAVERAGEMODEMAXMINMEDQ1Q3"
  "nearbilinearcubiccubicsplinelanczosaveragemodemaxminmedq1q3"
  [0; 4; 12; 17; 28; 35; 42; 46; 49; 52; 55; 57; 59]%nat
  [1; 2; 3; 4; 5; 6; 7; 8; 9; 10; 11; 12]
  [(false, 0%nat, 4%nat, 1); (true, 0%nat, 4%nat, 1); (false, 4%nat, 12%nat, 2); (true, 4%nat, 12%nat, 2); (false, 12%nat, 17%nat, 3); (true, 12%nat, 17%nat, 3); (false, 17%nat, 28%nat, 4); (true, 17%nat, 28%nat, 4); (false, 28%nat, 35%nat, 5); (true, 28%nat, 35%nat, 5); (false, 35%nat, 42%nat, 6); (true, 35%nat, 42%nat, 6); (false, 42%nat, 46%nat, 7); (true, 42%nat, 46%nat, 7); (false, 46%nat, 49%nat, 8); (true, 46%nat, 49%nat, 8); (false, 49%nat, 52%nat, 9); (true, 49%nat, 52%nat, 9); (false, 52%nat, 55%nat, 10); (true, 52%nat, 55%nat, 10); (false, 55%nat, 57%nat, 11); (true, 55%nat, 57%nat, 11); (false, 57%nat, 59%nat, 12); (true, 57%nat, 59%nat, 12)]
  [(0, 4); (4, 12); (12, 17); (17, 28); (28, 35); (35, 42); (42, 46); (46, 49); (49, 52); (52, 55); (55, 57); (57, 59)]%nat.

Definition DType : enumer := mkEnumer "DType" 0
  "UNDEFINEDUINT8UINT16UINT32INT8INT16INT32FLOAT32FLOAT64COMPLEX64"
  "undefineduint8uint16uint32int8int16int32float32float64complex64"
  [0; 9; 14; 20; 26; 30; 35; 40; 47; 54; 63]%nat
  [0; 1; 2; 3; 4; 5; 6; 7; 8; 9]
  [(false, 0%nat, 9%nat, 0); (true, 0%nat, 9%nat, 0); (false, 9%nat, 14%nat, 1); (true, 9%nat, 14%nat, 1); (false, 14%nat, 20%nat, 2); (true, 14%nat, 20%nat, 2); (false, 20%nat, 26%nat, 3); (true, 20%nat, 26%nat, 3); (false, 26%nat, 30%nat, 4); (true, 26%nat, 30%nat, 4); (false, 30%nat, 35%nat, 5); (true, 30%nat, 35%nat, 5); (false, 35%nat, 40%nat, 6); (true, 35%nat, 40%nat, 6); (false, 40%nat, 47%nat, 7); (true, 40%nat, 47%nat, 7); (false, 47%nat, 54%nat, 8); (true, 47%nat, 54%nat, 8); (false, 54%nat, 63%nat, 9); (true, 54%nat, 63%nat, 9)]
  [(0, 9); (9, 14); (14, 20); (20, 26); (26, 30); (30, 35); (35, 40); (40, 47); (47, 54); (54, 63)]%nat.

Definition enumerations : list enumer :=
  [JobState; JobStatus; JobType; TaskState; DatasetStatus; StorageClass; Compression; Resampling; DType].

(** ** Consistency *)

(** The values are consecutive; each has its two names in the map, the lower-case one is the
    lower case of the other, all lower-case names differ, and the printed names are those. *)
Definition wf (e : enumer) : bool :=
  bool_decide (values e = (fun k => base e + Z.of_nat k) <$> seq 0 (length (values e))) &&
  bool_decide (length (index e) = S (length (values e))) &&
  forallb (fun kv => IsA e (snd kv) && bool_decide (ToLower (fst kv) = ToLower (String_ e (snd kv)))) (nameToValueMap e) &&
  forallb (fun v => match ToLower (String_ e v) with
                    | Some l => bool_decide (lookupName e l = Some v) && bool_decide (lookupName e (String_ e v) = Some v)
                    | None => false
                    end) (values e) &&
  bool_decide (Strings e = String_ e <$> values e).
Lemma enumerations_wf : forallb wf enumerations = true.
Proof. vm_compute. reflexivity. Qed.

(** ** Lower case *)

Lemma lower_byte_twice c : code c < 0x80 -> code (lower_byte c) < 0x80 /\ lower_byte (lower_byte c) = lower_byte c.
Proof. destruct c as [[] [] [] [] [] [] [] []]; intros H; vm_compute in H |- *; by split. Qed.
Lemma lor_ge_l a b : 0 <= a -> 0 <= b -> a <= Z.lor a b.
Proof.
  intros Ha Hb. assert (Z.ldiff a (Z.lor a b) = 0) as H.
  { apply Z.bits_inj'. intros n Hn. rewrite Z.ldiff_spec, Z.lor_spec, Z.bits_0. by destruct (Z.testbit a n). }
  pose proof (Z.sub_nocarry_ldiff _ _ H). pose proof (proj2 (Z.ldiff_nonneg (Z.lor a b) a)) as H'.
  assert (0 <= Z.ldiff (Z.lor a b) a); [|lia]. apply H'. left. apply Z.lor_nonneg. done.
Qed.
Lemma lor_ge_r a b : 0 <= a -> 0 <= b -> b <= Z.lor a b.
Proof. rewrite Z.lor_comm. intros. by apply lor_ge_l. Qed.
(** A rune that takes more than one byte is not an ASCII one. *)
Lemma decode_small c s : (DecodeRuneInString (String c s)).1 < 0x80 -> code c < 0x80.
Proof.
  assert (forall c, 0 <= low6 c) as H6 by (intros x; unfold low6; apply Z.land_nonneg; right; done).
  assert (forall m k, 0 <= m -> 0 <= Z.shiftl (Z.land (code c) m) k) as Hsh by (intros; apply Z.shiftl_nonneg, Z.land_nonneg; by right).
  assert (forall x k, 0 <= Z.shiftl (low6 x) k) as Hsl by (intros; apply Z.shiftl_nonneg, H6).
  assert (forall a x y, 0x80 <= a -> 0 <= x -> 0 <= y -> ~ Z.lor (Z.lor a x) y < 0x80) as Hbig.
  { intros a x y Ha Hx Hy. pose proof (lor_ge_l a x ltac:(lia) Hx). pose proof (lor_ge_l (Z.lor a x) y ltac:(lia) Hy). lia. }
  assert (forall a x y, 0x80 <= x -> 0 <= a -> 0 <= y -> ~ Z.lor (Z.lor a x) y < 0x80) as Hbig'.
  { intros a x y Hx Ha Hy. rewrite (Z.lor_comm a). by apply Hbig. }
  unfold DecodeRuneInString. destruct (Z.ltb_spec (code c) 0x80) as [|Hc]; [done|]. unfold RuneError. intros Hr. exfalso. revert Hr.
  destruct (Z.ltb_spec (code c) 0xC2) as [|Hc2]; [done|]. destruct (Z.ltb_spec (code c) 0xE0) as [Hc3|Hc3].
  { destruct s as [|c1 s]; [done|]. destruct (is_cont c1); [|done]. cbn [fst]. specialize (H6 c1).
    assert (0x80 <= Z.shiftl (Z.land (code c) 31) 6) as Ha; [|pose proof (lor_ge_l _ _ (Hsh 31 6 ltac:(done)) H6); lia].
    clear - Hc2 Hc3. destruct c as [[] [] [] [] [] [] [] []]; vm_compute in Hc2, Hc3 |- *; done. }
  destruct (Z.ltb_spec (code c) 0xF0) as [Hc4|Hc4].
  { destruct s as [|c1 [|c2 s]]; [done..|]. destruct (second3 (code c) c1) eqn:S3; [|done]. destruct (is_cont c2); [|done]. cbn [andb fst].
    destruct (Z.eqb_spec (code c) 0xE0) as [E|E].
    - apply Hbig'; [|by apply Hsh|done]. unfold second3 in S3. rewrite E in S3. cbn [Z.eqb Pos.eqb] in S3.
      clear - S3. destruct c1 as [[] [] [] [] [] [] [] []]; vm_compute in S3 |- *; done.
    - apply Hbig; [|done..]. clear - Hc3 Hc4 E. destruct c as [[] [] [] [] [] [] [] []]; vm_compute in Hc3, Hc4, E |- *; done. }
  destruct (Z.ltb_spec (code c) 0xF5) as [Hc5|Hc5]; [|done].
  destruct s as [|c1 [|c2 [|c3 s]]]; [done..|]. destruct (second4 (code c) c1) eqn:S4; [|done]. destruct (is_cont c2), (is_cont c3); try done.
  cbn [andb fst]. assert (0 <= Z.lor (Z.shiftl (low6 c2) 6) (low6 c3)) as Ht by (apply Z.lor_nonneg; split; [apply Hsl|done]).
  destruct (Z.eqb_spec (code c) 0xF0) as [E|E].
  - apply Hbig'; [|by apply Hsh|done]. unfold second4 in S4. rewrite E in S4. cbn [Z.eqb Pos.eqb] in S4.
    clear - S4. destruct c1 as [[] [] [] [] [] [] [] []]; vm_compute in S4 |- *; done.
  - apply Hbig; [|apply Hsl|done]. clear - Hc4 Hc5 E. destruct c as [[] [] [] [] [] [] [] []]; vm_compute in Hc4, Hc5, E |- *; done.
Qed.
Lemma ToLowerF_twice fuel s l : ToLowerF fuel s = Some l -> ToLower l = Some l.
Proof.
  revert s l. induction fuel as [|fuel IH]; intros s l; [by intros [= <-]|]. cbn [ToLowerF]. destruct s as [|c s]; [by intros [= <-]|].
  pose proof (decode_small c s) as Hc. destruct (DecodeRuneInString (String c s)) as [r n]. cbn [fst] in Hc.
  assert (forall h t, code h < 0x80 -> lower_byte h = h -> ToLower t = Some t -> ToLower (String h t) = Some (String h t)) as Hcons.
  { intros h t Hh Hl Ht. unfold ToLower. cbn [String.length ToLowerF]. rewrite decode_ascii by done.
    rewrite (proj2 (Z.ltb_lt _ _)) by done. cbn [str_drop]. fold (ToLower t). by rewrite Ht, Hl. }
  destruct (ToLowerF fuel _) as [t|] eqn:F; [|by repeat case_match]. specialize (IH _ _ F).
  destruct (Z.ltb_spec r 0x80).
  { intros [= <-]. destruct (lower_byte_twice c) as [H1 H2]; [by apply Hc|]. by apply Hcons. }
  destruct (r =? 0x130); [intros [= <-]; by apply Hcons|]. destruct (r =? 0x212A); [intros [= <-]; by apply Hcons|done].
Qed.

Section wf.
Context (e : enumer) (Hwf : wf e = true).

Lemma IsA_elem v : IsA e v = true <-> v ∈ values e.
Proof.
  unfold IsA. rewrite existsb_exists. split; [intros (x & Hx & ->%Z.eqb_eq); by apply list_elem_of_In|].
  intros Hv. exists v. split; [by apply list_elem_of_In|apply Z.eqb_refl].
Qed.
Lemma wf_keys k v : (k, v) ∈ nameToValueMap e -> IsA e v = true /\ ToLower k = ToLower (String_ e v).
Proof.
  intros Hk. unfold wf in Hwf. rewrite !andb_true_iff in Hwf. destruct Hwf as [[[_ H] _] _].
  rewrite forallb_forall in H. specialize (H (k, v) (proj1 (list_elem_of_In _ _) Hk)). cbn [fst snd] in H.
  apply andb_true_iff in H as [H1 H2%bool_decide_eq_true]. done.
Qed.
Lemma wf_values v : IsA e v = true ->
  exists l, ToLower (String_ e v) = Some l /\ lookupName e l = Some v /\ lookupName e (String_ e v) = Some v.
Proof.
  intros Hv. unfold wf in Hwf. rewrite !andb_true_iff in Hwf. destruct Hwf as [[_ H] _].
  rewrite forallb_forall in H. specialize (H v (proj1 (list_elem_of_In _ _) (proj1 (IsA_elem v) Hv))).
  destruct (ToLower (String_ e v)) as [l|]; [|done]. apply andb_true_iff in H as [H1%bool_decide_eq_true H2%bool_decide_eq_true].
  by exists l.
Qed.
Lemma lookupName_Some s v : lookupName e s = Some v -> (s, v) ∈ nameToValueMap e.
Proof.
  unfold lookupName. intros H. destruct (filter _ _) as [|[k w] l] eqn:F; [done|]. cbn in H. injection H as ->.
  assert ((k, v) ∈ filter (fun kv : string * Z => fst kv = s) (nameToValueMap e)) as Hin by (rewrite F; by left).
  apply list_elem_of_filter in Hin as [<- Hin]. done.
Qed.

Lemma ofString_iff s v : ofString e s = Ok v <-> IsA e v = true /\ ToLower s = ToLower (String_ e v).
Proof.
  unfold ofString. split.
  - destruct (lookupName e s) as [w|] eqn:F.
    { intros [= ->]. by apply wf_keys, lookupName_Some. }
    destruct (ToLower s) as [l|] eqn:L; [|done]. cbn [mbind option_bind]. destruct (lookupName e l) as [w|] eqn:G; [|done].
    intros [= ->]. destruct (wf_keys l v (lookupName_Some _ _ G)) as [Hv Hl]. split; [done|].
    rewrite <- Hl. by rewrite (ToLowerF_twice _ _ _ L).
  - intros [Hv Hs]. destruct (wf_values v Hv) as (l & Hl & Hn & _). destruct (lookupName e s) as [w|] eqn:F.
    + destruct (wf_keys s w (lookupName_Some _ _ F)) as [Hw Hws]. destruct (wf_values w Hw) as (l' & Hl' & Hn' & _).
      f_equal. congruence.
    + rewrite Hs, Hl. cbn. by rewrite Hn.
Qed.
End wf.

(** C35. The enumerations keep their values on the way through text and database: a value
    that is written by [Value] and read by [Scan] is itself, whatever was in the variable; a
    text is accepted for a value exactly when it is the name of the value but for the case of
    its letters; so no text stands for two values, and no two values have the same name. *)
Theorem enum_roundtrip e :
  e ∈ enumerations ->
  (forall v i, IsA e v = true -> Scan e (Value_ e v) i = Ok v) /\
  (forall s v, ofString e s = Ok v <-> IsA e v = true /\ ToLower s = ToLower (String_ e v)) /\
  (forall v w, IsA e v = true -> IsA e w = true -> String_ e v = String_ e w -> v = w) /\
  Strings e = String_ e <$> values e.
Proof.
  intros He. pose proof enumerations_wf as Hwf. rewrite forallb_forall in Hwf. specialize (Hwf e (proj1 (list_elem_of_In _ _) He)).
  split; [|split; [|split]].
  - intros v i Hv. apply ofString_iff; [done|]. by split.
  - intros s v. by apply ofString_iff.
  - intros v w Hv Hw E. destruct (wf_values e Hwf v Hv) as (l & _ & _ & H1). destruct (wf_values e Hwf w Hw) as (m & _ & _ & H2). congruence.
  - unfold wf in Hwf. rewrite !andb_true_iff in Hwf. by destruct Hwf as [_ H%bool_decide_eq_true].
Qed.

Module EnumerExample.
Lemma enum_roundtrip_witness :
  IsA JobState 5 = true /\ Scan JobState (Value_ JobState 5) 0 = Ok 5 /\ ofString JobState "Consolidationeffective" = Ok 5.
Proof.
  split; [reflexivity|].
  pose proof (enum_roundtrip JobState (list_elem_of_here JobState _)) as (H1 & H2 & _). split; [by apply H1|].
  apply (H2 "Consolidationeffective"%string 5). split; reflexivity.
Defined.
Lemma status_out_of_range : String_ JobStatus 28 = "JobStatus(28)"%string /\ ofString JobStatus "JobStatus(28)" = Err "JobStatus(28) does not belong to JobStatus values"%string.
Proof. split; reflexivity. Qed.
End EnumerExample.
