(* ===== verification/Job.v ===== *)
(** * Jobs of the raster service ([raster/geocube/job.go], [task.go], [state.go])

    A job consolidates or deletes datasets in steps. It has a state, which events change, a
    list of tasks with two counters, logs, and locks on datasets; each of these remembers
    whether it has to be written to the database. A method works on the job of the state of
    the computation; [time.Now] reads the next value of a clock. *)

From Stdlib Require Import Ascii String ZArith Lia Bool.
From stdpp Require Import base list strings option sets gmap.
From S2P Require Import Prelude GoStd Strconv Effects Enumer.

Local Open Scope Z_scope.

(** ** Errors and panics ([geocubeerrors.go], [utils/errors.go]) *)

Inductive ErrorCode :=
| EntityValidationError | EntityNotFound | EntityAlreadyExists | DependencyStillExists | UnhandledEvent | ShouldNeverHappen.
#[global] Instance ErrorCode_eq_dec : EqDecision ErrorCode.
Proof. solve_decision. Defined.

(** A [GeocubeError], one made temporary, one wrapped with [%w] behind or before a text, any
    other. *)
Inductive gcError :=
| GeocubeError (code : ErrorCode) (desc : string)
| errTmp (e : gcError)
| Wrapped (text : string) (e : gcError)
| WrappedBefore (e : gcError) (text : string)
| OtherError (text : string).
#[global] Instance gcError_eq_dec : EqDecision gcError.
Proof. solve_decision. Defined.

Definition code_text (c : ErrorCode) : string :=
  match c with
  | EntityValidationError => "EntityValidationError" | EntityNotFound => "EntityNotFound"
  | EntityAlreadyExists => "EntityAlreadyExists" | DependencyStillExists => "DependencyStillExists"
  | UnhandledEvent => "UnhandledEvent" | ShouldNeverHappen => "ShouldNeverHappen"
  end.
Fixpoint Error (e : gcError) : string :=
  match e with
  | GeocubeError c d => code_text c +:+ ": " +:+ d
  | errTmp e => Error e
  | Wrapped t e => t +:+ Error e
  | WrappedBefore e t => Error e +:+ t
  | OtherError t => t
  end.

(** [errors.As] looks through wrapped errors, not through temporary ones: [Unwrap] is a
    method of the pointer, and [MakeTemporary] returns the value. *)
Fixpoint IsError (e : gcError) (c : ErrorCode) : bool :=
  match e with
  | GeocubeError c' _ => bool_decide (c' = c)
  | Wrapped _ e | WrappedBefore e _ => IsError e c
  | errTmp _ | OtherError _ => false
  end.
Fixpoint markedTemporary (e : gcError) : bool :=
  match e with errTmp _ => true | Wrapped _ e | WrappedBefore e _ => markedTemporary e | _ => false end.
Fixpoint contains_str (s sub : string) : bool :=
  has_prefix s sub || match s with EmptyString => false | String _ s => contains_str s sub end.
(** Of the errors this package makes; those of the system and of Google come as [OtherError]
    or [errTmp]. *)
Definition Temporary (e : gcError) : bool := markedTemporary e || contains_str (Error e) "timeout".

Definition formatEntityWith (entity keyID id : string) : string :=
  if negb (entity =? "")%string && negb (id =? "")%string then entity +:+ " with " +:+ keyID +:+ ": " +:+ id else "".
Definition NewEntityNotFound (entity keyID id desc : string) : gcError :=
  GeocubeError EntityNotFound (if (desc =? "")%string then formatEntityWith entity keyID id else desc).
Definition NewEntityAlreadyExists (entity keyID id desc : string) : gcError :=
  GeocubeError EntityAlreadyExists (if (desc =? "")%string then formatEntityWith entity keyID id else desc).
Definition NewDependencyStillExists (entity1 entity2 keyID id desc : string) : gcError :=
  GeocubeError DependencyStillExists
    (if (desc =? "")%string then
       if negb (entity2 =? "")%string then formatEntityWith (entity1 +:+ " and " +:+ entity2) keyID id
       else formatEntityWith entity1 keyID id
     else desc).
Definition NewUnhandledEvent (desc : string) : gcError := GeocubeError UnhandledEvent desc.
Definition NewValidationError (desc : string) : gcError := GeocubeError EntityValidationError desc.

Inductive gcPanic :=
| EntityIsDeleted
| UnknownState
| IngestionNotImplemented
| NegativeActiveTasks
| NegativeFailedTasks
| UndefinedTaskStatus
| IncompatibleStatus
| ParamsDirty
| IndexOutOfRange
| NilPointer.
#[global] Instance gcPanic_eq_dec : EqDecision gcPanic.
Proof. solve_decision. Defined.

(** ** Persistence ([state.go]) *)

Inductive persistenceState :=
| persistenceStateUNKNOWN | persistenceStateNEW | persistenceStateCLEAN | persistenceStateDIRTY
| persistenceStateTODELETE | persistenceStateDELETED.
#[global] Instance persistenceState_eq_dec : EqDecision persistenceState.
Proof. solve_decision. Defined.

Definition IsDirty (p : persistenceState) : bool := bool_decide (p = persistenceStateDIRTY).
Definition IsToDelete (p : persistenceState) : bool := bool_decide (p = persistenceStateTODELETE).
Definition IsNew (p : persistenceState) : bool := bool_decide (p = persistenceStateNEW).
Definition IsClean (p : persistenceState) : bool := bool_decide (p = persistenceStateCLEAN).
Definition IsActive (p : persistenceState) : bool :=
  bool_decide (p = persistenceStateNEW) || bool_decide (p = persistenceStateCLEAN) || bool_decide (p = persistenceStateDIRTY).
Definition mustNotBeDeleted (p : persistenceState) : result gcPanic unit :=
  if decide (p = persistenceStateDELETED) then Err EntityIsDeleted else Ok tt.
Definition ps_Clean (p : persistenceState) : result gcPanic persistenceState :=
  let? _ := mustNotBeDeleted p in
  Ok (if decide (p <> persistenceStateTODELETE) then persistenceStateCLEAN else p).
Definition ps_dirty (p : persistenceState) : result gcPanic persistenceState :=
  let? _ := mustNotBeDeleted p in
  Ok (if decide (p = persistenceStateCLEAN \/ p = persistenceStateUNKNOWN) then persistenceStateDIRTY else p).
Definition ps_toDelete (p : persistenceState) : result gcPanic persistenceState :=
  let? _ := mustNotBeDeleted p in
  Ok persistenceStateTODELETE.

(** ** Data *)

Inductive JobType := JobTypeCONSOLIDATION | JobTypeINGESTION | JobTypeDELETION.
#[global] Instance JobType_eq_dec : EqDecision JobType.
Proof. solve_decision. Defined.

Inductive JobState :=
| JobStateNEW | JobStateCREATED
| JobStateCONSOLIDATIONINPROGRESS | JobStateCONSOLIDATIONDONE | JobStateCONSOLIDATIONINDEXED
| JobStateCONSOLIDATIONEFFECTIVE | JobStateCONSOLIDATIONFAILED | JobStateCONSOLIDATIONRETRYING
| JobStateCONSOLIDATIONFORCERETRYING | JobStateCONSOLIDATIONCANCELLING
| JobStateDELETIONINPROGRESS | JobStateDELETIONEFFECTIVE | JobStateDELETIONFAILED
| JobStateDONE
| JobStateFAILED | JobStateINITIALISATIONFAILED | JobStateCANCELLATIONFAILED | JobStateABORTED
| JobStateROLLBACKFAILED | JobStateDONEBUTUNTIDY.
#[global] Instance JobState_eq_dec : EqDecision JobState.
Proof. solve_decision. Defined.
Definition JobState_code (s : JobState) : Z :=
  match s with
  | JobStateNEW => 0 | JobStateCREATED => 1
  | JobStateCONSOLIDATIONINPROGRESS => 2 | JobStateCONSOLIDATIONDONE => 3 | JobStateCONSOLIDATIONINDEXED => 4
  | JobStateCONSOLIDATIONEFFECTIVE => 5 | JobStateCONSOLIDATIONFAILED => 6 | JobStateCONSOLIDATIONRETRYING => 7
  | JobStateCONSOLIDATIONFORCERETRYING => 8 | JobStateCONSOLIDATIONCANCELLING => 9
  | JobStateDELETIONINPROGRESS => 10 | JobStateDELETIONEFFECTIVE => 11 | JobStateDELETIONFAILED => 12
  | JobStateDONE => 13
  | JobStateFAILED => 14 | JobStateINITIALISATIONFAILED => 15 | JobStateCANCELLATIONFAILED => 16 | JobStateABORTED => 17
  | JobStateROLLBACKFAILED => 18 | JobStateDONEBUTUNTIDY => 19
  end.
Definition JobState_String (s : JobState) : string := String_ Enumer.JobState (JobState_code s).

Inductive JobStatus :=
| JobCreated | OrdersPrepared | PrepareOrdersFailed | SendOrdersFailed | ConsolidationDone | ConsolidationFailed
| ConsolidationRetryFailed | ConsolidationIndexed | ConsolidationIndexingFailed
| DatasetsSwapped | SwapDatasetsFailed | DeletionStarted | StartDeletionFailed
| DeletionReady | DeletionNotReady | RemovalDone | DeletionDone | RemovalFailed | DeletionFailed
| CancelledByUser | CancelledByUserForced | CancellationFailed | CancellationDone
| RollbackFailed | RollbackDone | Retried | RetryForced | Continue.
#[global] Instance JobStatus_eq_dec : EqDecision JobStatus.
Proof. solve_decision. Defined.
Definition JobStatus_code (s : JobStatus) : Z :=
  match s with
  | JobCreated => 0 | OrdersPrepared => 1 | PrepareOrdersFailed => 2 | SendOrdersFailed => 3 | ConsolidationDone => 4
  | ConsolidationFailed => 5 | ConsolidationRetryFailed => 6 | ConsolidationIndexed => 7 | ConsolidationIndexingFailed => 8
  | DatasetsSwapped => 9 | SwapDatasetsFailed => 10 | DeletionStarted => 11 | StartDeletionFailed => 12
  | DeletionReady => 13 | DeletionNotReady => 14 | RemovalDone => 15 | DeletionDone => 16 | RemovalFailed => 17
  | DeletionFailed => 18 | CancelledByUser => 19 | CancelledByUserForced => 20 | CancellationFailed => 21
  | CancellationDone => 22 | RollbackFailed => 23 | RollbackDone => 24 | Retried => 25 | RetryForced => 26 | Continue => 27
  end.
Definition JobStatus_String (s : JobStatus) : string := String_ Enumer.JobStatus (JobStatus_code s).

Record JobEvent := mkJobEvent { evt_JobID : string; evt_Status : JobStatus; evt_Error : string }.
Definition statusWithError (status : JobStatus) : bool :=
  match status with
  | PrepareOrdersFailed | SendOrdersFailed | ConsolidationFailed | ConsolidationRetryFailed | ConsolidationIndexingFailed
  | CancellationFailed | SwapDatasetsFailed | StartDeletionFailed | RemovalFailed | DeletionFailed | DeletionNotReady
  | RollbackFailed => true
  | _ => false
  end.
Definition NewJobEvent (jobID : string) (status : JobStatus) (err : string) : result gcPanic JobEvent :=
  if Bool.eqb (statusWithError status) (negb (err =? "")%string) then Ok (mkJobEvent jobID status err)
  else Err IncompatibleStatus.

Inductive TaskState := TaskStateFAILED | TaskStateCANCELLED | TaskStateDONE | TaskStatePENDING | TaskStateNEW.
#[global] Instance TaskState_eq_dec : EqDecision TaskState.
Proof. solve_decision. Defined.
Inductive TaskStatus := TaskSuccessful | TaskFailed | TaskIgnored | TaskCancelled | TaskSent.
#[global] Instance TaskStatus_eq_dec : EqDecision TaskStatus.
Proof. solve_decision. Defined.
Definition TaskStatus_String (ts : TaskStatus) : result gcPanic string :=
  match ts with
  | TaskFailed => Ok "TaskFailed" | TaskSuccessful => Ok "TaskSuccessful" | TaskCancelled => Ok "TaskCancelled"
  | _ => Err UndefinedTaskStatus
  end.
Record TaskEvent := mkTaskEvent { te_JobID : string; te_TaskID : string; te_Status : TaskStatus; te_Error : string }.
Definition NewTaskEvent (jobID taskID : string) (status : TaskStatus) (err : option gcError) : TaskEvent :=
  mkTaskEvent jobID taskID status (match err with Some e => Error e | None => "" end).

Record Task := mkTask { t_ps : persistenceState; t_ID : string; t_State : TaskState; t_Payload : string }.

Inductive LogSeverity := DEBUG | INFO | WARN | ERROR.
#[global] Instance LogSeverity_eq_dec : EqDecision LogSeverity.
Proof. solve_decision. Defined.
Record JobLog := mkJobLog { Severity : LogSeverity; Msg : string; Status : string; Date : Z }.
Record JobPayload := mkJobPayload { Layout : string; InstanceID : string; ParamsID : string; CollapseRecordId : string }.

(** [ExecutionLevel] is an integer. *)
Definition ExecutionSynchronous : Z := 0.
Definition ExecutionAsynchronous : Z := 1.
Definition StepByStepCritical : Z := 2.
Definition StepByStepMajor : Z := 3.
Definition StepByStepAll : Z := 4.
Definition StepByStepNever : Z := 5.

Record JobStateInfo := mkInfo { Level : Z; info_RetryForced : bool }.
Definition jobStateInfo (s : JobState) : JobStateInfo :=
  match s with
  | JobStateNEW => mkInfo StepByStepAll true
  | JobStateCREATED => mkInfo StepByStepMajor true
  | JobStateCONSOLIDATIONINPROGRESS => mkInfo StepByStepCritical false
  | JobStateCONSOLIDATIONDONE => mkInfo StepByStepMajor true
  | JobStateCONSOLIDATIONINDEXED => mkInfo StepByStepAll true
  | JobStateCONSOLIDATIONEFFECTIVE => mkInfo StepByStepCritical true
  | JobStateCONSOLIDATIONFAILED => mkInfo StepByStepAll false
  | JobStateCONSOLIDATIONRETRYING => mkInfo StepByStepMajor true
  | JobStateCONSOLIDATIONFORCERETRYING => mkInfo StepByStepMajor true
  | JobStateCONSOLIDATIONCANCELLING => mkInfo StepByStepMajor true
  | JobStateDELETIONINPROGRESS => mkInfo StepByStepCritical true
  | JobStateDELETIONEFFECTIVE => mkInfo StepByStepMajor true
  | JobStateDELETIONFAILED => mkInfo StepByStepAll false
  | JobStateDONE => mkInfo StepByStepNever false
  | JobStateFAILED => mkInfo StepByStepNever false
  | JobStateINITIALISATIONFAILED => mkInfo StepByStepAll false
  | JobStateCANCELLATIONFAILED => mkInfo StepByStepAll false
  | JobStateABORTED => mkInfo StepByStepMajor true
  | JobStateROLLBACKFAILED => mkInfo StepByStepAll false
  | JobStateDONEBUTUNTIDY => mkInfo StepByStepNever false
  end.

(** Why a dataset is locked; [LockFlagALL] stands for all flags, which index an array. *)
Inductive LockFlag := LockFlagALL | LockFlagINIT | LockFlagTODELETE | LockFlagNEW.
#[global] Instance LockFlag_eq_dec : EqDecision LockFlag.
Proof. solve_decision. Defined.
Definition LockFlag_index (f : LockFlag) : nat :=
  match f with LockFlagALL | LockFlagINIT => 0 | LockFlagTODELETE => 1 | LockFlagNEW => 2 end.
(** A set that is nil is empty. *)
Record LockedDatasets := mkLocked { l_ps : persistenceState; newDatasetsID : gset string }.

(** The parameters of a consolidation: format, exponent, compression, creation parameters,
    resampling and storage class; a job only hands them on. *)
Record ConsolidationParams := mkParams {
  cp_ps : persistenceState; cp_DType : Z; cp_NoData : Z; cp_Min : Z; cp_Max : Z; cp_Exponent : Z; cp_Compression : Z;
  cp_CreationParams : list (string * string); cp_ResamplingAlg : Z; cp_StorageClass : Z }.
Definition set_cp_ps (x : persistenceState) (p : ConsolidationParams) : ConsolidationParams :=
  mkParams x (cp_DType p) (cp_NoData p) (cp_Min p) (cp_Max p) (cp_Exponent p) (cp_Compression p)
    (cp_CreationParams p) (cp_ResamplingAlg p) (cp_StorageClass p).

Record Job := mkJob {
  j_ps : persistenceState;
  State : JobState; ID : string; Name : string; Type_ : JobType;
  CreationTime : Z; occTime : Z; LastUpdateTime : Z;
  Payload : JobPayload;
  Logs : list JobLog; LogsCount : Z; NewLogs : list JobLog;
  ActiveTasks : Z; FailedTasks : Z;
  ExecutionLevel : Z; Waiting : bool;
  Tasks : list Task; Params : option ConsolidationParams;
  LockedDatasets_ : list LockedDatasets }.

(** Assignments to the fields. *)
Definition set_j_ps (x : persistenceState) (j : Job) : Job :=
  mkJob x (State j) (ID j) (Name j) (Type_ j) (CreationTime j) (occTime j) (LastUpdateTime j) (Payload j) (Logs j) (LogsCount j) (NewLogs j) (ActiveTasks j) (FailedTasks j) (ExecutionLevel j) (Waiting j) (Tasks j) (Params j) (LockedDatasets_ j).
Definition set_State (x : JobState) (j : Job) : Job :=
  mkJob (j_ps j) x (ID j) (Name j) (Type_ j) (CreationTime j) (occTime j) (LastUpdateTime j) (Payload j) (Logs j) (LogsCount j) (NewLogs j) (ActiveTasks j) (FailedTasks j) (ExecutionLevel j) (Waiting j) (Tasks j) (Params j) (LockedDatasets_ j).
Definition set_occTime (x : Z) (j : Job) : Job :=
  mkJob (j_ps j) (State j) (ID j) (Name j) (Type_ j) (CreationTime j) x (LastUpdateTime j) (Payload j) (Logs j) (LogsCount j) (NewLogs j) (ActiveTasks j) (FailedTasks j) (ExecutionLevel j) (Waiting j) (Tasks j) (Params j) (LockedDatasets_ j).
Definition set_LastUpdateTime (x : Z) (j : Job) : Job :=
  mkJob (j_ps j) (State j) (ID j) (Name j) (Type_ j) (CreationTime j) (occTime j) x (Payload j) (Logs j) (LogsCount j) (NewLogs j) (ActiveTasks j) (FailedTasks j) (ExecutionLevel j) (Waiting j) (Tasks j) (Params j) (LockedDatasets_ j).
Definition set_ActiveTasks (x : Z) (j : Job) : Job :=
  mkJob (j_ps j) (State j) (ID j) (Name j) (Type_ j) (CreationTime j) (occTime j) (LastUpdateTime j) (Payload j) (Logs j) (LogsCount j) (NewLogs j) x (FailedTasks j) (ExecutionLevel j) (Waiting j) (Tasks j) (Params j) (LockedDatasets_ j).
Definition set_FailedTasks (x : Z) (j : Job) : Job :=
  mkJob (j_ps j) (State j) (ID j) (Name j) (Type_ j) (CreationTime j) (occTime j) (LastUpdateTime j) (Payload j) (Logs j) (LogsCount j) (NewLogs j) (ActiveTasks j) x (ExecutionLevel j) (Waiting j) (Tasks j) (Params j) (LockedDatasets_ j).
Definition set_Waiting (x : bool) (j : Job) : Job :=
  mkJob (j_ps j) (State j) (ID j) (Name j) (Type_ j) (CreationTime j) (occTime j) (LastUpdateTime j) (Payload j) (Logs j) (LogsCount j) (NewLogs j) (ActiveTasks j) (FailedTasks j) (ExecutionLevel j) x (Tasks j) (Params j) (LockedDatasets_ j).
Definition set_Tasks (x : list Task) (j : Job) : Job :=
  mkJob (j_ps j) (State j) (ID j) (Name j) (Type_ j) (CreationTime j) (occTime j) (LastUpdateTime j) (Payload j) (Logs j) (LogsCount j) (NewLogs j) (ActiveTasks j) (FailedTasks j) (ExecutionLevel j) (Waiting j) x (Params j) (LockedDatasets_ j).
Definition set_Params (x : option ConsolidationParams) (j : Job) : Job :=
  mkJob (j_ps j) (State j) (ID j) (Name j) (Type_ j) (CreationTime j) (occTime j) (LastUpdateTime j) (Payload j) (Logs j) (LogsCount j) (NewLogs j) (ActiveTasks j) (FailedTasks j) (ExecutionLevel j) (Waiting j) (Tasks j) x (LockedDatasets_ j).
Definition set_Locked (x : list LockedDatasets) (j : Job) : Job :=
  mkJob (j_ps j) (State j) (ID j) (Name j) (Type_ j) (CreationTime j) (occTime j) (LastUpdateTime j) (Payload j) (Logs j) (LogsCount j) (NewLogs j) (ActiveTasks j) (FailedTasks j) (ExecutionLevel j) (Waiting j) (Tasks j) (Params j) x.
Definition set_NewLogs (x : list JobLog) (j : Job) : Job :=
  mkJob (j_ps j) (State j) (ID j) (Name j) (Type_ j) (CreationTime j) (occTime j) (LastUpdateTime j) (Payload j) (Logs j) (LogsCount j) x (ActiveTasks j) (FailedTasks j) (ExecutionLevel j) (Waiting j) (Tasks j) (Params j) (LockedDatasets_ j).
Definition add_log (l : JobLog) (j : Job) : Job :=
  mkJob (j_ps j) (State j) (ID j) (Name j) (Type_ j) (CreationTime j) (occTime j) (LastUpdateTime j) (Payload j) (Logs j ++ [l]) (LogsCount j + 1) (NewLogs j ++ [l]) (ActiveTasks j) (FailedTasks j) (ExecutionLevel j) (Waiting j) (Tasks j) (Params j) (LockedDatasets_ j).

(** ** Methods *)

(** The readings of the clock, in order. *)
Class Clock := time_at : nat -> Z.

(** The job a method is called on, the number of readings and calls made so far, and the rest
    of what the program can reach. *)
Record World (X : Type) := mkWorld { job : Job; tick : nat; rest : X }.
Arguments mkWorld {X} job tick rest.
Arguments job {X} w.
Arguments tick {X} w.
Arguments rest {X} w.
Definition on_job {X} (f : Job -> Job) (w : World X) : World X := mkWorld (f (job w)) (tick w) (rest w).

Section methods.
Context {CK : Clock} {X : Type}.
Abbreviation M := (eff gcError gcPanic (World X)).

Definition time_Now : M Z := fun w => (Ret (time_at (tick w)), mkWorld (job w) (S (tick w)) (rest w)).
Definition this {A} (f : Job -> A) : M A := gets (fun w => f (job w)).
Definition assign (f : Job -> Job) : M unit := put (on_job f).

Definition dirty : M unit :=
  t ← time_Now;
  assign (set_LastUpdateTime t);;
  p ← this j_ps;
  p ← orCrash (ps_dirty p);
  assign (set_j_ps p).

Definition LogMsg (severity : LogSeverity) (msg : string) : M unit :=
  s ← this State;
  t ← time_Now;
  assign (add_log (mkJobLog severity msg (JobState_String s) t));;
  dirty.
Definition ClearPersistedLogs : M unit := assign (set_NewLogs []).
Definition LogErr (err : string) : M unit := if (err =? "")%string then mret tt else LogMsg ERROR err.

Definition changeState (newState : JobState) : M bool :=
  assign (set_State newState);;
  j ← this id;
  assign (set_Waiting (Level (jobStateInfo (State j)) <=? ExecutionLevel j));;
  dirty;;
  mret true.

(** [if j.Waiting { return j.changeState(s) }] and the [return false] at the end. *)
Definition ifWaiting (s : JobState) : M bool :=
  w ← this Waiting;
  if (w : bool) then changeState s else mret false.
(** [j.LogMsg(INFO, "Retried by user")], then the new state. *)
Definition retried (s : JobState) : M bool := LogMsg INFO "Retried by user";; changeState s.

Definition triggerConsolidation (status : JobStatus) : M bool :=
  s ← this State;
  match s with
  | JobStateNEW =>
    match status with
    | CancelledByUserForced => changeState JobStateABORTED
    | CancelledByUser => ifWaiting JobStateABORTED
    | JobCreated => changeState JobStateCREATED
    | _ => mret false
    end
  | JobStateCREATED =>
    match status with
    | CancelledByUserForced => changeState JobStateABORTED
    | CancelledByUser => ifWaiting JobStateABORTED
    | PrepareOrdersFailed => changeState JobStateINITIALISATIONFAILED
    | OrdersPrepared => changeState JobStateCONSOLIDATIONINPROGRESS
    | _ => mret false
    end
  | JobStateCONSOLIDATIONINPROGRESS =>
    match status with
    | RetryForced => changeState JobStateCONSOLIDATIONFORCERETRYING
    | Retried => changeState JobStateCONSOLIDATIONRETRYING
    | CancelledByUser | CancelledByUserForced =>
      LogMsg INFO "Cancelled by user";; changeState JobStateCONSOLIDATIONCANCELLING
    | ConsolidationFailed => changeState JobStateCONSOLIDATIONFAILED
    | SendOrdersFailed => changeState JobStateCONSOLIDATIONFAILED
    | ConsolidationDone => changeState JobStateCONSOLIDATIONDONE
    | _ => mret false
    end
  | JobStateCONSOLIDATIONDONE =>
    match status with
    | CancelledByUserForced => changeState JobStateABORTED
    | CancelledByUser => ifWaiting JobStateABORTED
    | ConsolidationIndexingFailed => changeState JobStateCONSOLIDATIONFAILED
    | ConsolidationIndexed => changeState JobStateCONSOLIDATIONINDEXED
    | _ => mret false
    end
  | JobStateCONSOLIDATIONINDEXED =>
    match status with
    | CancelledByUserForced => changeState JobStateABORTED
    | CancelledByUser => ifWaiting JobStateABORTED
    | SwapDatasetsFailed => changeState JobStateCONSOLIDATIONFAILED
    | DatasetsSwapped => changeState JobStateCONSOLIDATIONEFFECTIVE
    | _ => mret false
    end
  | JobStateCONSOLIDATIONEFFECTIVE =>
    match status with
    | StartDeletionFailed => changeState JobStateDONEBUTUNTIDY
    | DeletionStarted => changeState JobStateDONE
    | _ => mret false
    end
  | JobStateDONE => mret false
  | JobStateDONEBUTUNTIDY =>
    match status with
    | RetryForced | Retried => retried JobStateCONSOLIDATIONEFFECTIVE
    | _ => mret false
    end
  | JobStateCONSOLIDATIONCANCELLING =>
    match status with
    | CancellationFailed => changeState JobStateCANCELLATIONFAILED
    | CancellationDone => changeState JobStateABORTED
    | _ => mret false
    end
  | JobStateCANCELLATIONFAILED =>
    match status with
    | Retried | RetryForced => retried JobStateCONSOLIDATIONCANCELLING
    | _ => mret false
    end
  | JobStateINITIALISATIONFAILED =>
    match status with
    | Retried | RetryForced => retried JobStateCREATED
    | CancelledByUser | CancelledByUserForced => changeState JobStateABORTED
    | _ => mret false
    end
  | JobStateCONSOLIDATIONFAILED =>
    match status with
    | Retried | RetryForced => changeState JobStateCONSOLIDATIONRETRYING
    | CancelledByUser | CancelledByUserForced => changeState JobStateABORTED
    | _ => mret false
    end
  | JobStateABORTED =>
    match status with
    | RollbackFailed => changeState JobStateROLLBACKFAILED
    | RollbackDone => changeState JobStateFAILED
    | _ => mret false
    end
  | JobStateROLLBACKFAILED =>
    match status with
    | RetryForced | Retried => retried JobStateABORTED
    | CancelledByUserForced => changeState JobStateFAILED
    | _ => mret false
    end
  | JobStateCONSOLIDATIONRETRYING | JobStateCONSOLIDATIONFORCERETRYING =>
    match status with
    | ConsolidationRetryFailed => changeState JobStateCONSOLIDATIONFAILED
    | OrdersPrepared => changeState JobStateCONSOLIDATIONINPROGRESS
    | _ => mret false
    end
  | JobStateFAILED => mret false
  | _ => crash UnknownState
  end.

Definition triggerDeletion (status : JobStatus) : M bool :=
  s ← this State;
  match s with
  | JobStateNEW =>
    match status with
    | CancelledByUserForced => changeState JobStateABORTED
    | CancelledByUser => ifWaiting JobStateABORTED
    | JobCreated => changeState JobStateCREATED
    | _ => mret false
    end
  | JobStateCREATED =>
    match status with
    | CancelledByUserForced => changeState JobStateABORTED
    | CancelledByUser => ifWaiting JobStateABORTED
    | DeletionNotReady => changeState JobStateINITIALISATIONFAILED
    | DeletionReady => changeState JobStateDELETIONINPROGRESS
    | _ => mret false
    end
  | JobStateDELETIONINPROGRESS =>
    match status with
    | CancelledByUserForced => changeState JobStateABORTED
    | CancelledByUser => ifWaiting JobStateABORTED
    | RemovalFailed => changeState JobStateDELETIONFAILED
    | RemovalDone => changeState JobStateDELETIONEFFECTIVE
    | _ => mret false
    end
  | JobStateDELETIONEFFECTIVE =>
    match status with
    | CancelledByUserForced =>
      w ← this Waiting;
      (if (w : bool) then mret tt
       else LogMsg WARN "Deletion has been cancelled, but files may have already been deleted");;
      changeState JobStateABORTED
    | DeletionFailed => changeState JobStateDONEBUTUNTIDY
    | DeletionDone => changeState JobStateDONE
    | _ => mret false
    end
  | JobStateDONE => mret false
  | JobStateDONEBUTUNTIDY =>
    match status with
    | RetryForced => retried JobStateDELETIONEFFECTIVE
    | _ => mret false
    end
  | JobStateDELETIONFAILED =>
    match status with
    | Retried | RetryForced => retried JobStateDELETIONINPROGRESS
    | CancelledByUser | CancelledByUserForced => changeState JobStateABORTED
    | _ => mret false
    end
  | JobStateABORTED =>
    match status with
    | RollbackFailed => changeState JobStateROLLBACKFAILED
    | RollbackDone => changeState JobStateFAILED
    | _ => mret false
    end
  | JobStateROLLBACKFAILED =>
    match status with
    | RetryForced | Retried => retried JobStateABORTED
    | CancelledByUserForced => changeState JobStateFAILED
    | _ => mret false
    end
  | JobStateINITIALISATIONFAILED =>
    match status with
    | RetryForced | Retried => retried JobStateCREATED
    | CancelledByUserForced => changeState JobStateFAILED
    | _ => mret false
    end
  | JobStateFAILED => mret false
  | _ => crash UnknownState
  end.

Definition triggerIngestion (status : JobStatus) : M bool := crash IngestionNotImplemented.

(** The first half of [Trigger], which computes [handled]. *)
Definition handle (evt : JobEvent) : M bool :=
  j ← this id;
  if decide (evt_Status evt = Continue) then
    if Waiting j then assign (set_Waiting false);; dirty;; mret true else mret false
  else if bool_decide (evt_Status evt = RetryForced) && info_RetryForced (jobStateInfo (State j)) then
    LogMsg INFO "Retried by user";; mret true
  else
    LogErr (evt_Error evt);;
    match Type_ j with
    | JobTypeCONSOLIDATION => triggerConsolidation (evt_Status evt)
    | JobTypeDELETION => triggerDeletion (evt_Status evt)
    | JobTypeINGESTION => triggerIngestion (evt_Status evt)
    end.
Definition Trigger (evt : JobEvent) : M unit :=
  handled ← handle evt;
  j ← this id;
  if (handled : bool) then
    if Waiting j then LogMsg INFO ("New state: " +:+ JobState_String (State j) +:+ ": waiting for user action")
    else LogMsg INFO ("New state: " +:+ JobState_String (State j))
  else throw (NewUnhandledEvent ("Job " +:+ ID j +:+ ": Unable to trigger " +:+ JobStatus_String (evt_Status evt) +:+
                " (current state=" +:+ JobState_String (State j) +:+ ")")).

(** ** Tasks *)

(** A task is changed in place: the tasks of a job are pointers. *)
Definition set_task (i : nat) (t : Task) : M unit := assign (fun j => set_Tasks (<[i := t]> (Tasks j)) j).
Definition task_at (i : nat) : M Task :=
  ts ← this Tasks;
  match ts !! i with Some t => mret t | None => crash IndexOutOfRange end.

Definition updateTaskCounters (state : TaskState) (inc : Z) : M unit :=
  match state with
  | TaskStatePENDING | TaskStateNEW => assign (fun j => set_ActiveTasks (ActiveTasks j + inc) j);; dirty
  | TaskStateFAILED => assign (fun j => set_FailedTasks (FailedTasks j + inc) j);; dirty
  | _ => mret tt
  end;;
  j ← this id;
  if ActiveTasks j <? 0 then crash NegativeActiveTasks
  else if FailedTasks j <? 0 then crash NegativeFailedTasks
  else mret tt.

(** [Task.setState] and [Job.setTaskState] *)
Definition setState (i : nat) (newState : TaskState) : M bool :=
  t ← task_at i;
  if decide (t_State t = newState) then mret false
  else
    p ← orCrash (ps_dirty (t_ps t));
    set_task i (mkTask p (t_ID t) newState (t_Payload t));;
    mret true.
Definition setTaskState (i : nat) (newState : TaskState) : M bool :=
  t ← task_at i;
  changed ← setState i newState;
  if (changed : bool) then updateTaskCounters (t_State t) (-1);; updateTaskCounters newState 1;; mret true
  else mret false.

(** The first task with an id, as an index. *)
Definition task (taskID : string) : M (option nat) :=
  ts ← this Tasks;
  mret (fst <$> list_find (fun t => t_ID t = taskID) ts).

Definition addTask (t : Task) : M unit :=
  assign (fun j => set_Tasks (Tasks j ++ [t]) (set_ActiveTasks (ActiveTasks j + 1) j));;
  dirty.
(** [newConsolidationTask] and [newDeletionTask]: the id is a new UUID. The payload of a
    consolidation is its event in the encoding of [encoding/gob], with the id in it. *)
Definition newTask (id payload : string) : Task := mkTask persistenceStateNEW id TaskStateNEW payload.

Definition taskStateFromStatus (status : TaskStatus) : TaskState :=
  match status with
  | TaskSent => TaskStatePENDING
  | TaskFailed => TaskStateFAILED
  | TaskIgnored | TaskCancelled => TaskStateCANCELLED
  | TaskSuccessful => TaskStateDONE
  end.

Definition UpdateTask (evt : TaskEvent) : M unit :=
  let unhandled : M unit :=
    s ← orCrash (TaskStatus_String (te_Status evt));
    j ← this id;
    throw (NewUnhandledEvent ("Job " +:+ ID j +:+ " Task " +:+ te_TaskID evt +:+ " Status " +:+ s)) in
  o ← task (te_TaskID evt);
  match o with
  | None => throw (NewEntityNotFound "Task" "id" (te_TaskID evt) "")
  | Some i =>
    t ← task_at i;
    let newState := taskStateFromStatus (te_Status evt) in
    if decide (newState = t_State t) then mret tt
    else
      s ← this State;
      if negb (bool_decide (s = JobStateCONSOLIDATIONINPROGRESS \/ s = JobStateDELETIONEFFECTIVE \/ s = JobStateCONSOLIDATIONCANCELLING))
      then unhandled
      else
        let set :=
          setTaskState i newState;;
          if decide (newState = TaskStateFAILED) then LogErr ("Task " +:+ te_TaskID evt +:+ " failed: " +:+ te_Error evt) else mret tt in
        match t_State t with
        | TaskStateDONE => unhandled
        | TaskStateFAILED | TaskStateCANCELLED => if decide (newState <> TaskStateDONE) then mret tt else set
        | _ => set
        end
  end.

(** [states] nil is every state. *)
Definition contains (status : TaskState) (listStatus : list TaskState) : bool := existsb (fun s => bool_decide (status = s)) listStatus.
Definition ResetTasks (states : option (list TaskState)) : M unit :=
  n ← this (fun j => length (Tasks j));
  each (fun i =>
    t ← task_at i;
    if match states with None => true | Some l => contains (t_State t) l end
    then setTaskState i TaskStateNEW;; mret tt else mret tt) (seq 0 n).
Definition CancelTask (index : nat) : M unit := setTaskState index TaskStateCANCELLED;; mret tt.
Definition toDeleteTask (i : nat) : M unit :=
  t ← task_at i;
  p ← orCrash (ps_toDelete (t_ps t));
  set_task i (mkTask p (t_ID t) (t_State t) (t_Payload t)).
Definition DeleteTask (index : nat) : M unit :=
  t ← task_at index;
  (if IsActive (t_ps t) then setTaskState index TaskStateCANCELLED;; mret tt else mret tt);;
  toDeleteTask index.
Definition DeleteAllTasks : M unit :=
  n ← this (fun j => length (Tasks j));
  each DeleteTask (seq 0 n).

(** ** Locks *)

Definition locked_at (i : nat) : M LockedDatasets :=
  ls ← this LockedDatasets_;
  match ls !! i with Some l => mret l | None => crash IndexOutOfRange end.
Definition set_locked (i : nat) (l : LockedDatasets) : M unit := assign (fun j => set_Locked (<[i := l]> (LockedDatasets_ j)) j).

Definition LockDatasets (datasetsID : list string) (flag : LockFlag) : M unit :=
  if bool_decide (flag = LockFlagALL) || (length datasetsID =? 0)%nat then mret tt
  else
    l ← locked_at (LockFlag_index flag);
    p ← orCrash (ps_dirty (l_ps l));
    set_locked (LockFlag_index flag) (mkLocked p (newDatasetsID l ∪ list_to_set datasetsID)).
Definition releaseLock (i : nat) : M unit :=
  l ← locked_at i;
  p ← orCrash (ps_toDelete (l_ps l));
  set_locked i (mkLocked p (newDatasetsID l)).
Definition ReleaseDatasets (flag : LockFlag) : M unit :=
  if decide (flag = LockFlagALL) then
    n ← this (fun j => length (LockedDatasets_ j));
    each releaseLock (seq 0 n)
  else releaseLock (LockFlag_index flag).
(** [LockedDatasets.Clean] *)
Definition cleanLock (i : nat) : M unit :=
  l ← locked_at i;
  p ← orCrash (ps_Clean (l_ps l));
  set_locked i (mkLocked p ∅).

(** ** The whole job *)

Definition cleanTask (i : nat) : M unit :=
  t ← task_at i;
  p ← orCrash (ps_Clean (t_ps t));
  set_task i (mkTask p (t_ID t) (t_State t) (t_Payload t)).
Definition Clean (all : bool) : M unit :=
  (if all then
     n ← this (fun j => length (LockedDatasets_ j));
     each cleanLock (seq 0 n);;
     m ← this (fun j => length (Tasks j));
     each cleanTask (seq 0 m)
   else mret tt);;
  assign (fun j => set_occTime (LastUpdateTime j) j);;
  p ← this j_ps;
  p ← orCrash (ps_Clean p);
  assign (set_j_ps p).

(** The loop over the tasks, up to the first one that keeps the job from being deleted. *)
Fixpoint toDeleteTasks (all : bool) (ix : list nat) : M bool :=
  match ix with
  | [] => mret true
  | i :: ix =>
    t ← task_at i;
    if IsActive (t_ps t) then
      if negb all then mret false else toDeleteTask i;; toDeleteTasks all ix
    else toDeleteTasks all ix
  end.
Definition ToDelete (all : bool) : M bool :=
  n ← this (fun j => length (Tasks j));
  ok ← toDeleteTasks all (seq 0 n);
  if (ok : bool) then
    ReleaseDatasets LockFlagALL;;
    p ← this j_ps;
    p ← orCrash (ps_toDelete p);
    assign (set_j_ps p);;
    mret true
  else mret false.

Definition SetParams (params : ConsolidationParams) : M unit :=
  p ← this j_ps;
  if negb (IsNew p) then throw (OtherError "job.setParams: cannot set params to a job that is not new")
  else assign (set_Params (Some (set_cp_ps persistenceStateNEW params))).
End methods.

(** ** New jobs *)

Definition noLocks : list LockedDatasets := replicate 3 (mkLocked persistenceStateUNKNOWN ∅).
(** [NewJob]: every field but the id has its zero value. *)
Definition NewJob (id : string) : Job :=
  mkJob persistenceStateUNKNOWN JobStateNEW id "" JobTypeCONSOLIDATION 0 0 0 (mkJobPayload "" "" "" "")
    [] 0 [] 0 0 0 false [] None noLocks.
(** [id] is a new UUID; [t1], [t2] and [t3] are three readings of the clock. *)
Definition NewConsolidationJob (id : string) (t1 t2 t3 : Z) (jobName layout instanceID collapseRecordId : string) (executionLevel : Z)
    : result gcError Job :=
  if executionLevel =? ExecutionSynchronous
  then Err (NewValidationError "a consolidation job cannot be executed synchronously")
  else Ok (mkJob persistenceStateNEW JobStateNEW id jobName JobTypeCONSOLIDATION t1 0 t2
             (mkJobPayload layout instanceID id collapseRecordId)
             [] 0 [mkJobLog INFO "Create Job Consolidation" (JobState_String JobStateNEW) t3] 0 0 executionLevel false [] None noLocks).
Definition NewDeletionJob (id : string) (t1 t2 t3 : Z) (jobName : string) (executionLevel : Z) : Job :=
  mkJob persistenceStateNEW JobStateNEW id jobName JobTypeDELETION t1 0 t2 (mkJobPayload "" "" "" "")
    [] 0 [mkJobLog INFO "Create Job Deletion" (JobState_String JobStateNEW) t3] 0 0 executionLevel false [] None noLocks.
