(* ===== verification/JobFacts.v ===== *)
(** * The life of a job

    The state machine of a job as a diagram, and that [Trigger] follows it; what can be
    reached, and that a job can always be brought to an end. *)

From Stdlib Require Import Ascii String ZArith Lia Bool.
From stdpp Require Import base list strings option sets gmap.
From S2P Require Import Prelude GoStd Strconv Effects Enumer Job.

Local Open Scope Z_scope.

(** ** The diagram *)

(** An edge: from, on an event, to; [true] if only a waiting job takes it. *)
Definition edge : Type := JobState * JobStatus * bool * JobState.

Definition cancel (s : JobState) : list edge :=
  [(s, CancelledByUserForced, false, JobStateABORTED); (s, CancelledByUser, true, JobStateABORTED)].
Definition retry (s t : JobState) : list edge := [(s, Retried, false, t); (s, RetryForced, false, t)].
Definition abort (s : JobState) : list edge :=
  [(s, CancelledByUserForced, false, JobStateABORTED); (s, CancelledByUser, false, JobStateABORTED)].
Definition rollback_edges : list edge :=
  [(JobStateABORTED, RollbackFailed, false, JobStateROLLBACKFAILED); (JobStateABORTED, RollbackDone, false, JobStateFAILED);
   (JobStateROLLBACKFAILED, CancelledByUserForced, false, JobStateFAILED)] ++ retry JobStateROLLBACKFAILED JobStateABORTED.

Definition consolidation_edges : list edge :=
  (JobStateNEW, JobCreated, false, JobStateCREATED) :: cancel JobStateNEW ++
  [(JobStateCREATED, OrdersPrepared, false, JobStateCONSOLIDATIONINPROGRESS);
   (JobStateCREATED, PrepareOrdersFailed, false, JobStateINITIALISATIONFAILED)] ++ cancel JobStateCREATED ++
  [(JobStateCONSOLIDATIONINPROGRESS, ConsolidationDone, false, JobStateCONSOLIDATIONDONE);
   (JobStateCONSOLIDATIONINPROGRESS, ConsolidationFailed, false, JobStateCONSOLIDATIONFAILED);
   (JobStateCONSOLIDATIONINPROGRESS, SendOrdersFailed, false, JobStateCONSOLIDATIONFAILED);
   (JobStateCONSOLIDATIONINPROGRESS, Retried, false, JobStateCONSOLIDATIONRETRYING);
   (JobStateCONSOLIDATIONINPROGRESS, RetryForced, false, JobStateCONSOLIDATIONFORCERETRYING);
   (JobStateCONSOLIDATIONINPROGRESS, CancelledByUser, false, JobStateCONSOLIDATIONCANCELLING);
   (JobStateCONSOLIDATIONINPROGRESS, CancelledByUserForced, false, JobStateCONSOLIDATIONCANCELLING);
   (JobStateCONSOLIDATIONDONE, ConsolidationIndexed, false, JobStateCONSOLIDATIONINDEXED);
   (JobStateCONSOLIDATIONDONE, ConsolidationIndexingFailed, false, JobStateCONSOLIDATIONFAILED)] ++ cancel JobStateCONSOLIDATIONDONE ++
  [(JobStateCONSOLIDATIONINDEXED, DatasetsSwapped, false, JobStateCONSOLIDATIONEFFECTIVE);
   (JobStateCONSOLIDATIONINDEXED, SwapDatasetsFailed, false, JobStateCONSOLIDATIONFAILED)] ++ cancel JobStateCONSOLIDATIONINDEXED ++
  [(JobStateCONSOLIDATIONEFFECTIVE, DeletionStarted, false, JobStateDONE);
   (JobStateCONSOLIDATIONEFFECTIVE, StartDeletionFailed, false, JobStateDONEBUTUNTIDY)] ++
  retry JobStateDONEBUTUNTIDY JobStateCONSOLIDATIONEFFECTIVE ++
  [(JobStateCONSOLIDATIONCANCELLING, CancellationDone, false, JobStateABORTED);
   (JobStateCONSOLIDATIONCANCELLING, CancellationFailed, false, JobStateCANCELLATIONFAILED)] ++
  retry JobStateCANCELLATIONFAILED JobStateCONSOLIDATIONCANCELLING ++
  retry JobStateINITIALISATIONFAILED JobStateCREATED ++ abort JobStateINITIALISATIONFAILED ++
  retry JobStateCONSOLIDATIONFAILED JobStateCONSOLIDATIONRETRYING ++ abort JobStateCONSOLIDATIONFAILED ++
  [(JobStateCONSOLIDATIONRETRYING, OrdersPrepared, false, JobStateCONSOLIDATIONINPROGRESS);
   (JobStateCONSOLIDATIONRETRYING, ConsolidationRetryFailed, false, JobStateCONSOLIDATIONFAILED);
   (JobStateCONSOLIDATIONFORCERETRYING, OrdersPrepared, false, JobStateCONSOLIDATIONINPROGRESS);
   (JobStateCONSOLIDATIONFORCERETRYING, ConsolidationRetryFailed, false, JobStateCONSOLIDATIONFAILED)] ++ rollback_edges.

Definition deletion_edges : list edge :=
  (JobStateNEW, JobCreated, false, JobStateCREATED) :: cancel JobStateNEW ++
  [(JobStateCREATED, DeletionReady, false, JobStateDELETIONINPROGRESS);
   (JobStateCREATED, DeletionNotReady, false, JobStateINITIALISATIONFAILED)] ++ cancel JobStateCREATED ++
  [(JobStateDELETIONINPROGRESS, RemovalDone, false, JobStateDELETIONEFFECTIVE);
   (JobStateDELETIONINPROGRESS, RemovalFailed, false, JobStateDELETIONFAILED)] ++ cancel JobStateDELETIONINPROGRESS ++
  [(JobStateDELETIONEFFECTIVE, DeletionDone, false, JobStateDONE);
   (JobStateDELETIONEFFECTIVE, DeletionFailed, false, JobStateDONEBUTUNTIDY);
   (JobStateDELETIONEFFECTIVE, CancelledByUserForced, false, JobStateABORTED);
   (JobStateDONEBUTUNTIDY, RetryForced, false, JobStateDELETIONEFFECTIVE)] ++
  retry JobStateDELETIONFAILED JobStateDELETIONINPROGRESS ++ abort JobStateDELETIONFAILED ++
  (JobStateINITIALISATIONFAILED, CancelledByUserForced, false, JobStateFAILED) ::
  retry JobStateINITIALISATIONFAILED JobStateCREATED ++ rollback_edges.

Definition edges (t : JobType) : list edge :=
  match t with JobTypeCONSOLIDATION => consolidation_edges | JobTypeDELETION => deletion_edges | JobTypeINGESTION => [] end.

(** The states a job of a type can be in. *)
Definition states (t : JobType) : list JobState := JobStateNEW :: ((fun e : edge => e.2) <$> edges t).

Definition in_states (t : JobType) (s : JobState) : bool := existsb (fun x => bool_decide (s = x)) (states t).

(** The edge an event takes. *)
Definition edge_of (t : JobType) (s : JobState) (status : JobStatus) : option (bool * JobState) :=
  (fun e : edge => (e.1.2, e.2)) <$> head (filter (fun e : edge => e.1.1 = (s, status)) (edges t)).

(** The state after an event, and whether the job waits there; none if the event is refused. *)
Definition next (j : Job) (status : JobStatus) : option (JobState * bool) :=
  if decide (status = Continue) then if Waiting j then Some (State j, false) else None
  else if bool_decide (status = RetryForced) && info_RetryForced (jobStateInfo (State j)) then Some (State j, Waiting j)
  else
    match edge_of (Type_ j) (State j) status with
    | Some (g, s) => if g && negb (Waiting j) then None else Some (s, Level (jobStateInfo s) <=? ExecutionLevel j)
    | None => None
    end.

(** ** What the methods leave alone *)

Definition ps_alive (p : persistenceState) : Prop := p <> persistenceStateDELETED.
Record frame (j j' : Job) : Prop := {
  fr_ID : ID j' = ID j; fr_Name : Name j' = Name j; fr_Type : Type_ j' = Type_ j; fr_occ : occTime j' = occTime j;
  fr_Payload : Payload j' = Payload j; fr_active : ActiveTasks j' = ActiveTasks j; fr_failed : FailedTasks j' = FailedTasks j;
  fr_level : ExecutionLevel j' = ExecutionLevel j; fr_Tasks : Tasks j' = Tasks j; fr_Params : Params j' = Params j;
  fr_Locked : LockedDatasets_ j' = LockedDatasets_ j;
  fr_ps : j_ps j' = j_ps j \/ ps_dirty (j_ps j) = Ok (j_ps j') }.
(** The same state, too. *)
Definition quiet (j j' : Job) : Prop := frame j j' /\ State j' = State j /\ Waiting j' = Waiting j.

#[global] Instance frame_refl : Reflexive frame.
Proof. intros j. split; try done. by left. Qed.
Lemma dirty_twice p q r : ps_dirty p = Ok q -> ps_dirty q = Ok r -> ps_dirty p = Ok r.
Proof. destruct p; vm_compute; intros [= <-]; vm_compute; intros [= <-]; done. Qed.
#[global] Instance frame_trans : Transitive frame.
Proof.
  intros a b c [] []. split; try congruence.
  destruct fr_ps0 as [E|E], fr_ps1 as [E'|E']; [left; congruence|right; congruence|right; congruence|right; by eapply dirty_twice].
Qed.
#[global] Instance quiet_refl : Reflexive quiet.
Proof. intros j. by split. Qed.
#[global] Instance quiet_trans : Transitive quiet.
Proof. intros a b c (? & ? & ?) (? & ? & ?). split; [by etrans|]. split; congruence. Qed.
Lemma frame_alive j j' : frame j j' -> ps_alive (j_ps j) -> ps_alive (j_ps j').
Proof. intros [] Hj. destruct fr_ps0 as [->|E]; [done|]. intros E'. rewrite E' in E. destruct (j_ps j); vm_compute in E; done. Qed.

Section facts.
Context {CK : Clock} {X : Type}.
Implicit Types (w : World X) (C : gcPanic -> Prop).
Abbreviation M := (eff gcError gcPanic (World X)).

(** Time passes, and the last update is a reading made meanwhile, if it changed. *)
Definition clocked w w' : Prop :=
  (tick w <= tick w')%nat /\
  (LastUpdateTime (job w') = LastUpdateTime (job w) \/
   exists k, (tick w <= k < tick w')%nat /\ LastUpdateTime (job w') = time_at k).
Definition within (R : Job -> Job -> Prop) w w' : Prop := R (job w) (job w') /\ rest w' = rest w /\ clocked w w'.

Lemma clocked_refl w : clocked w w.
Proof. split; [lia|by left]. Qed.
Lemma clocked_trans a b c : clocked a b -> clocked b c -> clocked a c.
Proof.
  intros [H1 H2] [H3 H4]. split; [lia|]. destruct H4 as [->|(k & Hk & ->)].
  - destruct H2 as [->|(k & Hk & ->)]; [by left|right; exists k; split; [lia|done]].
  - right. exists k. split; [lia|done].
Qed.
Lemma within_refl (R : Job -> Job -> Prop) `{!Reflexive R} w : within R w w.
Proof. split; [done|]. split; [done|apply clocked_refl]. Qed.
Lemma within_trans (R : Job -> Job -> Prop) `{!Transitive R} a b c : within R a b -> within R b c -> within R a c.
Proof. intros (? & ? & ?) (? & ? & ?). split; [by etrans|]. split; [congruence|by eapply clocked_trans]. Qed.
Lemma within_mono (R R' : Job -> Job -> Prop) w w' : (R (job w) (job w') -> R' (job w) (job w')) -> within R w w' -> within R' w w'.
Proof. intros HR (? & ? & ?). split; [by apply HR|done]. Qed.

Lemma dirty_run w :
  ps_alive (j_ps (job w)) -> exists p, ps_dirty (j_ps (job w)) = Ok p /\
    dirty w = (Ret tt, mkWorld (set_j_ps p (set_LastUpdateTime (time_at (tick w)) (job w))) (S (tick w)) (rest w)).
Proof.
  intros Hp. destruct (ps_dirty (j_ps (job w))) as [p|] eqn:E; [|by destruct (j_ps (job w))].
  exists p. split; [done|]. unfold dirty, mbind, eff_bind, time_Now, assign, this, gets, put, on_job. cbn. by rewrite E.
Qed.
Lemma dirty_quiet w : ps_alive (j_ps (job w)) -> exists w', dirty w = (Ret tt, w') /\ within quiet w w'.
Proof.
  intros Hp. destruct (dirty_run w Hp) as (p & E & ->). eexists. split; [done|]. split; [|split; [done|]].
  - split; [|done]. split; try done. by right.
  - split; [cbn; lia|]. right. exists (tick w). split; [cbn; lia|done].
Qed.
Lemma LogMsg_quiet sev msg w : ps_alive (j_ps (job w)) -> exists w', LogMsg sev msg w = (Ret tt, w') /\ within quiet w w'.
Proof.
  intros Hp. unfold LogMsg, mbind, eff_bind, this, gets, time_Now, assign, put. cbn.
  set (w1 := on_job _ _). destruct (dirty_quiet w1 Hp) as (w' & -> & Hq). exists w'. split; [done|].
  eapply (within_trans quiet); [|exact Hq]. split; [|split; [done|]].
  - split; [|done]. split; try done. by left.
  - split; [cbn; lia|by left].
Qed.
Lemma changeState_run s w :
  ps_alive (j_ps (job w)) -> exists w', changeState s w = (Ret true, w') /\ within frame w w' /\
    State (job w') = s /\ Waiting (job w') = (Level (jobStateInfo s) <=? ExecutionLevel (job w)).
Proof.
  intros Hp. unfold changeState, mbind, eff_bind, this, gets, assign, put, id. cbn.
  set (w1 := on_job _ (on_job _ _)). destruct (dirty_quiet w1 Hp) as (w' & -> & ((Hf & HS & HW) & Hr & Hc)).
  exists w'. split; [done|]. split; [|split; [by rewrite HS|by rewrite HW]]. split; [|split; [by rewrite Hr|]].
  - etrans; [|exact Hf]. split; try done. by left.
  - exact Hc.
Qed.

(** ** [Trigger] follows the diagram *)

Definition entered w (s : JobState) w' : Prop :=
  within frame w w' /\ State (job w') = s /\ Waiting (job w') = (Level (jobStateInfo s) <=? ExecutionLevel (job w)).
(** What comes of an event that has the edge [o]. *)
Definition moved w (o : option (bool * JobState)) (b : bool) w' : Prop :=
  match o with
  | Some (g, s) => if g && negb (Waiting (job w)) then b = false /\ within quiet w w' else b = true /\ entered w s w'
  | None => b = false /\ within quiet w w'
  end.

Lemma stay w : exists b w', (mret false : M bool) w = (Ret b, w') /\ moved w None b w'.
Proof. exists false, w. split; [done|]. split; [done|]. apply (within_refl quiet). Qed.
Lemma change s w : ps_alive (j_ps (job w)) -> exists b w', changeState s w = (Ret b, w') /\ moved w (Some (false, s)) b w'.
Proof. intros Hp. destruct (changeState_run s w Hp) as (w' & -> & H). by exists true, w'. Qed.
Lemma change_waiting s w : ps_alive (j_ps (job w)) -> exists b w', ifWaiting s w = (Ret b, w') /\ moved w (Some (true, s)) b w'.
Proof.
  intros Hp. unfold ifWaiting, mbind, eff_bind, this, gets. destruct (Waiting (job w)) eqn:E.
  - destruct (changeState_run s w Hp) as (w' & -> & H). exists true, w'. split; [done|]. cbn. by rewrite E.
  - exists false, w. split; [done|]. cbn. rewrite E. split; [done|]. apply (within_refl quiet).
Qed.
Lemma entered_after w w1 s w' : within quiet w w1 -> entered w1 s w' -> entered w s w'.
Proof.
  intros Hq (Hf & HS & HW). assert (within frame w w1) as Hw by (eapply within_mono; [|exact Hq]; by intros []).
  split; [by eapply (within_trans frame)|]. split; [done|]. rewrite HW. destruct Hw as [Hw _]. by rewrite (fr_level _ _ Hw).
Qed.
Lemma log_change sev msg s w :
  ps_alive (j_ps (job w)) -> exists b w', (LogMsg sev msg;; changeState s) w = (Ret b, w') /\ moved w (Some (false, s)) b w'.
Proof.
  intros Hp. unfold mbind, eff_bind. destruct (LogMsg_quiet sev msg w Hp) as (w1 & -> & Hq).
  assert (ps_alive (j_ps (job w1))) as Hp1 by (eapply frame_alive; [apply Hq|done]).
  destruct (changeState_run s w1 Hp1) as (w' & -> & H). exists true, w'. split; [done|]. split; [done|]. eapply entered_after; [exact Hq|exact H].
Qed.

Ltac edge_value :=
  match goal with
  | |- context [edge_of ?t ?s ?e] => let o := eval vm_compute in (edge_of t s e) in change (edge_of t s e) with o
  end.
Ltac follow :=
  edge_value; cbv beta iota;
  match goal with
  | |- exists b w', changeState ?s _ = _ /\ moved _ (Some (false, ?s)) _ _ => apply change; assumption
  | |- exists b w', ifWaiting ?s _ = _ /\ moved _ (Some (true, ?s)) _ _ => apply change_waiting; assumption
  | |- exists b w', retried ?s _ = _ /\ moved _ (Some (false, ?s)) _ _ => apply log_change; assumption
  | |- exists b w', mret false _ = _ /\ moved _ None _ _ => apply stay
  | |- exists b w', (LogMsg _ _ ≫= fun _ => changeState ?s) _ = _ /\ moved _ (Some (false, ?s)) _ _ => apply log_change; assumption
  end.

Lemma triggerConsolidation_spec status w :
  ps_alive (j_ps (job w)) -> in_states JobTypeCONSOLIDATION (State (job w)) = true ->
  exists b w', triggerConsolidation status w = (Ret b, w') /\ moved w (edge_of JobTypeCONSOLIDATION (State (job w)) status) b w'.
Proof.
  intros Hp Hs. unfold triggerConsolidation. unfold mbind at 1, eff_bind at 1, this, gets. cbv beta iota.
  destruct (State (job w)) eqn:E; try (exfalso; vm_compute in Hs; discriminate); clear Hs E.
  all: destruct status; follow.
Qed.
Lemma triggerDeletion_spec status w :
  ps_alive (j_ps (job w)) -> in_states JobTypeDELETION (State (job w)) = true ->
  exists b w', triggerDeletion status w = (Ret b, w') /\ moved w (edge_of JobTypeDELETION (State (job w)) status) b w'.
Proof.
  intros Hp Hs. unfold triggerDeletion. unfold mbind at 1, eff_bind at 1, this, gets. cbv beta iota.
  destruct (State (job w)) eqn:E; try (exfalso; vm_compute in Hs; discriminate); clear Hs E.
  all: destruct status; try follow.
  edge_value. unfold mbind at 1, eff_bind at 1. cbv beta iota. destruct (Waiting (job w)); [|by apply log_change].
  unfold mbind, eff_bind, mret, eff_ret. cbv beta iota. by apply change.
Qed.

Lemma LogErr_quiet err w : ps_alive (j_ps (job w)) -> exists w', LogErr err w = (Ret tt, w') /\ within quiet w w'.
Proof.
  intros Hp. unfold LogErr. destruct (err =? "")%string; [|by apply LogMsg_quiet]. exists w. split; [done|]. apply (within_refl quiet).
Qed.

Lemma quiet_then w w1 o b w' : within quiet w w1 -> moved w1 o b w' -> moved w o b w'.
Proof.
  intros Hq H. assert (Waiting (job w1) = Waiting (job w)) as HW by apply Hq. unfold moved in *. rewrite HW in H.
  destruct o as [[g s]|]; [destruct (g && _)|]; destruct H as [? H]; (split; [done|]).
  - by eapply (within_trans quiet).
  - by eapply entered_after.
  - by eapply (within_trans quiet).
Qed.
Lemma moved_frame w o b w' : moved w o b w' -> within frame w w'.
Proof.
  assert (within quiet w w' -> within frame w w') as H by (apply within_mono; by intros []).
  unfold moved. destruct o as [[g s]|]; [destruct (g && _)|]; intros [_ Hm]; [by apply H|apply Hm|by apply H].
Qed.

Definition job_ok (j : Job) : Prop := ps_alive (j_ps j) /\ in_states (Type_ j) (State j) = true /\ Type_ j <> JobTypeINGESTION.

Lemma trigger_spec status w :
  job_ok (job w) ->
  exists b w',
    match Type_ (job w) with
    | JobTypeCONSOLIDATION => triggerConsolidation status
    | JobTypeDELETION => triggerDeletion status
    | JobTypeINGESTION => triggerIngestion status
    end w = (Ret b, w') /\ moved w (edge_of (Type_ (job w)) (State (job w)) status) b w'.
Proof.
  intros (Hp & Hs & Ht). destruct (Type_ (job w)); [by apply triggerConsolidation_spec|done|by apply triggerDeletion_spec].
Qed.

(** What an event makes of the job, by the diagram. *)
Definition follows w (status : JobStatus) (b : bool) w' : Prop :=
  match next (job w) status with
  | Some (s, wt) => b = true /\ State (job w') = s /\ Waiting (job w') = wt
  | None => b = false /\ within quiet w w'
  end.
Lemma handle_spec evt w :
  job_ok (job w) -> exists b w', handle evt w = (Ret b, w') /\ within frame w w' /\ follows w (evt_Status evt) b w'.
Proof.
  intros Hok. pose proof (proj1 Hok) as Hp. unfold handle, follows, next. unfold mbind at 1, eff_bind at 1, this, gets, id. cbv beta iota.
  assert (forall w', within quiet w w' -> within frame w w') as Hqf by (intros w'; apply within_mono; by intros []).
  destruct (decide _) as [_|_].
  { destruct (Waiting (job w)); [|exists false, w; split; [done|]; split; [apply (within_refl frame)|split; [done|apply (within_refl quiet)]]].
    unfold mbind, eff_bind, assign, put. set (w1 := on_job _ w). destruct (dirty_quiet w1 Hp) as (w' & -> & Hq). exists true, w'. split; [done|].
    destruct Hq as ((Hf & HS & HW) & Hr & Hc). split; [|done]. split; [etrans; [|exact Hf]; split; try done; by left|]. by split. }
  destruct (bool_decide _ && _).
  { unfold mbind, eff_bind. destruct (LogMsg_quiet INFO "Retried by user" w Hp) as (w' & -> & Hq). exists true, w'. split; [done|].
    split; [by apply Hqf|]. by destruct Hq as ((_ & -> & ->) & _). }
  unfold mbind, eff_bind. destruct (LogErr_quiet (evt_Error evt) w Hp) as (w1 & -> & Hq).
  assert (job_ok (job w1)) as Hok1.
  { destruct Hq as ((Hf & HS & _) & _). destruct Hok as (_ & ? & ?). split; [by eapply frame_alive|]. by rewrite HS, (fr_Type _ _ Hf). }
  assert (Type_ (job w1) = Type_ (job w) /\ State (job w1) = State (job w)) as [HT HS] by (by destruct Hq as (([] & ? & _) & _)).
  destruct (trigger_spec (evt_Status evt) w1 Hok1) as (b & w' & Hrun & Hm). rewrite HT, HS in *. rewrite Hrun.
  apply (quiet_then w) in Hm; [|done]. exists b, w'. split; [done|]. split; [by eapply moved_frame|].
  unfold moved in Hm. destruct (edge_of _ _ _) as [[g s]|]; [destruct (g && _)|]; [done| |done].
  destruct Hm as [-> (_ & ? & ?)]. done.
Qed.

Lemma Trigger_spec evt w :
  job_ok (job w) ->
  match next (job w) (evt_Status evt) with
  | Some (s, wt) => exists w', Trigger evt w = (Ret tt, w') /\ within frame w w' /\ State (job w') = s /\ Waiting (job w') = wt
  | None => exists e w', Trigger evt w = (Throw e, w') /\ IsError e UnhandledEvent = true /\ within quiet w w'
  end.
Proof.
  intros Hok. destruct (handle_spec evt w Hok) as (b & w1 & Hb & Hf & Hn). unfold follows in Hn.
  unfold Trigger, mbind, eff_bind, this, gets, id. rewrite Hb. cbv beta iota.
  destruct (next _ _) as [[s wt]|].
  - destruct Hn as (-> & HS & HW).
    assert (ps_alive (j_ps (job w1))) as Hp1 by (eapply frame_alive; [apply Hf|apply Hok]).
    assert (exists msg, (if Waiting (job w1) then LogMsg INFO ("New state: " +:+ JobState_String (State (job w1)) +:+ ": waiting for user action")
      else LogMsg INFO ("New state: " +:+ JobState_String (State (job w1)))) = (LogMsg INFO msg : M unit)) as [msg ->].
    { destruct (Waiting (job w1)); by eexists. }
    destruct (LogMsg_quiet INFO msg w1 Hp1) as (w' & -> & ((Hf' & HS' & HW') & Hr)). exists w'. split; [done|]. split.
    + eapply (within_trans frame); [exact Hf|by split].
    + by rewrite HS', HW'.
  - destruct Hn as [-> Hq]. eexists _, _. split; [reflexivity|]. split; [reflexivity|exact Hq].
Qed.

(** ** Sequences of events *)

(** A refused event is an error for its sender. *)
Fixpoint triggers (evts : list JobEvent) : M unit :=
  match evts with [] => mret tt | e :: evts => try (Trigger e);; triggers evts end.

Lemma edge_of_elem t s status g s' : edge_of t s status = Some (g, s') -> (s, status, g, s') ∈ edges t.
Proof.
  unfold edge_of. destruct (filter _ _) as [|[[[a b] c] d] l] eqn:F; [done|]. intros [= -> ->].
  assert ((a, b, g, s') ∈ filter (fun e : edge => e.1.1 = (s, status)) (edges t)) as Hin by (rewrite F; by left).
  apply list_elem_of_filter in Hin as [[= -> ->] Hin]. done.
Qed.
Lemma in_states_elem t s : in_states t s = true <-> s ∈ states t.
Proof.
  unfold in_states. rewrite existsb_exists. split.
  - intros (x & Hx & ->%bool_decide_eq_true). by apply list_elem_of_In.
  - intros Hs. exists s. split; [by apply list_elem_of_In|by apply bool_decide_eq_true].
Qed.

(** A set of states no event leads out of. *)
Definition closed (t : JobType) (F : list JobState) : bool :=
  forallb (fun e : edge => negb (bool_decide (e.1.1.1 ∈ F)) || bool_decide (e.2 ∈ F)) (edges t).
Lemma closed_next j status s wt F : closed (Type_ j) F = true -> State j ∈ F -> next j status = Some (s, wt) -> s ∈ F.
Proof.
  intros HF Hs. unfold next. destruct (decide _); [destruct (Waiting j); [by intros [= <- _]|done]|].
  destruct (bool_decide _ && _); [by intros [= <- _]|]. destruct (edge_of _ _ _) as [[g s']|] eqn:E; [|done].
  destruct (g && _); [done|]. intros [= <- _]. apply edge_of_elem in E. unfold closed in HF. rewrite forallb_forall in HF.
  specialize (HF _ (proj1 (list_elem_of_In _ _) E)). cbn in HF. rewrite bool_decide_eq_true_2 in HF by done. by apply bool_decide_eq_true in HF.
Qed.
Lemma states_closed t : closed t (states t) = true.
Proof. destruct t; vm_compute; reflexivity. Qed.

Lemma triggers_spec evts w :
  job_ok (job w) ->
  exists w', triggers evts w = (Ret tt, w') /\ within frame w w' /\ job_ok (job w') /\
    forall F, closed (Type_ (job w)) F = true -> State (job w) ∈ F -> State (job w') ∈ F.
Proof.
  revert w. induction evts as [|evt evts IH]; intros w Hok.
  { exists w. split; [done|]. split; [apply (within_refl frame)|]. by split. }
  cbn [triggers]. unfold mbind, eff_bind, try. pose proof (Trigger_spec evt w Hok) as H.
  assert (exists o w1, Trigger evt w = (o, w1) /\ (o = Ret tt \/ exists e, o = Throw e) /\ within frame w w1 /\
    forall F, closed (Type_ (job w)) F = true -> State (job w) ∈ F -> State (job w1) ∈ F) as (o & w1 & -> & Ho & Hf & HF).
  { destruct (next _ _) as [[s wt]|] eqn:E.
    - destruct H as (w1 & Hr & Hf & HS & _). exists (Ret tt), w1. split; [done|]. split; [by left|]. split; [done|].
      intros F HF Hs. rewrite HS. by eapply closed_next.
    - destruct H as (e & w1 & Hr & _ & Hq). exists (Throw e), w1. split; [done|]. split; [right; by exists e|].
      split; [eapply within_mono; [|exact Hq]; by intros []|]. intros F _ Hs. by destruct Hq as ((_ & -> & _) & _). }
  assert (Type_ (job w1) = Type_ (job w)) as HT by (by destruct Hf as [[] _]).
  assert (job_ok (job w1)) as Hok1.
  { destruct Hok as (? & Hs & ?). split; [eapply frame_alive; [apply Hf|done]|]. rewrite HT. split; [|done].
    apply in_states_elem. apply in_states_elem in Hs. apply HF; [apply states_closed|done]. }
  destruct (IH w1 Hok1) as (w' & Hr & Hf' & Hok' & HF'). exists w'. split; [by destruct Ho as [->|[e ->]]|].
  split; [by eapply (within_trans frame)|]. split; [done|]. intros F Hc Hs. apply HF'; [by rewrite HT|by apply HF].
Qed.

(** C22. The life of a consolidation or deletion job, whatever job events come in whatever
    order and whoever sends them: no event panics; the job only enters the states of its
    type; [DONE] and [FAILED] are final; once a consolidation is effective, that is, its new
    datasets have replaced the old ones, it is never aborted, so it is never rolled back; and
    events touch neither tasks, counters nor locks. Jobs of type INGESTION, for which
    [Trigger] panics, and the events of tasks are not part of this. *)
Theorem job_lifecycle evts w :
  job_ok (job w) ->
  exists w', triggers evts w = (Ret tt, w') /\ within frame w w' /\ State (job w') ∈ states (Type_ (job w)) /\
    (State (job w) = JobStateDONE -> State (job w') = JobStateDONE) /\
    (State (job w) = JobStateFAILED -> State (job w') = JobStateFAILED) /\
    (Type_ (job w) = JobTypeCONSOLIDATION -> State (job w) = JobStateCONSOLIDATIONEFFECTIVE ->
     State (job w') ∈ [JobStateCONSOLIDATIONEFFECTIVE; JobStateDONE; JobStateDONEBUTUNTIDY]).
Proof.
  intros Hok. destruct (triggers_spec evts w Hok) as (w' & Hr & Hf & Hok' & HF). exists w'. split; [done|]. split; [done|].
  split; [apply HF; [apply states_closed|apply in_states_elem, Hok]|].
  assert (forall s, closed (Type_ (job w)) [s] = true -> State (job w) = s -> State (job w') = s) as H1.
  { intros s Hs E. apply list_elem_of_singleton, HF; [done|]. by apply list_elem_of_singleton. }
  split; [apply H1; by destruct (Type_ (job w))|]. split; [apply H1; by destruct (Type_ (job w))|].
  intros HT HS. apply HF; [by rewrite HT|]. rewrite HS. by left.
Qed.

(** Events of users and of steps that succeed, which end a job. *)
Definition way_out (t : JobType) (s : JobState) : list JobStatus :=
  match s with
  | JobStateDONE | JobStateFAILED => []
  | JobStateCONSOLIDATIONINPROGRESS => [CancelledByUser; CancellationDone; RollbackDone]
  | JobStateCONSOLIDATIONEFFECTIVE => [DeletionStarted]
  | JobStateCONSOLIDATIONRETRYING | JobStateCONSOLIDATIONFORCERETRYING => [OrdersPrepared; CancelledByUser; CancellationDone; RollbackDone]
  | JobStateCONSOLIDATIONCANCELLING => [CancellationDone; RollbackDone]
  | JobStateCANCELLATIONFAILED => [Retried; CancellationDone; RollbackDone]
  | JobStateABORTED => [RollbackDone]
  | JobStateROLLBACKFAILED => [CancelledByUserForced]
  | JobStateDONEBUTUNTIDY => if decide (t = JobTypeDELETION) then [RetryForced; DeletionDone] else [Retried; DeletionStarted]
  | JobStateINITIALISATIONFAILED => if decide (t = JobTypeDELETION) then [CancelledByUserForced] else [CancelledByUserForced; RollbackDone]
  | _ => [CancelledByUserForced; RollbackDone]
  end.
Fixpoint walk (t : JobType) (s : JobState) (l : list JobStatus) : option JobState :=
  match l with
  | [] => Some s
  | x :: l =>
    if bool_decide (x = Continue) || (bool_decide (x = RetryForced) && info_RetryForced (jobStateInfo s)) then None
    else match edge_of t s x with Some (false, s') => walk t s' l | _ => None end
  end.
Lemma way_out_ends t s :
  in_states t s = true -> t <> JobTypeINGESTION -> walk t s (way_out t s) = Some JobStateDONE \/ walk t s (way_out t s) = Some JobStateFAILED.
Proof. intros Hs Ht. destruct t; [|done|]; destruct s; try (vm_compute in Hs; discriminate); first [by left; vm_compute|by right; vm_compute]. Qed.

Lemma walk_triggers id l w s :
  job_ok (job w) -> walk (Type_ (job w)) (State (job w)) l = Some s ->
  exists w', triggers ((fun x => mkJobEvent id x "") <$> l) w = (Ret tt, w') /\ State (job w') = s.
Proof.
  revert w. induction l as [|x l IH]; intros w Hok Hw; [exists w; split; [done|]; by injection Hw|].
  cbn [walk] in Hw. cbn [fmap list_fmap triggers]. unfold mbind, eff_bind, try.
  pose proof (Trigger_spec (mkJobEvent id x "") w Hok) as H. cbn [evt_Status] in H.
  destruct (bool_decide (x = Continue)) eqn:E1; [done|]. apply bool_decide_eq_false in E1. cbn [orb] in Hw.
  assert (exists s1 wt, next (job w) x = Some (s1, wt) /\ s1 ∈ states (Type_ (job w)) /\ walk (Type_ (job w)) s1 l = Some s) as (s1 & wt & En & Hin & Hw1).
  { unfold next. rewrite decide_False by done. destruct (bool_decide _ && _) in Hw |- *; [done|].
    destruct (edge_of _ _ _) as [[[] s1]|] eqn:E; try done. exists s1. eexists. split; [reflexivity|]. split; [|done].
    right. apply list_elem_of_fmap. eexists (_, _, _, _). split; [|by apply edge_of_elem]. done. }
  rewrite En in H. destruct H as (w1 & -> & Hf & HS & _). assert (Type_ (job w1) = Type_ (job w)) as HT by (by destruct Hf as [[] _]).
  apply IH; [|by rewrite HT, HS]. destruct Hok as (? & _ & ?). split; [eapply frame_alive; [apply Hf|done]|]. rewrite HT, HS.
  split; [by apply in_states_elem|done].
Qed.

(** C34. A job is never stuck: in every state it can be in, waiting or not, there is a finite
    sequence of events, of users and of steps that succeed, that brings it to [DONE] or
    [FAILED]; each of them is one [NewJobEvent] makes. *)
Theorem job_can_finish w :
  job_ok (job w) ->
  exists evts w', Forall (fun e => NewJobEvent (ID (job w)) (evt_Status e) "" = Ok e) evts /\
    triggers evts w = (Ret tt, w') /\ (State (job w') = JobStateDONE \/ State (job w') = JobStateFAILED).
Proof.
  intros Hok. set (l := way_out (Type_ (job w)) (State (job w))). exists ((fun x => mkJobEvent (ID (job w)) x "") <$> l).
  assert (Forall (fun x => statusWithError x = false) l) as Hl.
  { unfold l, way_out. destruct (State (job w)); try case_decide; repeat constructor. }
  pose proof (way_out_ends (Type_ (job w)) (State (job w)) (proj1 (proj2 Hok)) (proj2 (proj2 Hok))) as Hends. fold l in Hends.
  assert (exists s, walk (Type_ (job w)) (State (job w)) l = Some s /\ (s = JobStateDONE \/ s = JobStateFAILED)) as (s & Hs & Hfin).
  { destruct Hends as [->| ->]; eexists; (split; [done|]); [by left|by right]. }
  destruct (walk_triggers (ID (job w)) l w s Hok Hs) as (w' & Hr & <-). exists w'. split; [|done].
  apply Forall_fmap. eapply Forall_impl; [exact Hl|]. intros x Hx. cbn. unfold NewJobEvent. by rewrite Hx.
Qed.
End facts.
