(* ===== verification/JobStore.v ===== *)
(** * The database of jobs ([raster/interface/database/pg/pg_jobs.go], [raster/svc/persister.go])

    The tables of the raster service that jobs work on, the statements on them, units of work
    and how a job is saved. A table is a finite map from its key; a statement that violates a
    key fails as the code expects it. Every call of the database can fail, and between two
    calls that are not in one transaction other processes change the tables. *)

From Stdlib Require Import Ascii String ZArith Lia Bool.
From stdpp Require Import base list strings option sets gmap.
From S2P Require Import Prelude GoStd Strconv Effects Enumer Job.

Local Open Scope Z_scope.

(** ** Rows *)

Record jobRow := mkJobRow {
  jr_name : string; jr_type : JobType; jr_creation_ts : Z; jr_last_update_ts : Z; jr_state : JobState;
  jr_active_tasks : Z; jr_failed_tasks : Z; jr_payload : JobPayload; jr_execution_level : Z; jr_waiting : bool }.
Record taskRow := mkTaskRow { tr_state : TaskState; tr_payload : string; tr_job : string }.

Inductive DatasetStatus := DatasetStatusACTIVE | DatasetStatusTODELETE | DatasetStatusINACTIVE.
#[global] Instance DatasetStatus_eq_dec : EqDecision DatasetStatus.
Proof. solve_decision. Defined.
(** The format of the values of a dataset: floats are their bits. *)
Record DataMapping := mkMapping {
  dm_DType : Z; dm_NoData : Z; dm_Min : Z; dm_Max : Z; dm_RangeMin : Z; dm_RangeMax : Z; dm_Exponent : Z }.
#[global] Instance DataMapping_eq_dec : EqDecision DataMapping.
Proof. solve_decision. Defined.
(** The shapes of a dataset are geometries of PostGIS, kept as one text. *)
Record datasetRow := mkDatasetRow {
  dr_record : string; dr_instance : string; dr_container : string; dr_subdir : string; dr_bands : list Z;
  dr_mapping : DataMapping; dr_status : DatasetStatus; dr_shape : string; dr_overviews : bool; dr_locked_by : option string }.

(** Locked datasets by their id, with the job and the flag. *)
Record db := mkDb {
  jobs : gmap string jobRow;
  tasks : gmap string taskRow;
  job_logs : list (string * JobLog);
  consolidation_params : gmap string ConsolidationParams;
  locked_datasets : gmap string (string * nat);
  datasets : gmap string datasetRow }.

Definition set_jobs x d := mkDb x (tasks d) (job_logs d) (consolidation_params d) (locked_datasets d) (datasets d).
Definition set_tasks x d := mkDb (jobs d) x (job_logs d) (consolidation_params d) (locked_datasets d) (datasets d).
Definition set_job_logs x d := mkDb (jobs d) (tasks d) x (consolidation_params d) (locked_datasets d) (datasets d).
Definition set_consolidation_params x d := mkDb (jobs d) (tasks d) (job_logs d) x (locked_datasets d) (datasets d).
Definition set_locked_datasets x d := mkDb (jobs d) (tasks d) (job_logs d) (consolidation_params d) x (datasets d).
Definition set_datasets x d := mkDb (jobs d) (tasks d) (job_logs d) (consolidation_params d) (locked_datasets d) x.

(** ** Statements

    Each is a function of the tables; an error leaves them, as a transaction with an error is
    rolled back. *)

Module Pg.
Definition jobOfRow (jobID : string) (r : jobRow) (ts : list Task) : Job :=
  let j := NewJob jobID in
  mkJob (j_ps j) (jr_state r) jobID (jr_name r) (jr_type r) (jr_creation_ts r) (occTime j) (jr_last_update_ts r) (jr_payload r)
    (Logs j) (LogsCount j) (NewLogs j) (jr_active_tasks r) (jr_failed_tasks r) (jr_execution_level r) (jr_waiting r)
    ts (Params j) (LockedDatasets_ j).
(** Without the logs. *)
Definition ReadJob (jobID : string) (d : db) : result gcError Job :=
  match jobs d !! jobID with
  | None => Err (NewEntityNotFound "Job" "id" jobID "")
  | Some r => Ok (jobOfRow jobID r [])
  end.
(** The payload of the task is not read. *)
Definition ReadJobWithTask (jobID taskID : string) (d : db) : result gcError Job :=
  let notFound := Err (NewEntityNotFound "Job/Task" "id/id" (jobID +:+ "/" +:+ taskID) "") in
  match jobs d !! jobID, tasks d !! taskID with
  | Some r, Some t =>
    if decide (tr_job t = jobID) then Ok (jobOfRow jobID r [mkTask persistenceStateUNKNOWN taskID (tr_state t) ""]) else notFound
  | _, _ => notFound
  end.
(** The column [waiting] has its default. Names of jobs are unique. *)
Definition CreateJob (j : Job) (d : db) : result gcError db :=
  if bool_decide (jobs d !! ID j = None) && bool_decide (map_Forall (fun _ r => jr_name r <> Name j) (jobs d))
  then Ok (set_jobs (<[ID j := mkJobRow (Name j) (Type_ j) (CreationTime j) (LastUpdateTime j) (State j) (ActiveTasks j) (FailedTasks j)
                                 (Payload j) (ExecutionLevel j) false]> (jobs d)) d)
  else Err (NewEntityAlreadyExists "Job" "name" (Name j) "").
(** Its tasks must have been deleted before; its datasets are released. *)
Definition unlock (r : datasetRow) : datasetRow :=
  mkDatasetRow (dr_record r) (dr_instance r) (dr_container r) (dr_subdir r) (dr_bands r) (dr_mapping r) (dr_status r) (dr_shape r)
    (dr_overviews r) None.
Definition DeleteJob (jobID : string) (d : db) : result gcError db :=
  if bool_decide (map_Forall (fun _ t => tr_job t <> jobID) (tasks d))
  then Ok (set_jobs (delete jobID (jobs d))
             (set_locked_datasets (filter (fun kv => kv.2.1 <> jobID) (locked_datasets d))
               (set_datasets ((fun r => if bool_decide (dr_locked_by r = Some jobID) then unlock r else r) <$> datasets d) d)))
  else Err (NewDependencyStillExists "jobs" "" "id" jobID "").
(** The version check of the optimistic concurrency control. *)
Definition UpdateJob (j : Job) (d : db) : result gcError db :=
  let notFound := Err (NewEntityNotFound "Job" "id/timestamp" (ID j +:+ "/" +:+ FormatInt (occTime j)) "") in
  match jobs d !! ID j with
  | Some r =>
    if jr_last_update_ts r =? occTime j
    then Ok (set_jobs (<[ID j := mkJobRow (jr_name r) (jr_type r) (jr_creation_ts r) (LastUpdateTime j) (State j) (ActiveTasks j) (FailedTasks j)
                                   (jr_payload r) (jr_execution_level r) (Waiting j)]> (jobs d)) d)
    else notFound
  | None => notFound
  end.
Definition PersistLogs (jobID : string) (logs : list JobLog) (d : db) : result gcError db :=
  Ok (set_job_logs (job_logs d ++ ((fun l => (jobID, l)) <$> logs)) d).

(** A dataset is locked once. The second statement marks the rows of the datasets. *)
Definition LockDatasets (jobID : string) (datasetsID : list string) (flag : nat) (d : db) : result gcError db :=
  if negb (bool_decide (Forall (fun i => locked_datasets d !! i = None) datasetsID))
  then Err (NewEntityAlreadyExists "" "" "" "One of the datasets is already locked")
  else if negb (bool_decide (Forall (fun i => is_Some (datasets d !! i)) datasetsID) && bool_decide (is_Some (jobs d !! jobID)))
  then Err (OtherError "LockDatasets.exec2: foreign key violation")
  else Ok (set_datasets (foldr (fun i ds => alter (fun r => mkDatasetRow (dr_record r) (dr_instance r) (dr_container r) (dr_subdir r) (dr_bands r)
                                                       (dr_mapping r) (dr_status r) (dr_shape r) (dr_overviews r) (Some jobID)) i ds) (datasets d) datasetsID)
             (set_locked_datasets (foldr (fun i ls => <[i := (jobID, flag)]> ls) (locked_datasets d) datasetsID) d)).
Definition ReleaseDatasets (jobID : string) (flag : nat) (d : db) : result gcError db :=
  Ok (set_locked_datasets (filter (fun kv => kv.2 <> (jobID, flag)) (locked_datasets d))
       (set_datasets (map_imap (fun i r =>
          Some (if bool_decide (dr_locked_by r = Some jobID) && match locked_datasets d !! i with Some (_, f) => bool_decide (f = flag) | None => false end
                then unlock r else r)) (datasets d)) d)).

Definition CreateTasks (jobID : string) (ts : list Task) (d : db) : result gcError db :=
  if negb (bool_decide (is_Some (jobs d !! jobID))) then Err (OtherError "CreateTasks: foreign key violation")
  else if bool_decide (NoDup (t_ID <$> ts)) && bool_decide (Forall (fun t => tasks d !! t_ID t = None) ts)
  then Ok (set_tasks (foldr (fun t m => <[t_ID t := mkTaskRow (t_State t) (t_Payload t) jobID]> m) (tasks d) ts) d)
  else Err (NewEntityAlreadyExists "" "" "" "Tasks").
(** [states] nil is every state. *)
Definition ReadTasks (jobID : string) (states : option (list TaskState)) (d : db) : result gcError (list Task) :=
  Ok ((fun kv : string * taskRow => mkTask persistenceStateUNKNOWN kv.1 (tr_state kv.2) (tr_payload kv.2)) <$>
      filter (fun kv : string * taskRow => tr_job kv.2 = jobID /\ match states with None => true | Some l => contains (tr_state kv.2) l end = true)
        (map_to_list (tasks d))).
Definition UpdateTask (t : Task) (d : db) : result gcError db :=
  match tasks d !! t_ID t with
  | Some r => Ok (set_tasks (<[t_ID t := mkTaskRow (t_State t) (tr_payload r) (tr_job r)]> (tasks d)) d)
  | None => Err (NewEntityNotFound "Task" "id" (t_ID t) "")
  end.
Definition DeleteTask (taskID : string) (d : db) : result gcError db := Ok (set_tasks (delete taskID (tasks d)) d).

Definition ChangeDatasetsStatus (jobID : string) (from to : DatasetStatus) (d : db) : result gcError db :=
  Ok (set_datasets ((fun r =>
        if bool_decide (dr_locked_by r = Some jobID) && bool_decide (dr_status r = from)
        then mkDatasetRow (dr_record r) (dr_instance r) (dr_container r) (dr_subdir r) (dr_bands r) (dr_mapping r) to (dr_shape r) (dr_overviews r) (dr_locked_by r)
        else r) <$> datasets d) d).

Definition CreateConsolidationParams (id : string) (p : ConsolidationParams) (d : db) : result gcError db :=
  Ok (set_consolidation_params (<[id := set_cp_ps persistenceStateUNKNOWN p]> (consolidation_params d)) d).
Definition ReadConsolidationParams (id : string) (d : db) : result gcError ConsolidationParams :=
  match consolidation_params d !! id with
  | Some p => Ok p
  | None => Err (NewEntityNotFound "ConsolidationParams" "id" id "")
  end.
Definition DeleteConsolidationParams (id : string) (d : db) : result gcError db :=
  Ok (set_consolidation_params (delete id (consolidation_params d)) d).
End Pg.

(** ** The service and what is around it *)

(** The tables as they are committed, and those of the open transaction, with the number of
    logs when it began. [commits] is not in the code: it is the history of what this process
    has committed, the tables before and after each commit. *)
Record service := mkService { committed : db; working : db; mark : nat; inTxn : bool; commits : list (db * db) }.
Definition set_committed x s := mkService x (working s) (mark s) (inTxn s) (commits s).
Definition set_working x s := mkService (committed s) x (mark s) (inTxn s) (commits s).
Definition set_txn x n b s := mkService (committed s) x n b (commits s).

(** What the [n]-th call meets: a failure of the database, and what other processes have
    committed since the last call. *)
Class Outside := {
  fails : nat -> option gcError;
  others : nat -> db -> db }.

Abbreviation W := (World service).

Section store.
Context {CK : Clock} {OUT : Outside}.
Abbreviation M := (eff gcError gcPanic W).

Definition on_rest (f : service -> service) : M unit := put (fun w => mkWorld (job w) (tick w) (f (rest w))).
(** The number of this call; unless a transaction is open, others have had a turn. *)
Definition call : M nat := fun w =>
  let n := tick w in
  (Ret n, mkWorld (job w) (S n) (if inTxn (rest w) then rest w else set_committed (others n (committed (rest w))) (rest w))).
Definition mayFail : M unit :=
  n ← call;
  match fails n with Some e => throw e | None => mret tt end.
Definition orThrow {A} (r : result gcError A) : M A := match r with Ok a => mret a | Err e => throw e end.

(** A query of [svc.db], and a statement of the transaction. *)
Definition queryDb {A} (q : db -> result gcError A) : M A := mayFail;; d ← gets (fun w => committed (rest w)); orThrow (q d).
Definition execTxn (q : db -> result gcError db) : M unit :=
  mayFail;; d ← gets (fun w => working (rest w)); d ← orThrow (q d); on_rest (set_working d).

(** The commit keeps the logs that were written outside of the transaction meanwhile. *)
Definition commitTxn (s : service) : service :=
  let d := set_job_logs (job_logs (committed s) ++ drop (mark s) (job_logs (working s))) (working s) in
  mkService d (working s) (mark s) (inTxn s) (commits s ++ [(committed s, d)]).
(** A transaction inside another is one of its own: the tables of the outer one come back.
    Others have no turn while a transaction is open; the code opens it at the default level
    of the database, at which a statement also sees what others commit meanwhile. *)
Definition unitOfWork {A} (f : M A) : M A :=
  wrap (Wrapped "uow.starttransaction: ") mayFail;;
  outer ← gets (fun w => rest w);
  on_rest (fun s => set_txn (committed s) (length (job_logs (committed s))) true s);;
  let leave : M unit := on_rest (set_txn (working outer) (mark outer) (inTxn outer)) in
  r ← try f;
  match r with
  | Err e => leave;; throw (Wrapped "uow." e)
  | Ok a =>
    c ← try mayFail;
    match c with
    | Err e => leave;; throw e
    | Ok _ => on_rest commitTxn;; leave;; mret a
    end
  end.

(** ** Saving a job ([persister.go]) *)

Definition saveJobLogsTx : M unit :=
  j ← this id;
  (if (length (NewLogs j) =? 0)%nat then mret tt
   else wrap (Wrapped "failed to persist logs in BDD: ") (execTxn (Pg.PersistLogs (ID j) (NewLogs j))));;
  ClearPersistedLogs.
Definition saveJobLogs : M unit := unitOfWork saveJobLogsTx.

(** The loop that takes the deleted tasks out of the slice, from its end. *)
Fixpoint dropDeleted (n : nat) (ts : list Task) : list Task :=
  match n with
  | O => ts
  | S i =>
    match ts !! i, last ts with
    | Some t, Some l => dropDeleted i (if IsToDelete (t_ps t) then take (length ts - 1) (<[i := l]> ts) else ts)
    | _, _ => ts
    end
  end.

Definition savejob : gcError -> gcError := Wrapped "savejob.".
Definition saveJobDeletion : M unit :=
  j ← this id;
  each (fun i =>
    l ← locked_at i;
    if IsToDelete (l_ps l) then wrap (fun e => Wrapped ("savejob." +:+ FormatInt (Z.of_nat i) +:+ ".") e) (execTxn (Pg.ReleaseDatasets (ID j) i)) else mret tt)
    (seq 0 (length (LockedDatasets_ j)));;
  each (fun t => wrap savejob (execTxn (Pg.DeleteTask (t_ID t)))) (filter (fun t => IsToDelete (t_ps t) = true) (Tasks j));;
  (if match Params j with Some p => IsToDelete (cp_ps p) | None => false end && bool_decide (Type_ j = JobTypeCONSOLIDATION)
   then wrap savejob (execTxn (Pg.DeleteConsolidationParams (ParamsID (Payload j)))) else mret tt);;
  (if IsToDelete (j_ps j) then wrap savejob (execTxn (Pg.DeleteJob (ID j))) else mret tt).

Definition saveJobCreation : M unit :=
  j ← this id;
  (if IsNew (j_ps j) then wrap savejob (execTxn (Pg.CreateJob j)) else mret tt);;
  match Params j with
  | Some p => if IsNew (cp_ps p) && bool_decide (Type_ j = JobTypeCONSOLIDATION)
              then wrap savejob (execTxn (Pg.CreateConsolidationParams (ParamsID (Payload j)) p)) else mret tt
  | None => mret tt
  end;;
  each (fun i =>
    l ← locked_at i;
    if IsNew (l_ps l) || IsDirty (l_ps l)
    then wrap (fun e => Wrapped ("savejob." +:+ FormatInt (Z.of_nat i) +:+ ".") e) (execTxn (Pg.LockDatasets (ID j) (elements (newDatasetsID l)) i))
    else mret tt) (seq 0 (length (LockedDatasets_ j)));;
  let new := filter (fun t => IsToDelete (t_ps t) = false /\ IsNew (t_ps t) = true) (Tasks j) in
  if (0 <? length new)%nat then wrap savejob (execTxn (Pg.CreateTasks (ID j) new)) else mret tt.

(** A version that is not there any more is a temporary error. *)
Definition saveJobUpdate : M unit :=
  j ← this id;
  each (fun t => wrap savejob (execTxn (Pg.UpdateTask t)))
    (filter (fun t => IsToDelete (t_ps t) = false /\ IsNew (t_ps t) = false /\ IsDirty (t_ps t) = true) (Tasks j));;
  (if match Params j with Some p => IsDirty (cp_ps p) | None => false end then crash ParamsDirty else mret tt);;
  if IsDirty (j_ps j) || IsClean (j_ps j)
  then wrap (fun e => if IsError e EntityNotFound then errTmp (WrappedBefore (savejob e) " (temporary)") else savejob e) (execTxn (Pg.UpdateJob j))
  else mret tt.

Definition saveJobTx : M unit :=
  saveJobDeletion;;
  saveJobCreation;;
  saveJobUpdate;;
  assign (fun j => set_Tasks (dropDeleted (length (Tasks j)) (Tasks j)) j);;
  assign (fun j => match Params j with Some p => if IsToDelete (cp_ps p) then set_Params None j else j | None => j end);;
  assign (fun j => set_Locked ((fun l => if IsToDelete (l_ps l) then mkLocked persistenceStateUNKNOWN ∅ else l) <$> LockedDatasets_ j) j);;
  saveJobLogsTx;;
  p ← this j_ps;
  if IsToDelete p then assign (set_j_ps persistenceStateDELETED) else Clean true.
Definition saveJob : M unit := unitOfWork saveJobTx.

(** [GetJob]: what is read is clean. The job becomes the one of the computation. *)
Definition loadJob (j : Job) : M unit := assign (fun _ => j).
Definition GetJob (jobID : string) : M unit :=
  j ← wrap (Wrapped "GetJob.") (queryDb (Pg.ReadJob jobID));
  loadJob j;;
  Clean true.
End store.
