(* ===== verification/JobSync.v ===== *)
(** * A job in memory and its rows

    The counters of a job, in memory and in its row, agree with its tasks: those of the table
    as it will be when the job is saved. *)

From Stdlib Require Import Ascii String ZArith Lia Bool.
From stdpp Require Import base list strings option sets gmap.
From S2P Require Import Prelude GoStd Strconv Effects Enumer Job JobFacts JobStore.

Local Open Scope Z_scope.

(** ** Counting rows *)

Definition is_active (s : TaskState) : bool := match s with TaskStateNEW | TaskStatePENDING => true | _ => false end.
Definition is_failed (s : TaskState) : bool := match s with TaskStateFAILED => true | _ => false end.

Definition counts (P : TaskState -> bool) (id : string) (r : taskRow) : bool := bool_decide (tr_job r = id) && P (tr_state r).
Definition weight (b : bool) : Z := if b then 1 else 0.
Definition count (P : TaskState -> bool) (id : string) (m : gmap string taskRow) : Z :=
  Z.of_nat (size (filter (fun kv : string * taskRow => counts P id kv.2 = true) m)).

Section count.
Context (P : TaskState -> bool) (id : string).
Implicit Types (m : gmap string taskRow) (r : taskRow).

Lemma count_insert_new m k r : m !! k = None -> count P id (<[k := r]> m) = count P id m + weight (counts P id r).
Proof.
  intros Hk. unfold count. destruct (counts P id r) eqn:E.
  - rewrite map_filter_insert_True by done. rewrite map_size_insert_None; [cbn; lia|]. apply map_lookup_filter_None. by left.
  - rewrite map_filter_insert_False by (cbn; congruence). rewrite delete_id by done. cbn. lia.
Qed.
Lemma count_delete m k r : m !! k = Some r -> count P id (delete k m) = count P id m - weight (counts P id r).
Proof.
  intros Hk. rewrite <- (insert_delete_id m k r Hk) at 2. rewrite count_insert_new by apply lookup_delete_eq. lia.
Qed.
Lemma count_replace m k r r' :
  m !! k = Some r -> count P id (<[k := r']> m) = count P id m - weight (counts P id r) + weight (counts P id r').
Proof.
  intros Hk. rewrite <- insert_delete_eq. rewrite count_insert_new by apply lookup_delete_eq. by rewrite (count_delete m k r).
Qed.
Lemma count_nonneg m : 0 <= count P id m.
Proof. unfold count. lia. Qed.
Lemma count_ge m k r : m !! k = Some r -> weight (counts P id r) <= count P id m.
Proof. intros Hk. pose proof (count_delete m k r Hk). pose proof (count_nonneg (delete k m)). lia. Qed.
Lemma count_ext m m' :
  (forall k r, tr_job r = id -> m !! k = Some r <-> m' !! k = Some r) -> count P id m = count P id m'.
Proof.
  intros H. unfold count. do 2 f_equal. apply map_eq. intros k. apply option_eq. intros r. rewrite !map_lookup_filter_Some.
  cbn. unfold counts. destruct (decide (tr_job r = id)) as [Hr|Hr]; [by rewrite (H k r Hr)|].
  rewrite bool_decide_eq_false_2 by done. cbn. intuition congruence.
Qed.
End count.

(** ** The table when a job is saved *)

(** What becomes of the row of a task. *)
Definition effect (id : string) (t : Task) (o : option taskRow) : option taskRow :=
  match t_ps t with
  | persistenceStateTODELETE | persistenceStateDELETED => None
  | persistenceStateNEW => Some (mkTaskRow (t_State t) (t_Payload t) id)
  | persistenceStateDIRTY => (fun r => mkTaskRow (t_State t) (tr_payload r) (tr_job r)) <$> o
  | _ => o
  end.
Definition target (id : string) (ts : list Task) (m : gmap string taskRow) : gmap string taskRow :=
  foldr (fun t m => partial_alter (effect id t) (t_ID t) m) m ts.

Lemma target_other id ts m k : k ∉ t_ID <$> ts -> target id ts m !! k = m !! k.
Proof.
  induction ts as [|t ts IH]; [done|]. cbn. intros [Hk Hks]%not_elem_of_cons. rewrite lookup_partial_alter_ne by done. by apply IH.
Qed.
Lemma target_elem id ts m t : NoDup (t_ID <$> ts) -> t ∈ ts -> target id ts m !! t_ID t = effect id t (m !! t_ID t).
Proof.
  induction ts as [|u ts IH]; [intros _ H; by apply not_elem_of_nil in H|]. cbn [fmap list_fmap]. intros [Hu Hnd]%NoDup_cons Ht.
  cbn [target foldr]. apply elem_of_cons in Ht as [->|Ht].
  - rewrite lookup_partial_alter_eq. f_equal. by apply target_other.
  - rewrite lookup_partial_alter_ne; [by apply IH|]. intros E. apply Hu. rewrite E. apply list_elem_of_fmap. by exists t.
Qed.

Definition oweight (P : TaskState -> bool) (id : string) (o : option taskRow) : Z :=
  match o with Some r => weight (counts P id r) | None => 0 end.
Lemma count_set P id m k o : count P id (partial_alter (fun _ => o) k m) = count P id m - oweight P id (m !! k) + oweight P id o.
Proof.
  destruct o as [r|].
  - change (partial_alter (fun _ => Some r) k m) with (<[k := r]> m). destruct (m !! k) as [q|] eqn:E; cbn [oweight].
    + by apply count_replace.
    + rewrite count_insert_new by done. lia.
  - change (partial_alter (fun _ => None) k m) with (delete k m). destruct (m !! k) as [q|] eqn:E; cbn [oweight].
    + rewrite (count_delete _ _ _ _ _ E). lia.
    + rewrite delete_id by done. lia.
Qed.
Lemma target_set id ts m i t t' :
  NoDup (t_ID <$> ts) -> ts !! i = Some t -> t_ID t' = t_ID t ->
  target id (<[i := t']> ts) m = partial_alter (fun _ => effect id t' (m !! t_ID t)) (t_ID t) (target id ts m).
Proof.
  intros Hnd Hi E. assert (t_ID <$> <[i := t']> ts = t_ID <$> ts) as Hids.
  { rewrite list_fmap_insert, E. apply list_insert_id. by rewrite list_lookup_fmap, Hi. }
  assert (t' ∈ <[i := t']> ts) as Hin.
  { apply list_elem_of_lookup. exists i. apply list_lookup_insert_eq. by apply lookup_lt_Some in Hi. }
  apply map_eq. intros k. destruct (decide (k = t_ID t)) as [->|Hk].
  - rewrite lookup_partial_alter_eq. rewrite <- E. rewrite target_elem; [by rewrite E|by rewrite Hids|done].
  - rewrite lookup_partial_alter_ne by done. destruct (decide (k ∈ t_ID <$> ts)) as [Hk'|Hk'].
    + apply list_elem_of_fmap in Hk' as (u & -> & Hu). rewrite (target_elem _ ts) by done.
      rewrite target_elem; [done|by rewrite Hids|]. apply list_elem_of_lookup in Hu as [j Hj]. apply list_elem_of_lookup. exists j.
      rewrite list_lookup_insert_ne; [done|]. intros ->. congruence.
    + rewrite !target_other; [done|done|by rewrite Hids].
Qed.
Lemma target_app_new id ts m t :
  t_ID t ∉ t_ID <$> ts -> target id (ts ++ [t]) m = partial_alter (fun _ => effect id t (m !! t_ID t)) (t_ID t) (target id ts m).
Proof.
  intros Ht. unfold target. rewrite foldr_app. cbn [foldr]. induction ts as [|u ts IH]; cbn [foldr].
  { apply map_eq. intros k. destruct (decide (k = t_ID t)) as [->|]; [by rewrite !lookup_partial_alter_eq|by rewrite !lookup_partial_alter_ne]. }
  apply not_elem_of_cons in Ht as [Hne Ht]. rewrite IH by done. apply map_eq. intros k.
  destruct (decide (k = t_ID t)) as [->|H1]; [by rewrite lookup_partial_alter_ne, !lookup_partial_alter_eq by congruence|].
  rewrite (lookup_partial_alter_ne _ _ (t_ID t)) by done. destruct (decide (k = t_ID u)) as [->|H2].
  - by rewrite !lookup_partial_alter_eq, lookup_partial_alter_ne by congruence.
  - by rewrite !lookup_partial_alter_ne by done.
Qed.

(** ** A job that agrees with its rows *)

Definition task_ok (id : string) (m : gmap string taskRow) (t : Task) : Prop :=
  match t_ps t with
  | persistenceStateUNKNOWN | persistenceStateCLEAN => exists r, m !! t_ID t = Some r /\ tr_state r = t_State t /\ tr_job r = id
  | persistenceStateDIRTY | persistenceStateTODELETE => exists r, m !! t_ID t = Some r /\ tr_job r = id
  | persistenceStateNEW => True
  | persistenceStateDELETED => False
  end.
Record agrees (m : gmap string taskRow) (j : Job) : Prop := {
  ag_nodup : NoDup (t_ID <$> Tasks j);
  ag_tasks : Forall (task_ok (ID j) m) (Tasks j);
  ag_active : ActiveTasks j = count is_active (ID j) (target (ID j) (Tasks j) m);
  ag_failed : FailedTasks j = count is_failed (ID j) (target (ID j) (Tasks j) m) }.

(** The row of a task that is not to be deleted will have its state. *)
Lemma effect_state id m t :
  task_ok id m t -> t_ps t <> persistenceStateTODELETE ->
  exists r, effect id t (m !! t_ID t) = Some r /\ tr_state r = t_State t /\ tr_job r = id.
Proof.
  unfold task_ok, effect. intros Ht Hd. destruct (t_ps t); try done.
  - by eexists.
  - destruct Ht as (r & -> & ?). by eexists.
Qed.
Lemma effect_weight P id m t :
  task_ok id m t -> t_ps t <> persistenceStateTODELETE -> oweight P id (effect id t (m !! t_ID t)) = weight (P (t_State t)).
Proof.
  intros Ht Hd. destruct (effect_state id m t Ht Hd) as (r & -> & E & Hj). cbn. unfold counts. by rewrite bool_decide_eq_true_2, E.
Qed.

(** ** Operations on tasks *)

(** What they leave alone. *)
Record kept (j j' : Job) : Prop := {
  kp_ID : ID j' = ID j; kp_Name : Name j' = Name j; kp_Type : Type_ j' = Type_ j; kp_occ : occTime j' = occTime j;
  kp_Payload : Payload j' = Payload j; kp_level : ExecutionLevel j' = ExecutionLevel j; kp_Params : Params j' = Params j;
  kp_Locked : LockedDatasets_ j' = LockedDatasets_ j; kp_State : State j' = State j; kp_Waiting : Waiting j' = Waiting j;
  kp_ps : j_ps j' = j_ps j \/ ps_dirty (j_ps j) = Ok (j_ps j') }.
#[global] Instance kept_refl : Reflexive kept.
Proof. intros j. split; try done. by left. Qed.
#[global] Instance kept_trans : Transitive kept.
Proof.
  intros a b c [] []. split; try congruence.
  destruct kp_ps0 as [E|E], kp_ps1 as [E'|E']; [left; congruence|right; congruence|right; congruence|right; by eapply dirty_twice].
Qed.
Lemma kept_alive j j' : kept j j' -> ps_alive (j_ps j) -> ps_alive (j_ps j').
Proof. intros [] Hj. destruct kp_ps0 as [->|E]; [done|]. intros E'. rewrite E' in E. destruct (j_ps j); vm_compute in E; done. Qed.
Lemma quiet_kept j j' : quiet j j' -> kept j j'.
Proof. intros ([] & ? & ?). by split. Qed.

(** [agrees] for the parts of a job it is about. *)
Definition agree (m : gmap string taskRow) (id : string) (ts : list Task) (a f : Z) : Prop :=
  NoDup (t_ID <$> ts) /\ Forall (task_ok id m) ts /\ a = count is_active id (target id ts m) /\ f = count is_failed id (target id ts m).
Lemma agrees_iff m j : agrees m j <-> agree m (ID j) (Tasks j) (ActiveTasks j) (FailedTasks j).
Proof. split; [intros []|intros (? & ? & ? & ?)]; by repeat split. Qed.
Lemma agrees_quiet m j j' : quiet j j' -> agrees m j -> agrees m j'.
Proof. rewrite !agrees_iff. intros ([] & _) H. congruence. Qed.

Lemma agree_set m id ts a f i t t' :
  agree m id ts a f -> ts !! i = Some t -> t_ID t' = t_ID t -> task_ok id m t' ->
  let d P := oweight P id (effect id t' (m !! t_ID t)) - oweight P id (effect id t (m !! t_ID t)) in
  agree m id (<[i := t']> ts) (a + d is_active) (f + d is_failed).
Proof.
  intros (Hnd & Hts & -> & ->) Hi E Ht' d. assert (t ∈ ts) as Hin by (apply list_elem_of_lookup; by exists i). split; [|split].
  - rewrite list_fmap_insert, E, list_insert_id; [done|]. by rewrite list_lookup_fmap, Hi.
  - by apply Forall_insert.
  - rewrite (target_set id ts m i t t' Hnd Hi E), !count_set, (target_elem id ts m t Hnd Hin). subst d. cbn. lia.
Qed.

Section operations.
Context {CK : Clock} {X : Type}.
Implicit Types (w : World X).

(** The clock is read after the version of the job was. *)
Definition timely w : Prop := forall k, (tick w <= k)%nat -> occTime (job w) < time_at k.
(** What an operation on tasks does to the world. *)
Definition worked w w' : Prop := within kept w w' /\ (tick w <= tick w')%nat.

Lemma worked_refl w : worked w w.
Proof. split; [apply (within_refl kept)|done]. Qed.
Lemma worked_trans a b c : worked a b -> worked b c -> worked a c.
Proof. intros [H ?] [H' ?]. split; [by eapply (within_trans kept)|lia]. Qed.
Lemma quiet_worked w w' : within quiet w w' -> worked w w'.
Proof. intros H. split; [by eapply within_mono; [apply quiet_kept|]|apply H]. Qed.

Lemma updateTaskCounters_run s inc w :
  ps_alive (j_ps (job w)) ->
  let a := ActiveTasks (job w) + inc * weight (is_active s) in let f := FailedTasks (job w) + inc * weight (is_failed s) in
  0 <= a -> 0 <= f ->
  exists w', updateTaskCounters s inc w = (Ret tt, w') /\ worked w w' /\ Tasks (job w') = Tasks (job w) /\
    ActiveTasks (job w') = a /\ FailedTasks (job w') = f.
Proof.
  intros Hp a f Ha Hf.
  assert (forall w1, (if ActiveTasks (job w1) <? 0 then crash NegativeActiveTasks else
     if FailedTasks (job w1) <? 0 then crash NegativeFailedTasks else mret tt : eff gcError gcPanic (World X) unit) w1 = (Ret tt, w1) \/
     ActiveTasks (job w1) < 0 \/ FailedTasks (job w1) < 0) as Hend.
  { intros w1. destruct (Z.ltb_spec (ActiveTasks (job w1)) 0); [by right; left|]. destruct (Z.ltb_spec (FailedTasks (job w1)) 0); [by right; right|by left]. }
  assert (forall g, (forall j, kept j (g j) /\ Tasks (g j) = Tasks j /\ j_ps (g j) = j_ps j /\ LastUpdateTime (g j) = LastUpdateTime j) ->
    ActiveTasks (g (job w)) = a -> FailedTasks (g (job w)) = f ->
    exists w', (assign g;; dirty) w = (Ret tt, w') /\ worked w w' /\ Tasks (job w') = Tasks (job w) /\ ActiveTasks (job w') = a /\ FailedTasks (job w') = f) as Hset.
  { intros g Hg HA HF. unfold mbind, eff_bind, assign, put. set (w1 := on_job g w). destruct (Hg (job w)) as (Hk & HT & Hps & HL).
    assert (ps_alive (j_ps (job w1))) as Hp1 by (cbn; by rewrite Hps).
    destruct (dirty_quiet w1 Hp1) as (w' & -> & Hq). exists w'. split; [done|]. destruct (quiet_worked _ _ Hq) as [Hk' Ht'].
    destruct Hq as (([] & _) & _). split; [|cbn in *; split_and!; congruence].
    eapply worked_trans; [|by split]. split; [|done]. split; [done|]. split; [done|]. split; [done|by left]. }
  assert (exists w1, match s with
    | TaskStatePENDING | TaskStateNEW => assign (fun j => set_ActiveTasks (ActiveTasks j + inc) j);; dirty
    | TaskStateFAILED => assign (fun j => set_FailedTasks (FailedTasks j + inc) j);; dirty
    | _ => mret tt end w = (Ret tt, w1) /\ worked w w1 /\ Tasks (job w1) = Tasks (job w) /\ ActiveTasks (job w1) = a /\ FailedTasks (job w1) = f) as (w1 & Hr & Hw & HT & HA & HF).
  { destruct s.
    all: match goal with
      | |- exists w1, mret tt _ = _ /\ _ => exists w; split; [done|]; split; [apply worked_refl|]; split; [done|]
      | _ => apply Hset; [intros j; split; [split; try done; by left|done]|..]
      end.
    all: subst a f; unfold is_failed; cbn -[Z.mul Z.add]; lia. }
  exists w1. unfold updateTaskCounters. unfold mbind at 1, eff_bind at 1. rewrite Hr. unfold mbind, eff_bind, this, gets, id.
  destruct (Hend w1) as [->|]; [done|lia].
Qed.

Lemma task_at_run i w t : Tasks (job w) !! i = Some t -> task_at i w = (Ret t, w).
Proof. intros E. unfold task_at, mbind, eff_bind, this, gets. by rewrite E. Qed.

(** The states a task with a row can be changed in. *)
Definition live (t : Task) : Prop := t_ps t <> persistenceStateTODELETE /\ t_ps t <> persistenceStateDELETED.

Lemma recount o s w :
  ps_alive (j_ps (job w)) ->
  0 <= ActiveTasks (job w) - weight (is_active o) -> 0 <= FailedTasks (job w) - weight (is_failed o) ->
  exists w', (updateTaskCounters o (-1);; updateTaskCounters s 1;; mret true) w = (Ret true, w') /\ worked w w' /\ Tasks (job w') = Tasks (job w) /\
    ActiveTasks (job w') = ActiveTasks (job w) + (weight (is_active s) - weight (is_active o)) /\
    FailedTasks (job w') = FailedTasks (job w) + (weight (is_failed s) - weight (is_failed o)).
Proof.
  intros Hp HA HF. assert (0 <= weight (is_active s) /\ 0 <= weight (is_failed s)) as [Hs1 Hs2] by (destruct s; cbn; lia).
  destruct (updateTaskCounters_run o (-1) w Hp) as (w1 & Hr1 & Hw1 & HT1 & HA1 & HF1); [lia..|].
  assert (ps_alive (j_ps (job w1))) as Hp1 by (eapply kept_alive; [apply Hw1|done]).
  destruct (updateTaskCounters_run s 1 w1 Hp1) as (w2 & Hr2 & Hw2 & HT2 & HA2 & HF2); [lia..|].
  exists w2. split; [unfold mbind, eff_bind; by rewrite Hr1, Hr2|]. split; [by eapply worked_trans|]. split; [congruence|lia].
Qed.

Lemma task_counted P m id ts t :
  NoDup (t_ID <$> ts) -> t ∈ ts -> task_ok id m t -> t_ps t <> persistenceStateTODELETE -> weight (P (t_State t)) <= count P id (target id ts m).
Proof.
  intros Hnd Hin Ht Hd. rewrite <- (effect_weight P id m t Ht Hd). destruct (effect_state id m t Ht Hd) as (r & E & _). rewrite E. cbn [oweight].
  apply (count_ge P id _ (t_ID t)). by rewrite target_elem.
Qed.
(** A task whose state is changed is one to be updated, unless it is new. *)
Lemma task_ok_dirty id m t p s :
  task_ok id m t -> live t -> ps_dirty (t_ps t) = Ok p ->
  let t' := mkTask p (t_ID t) s (t_Payload t) in task_ok id m t' /\ live t'.
Proof.
  unfold task_ok, live. intros Ht [H1 H2] Ed. cbn. destruct (t_ps t); try done; vm_compute in Ed; injection Ed as <-; try done.
  all: (split; [|done]); destruct Ht as (r & ? & ? & ?); by exists r.
Qed.

Lemma setTaskState_run m i s w t :
  ps_alive (j_ps (job w)) -> agrees m (job w) -> Tasks (job w) !! i = Some t -> live t ->
  exists b t' w', setTaskState i s w = (Ret b, w') /\ worked w w' /\ agrees m (job w') /\ Tasks (job w') = <[i := t']> (Tasks (job w)) /\
    t_ID t' = t_ID t /\ t_State t' = s /\ live t' /\ (t_ps t' = t_ps t \/ ps_dirty (t_ps t) = Ok (t_ps t')).
Proof.
  intros Hp Ha Hi Hl. unfold setTaskState, setState. unfold mbind, eff_bind. rewrite !(task_at_run _ _ _ Hi). cbv beta iota.
  destruct (decide (t_State t = s)) as [E|E].
  { exists false, t, w. rewrite list_insert_id by done. split; [done|]. split; [apply worked_refl|]. repeat (split; [done|]). by left. }
  destruct (ps_dirty (t_ps t)) as [p|] eqn:Ed; [|by destruct Hl, (t_ps t)]. unfold orCrash, mret, eff_ret, set_task, assign, put. cbv beta iota.
  set (t' := mkTask p (t_ID t) s (t_Payload t)). set (w1 := on_job _ w).
  pose proof (proj1 (agrees_iff m (job w)) Ha) as Hag. pose proof Hag as (Hnd & Hts & HA & HF).
  assert (task_ok (ID (job w)) m t) as Ht by (by eapply Forall_lookup_1). assert (t ∈ Tasks (job w)) as Hin by (apply list_elem_of_lookup; by exists i).
  destruct (task_ok_dirty _ _ _ p s Ht Hl Ed) as [Ht' Hl'].
  pose proof (agree_set _ _ _ _ _ i t t' Hag Hi eq_refl Ht') as Hset. cbv zeta beta in Hset.
  rewrite !(effect_weight _ _ _ t Ht (proj1 Hl)) in Hset. change (t_ID t) with (t_ID t') in Hset. rewrite !(effect_weight _ _ _ t' Ht' (proj1 Hl')) in Hset.
  destruct (recount (t_State t) s w1) as (w2 & Hr & Hw & HT & HA2 & HF2); [done| | |].
  { pose proof (task_counted is_active m _ _ t Hnd Hin Ht (proj1 Hl)). cbn. lia. }
  { pose proof (task_counted is_failed m _ _ t Hnd Hin Ht (proj1 Hl)). cbn. lia. }
  exists true, t', w2. unfold mbind, eff_bind in Hr. split; [exact Hr|]. split; [|split].
  - eapply worked_trans; [|exact Hw]. split; [|done]. split; [split; try done; by left|]. split; [done|]. split; [done|by left].
  - apply agrees_iff. rewrite HT, HA2, HF2, (kp_ID _ _ (proj1 (proj1 Hw))). exact Hset.
  - rewrite HT. repeat (split; [done|]). by right.
Qed.

(** The task an event is about. *)
Lemma task_run id w :
  (exists i t, task id w = (Ret (Some i), w) /\ Tasks (job w) !! i = Some t /\ t_ID t = id) \/
  (task id w = (Ret None, w) /\ id ∉ t_ID <$> Tasks (job w)).
Proof.
  unfold task, mbind, eff_bind, this, gets, mret, eff_ret. destruct (list_find _ _) as [[i t]|] eqn:E.
  - apply list_find_Some in E as (Hi & Ht & _). left. by exists i, t.
  - right. split; [done|]. apply list_find_None in E. intros (t & -> & Ht)%list_elem_of_fmap. rewrite Forall_forall in E. by apply (E t Ht).
Qed.

Definition open_state (s : JobState) : bool :=
  bool_decide (s = JobStateCONSOLIDATIONINPROGRESS \/ s = JobStateDELETIONEFFECTIVE \/ s = JobStateCONSOLIDATIONCANCELLING).
(** What an event makes of the state of a task, in an open state. *)
Definition task_next (o : TaskState) (status : TaskStatus) : TaskState :=
  let s := taskStateFromStatus status in
  match o with
  | TaskStateFAILED | TaskStateCANCELLED => if decide (s = TaskStateDONE) then s else o
  | _ => s
  end.

(** The task with the id of the event has changed as [task_next] says, and no other. *)
Definition task_changed evt (ts ts' : list Task) : Prop :=
  exists i t t', ts !! i = Some t /\ t_ID t = te_TaskID evt /\ ts' = <[i := t']> ts /\ t_ID t' = t_ID t /\
    t_State t' = task_next (t_State t) (te_Status evt) /\ (t_ps t' = t_ps t \/ ps_dirty (t_ps t) = Ok (t_ps t')).
Definition updated m evt w (r : outcome gcError gcPanic unit * World X) : Prop :=
  match r with
  | (Ret _, w') => worked w w' /\ task_changed evt (Tasks (job w)) (Tasks (job w')) /\
      if open_state (State (job w)) then agrees m (job w') /\ Forall live (Tasks (job w')) else w' = w
  | (Throw _, w') => w' = w
  | (Crash p, _) => p = UndefinedTaskStatus /\ (te_Status evt = TaskSent \/ te_Status evt = TaskIgnored)
  end.

Lemma updated_unhandled m evt w :
  updated m evt w ((s ← orCrash (TaskStatus_String (te_Status evt));
    j ← this id;
    throw (NewUnhandledEvent ("Job " +:+ ID j +:+ " Task " +:+ te_TaskID evt +:+ " Status " +:+ s))) w).
Proof. unfold mbind, eff_bind. destruct (te_Status evt) eqn:E; cbn; auto. Qed.
Lemma updated_same m evt w i t :
  (open_state (State (job w)) = true -> agrees m (job w)) -> Forall live (Tasks (job w)) ->
  Tasks (job w) !! i = Some t -> t_ID t = te_TaskID evt -> task_next (t_State t) (te_Status evt) = t_State t -> updated m evt w ((mret tt : eff gcError gcPanic (World X) unit) w).
Proof.
  intros Ha Hl Hi Ht E. split; [apply worked_refl|]. split; [exists i, t, t; rewrite list_insert_id by done; auto 10|].
  destruct (open_state _); [by split; [apply Ha|]|done].
Qed.
Lemma updated_set m evt w i t s msg :
  ps_alive (j_ps (job w)) -> agrees m (job w) -> Forall live (Tasks (job w)) -> open_state (State (job w)) = true ->
  Tasks (job w) !! i = Some t -> t_ID t = te_TaskID evt -> task_next (t_State t) (te_Status evt) = s ->
  updated m evt w ((setTaskState i s;; if decide (s = TaskStateFAILED) then LogErr msg else mret tt) w).
Proof.
  intros Hp Ha Hlive Eo Hi Ht En. unfold mbind, eff_bind.
  destruct (setTaskState_run m i s w t Hp Ha Hi) as (b & t' & w1 & -> & Hw & Ha1 & HT & Hid & Hst & Hl' & Hps); [by eapply Forall_lookup_1|].
  assert (exists w2, (if decide (s = TaskStateFAILED) then LogErr msg else mret tt) w1 = (Ret tt, w2) /\ within quiet w1 w2) as (w2 & -> & Hq).
  { destruct (decide _); [apply LogErr_quiet; eapply kept_alive; [apply Hw|done]|]. exists w1. split; [done|]. apply (within_refl quiet). }
  assert (Tasks (job w2) = <[i := t']> (Tasks (job w))) as HT2 by (destruct Hq as (([] & _) & _); congruence).
  split; [eapply worked_trans; [exact Hw|by apply quiet_worked]|]. split; [exists i, t, t'; by rewrite En|]. rewrite Eo.
  split; [eapply agrees_quiet; [apply Hq|done]|]. rewrite HT2. by apply Forall_insert.
Qed.
Lemma UpdateTask_run m evt w :
  ps_alive (j_ps (job w)) -> (open_state (State (job w)) = true -> agrees m (job w)) -> Forall live (Tasks (job w)) ->
  updated m evt w (UpdateTask evt w).
Proof.
  intros Hp Ha Hlive. unfold UpdateTask.
  unfold mbind at 1, eff_bind at 1. destruct (task_run (te_TaskID evt) w) as [(i & t & -> & Hi & Ht)|[-> _]]; [|done].
  unfold mbind at 1, eff_bind at 1. rewrite (task_at_run i w t Hi).
  set (newState := taskStateFromStatus (te_Status evt)).
  pose proof (fun H => updated_same m evt w i t Ha Hlive Hi Ht H) as Hsame.
  destruct (decide (newState = t_State t)) as [E|E].
  { apply Hsame. unfold task_next. fold newState. rewrite E. by destruct (t_State t). }
  unfold mbind at 1, eff_bind at 1, this, gets. cbv beta iota. fold (open_state (State (job w))).
  destruct (open_state (State (job w))) eqn:Eo; cbn [negb]; [|apply updated_unhandled].
  pose proof (fun H msg => updated_set m evt w i t newState msg Hp (Ha eq_refl) Hlive Eo Hi Ht H) as Hset.
  unfold task_next in Hset, Hsame. fold newState in Hset, Hsame.
  destruct (t_State t) eqn:Es; try (by apply Hset); try apply updated_unhandled.
  all: destruct (decide (newState <> TaskStateDONE)) as [Hn|Hn].
  1,3: rewrite decide_False in Hsame by done; by apply Hsame.
  all: assert (newState = TaskStateDONE) as Hd by (destruct (decide (newState = TaskStateDONE)); [done|by exfalso]).
  all: apply Hset; by rewrite decide_True.
Qed.
End operations.
