(* ===== verification/JobSave.v ===== *)
(** * Saving a job: optimistic concurrency

    [saveJob] changes all tables or none, to those the job in memory stands for; a job that
    was read from the tables is only saved if its row still has the version it was read with. *)

From Stdlib Require Import Ascii String ZArith Lia Bool.
From stdpp Require Import base list strings option sets gmap.
From S2P Require Import Prelude GoStd Strconv Effects Enumer Job JobFacts JobStore JobSync.

Local Open Scope Z_scope.

(** ** The tasks left in memory *)

Definition kept_task (t : Task) : bool := negb (IsToDelete (t_ps t)).

Lemma swap_remove {A} (l : list A) i x y :
  l !! i = Some x -> last l = Some y -> take (length l - 1) (<[i := y]> l) ++ [x] ≡ₚ l.
Proof.
  intros Hi Hy. destruct (exists_last (l := l)) as (k & z & ->); [by intros ->|]. rewrite last_snoc in Hy. injection Hy as ->.
  rewrite length_app, Nat.add_sub. destruct (decide (i = length k)) as [->|Hne].
  - rewrite list_lookup_middle in Hi by done. injection Hi as ->. rewrite list_insert_id; [|by rewrite list_lookup_middle].
    by rewrite take_app_length.
  - apply lookup_lt_Some in Hi as Hlt. rewrite length_app in Hlt. cbn in Hlt. rewrite insert_app_l by lia.
    rewrite take_app_length' by (by rewrite length_insert). rewrite lookup_app_l in Hi by lia.
    rewrite insert_take_drop by lia. rewrite <- (take_drop_middle k i x Hi) at 3. solve_Permutation.
Qed.

(** The loop keeps the tasks that are not to be deleted, in some order. *)
Lemma dropDeleted_gen n ts :
  (n <= length ts)%nat -> dropDeleted n ts ≡ₚ filter (fun t => kept_task t = true) (take n ts) ++ drop n ts.
Proof.
  revert ts. induction n as [|i IH]; intros ts Hn; [done|]. cbn [dropDeleted].
  destruct (lookup_lt_is_Some_2 ts i) as [t Ht]; [lia|]. rewrite Ht.
  destruct (last ts) as [l|] eqn:El; [|apply last_None in El; by subst]. rewrite (take_S_r _ _ _ Ht), filter_app.
  assert (take i ts ++ t :: drop (S i) ts = ts) as Hsplit by by apply take_drop_middle.
  destruct (IsToDelete (t_ps t)) eqn:Ed.
  - rewrite (filter_cons_False _ t); [|unfold kept_task; rewrite Ed; done]. rewrite filter_nil, app_nil_r.
    set (ts' := take (length ts - 1) (<[i := l]> ts)).
    assert (take i ts' = take i ts) as Htake by (unfold ts'; rewrite take_take, Nat.min_l by lia; by apply take_insert_ge).
    assert (ts' ++ [t] ≡ₚ ts) as Hp by by apply swap_remove.
    rewrite IH; [|unfold ts'; rewrite length_take, length_insert; lia]. rewrite Htake. apply Permutation_app_head.
    rewrite <- (take_drop i ts'), Htake in Hp. rewrite <- Hsplit in Hp at 2. rewrite <- app_assoc in Hp. apply Permutation_app_inv_l in Hp.
    apply (Permutation_cons_inv (a := t)). by rewrite <- Hp, (Permutation_app_comm _ [t]).
  - rewrite IH by lia. rewrite (filter_cons_True _ t); [|unfold kept_task; by rewrite Ed]. rewrite filter_nil, <- app_assoc.
    apply Permutation_app_head. by rewrite (drop_S _ _ _ Ht).
Qed.
Lemma dropDeleted_spec ts : dropDeleted (length ts) ts ≡ₚ filter (fun t => kept_task t = true) ts.
Proof. rewrite dropDeleted_gen by done. by rewrite take_ge, drop_ge, app_nil_r. Qed.

(** ** Statements, one by one *)

Lemma target_cons id t ts m : target id (t :: ts) m = partial_alter (effect id t) (t_ID t) (target id ts m).
Proof. done. Qed.
Lemma NoDup_fmap_elem {A B} (f : A -> B) l x y : NoDup (f <$> l) -> x ∈ l -> y ∈ l -> f x = f y -> x = y.
Proof.
  intros Hnd [i Hi]%list_elem_of_lookup [j Hj]%list_elem_of_lookup E.
  assert (i = j) as <-; [|congruence]. eapply NoDup_lookup; [exact Hnd| |]; rewrite list_lookup_fmap, ?Hi, ?Hj; cbn; [done|by rewrite E].
Qed.
Lemma target_alter_comm id ts m t :
  t_ID t ∉ t_ID <$> ts -> target id ts (partial_alter (effect id t) (t_ID t) m) = partial_alter (effect id t) (t_ID t) (target id ts m).
Proof.
  induction ts as [|u ts IH]; [done|]. intros [Hne Hts]%not_elem_of_cons. rewrite !target_cons, IH by done. apply map_eq. intros k.
  destruct (decide (k = t_ID t)) as [->|H1].
  - by rewrite lookup_partial_alter_ne, !lookup_partial_alter_eq, lookup_partial_alter_ne by congruence.
  - rewrite (lookup_partial_alter_ne _ _ (t_ID t)) by done. destruct (decide (k = t_ID u)) as [->|H2].
    + by rewrite !lookup_partial_alter_eq, lookup_partial_alter_ne by congruence.
    + by rewrite !lookup_partial_alter_ne by done.
Qed.

Definition to_delete (ts : list Task) : list Task := filter (fun t => IsToDelete (t_ps t) = true) ts.
Definition to_create (ts : list Task) : list Task := filter (fun t => IsToDelete (t_ps t) = false /\ IsNew (t_ps t) = true) ts.
Definition to_update (ts : list Task) : list Task :=
  filter (fun t => IsToDelete (t_ps t) = false /\ IsNew (t_ps t) = false /\ IsDirty (t_ps t) = true) ts.

(** Deleting, creating and updating is what the tasks stand for, all in one. *)
Lemma target_staged id ts m :
  NoDup (t_ID <$> ts) -> Forall (fun t => t_ps t <> persistenceStateDELETED) ts ->
  target id (to_update ts) (target id (to_create ts) (target id (to_delete ts) m)) = target id ts m.
Proof.
  intros Hnd Hal. apply map_eq. intros k.
  assert (forall (P : Task -> Prop) `{!forall t, Decision (P t)} m, k ∉ t_ID <$> filter P ts -> target id (filter P ts) m !! k = m !! k) as Hout.
  { intros P ? m' Hk. by apply target_other. }
  assert (forall (P : Task -> Prop) `{!forall t, Decision (P t)} m t, t ∈ ts -> P t -> target id (filter P ts) m !! t_ID t = effect id t (m !! t_ID t)) as Hin.
  { intros P ? m' t Ht HP. apply target_elem; [|by apply list_elem_of_filter]. eapply sublist_NoDup; [exact Hnd|]. by apply fmap_sublist, sublist_filter. }
  assert (forall (P : Task -> Prop) `{!forall t, Decision (P t)} t, t ∈ ts -> ~ P t -> t_ID t ∉ t_ID <$> filter P ts) as Hnot.
  { intros P ? t Ht HP (u & E & Hu)%list_elem_of_fmap. apply list_elem_of_filter in Hu as [HPu Hu].
    by rewrite (NoDup_fmap_elem t_ID ts t u Hnd Ht Hu E) in HP. }
  destruct (decide (k ∈ t_ID <$> ts)) as [(t & -> & Ht)%list_elem_of_fmap|Hk].
  - rewrite (target_elem id ts m t) by done. rewrite Forall_forall in Hal. specialize (Hal t Ht). unfold to_update, to_create, to_delete.
    destruct (t_ps t) eqn:E.
    all: repeat first [rewrite Hin; [|exact Ht|by rewrite E]|rewrite Hout; [|apply Hnot; [exact Ht|rewrite E; vm_compute; intuition congruence]]].
    all: unfold effect; by rewrite ?E.
  - assert (forall (P : Task -> Prop) `{!forall t, Decision (P t)}, k ∉ t_ID <$> filter P ts) as Hk'.
    { intros P ? (u & -> & Hu)%list_elem_of_fmap. apply list_elem_of_filter in Hu as [_ Hu]. by apply Hk, list_elem_of_fmap_2. }
    unfold to_update, to_create, to_delete. by rewrite !Hout, target_other.
Qed.

(** ** [Clean] *)

Definition clean_ps (p : persistenceState) : persistenceState := if decide (p <> persistenceStateTODELETE) then persistenceStateCLEAN else p.
Definition clean_task (t : Task) : Task := mkTask (clean_ps (t_ps t)) (t_ID t) (t_State t) (t_Payload t).
Definition clean_lock (l : LockedDatasets) : LockedDatasets := mkLocked (clean_ps (l_ps l)) ∅.
Definition cleaned (j : Job) : Job :=
  set_j_ps (clean_ps (j_ps j)) (set_occTime (LastUpdateTime j)
    (set_Tasks (clean_task <$> Tasks j) (set_Locked (clean_lock <$> LockedDatasets_ j) j))).

Section clean.
Context {CK : Clock} {X : Type}.
Implicit Types (w : World X).

(** A loop that changes each element of a list, by its index. *)
Lemma each_map {A} (get : Job -> list A) (set : list A -> Job -> Job) (g : A -> A) (ok : A -> Prop) (body : nat -> eff gcError gcPanic (World X) unit) :
  (forall w i x, get (job w) !! i = Some x -> ok x -> body i w = (Ret tt, on_job (set (<[i := g x]> (get (job w)))) w)) ->
  (forall l j, get (set l j) = l) -> (forall l l' j, set l (set l' j) = set l j) -> (forall j, set (get j) j = j) ->
  forall b a w, (a + b = length (get (job w)))%nat -> Forall ok (drop a (get (job w))) ->
  each body (seq a b) w = (Ret tt, on_job (set (take a (get (job w)) ++ (g <$> drop a (get (job w))))) w).
Proof.
  intros Hb Hgs Hss Hsg. induction b as [|b IH]; intros a w Hlen Hok; cbn [seq each].
  - rewrite take_ge, drop_ge by lia. cbn. rewrite app_nil_r. destruct w as [j t r]. unfold on_job. cbn in *. by rewrite Hsg.
  - destruct (lookup_lt_is_Some_2 (get (job w)) a) as [x Hx]; [lia|]. rewrite (drop_S _ _ _ Hx) in *. apply Forall_cons in Hok as [Hx' Hok].
    unfold mbind, eff_bind. rewrite (Hb w a x Hx Hx'). set (w1 := on_job _ w).
    assert (get (job w1) = <[a := g x]> (get (job w))) as Hg1 by (unfold w1, on_job; cbn; apply Hgs).
    rewrite IH; rewrite Hg1; rewrite ?length_insert; [|lia|by rewrite drop_insert_lt by lia].
    f_equal. unfold w1, on_job. cbn. rewrite Hss. do 2 f_equal. rewrite drop_insert_lt by lia.
    rewrite (take_S_r _ _ (g x)) by (apply list_lookup_insert_eq; lia). rewrite take_insert_ge by lia. cbn [fmap list_fmap]. by rewrite <- app_assoc.
Qed.
Lemma ps_Clean_ok p : p <> persistenceStateDELETED -> ps_Clean p = Ok (clean_ps p).
Proof. by destruct p. Qed.

Lemma Clean_run w :
  ps_alive (j_ps (job w)) -> Forall (fun t => t_ps t <> persistenceStateDELETED) (Tasks (job w)) ->
  Forall (fun l => l_ps l <> persistenceStateDELETED) (LockedDatasets_ (job w)) -> Clean true w = (Ret tt, on_job cleaned w).
Proof.
  intros Hp Ht Hl. unfold Clean. unfold mbind, eff_bind, this, gets.
  rewrite (each_map LockedDatasets_ set_Locked clean_lock (fun l => l_ps l <> persistenceStateDELETED)); [|try done..].
  2:{ intros w' i l Hi Hok. unfold cleanLock, locked_at, mbind, eff_bind, this, gets. rewrite Hi. cbn. by rewrite ps_Clean_ok. }
  2:{ by intros []. }
  cbn [take drop app]. set (w1 := on_job _ w).
  rewrite (each_map Tasks set_Tasks clean_task (fun t => t_ps t <> persistenceStateDELETED)); [|try done..].
  2:{ intros w' i t Hi Hok. unfold cleanTask, mbind, eff_bind. rewrite (task_at_run i w' t Hi). by rewrite ps_Clean_ok. }
  2:{ by intros []. }
  unfold assign, put, orCrash. cbn. by rewrite ps_Clean_ok.
Qed.
End clean.

(** ** Locks *)

(** The rows of datasets name the job that has locked them. *)
Definition marks_ok (d : db) : Prop := forall k r, datasets d !! k = Some r -> dr_locked_by r = fst <$> locked_datasets d !! k.

(** Locks that are given back, and new ones: in the table of locks, and in the rows of the
    datasets, of which nothing else changes. *)
Record relocked (Del : string * nat -> Prop) (New : string -> string * nat -> Prop) (d d' : db) : Prop := {
  rl_locks : forall k v, locked_datasets d' !! k = Some v <-> New k v \/ (locked_datasets d !! k = Some v /\ ~ Del v);
  rl_rows : Pg.unlock <$> datasets d' = Pg.unlock <$> datasets d;
  rl_marks : marks_ok d -> marks_ok d';
  rl_same : (forall v, ~ Del v) -> (forall k v, ~ New k v) -> datasets d' = datasets d }.

Lemma relocked_refl d : relocked (fun _ => False) (fun _ _ => False) d d.
Proof. split; [|done..]. intros k v. tauto. Qed.
Lemma relocked_trans D1 N1 D2 N2 d d1 d2 :
  relocked D1 N1 d d1 -> relocked D2 N2 d1 d2 ->
  relocked (fun v => D1 v \/ D2 v) (fun k v => N2 k v \/ (N1 k v /\ ~ D2 v)) d d2.
Proof.
  intros [L1 R1 M1 S1] [L2 R2 M2 S2]. split; [|congruence|by auto|].
  - intros k v. rewrite L2, L1. tauto.
  - intros HD HN. assert (forall v, ~ D2 v) as H2 by (intros v ?; apply (HD v); by right). rewrite S2, S1; [done| | |exact H2|].
    + intros v ?. apply (HD v). by left.
    + intros k v ?. apply (HN k v). right. split; [done|apply H2].
    + intros k v ?. apply (HN k v). by left.
Qed.
Lemma relocked_iff D N D' N' d d' :
  relocked D N d d' -> (forall v, D v <-> D' v) -> (forall k v, N k v <-> N' k v) -> relocked D' N' d d'.
Proof.
  intros [L R M S] HD HN. split; [|done..|].
  - intros k v. by rewrite L, HD, HN.
  - intros H1 H2. apply S; intros; [rewrite HD|rewrite HN]; done.
Qed.

Lemma unlock_twice r : Pg.unlock (Pg.unlock r) = Pg.unlock r.
Proof. done. Qed.
Lemma release_relocked id i d d' :
  Pg.ReleaseDatasets id i d = Ok d' -> relocked (fun v => v = (id, i)) (fun _ _ => False) d d'.
Proof.
  intros [= <-]. split; cbn.
  - intros k v. rewrite map_lookup_filter_Some. cbn. tauto.
  - apply map_eq. intros k. rewrite !lookup_fmap, map_lookup_imap. destruct (datasets d !! k) as [r|]; cbn; [|done]. by destruct (_ && _).
  - intros Hd k r'. cbn. rewrite map_lookup_imap. destruct (datasets d !! k) as [r|] eqn:E; cbn; [|done]. intros [= <-]. specialize (Hd k r E).
    destruct (locked_datasets d !! k) as [[jb f]|] eqn:El; cbn in Hd; rewrite Hd.
    + destruct (decide ((jb, f) = (id, i))) as [[= -> ->]|Hne].
      * rewrite !bool_decide_eq_true_2 by done. cbn. symmetry. apply fmap_None, map_lookup_filter_None. right. intros v Hv. cbn. congruence.
      * assert (bool_decide (Some jb = Some id) && bool_decide (f = i) = false) as ->.
        { destruct (decide (jb = id)) as [->|]; [|by rewrite bool_decide_eq_false_2 by congruence].
          destruct (decide (f = i)) as [->|]; [done|]. by rewrite (bool_decide_eq_false_2 (f = i)), andb_false_r. }
        rewrite (proj2 (map_lookup_filter_Some _ _ k (jb, f))); [done|]. by split.
    + rewrite bool_decide_eq_false_2 by done. cbn. rewrite Hd. symmetry. apply fmap_None, map_lookup_filter_None. by left.
  - intros H. by destruct (H (id, i)).
Qed.
Lemma deleteJob_relocked id d d' :
  Pg.DeleteJob id d = Ok d' -> relocked (fun v => v.1 = id) (fun _ _ => False) d d'.
Proof.
  unfold Pg.DeleteJob. destruct (bool_decide _); [|done]. intros [= <-]. split; cbn.
  - intros k v. rewrite map_lookup_filter_Some. cbn. tauto.
  - apply map_eq. intros k. rewrite !lookup_fmap. destruct (datasets d !! k) as [r|]; cbn; [|done]. by destruct (bool_decide _).
  - intros Hd k r'. cbn. rewrite lookup_fmap. destruct (datasets d !! k) as [r|] eqn:E; cbn; [|done]. intros [= <-]. specialize (Hd k r E).
    destruct (locked_datasets d !! k) as [[jb f]|] eqn:El; cbn in Hd; rewrite Hd.
    + destruct (decide (jb = id)) as [->|Hne].
      * rewrite bool_decide_eq_true_2 by done. cbn. symmetry. apply fmap_None, map_lookup_filter_None. right. intros v Hv Hne. rewrite El in Hv. injection Hv as <-. by apply Hne.
      * rewrite bool_decide_eq_false_2 by congruence. rewrite (proj2 (map_lookup_filter_Some _ _ k (jb, f))); [done|]. by split.
    + rewrite bool_decide_eq_false_2 by done. rewrite Hd. symmetry. apply fmap_None, map_lookup_filter_None. by left.
  - intros H. by destruct (H (id, 0%nat)).
Qed.
Lemma lock_relocked id i ids d d' :
  Pg.LockDatasets id ids i d = Ok d' -> relocked (fun _ => False) (fun k v => v = (id, i) /\ k ∈ ids) d d'.
Proof.
  unfold Pg.LockDatasets. destruct (bool_decide _) eqn:Ef; cbn; [|done]. destruct (negb _); [done|]. intros [= <-].
  apply bool_decide_eq_true in Ef. set (own := fun r => mkDatasetRow _ _ _ _ _ _ _ _ _ (Some id)).
  assert (forall k, foldr (fun i0 ls => <[i0 := (id, i)]> ls) (locked_datasets d) ids !! k =
    if decide (k ∈ ids) then Some (id, i) else locked_datasets d !! k) as HL.
  { clear. intros k. induction ids as [|x ids IH]; cbn; [done|]. destruct (decide (k = x)) as [->|Hk].
    - rewrite lookup_insert_eq, decide_True by (by left). done.
    - rewrite lookup_insert_ne, IH by done. by repeat case_decide; set_solver. }
  assert (forall k, foldr (fun i0 ds => alter own i0 ds) (datasets d) ids !! k =
    if decide (k ∈ ids) then own <$> datasets d !! k else datasets d !! k) as HD.
  { clear. intros k. induction ids as [|x ids IH]; cbn; [done|]. destruct (decide (k = x)) as [->|Hk].
    - rewrite lookup_alter_eq, IH, (decide_True (P := x ∈ x :: ids)) by (by left). case_decide; [|done]. by destruct (datasets d !! x).
    - rewrite lookup_alter_ne, IH by done. by repeat case_decide; set_solver. }
  rewrite Forall_forall in Ef. split; cbn.
  - intros k v. rewrite HL. case_decide as Hk; [|by intuition congruence]. rewrite (Ef k Hk). intuition congruence.
  - apply map_eq. intros k. rewrite !lookup_fmap, HD. case_decide; [|done]. by destruct (datasets d !! k).
  - intros Hd k r. cbn. rewrite HD, HL. case_decide; [|by apply Hd]. destruct (datasets d !! k); cbn; [|done]. by intros [= <-].
  - intros _ H. apply map_eq. intros k. rewrite HD. case_decide as Hk; [|done]. by destruct (H k (id, i)).
Qed.

(** ** What saving a job means *)

(** A job that can be saved: it and its parts are in states that occur, no task is there
    twice, and its parameters are not modified, which the code does not expect. *)
Record writable (j : Job) : Prop := {
  wr_ps : j_ps j <> persistenceStateUNKNOWN /\ j_ps j <> persistenceStateDELETED;
  wr_nodup : NoDup (t_ID <$> Tasks j);
  wr_tasks : Forall (fun t => t_ps t <> persistenceStateDELETED) (Tasks j);
  wr_locks : Forall (fun l => l_ps l <> persistenceStateDELETED) (LockedDatasets_ j);
  wr_params : match Params j with Some p => IsDirty (cp_ps p) = false | None => True end }.
(** A job that was read from the tables and perhaps changed. *)
Record savable (j : Job) : Prop := {
  sv_ps : j_ps j = persistenceStateCLEAN \/ j_ps j = persistenceStateDIRTY;
  sv_writable : writable j }.

(** The row of a job that is created, and of one that is updated. *)
Definition first_row (j : Job) : jobRow :=
  mkJobRow (Name j) (Type_ j) (CreationTime j) (LastUpdateTime j) (State j) (ActiveTasks j) (FailedTasks j) (Payload j) (ExecutionLevel j) false.
Definition new_row (j : Job) (r : jobRow) : jobRow :=
  mkJobRow (jr_name r) (jr_type r) (jr_creation_ts r) (LastUpdateTime j) (State j) (ActiveTasks j) (FailedTasks j)
    (jr_payload r) (jr_execution_level r) (Waiting j).
(** What becomes of the row: an update finds the version the job was read with; a deletion
    does not look at the version, but no task of the job may be left. *)
Definition row_saved (j : Job) (js js' : gmap string jobRow) (ts' : gmap string taskRow) : Prop :=
  match j_ps j with
  | persistenceStateNEW => js !! ID j = None /\ map_Forall (fun _ r => jr_name r <> Name j) js /\ js' = <[ID j := first_row j]> js
  | persistenceStateCLEAN | persistenceStateDIRTY =>
    exists r, js !! ID j = Some r /\ jr_last_update_ts r = occTime j /\ js' = <[ID j := new_row j r]> js
  | persistenceStateTODELETE => js' = delete (ID j) js /\ map_Forall (fun _ t => tr_job t <> ID j) ts'
  | _ => False
  end.
Definition params_saved (j : Job) (ps : gmap string ConsolidationParams) : gmap string ConsolidationParams :=
  match Params j with
  | Some p =>
    if decide (Type_ j = JobTypeCONSOLIDATION) then
      match cp_ps p with
      | persistenceStateTODELETE => delete (ParamsID (Payload j)) ps
      | persistenceStateNEW => <[ParamsID (Payload j) := set_cp_ps persistenceStateUNKNOWN p]> ps
      | _ => ps
      end
    else ps
  | None => ps
  end.
(** The locks a job gives back, of a flag or all of them, and those it takes. *)
Definition gives (j : Job) (v : string * nat) : Prop :=
  v.1 = ID j /\ (j_ps j = persistenceStateTODELETE \/ exists l, LockedDatasets_ j !! v.2 = Some l /\ l_ps l = persistenceStateTODELETE).
Definition takes (j : Job) (k : string) (v : string * nat) : Prop :=
  v.1 = ID j /\ exists l, LockedDatasets_ j !! v.2 = Some l /\ (l_ps l = persistenceStateNEW \/ l_ps l = persistenceStateDIRTY) /\ k ∈ newDatasetsID l.

(** The tables before and after a job is saved. *)
Record stored (j : Job) (d d' : db) : Prop := {
  st_row : row_saved j (jobs d) (jobs d') (tasks d');
  st_tasks : tasks d' = target (ID j) (Tasks j) (tasks d);
  st_logs : job_logs d' = job_logs d ++ ((fun l => (ID j, l)) <$> NewLogs j);
  st_params : consolidation_params d' = params_saved j (consolidation_params d);
  st_locks : relocked (gives j) (takes j) d d' }.

(** ** Inside a transaction *)

Section save.
Context {CK : Clock} {OUT : Outside}.
Abbreviation M := (eff gcError gcPanic W).

(** A transaction is open since call [n], when the service was [s1]. *)
Definition intx (s1 : service) (n : nat) (w : W) : Prop :=
  inTxn s1 = true /\ rest w = set_working (working (rest w)) s1 /\ (n <= tick w)%nat.
(** What it has made of the tables. *)
Record view := mkView {
  v_jobs : gmap string jobRow; v_tasks : gmap string taskRow; v_logs : list (string * JobLog);
  v_params : gmap string ConsolidationParams; v_del : string * nat -> Prop; v_new : string -> string * nat -> Prop }.
Record shows (d0 : db) (V : view) (d : db) : Prop := {
  sh_jobs : jobs d = v_jobs V;
  sh_tasks : tasks d = v_tasks V;
  sh_logs : job_logs d = v_logs V;
  sh_params : consolidation_params d = v_params V;
  sh_locks : relocked (v_del V) (v_new V) d0 d }.
(** And the job in memory. *)
Definition txn s1 n d0 (V : view) (j : Job) (w : W) : Prop := intx s1 n w /\ shows d0 V (working (rest w)) /\ job w = j.
Abbreviation steps s1 n Pre m Q := (triple Pre m Q (fun _ => intx s1 n) (fun _ => False)).

Section steps.
Context (s1 : service) (n : nat) (d0 : db).
Implicit Types (V : view) (js : gmap string jobRow) (ts : gmap string taskRow).

Lemma s_exec V (X : view -> Prop) j q f :
  (forall d d', shows d0 V d -> q d = Ok d' -> exists V', X V' /\ shows d0 V' d') ->
  steps s1 n (txn s1 n d0 V j) (wrap f (execTxn q)) (fun _ w => exists V', X V' /\ txn s1 n d0 V' j w).
Proof.
  intros Hq w ((Hi & Hr & Hn) & Hs & Hj). unfold wrap, execTxn, mayFail, call, mbind, eff_bind, gets, on_rest, put.
  assert (inTxn (rest w) = true) as Ht by (by rewrite Hr). rewrite Ht.
  destruct (fails (tick w)); [split_and!; [done|exact Hr|cbn; lia]|]. cbn.
  destruct (q (working (rest w))) as [d'|] eqn:E; cbn; [|split_and!; [done|exact Hr|cbn; lia]].
  destruct (Hq _ _ Hs E) as (V' & HX & HV). exists V'. split; [done|]. split; [|by split].
  split; [done|]. split; [cbn; by rewrite Hr|cbn; lia].
Qed.
Lemma s_exec_to V V' j q f :
  (forall d d', shows d0 V d -> q d = Ok d' -> shows d0 V' d') ->
  steps s1 n (txn s1 n d0 V j) (wrap f (execTxn q)) (fun _ => txn s1 n d0 V' j).
Proof.
  intros Hq. eapply t_mono; [apply (s_exec V (fun V'' => V'' = V'))| |done|done].
  - intros d d' Hs E. exists V'. split; [done|]. by eapply Hq.
  - by intros [] w (? & -> & Hw).
Qed.
Lemma s_gets {A} (f : Job -> A) j V (k : A -> M unit) Q :
  steps s1 n (txn s1 n d0 V j) (k (f j)) Q -> steps s1 n (txn s1 n d0 V j) (this f ≫= k) Q.
Proof. intros H w Hw. unfold mbind, eff_bind, this, gets. pose proof Hw as (_ & _ & ->). by apply H. Qed.
Lemma s_assign_then V j f (m : M unit) Q :
  steps s1 n (txn s1 n d0 V (f j)) m Q -> steps s1 n (txn s1 n d0 V j) (assign f;; m) Q.
Proof. intros H w (Hi & Hs & <-). unfold mbind, eff_bind, assign, put. apply H. by split. Qed.
(** A step that may be left out. *)
Lemma s_when V V' j (b : bool) (m : M unit) :
  (b = true -> steps s1 n (txn s1 n d0 V j) m (fun _ => txn s1 n d0 V' j)) -> (b = false -> V' = V) ->
  steps s1 n (txn s1 n d0 V j) (if b then m else mret tt) (fun _ => txn s1 n d0 V' j).
Proof. intros H H'. destruct b; [by apply H|]. rewrite H' by done. by apply t_ret. Qed.

(** A loop over tasks, one statement each. *)
Lemma s_each js lg cp D N id j (q : Task -> db -> result gcError db) f l :
  (forall t d d', t ∈ l -> q t d = Ok d' -> d' = set_tasks (partial_alter (effect id t) (t_ID t) (tasks d)) d) ->
  NoDup (t_ID <$> l) -> forall ts,
  steps s1 n (txn s1 n d0 (mkView js ts lg cp D N) j) (each (fun t => wrap f (execTxn (q t))) l)
    (fun _ => txn s1 n d0 (mkView js (target id l ts) lg cp D N) j).
Proof.
  induction l as [|t l IH]; intros Hq Hnd ts; [by apply t_ret|]. cbn [each]. apply NoDup_cons in Hnd as [Ht Hnd].
  apply (t_bind _ _ _ _ _ (fun _ => txn s1 n d0 (mkView js (partial_alter (effect id t) (t_ID t) ts) lg cp D N) j)).
  - apply s_exec_to. intros d d' [? HT ? ? [????]] E. apply Hq in E as ->; [|by left]. cbn in *. by split; cbn; [|rewrite HT|..].
  - intros []. rewrite target_cons, <- target_alter_comm by done. apply IH; [|done]. intros u d d' Hu. apply Hq. by right.
Qed.

Lemma s_locked V j i (k : LockedDatasets -> M unit) Q :
  (i < length (LockedDatasets_ j))%nat ->
  (forall l, LockedDatasets_ j !! i = Some l -> steps s1 n (txn s1 n d0 V j) (k l) Q) ->
  steps s1 n (txn s1 n d0 V j) (locked_at i ≫= k) Q.
Proof.
  intros Hi Hk w Hw. destruct (lookup_lt_is_Some_2 _ _ Hi) as [l El]. pose proof Hw as (_ & _ & Hj).
  unfold mbind, eff_bind, locked_at, mbind, eff_bind, this, gets. rewrite Hj, El. by apply (Hk l).
Qed.
(** A statement about locks, from one view to the next. *)
Lemma shows_relocked js ts lg cp D N D' N' D2 N2 d d' :
  shows d0 (mkView js ts lg cp D N) d -> relocked D' N' d d' ->
  jobs d' = jobs d -> tasks d' = tasks d -> job_logs d' = job_logs d -> consolidation_params d' = consolidation_params d ->
  (forall v, D v \/ D' v <-> D2 v) -> (forall k v, N' k v \/ (N k v /\ ~ D' v) <-> N2 k v) ->
  shows d0 (mkView js ts lg cp D2 N2) d'.
Proof.
  intros [H1 H2 H3 H4 HR] HR' E1 E2 E3 E4 HD HN. cbn in *. split; cbn; try congruence.
  eapply relocked_iff; [by eapply relocked_trans| |]; cbn; done.
Qed.
(** A loop over the locks, with a statement for some of them, that gives back or takes. *)
Lemma s_locks js ts lg cp j (b : LockedDatasets -> bool) f q (Del : nat -> string * nat -> Prop) (New : nat -> LockedDatasets -> string -> string * nat -> Prop) idx :
  (forall i l d d', q i l d = Ok d' -> relocked (Del i) (New i l) d d' /\
     jobs d' = jobs d /\ tasks d' = tasks d /\ job_logs d' = job_logs d /\ consolidation_params d' = consolidation_params d) ->
  (forall i l k v i', New i l k v -> ~ Del i' v) ->
  Forall (fun i => i < length (LockedDatasets_ j))%nat idx -> forall D N, (forall k v i, N k v -> ~ Del i v) ->
  steps s1 n (txn s1 n d0 (mkView js ts lg cp D N) j)
    (each (fun i => l ← locked_at i; if b l then wrap (f i) (execTxn (q i l)) else mret tt) idx)
    (fun _ => txn s1 n d0 (mkView js ts lg cp
       (fun v => D v \/ exists i l, i ∈ idx /\ LockedDatasets_ j !! i = Some l /\ b l = true /\ Del i v)
       (fun k v => N k v \/ exists i l, i ∈ idx /\ LockedDatasets_ j !! i = Some l /\ b l = true /\ New i l k v)) j).
Proof.
  intros Hq Hdis Hi. induction Hi as [|i idx Hi _ IH]; intros D N HN; cbn [each].
  { apply t_ret. intros w (? & [H1 H2 H3 H4 H5] & ?). split; [done|]. split; [|done]. split; try done. cbn.
    eapply relocked_iff; [exact H5| |]; cbn; intros; split; [auto|intros [|(i & l & Hin & _)]; [done|by apply not_elem_of_nil in Hin]
      |auto|intros [|(i & l & Hin & _)]; [done|by apply not_elem_of_nil in Hin]]. }
  destruct (lookup_lt_is_Some_2 _ _ Hi) as [l El].
  set (D1 := fun v => D v \/ (b l = true /\ Del i v)). set (N1 := fun k v => N k v \/ (b l = true /\ New i l k v)).
  apply (t_bind _ _ _ _ _ (fun _ => txn s1 n d0 (mkView js ts lg cp D1 N1) j)).
  - apply s_locked; [done|]. intros l' El'. rewrite El in El'. injection El' as <-. unfold D1, N1. destruct (b l).
    + apply s_exec_to. intros d d' Hs E. destruct (Hq i l d d' E) as (HR & E1 & E2 & E3 & E4).
      eapply shows_relocked; [exact Hs|exact HR|done..| |]; cbn; [intros v; tauto|]. intros k v. specialize (HN k v i). tauto.
    + apply t_ret. intros w (? & [H1 H2 H3 H4 H5] & ?). split; [done|]. split; [|done]. split; try done. cbn.
      eapply relocked_iff; [exact H5| |]; cbn; intuition discriminate.
  - intros []. eapply t_mono; [apply (IH D1 N1)| |done|done].
    + intros k v i' [H|[_ H]]; [by eapply HN|by eapply Hdis].
    + intros [] w (? & [H1 H2 H3 H4 H5] & ?). split; [done|]. split; [|done]. split; try done. cbn in *.
      eapply relocked_iff; [exact H5| |]; cbn; unfold D1, N1; intros; setoid_rewrite elem_of_cons; clear -El; naive_solver.
Qed.

Lemma txn_iff js ts lg cp D N D' N' j w :
  txn s1 n d0 (mkView js ts lg cp D N) j w -> (forall v, D v <-> D' v) -> (forall k v, N k v <-> N' k v) ->
  txn s1 n d0 (mkView js ts lg cp D' N') j w.
Proof.
  intros (Hi & [H1 H2 H3 H4 H5] & Hj) HD HN. split; [done|]. split; [|done]. split; try done. cbn. by eapply relocked_iff.
Qed.
Lemma all_locks j : Forall (fun i => i < length (LockedDatasets_ j))%nat (seq 0 (length (LockedDatasets_ j))).
Proof. apply Forall_forall. intros i Hi%elem_of_seq. lia. Qed.

(** The locks given back, without those of a job that is deleted. *)
Definition released (j : Job) (v : string * nat) : Prop :=
  v.1 = ID j /\ exists l, LockedDatasets_ j !! v.2 = Some l /\ l_ps l = persistenceStateTODELETE.
Lemma s_release js ts lg cp j f :
  steps s1 n (txn s1 n d0 (mkView js ts lg cp (fun _ => False) (fun _ _ => False)) j)
    (each (fun i => l ← locked_at i; if IsToDelete (l_ps l) then wrap (f i) (execTxn (Pg.ReleaseDatasets (ID j) i)) else mret tt)
      (seq 0 (length (LockedDatasets_ j))))
    (fun _ => txn s1 n d0 (mkView js ts lg cp (released j) (fun _ _ => False)) j).
Proof.
  eapply t_mono; [apply (s_locks _ _ _ _ _ (fun l => IsToDelete (l_ps l)) f (fun i _ => Pg.ReleaseDatasets (ID j) i)
    (fun i v => v = (ID j, i)) (fun _ _ _ _ => False))| |done|done].
  - intros i l d d' E. split; [by apply release_relocked|]. by injection E as <-.
  - done.
  - apply all_locks.
  - done.
  - intros [] w Hw. eapply txn_iff; [exact Hw| |]; cbn.
    + intros [jb i]. unfold released. cbn. split.
      * intros [[]|(i' & l & _ & El & E%bool_decide_eq_true & [= -> ->])]. split; [done|]. by exists l.
      * intros [-> (l & El & E)]. right. exists i, l. split; [|split; [done|split; [by apply bool_decide_eq_true|done]]].
        apply elem_of_seq. apply lookup_lt_Some in El. lia.
    + intros k v. split; [intros [[]|(? & ? & _ & _ & _ & [])]|intros []].
Qed.
Lemma s_take js ts lg cp D j f :
  steps s1 n (txn s1 n d0 (mkView js ts lg cp D (fun _ _ => False)) j)
    (each (fun i => l ← locked_at i;
       if IsNew (l_ps l) || IsDirty (l_ps l) then wrap (f i) (execTxn (Pg.LockDatasets (ID j) (elements (newDatasetsID l)) i)) else mret tt)
      (seq 0 (length (LockedDatasets_ j))))
    (fun _ => txn s1 n d0 (mkView js ts lg cp D (takes j)) j).
Proof.
  eapply t_mono; [apply (s_locks _ _ _ _ _ (fun l => IsNew (l_ps l) || IsDirty (l_ps l)) f
    (fun i l => Pg.LockDatasets (ID j) (elements (newDatasetsID l)) i)
    (fun _ _ => False) (fun i l k v => v = (ID j, i) /\ k ∈ elements (newDatasetsID l)))| |done|done].
  - intros i l d d' E. split; [by apply lock_relocked|]. unfold Pg.LockDatasets in E.
    destruct (negb _); [done|]. destruct (negb _); [done|]. by injection E as <-.
  - intros ? ? ? ? ? _ [].
  - apply all_locks.
  - done.
  - intros [] w Hw. eapply txn_iff; [exact Hw| |]; cbn.
    + intros v. split; [intros [|(? & ? & _ & _ & _ & [])]; done|by left].
    + intros k [jb i]. unfold takes. cbn. split.
      * intros [[]|(i' & l & _ & El & E & [= -> ->] & Hk%elem_of_elements)]. split; [done|]. exists l. split; [done|]. split; [|done].
        apply orb_true_iff in E as [E%bool_decide_eq_true|E%bool_decide_eq_true]; auto.
      * intros [-> (l & El & E & Hk)]. right. exists i, l. split; [apply elem_of_seq; apply lookup_lt_Some in El; lia|].
        split; [done|]. split; [|split; [done|by apply elem_of_elements]].
        apply orb_true_iff. by destruct E as [E|E]; [left|right]; apply bool_decide_eq_true.
Qed.

(** What the deletion of parts of a job leaves. *)
Definition jobs_deleted (j : Job) js : gmap string jobRow := if IsToDelete (j_ps j) then delete (ID j) js else js.
Definition params_deleted (j : Job) (cp : gmap string ConsolidationParams) : gmap string ConsolidationParams :=
  if match Params j with Some p => IsToDelete (cp_ps p) | None => false end && bool_decide (Type_ j = JobTypeCONSOLIDATION)
  then delete (ParamsID (Payload j)) cp else cp.
Lemma gives_iff j v : gives j v <-> released j v \/ (IsToDelete (j_ps j) = true /\ v.1 = ID j).
Proof. unfold gives, released, IsToDelete. rewrite bool_decide_eq_true. tauto. Qed.
Lemma s_deleteJob js ts lg cp j :
  steps s1 n (txn s1 n d0 (mkView js ts lg cp (released j) (fun _ _ => False)) j)
    (if IsToDelete (j_ps j) then wrap savejob (execTxn (Pg.DeleteJob (ID j))) else mret tt)
    (fun _ w => (IsToDelete (j_ps j) = true -> map_Forall (fun _ t => tr_job t <> ID j) ts) /\
      txn s1 n d0 (mkView (jobs_deleted j js) ts lg cp (gives j) (fun _ _ => False)) j w).
Proof.
  unfold jobs_deleted. destruct (IsToDelete (j_ps j)) eqn:E.
  - eapply t_mono; [apply (s_exec _ (fun V => map_Forall (fun _ t => tr_job t <> ID j) ts /\
      V = mkView (delete (ID j) js) ts lg cp (gives j) (fun _ _ => False)))| |done|done].
    + intros d d' [H1 H2 H3 H4 H5] Ed. pose proof (deleteJob_relocked _ _ _ Ed) as HR. unfold Pg.DeleteJob in Ed.
      destruct (bool_decide _) eqn:Ef; [|done]. apply bool_decide_eq_true in Ef. injection Ed as <-. cbn in *.
      eexists. split; [split; [by rewrite <- H2|done]|]. split; cbn; try congruence.
      eapply relocked_iff; [by eapply relocked_trans| |]; cbn; intros; [rewrite gives_iff, E|]; intuition.
    + intros [] w (V & [Hts ->] & Hw). by split.
  - apply t_ret. intros w Hw. split; [done|]. eapply txn_iff; [exact Hw| |done]. intros v. rewrite gives_iff, E. intuition discriminate.
Qed.

Lemma deletion_steps js ts lg cp j :
  writable j ->
  steps s1 n (txn s1 n d0 (mkView js ts lg cp (fun _ => False) (fun _ _ => False)) j) saveJobDeletion
    (fun _ w => (IsToDelete (j_ps j) = true -> map_Forall (fun _ t => tr_job t <> ID j) (target (ID j) (to_delete (Tasks j)) ts)) /\
      txn s1 n d0 (mkView (jobs_deleted j js) (target (ID j) (to_delete (Tasks j)) ts) lg (params_deleted j cp) (gives j) (fun _ _ => False)) j w).
Proof.
  intros Hj. apply s_gets. cbv beta delta [id]. eapply t_bind; [apply s_release|]. intros []. eapply t_bind; [apply (s_each _ _ _ _ _ (ID j))|].
  { intros t d d' [Ht _]%list_elem_of_filter [= <-]. unfold Pg.DeleteTask. f_equal. apply bool_decide_eq_true in Ht.
    apply map_eq. intros k. destruct (decide (k = t_ID t)) as [->|Hk].
    - rewrite lookup_partial_alter_eq. unfold effect. rewrite Ht. apply lookup_delete_eq.
    - rewrite lookup_partial_alter_ne by done. by apply lookup_delete_ne. }
  { eapply sublist_NoDup; [apply Hj|]. by apply fmap_sublist, sublist_filter. }
  intros []. fold (to_delete (Tasks j)). set (ts1 := target _ (to_delete _) ts).
  eapply t_bind; [apply (s_when _ (mkView js ts1 lg (params_deleted j cp) (released j) (fun _ _ => False)))|intros []; apply s_deleteJob].
  - intros Eb. apply s_exec_to. intros d d' [H1 H2 H3 H4 [????]] [= <-]. cbn in *. unfold params_deleted. rewrite Eb, <- H4. by split.
  - intros Eb. unfold params_deleted. by rewrite Eb.
Qed.

Lemma creates_target id l m :
  Forall (fun t => t_ps t = persistenceStateNEW) l ->
  foldr (fun t m => <[t_ID t := mkTaskRow (t_State t) (t_Payload t) id]> m) m l = target id l m.
Proof.
  induction 1 as [|t l Ht _ IH]; [done|]. rewrite target_cons. cbn [foldr]. rewrite IH. apply map_eq. intros k.
  destruct (decide (k = t_ID t)) as [->|Hk].
  - rewrite lookup_insert_eq, lookup_partial_alter_eq. unfold effect. by rewrite Ht.
  - by rewrite lookup_insert_ne, lookup_partial_alter_ne.
Qed.
(** The row of a new job, and new parameters. *)
Definition row_created (j : Job) js js' : Prop :=
  if IsNew (j_ps j) then js !! ID j = None /\ map_Forall (fun _ r => jr_name r <> Name j) js /\ js' = <[ID j := first_row j]> js else js' = js.
Definition params_created (j : Job) (cp : gmap string ConsolidationParams) : gmap string ConsolidationParams :=
  match Params j with
  | Some p => if IsNew (cp_ps p) && bool_decide (Type_ j = JobTypeCONSOLIDATION)
              then <[ParamsID (Payload j) := set_cp_ps persistenceStateUNKNOWN p]> cp else cp
  | None => cp
  end.
Lemma s_createJob js ts lg cp D j :
  steps s1 n (txn s1 n d0 (mkView js ts lg cp D (fun _ _ => False)) j) (if IsNew (j_ps j) then wrap savejob (execTxn (Pg.CreateJob j)) else mret tt)
    (fun _ w => exists js', row_created j js js' /\ txn s1 n d0 (mkView js' ts lg cp D (fun _ _ => False)) j w).
Proof.
  unfold row_created. destruct (IsNew (j_ps j)); [|apply t_ret; intros w Hw; by exists js].
  eapply t_mono; [apply (s_exec _ (fun V => (js !! ID j = None /\ map_Forall (fun _ r => jr_name r <> Name j) js) /\
    V = mkView (<[ID j := first_row j]> js) ts lg cp D (fun _ _ => False)))| |done|done].
  - intros d d' [H1 H2 H3 H4 [????]] E. unfold Pg.CreateJob in E. cbn in *. rewrite H1 in E.
    destruct (bool_decide _ && _) eqn:Eb; [|done]. injection E as <-. apply andb_prop in Eb as [E1%bool_decide_eq_true E2%bool_decide_eq_true].
    eexists. split; [split; [by split|done]|]. by split.
  - intros [] w (V & [[H1 H2] ->] & Hw). eexists. by split.
Qed.
Lemma s_createTasks js ts lg cp D N j :
  let new := to_create (Tasks j) in
  steps s1 n (txn s1 n d0 (mkView js ts lg cp D N) j) (if (0 <? length new)%nat then wrap savejob (execTxn (Pg.CreateTasks (ID j) new)) else mret tt)
    (fun _ w => (js !! ID j = None -> new = []) /\ txn s1 n d0 (mkView js (target (ID j) new ts) lg cp D N) j w).
Proof.
  intros new. assert (Forall (fun t => t_ps t = persistenceStateNEW) new) as Hnew.
  { apply Forall_forall. intros t [[_ Ht] _]%list_elem_of_filter. by apply bool_decide_eq_true in Ht. }
  destruct new as [|t l]; cbn [length Nat.ltb Nat.leb]; [apply t_ret; intros w Hw; by split|].
  eapply t_mono; [apply (s_exec _ (fun V => is_Some (js !! ID j) /\ V = mkView js (target (ID j) (t :: l) ts) lg cp D N))| |done|done].
  - intros d d' [H1 H2 H3 H4 [????]] E. unfold Pg.CreateTasks in E. cbn in H1, H2, H3, H4. rewrite H1, H2 in E.
    destruct (bool_decide (is_Some _)) eqn:Es; [|done]. apply bool_decide_eq_true in Es. cbn [negb] in E. destruct (bool_decide _ && _); [|done].
    injection E as <-. eexists. split; [by split|]. rewrite <- creates_target by done. by split.
  - intros [] w (V & [[r Hr] ->] & Hw). split; [by rewrite Hr|done].
Qed.
Lemma creation_steps js ts lg cp D j :
  steps s1 n (txn s1 n d0 (mkView js ts lg cp D (fun _ _ => False)) j) saveJobCreation
    (fun _ w => exists js', (row_created j js js' /\ (js' !! ID j = None -> to_create (Tasks j) = [])) /\
       txn s1 n d0 (mkView js' (target (ID j) (to_create (Tasks j)) ts) lg (params_created j cp) D (takes j)) j w).
Proof.
  apply s_gets. cbv beta delta [id]. eapply t_bind; [apply s_createJob|]. intros []. apply t_exists. intros js'. apply t_pure. intros Hc.
  apply (t_bind _ _ _ _ _ (fun _ => txn s1 n d0 (mkView js' ts lg (params_created j cp) D (fun _ _ => False)) j)).
  { unfold params_created. destruct (Params j) as [p|]; [|by apply t_ret]. apply s_when; [|by intros ->].
    intros Eb. rewrite Eb. apply s_exec_to. intros d d' [H1 H2 H3 H4 [????]] [= <-]. cbn in *. rewrite <- H4. by split. }
  intros []. eapply t_bind; [apply s_take|]. intros []. cbv zeta. fold (to_create (Tasks j)).
  eapply t_mono; [apply s_createTasks| |done|done]. intros [] w [He Hw]. exists js'. by split.
Qed.

Definition row_updated (j : Job) js js' : Prop :=
  if IsDirty (j_ps j) || IsClean (j_ps j)
  then exists r, js !! ID j = Some r /\ jr_last_update_ts r = occTime j /\ js' = <[ID j := new_row j r]> js else js' = js.
Lemma update_steps js ts lg cp D N j :
  writable j ->
  steps s1 n (txn s1 n d0 (mkView js ts lg cp D N) j) saveJobUpdate
    (fun _ w => exists js', row_updated j js js' /\ txn s1 n d0 (mkView js' (target (ID j) (to_update (Tasks j)) ts) lg cp D N) j w).
Proof.
  intros Hj. apply s_gets. cbv beta delta [id]. eapply t_bind; [apply (s_each _ _ _ _ _ (ID j))|].
  - intros t d d' [(_ & _ & Ht) _]%list_elem_of_filter E. unfold Pg.UpdateTask in E. apply bool_decide_eq_true in Ht.
    destruct (tasks d !! t_ID t) as [r|] eqn:El; [|done]. injection E as <-. f_equal. apply map_eq. intros k.
    destruct (decide (k = t_ID t)) as [->|Hk].
    + rewrite lookup_insert_eq, lookup_partial_alter_eq, El. unfold effect. by rewrite Ht.
    + by rewrite lookup_insert_ne, lookup_partial_alter_ne.
  - eapply sublist_NoDup; [apply Hj|]. by apply fmap_sublist, sublist_filter.
  - intros []. fold (to_update (Tasks j)). set (ts1 := target _ _ ts). apply (t_bind _ _ _ _ _ (fun _ => txn s1 n d0 (mkView js ts1 lg cp D N) j)).
    { pose proof (wr_params j Hj) as Hp. destruct (Params j) as [p|]; [rewrite Hp|]; by apply t_ret. }
    intros []. unfold row_updated. destruct (IsDirty (j_ps j) || IsClean (j_ps j)); [|apply t_ret; intros w Hw; by exists js].
    eapply t_mono; [apply (s_exec _ (fun V => exists r, (js !! ID j = Some r /\ jr_last_update_ts r = occTime j) /\
      V = mkView (<[ID j := new_row j r]> js) ts1 lg cp D N))| |done|done].
    + intros d d' [H1 H2 H3 H4 [????]] E. cbn in H1, H2, H3, H4. unfold Pg.UpdateJob in E. rewrite H1 in E. destruct (js !! ID j) as [r|] eqn:Er; [|done].
      destruct (Z.eqb_spec (jr_last_update_ts r) (occTime j)); [|done]. injection E as <-. eexists. split; [by exists r|]. by split.
    + intros [] w (V & (r & [Hr1 Hr2] & ->) & Hw). eexists. split; [by exists r|done].
Qed.
End steps.

(** ** The whole of it *)

(** The job in memory after it has been saved. *)
Definition drop_params (j : Job) : Job := match Params j with Some p => if IsToDelete (cp_ps p) then set_Params None j else j | None => j end.
Definition drop_locks (j : Job) : Job :=
  set_Locked ((fun l => if IsToDelete (l_ps l) then mkLocked persistenceStateUNKNOWN ∅ else l) <$> LockedDatasets_ j) j.
Definition drop_tasks (j : Job) : Job := set_Tasks (dropDeleted (length (Tasks j)) (Tasks j)) j.
Definition pending (j : Job) : Job := set_NewLogs [] (drop_locks (drop_params (drop_tasks j))).
Definition saved (j : Job) : Job := cleaned (pending j).
Definition finished (j : Job) : Job := if IsToDelete (j_ps j) then set_j_ps persistenceStateDELETED (pending j) else saved j.

Lemma drop_params_fields j :
  Tasks (drop_params j) = Tasks j /\ LockedDatasets_ (drop_params j) = LockedDatasets_ j /\ j_ps (drop_params j) = j_ps j /\
  ID (drop_params j) = ID j /\ NewLogs (drop_params j) = NewLogs j.
Proof. unfold drop_params. destruct (Params j) as [p|]; [|done]. by destruct (IsToDelete _). Qed.
Lemma pending_fields j :
  Tasks (pending j) = dropDeleted (length (Tasks j)) (Tasks j) /\ j_ps (pending j) = j_ps j /\
  LockedDatasets_ (pending j) = (fun l => if IsToDelete (l_ps l) then mkLocked persistenceStateUNKNOWN ∅ else l) <$> LockedDatasets_ j.
Proof. unfold pending, drop_locks. cbn. destruct (drop_params_fields (drop_tasks j)) as (-> & -> & -> & _). done. Qed.

Lemma pending_clean w j :
  writable j -> job w = pending j -> Clean true w = (Ret tt, on_job cleaned (w : W)).
Proof.
  intros Hj E. destruct (pending_fields j) as (HT & Hp & HL). apply Clean_run; rewrite E.
  - rewrite Hp. apply Hj.
  - rewrite HT, dropDeleted_spec. apply Forall_forall. intros t [_ Ht]%list_elem_of_filter. by eapply Forall_forall in Ht; [|apply Hj].
  - rewrite HL. apply Forall_fmap. eapply Forall_impl; [apply Hj|]. intros l Hl. cbn. by destruct (IsToDelete _).
Qed.

Lemma logs_steps s1 n d0 js ts lg cp D N j :
  steps s1 n (txn s1 n d0 (mkView js ts lg cp D N) j) saveJobLogsTx
    (fun _ => txn s1 n d0 (mkView js ts (lg ++ ((fun l => (ID j, l)) <$> NewLogs j)) cp D N) (set_NewLogs [] j)).
Proof.
  apply s_gets. cbv beta delta [id].
  apply (t_bind _ _ _ _ _ (fun _ => txn s1 n d0 (mkView js ts (lg ++ ((fun l => (ID j, l)) <$> NewLogs j)) cp D N) j)).
  - destruct (NewLogs j) as [|l ls] eqn:E; cbn [length Nat.eqb]; [cbn; rewrite app_nil_r; by apply t_ret|].
    apply s_exec_to. intros d d' [H1 H2 H3 H4 [????]] [= <-]. cbn in *. rewrite <- H3. by split.
  - intros [] w (Hi & Hs & <-). by split.
Qed.

(** Updates leave a task with its job. *)
Lemma dirty_owner id id' l m :
  Forall (fun t => t_ps t = persistenceStateDIRTY) l -> map_Forall (fun _ (t : taskRow) => tr_job t <> id') m ->
  map_Forall (fun _ (t : taskRow) => tr_job t <> id') (target id l m).
Proof.
  induction 1 as [|t l Ht _ IH]; [done|]. intros Hm. specialize (IH Hm). rewrite target_cons. intros k r.
  destruct (decide (k = t_ID t)) as [->|Hk]; [|rewrite lookup_partial_alter_ne by done; apply IH].
  rewrite lookup_partial_alter_eq. unfold effect. rewrite Ht. destruct (target id l m !! t_ID t) as [q|] eqn:E; [|done].
  intros [= <-]. by apply (IH _ q E).
Qed.
Lemma params_staged j cp : params_created j (params_deleted j cp) = params_saved j cp.
Proof.
  unfold params_created, params_deleted, params_saved. destruct (Params j) as [p|]; [|done].
  destruct (decide (Type_ j = JobTypeCONSOLIDATION)) as [E|E].
  - rewrite bool_decide_eq_true_2 by done. rewrite !andb_true_r. by destruct (cp_ps p).
  - rewrite bool_decide_eq_false_2 by done. by rewrite !andb_false_r.
Qed.
Lemma row_staged j js js2 js3 ts :
  j_ps j <> persistenceStateUNKNOWN /\ j_ps j <> persistenceStateDELETED ->
  (IsToDelete (j_ps j) = true -> map_Forall (fun _ t => tr_job t <> ID j) (target (ID j) (to_delete (Tasks j)) ts)) ->
  row_created j (jobs_deleted j js) js2 -> (js2 !! ID j = None -> to_create (Tasks j) = []) -> row_updated j js2 js3 ->
  row_saved j js js3 (target (ID j) (to_update (Tasks j)) (target (ID j) (to_create (Tasks j)) (target (ID j) (to_delete (Tasks j)) ts))).
Proof.
  unfold row_created, jobs_deleted, row_updated, row_saved. intros [H1 H2] Hd. destruct (j_ps j); try done; cbn in *.
  - intros (? & ? & ->) _ ->. done.
  - by intros -> _.
  - by intros -> _.
  - intros -> Hc ->. split; [done|]. rewrite Hc by apply lookup_delete_eq. apply dirty_owner; [|by apply Hd].
    apply Forall_forall. intros t [(_ & _ & Ht) _]%list_elem_of_filter. by apply bool_decide_eq_true in Ht.
Qed.

Lemma save_steps s1 n d0 j :
  writable j ->
  steps s1 n (txn s1 n d0 (mkView (jobs d0) (tasks d0) (job_logs d0) (consolidation_params d0) (fun _ => False) (fun _ _ => False)) j) saveJobTx
    (fun _ w => intx s1 n w /\ stored j d0 (working (rest w)) /\ job w = finished j).
Proof.
  intros Hj. eapply t_bind; [by apply deletion_steps|]. intros []. apply t_pure. intros Hd. eapply t_bind; [by apply creation_steps|]. intros [].
  apply t_exists. intros js2. apply t_pure. intros [Hc He]. eapply t_bind; [by apply update_steps|]. intros []. apply t_exists. intros js3. apply t_pure. intros Hu.
  pose proof (row_staged j (jobs d0) js2 js3 (tasks d0) (wr_ps j Hj) Hd Hc He Hu) as Hrow.
  rewrite target_staged in * by apply Hj. rewrite params_staged. do 3 apply s_assign_then. eapply t_bind; [apply logs_steps|]. intros [].
  fold (drop_tasks j). fold (drop_params (drop_tasks j)). fold (drop_locks (drop_params (drop_tasks j))). fold (pending j).
  cbn [ID drop_locks set_Locked NewLogs]. destruct (drop_params_fields (drop_tasks j)) as (_ & _ & _ & -> & ->).
  apply s_gets. destruct (pending_fields j) as (_ & -> & _).
  assert (forall w, txn s1 n d0 (mkView js3 (target (ID j) (Tasks j) (tasks d0)) (job_logs d0 ++ ((fun l => (ID j, l)) <$> NewLogs j))
    (params_saved j (consolidation_params d0)) (gives j) (takes j)) (pending j) w -> intx s1 n w /\ stored j d0 (working (rest w))) as Hst.
  { intros w (Hi & [H1 H2 H3 H4 H5] & _). split; [done|]. cbn in *. split; congruence. }
  unfold finished. destruct (IsToDelete (j_ps j)); intros w Hw; destruct (Hst w Hw) as [Hi HS]; pose proof Hw as (_ & _ & HJ).
  - unfold assign, put, on_job. cbn. by rewrite HJ.
  - rewrite (pending_clean w j Hj HJ). unfold on_job. cbn. by rewrite HJ.
Qed.

(** A unit of work that is not inside another, by what it does in its transaction. *)
Lemma unitOfWork_spec (f : M unit) (w : W) (Q : db -> Job -> Prop) :
  let d := others (tick w) (committed (rest w)) in
  let s1 := mkService d d (length (job_logs d)) true (commits (rest w)) in
  inTxn (rest w) = false ->
  steps s1 (S (tick w)) (txn s1 (S (tick w)) d (mkView (jobs d) (tasks d) (job_logs d) (consolidation_params d) (fun _ => False) (fun _ _ => False)) (job w)) f
    (fun _ w' => intx s1 (S (tick w)) w' /\ Q (working (rest w')) (job w')) ->
  match unitOfWork f w with
  | (Ret _, w') => exists x, Q x (job w') /\
      committed (rest w') = set_job_logs (job_logs d ++ drop (length (job_logs d)) (job_logs x)) x /\
      commits (rest w') = commits (rest w) ++ [(d, committed (rest w'))] /\ inTxn (rest w') = false /\ (tick w < tick w')%nat
  | (Throw _, w') => committed (rest w') = d /\ commits (rest w') = commits (rest w) /\ inTxn (rest w') = false /\ (tick w < tick w')%nat
  | (Crash _, _) => False
  end.
Proof.
  intros d s1 Hi Hf. unfold unitOfWork, wrap, mayFail, call, mbind, eff_bind. rewrite Hi. cbn.
  destruct (fails (tick w)); [cbn; repeat (split; [done|]); lia|]. cbn -[commitTxn].
  set (w1 := mkWorld _ _ _). specialize (Hf w1). unfold try at 1.
  match type of Hf with ?P -> _ => assert P as Hw1 end.
  { split; [split; [done|]; split; [done|cbn; lia]|]. split; [|done]. split; try done. apply relocked_refl. }
  specialize (Hf Hw1). destruct (f w1) as [[[]|e|p] w2]; [|destruct Hf as (Hi2 & Hr2 & Hn2)|done].
  - destruct Hf as [(Hi2 & Hr2 & Hn2) HQ]. unfold try. assert (inTxn (rest w2) = true) as -> by (by rewrite Hr2).
    destruct (fails (tick w2)); cbn -[commitTxn]; rewrite Hr2.
    + cbn. repeat (split; [done|]). lia.
    + exists (working (rest w2)). split; [done|]. cbn. repeat (split; [done|]). lia.
  - cbn. rewrite Hr2. cbn. repeat (split; [done|]). lia.
Qed.

(** [saved] and the fields of a job. *)
Lemma saved_fields j :
  ID (saved j) = ID j /\ Type_ (saved j) = Type_ j /\ State (saved j) = State j /\ Waiting (saved j) = Waiting j /\
  ActiveTasks (saved j) = ActiveTasks j /\ FailedTasks (saved j) = FailedTasks j /\ LastUpdateTime (saved j) = LastUpdateTime j /\
  ExecutionLevel (saved j) = ExecutionLevel j /\ occTime (saved j) = LastUpdateTime j /\
  Tasks (saved j) = clean_task <$> dropDeleted (length (Tasks j)) (Tasks j).
Proof.
  unfold saved, pending, drop_locks, drop_params, drop_tasks. cbn. destruct (Params j) as [p|]; [|done]. by destruct (IsToDelete _).
Qed.
Lemma saved_tasks j : Tasks (saved j) ≡ₚ clean_task <$> filter (fun t => kept_task t = true) (Tasks j).
Proof. destruct (saved_fields j) as (_ & _ & _ & _ & _ & _ & _ & _ & _ & ->). by rewrite dropDeleted_spec. Qed.
Lemma clean_ps_kept p : p <> persistenceStateTODELETE -> clean_ps p = persistenceStateCLEAN.
Proof. intros H. unfold clean_ps. by rewrite decide_True. Qed.
Lemma saved_task_clean j t : t ∈ Tasks (saved j) -> t_ps t = persistenceStateCLEAN /\ exists u, u ∈ Tasks j /\ kept_task u = true /\ t = clean_task u.
Proof.
  rewrite saved_tasks. intros (u & -> & [Hu Hin]%list_elem_of_filter)%list_elem_of_fmap. split; [|by exists u].
  apply clean_ps_kept. intros E. unfold kept_task in Hu. by rewrite E in Hu.
Qed.
Lemma saved_savable j : writable j -> j_ps j <> persistenceStateTODELETE -> savable (saved j).
Proof.
  intros Hj Hd. assert (j_ps (saved j) = persistenceStateCLEAN) as Hps.
  { change (clean_ps (j_ps (pending j)) = persistenceStateCLEAN). destruct (pending_fields j) as (_ & -> & _). by apply clean_ps_kept. }
  split; [by left|]. split; [by rewrite Hps| | | |].
  - rewrite saved_tasks, <- list_fmap_compose. eapply sublist_NoDup; [apply (wr_nodup j Hj)|]. apply fmap_sublist, sublist_filter.
  - apply Forall_forall. intros t [-> _]%saved_task_clean. done.
  - change (LockedDatasets_ (saved j)) with (clean_lock <$> LockedDatasets_ (pending j)). destruct (pending_fields j) as (_ & _ & ->). rewrite <- list_fmap_compose. apply Forall_fmap.
    eapply Forall_impl; [apply (wr_locks j Hj)|]. intros l Hl. cbn. destruct (IsToDelete _); cbn; unfold clean_ps; by case_decide.
  - pose proof (wr_params j Hj) as Hp. change (Params (saved j)) with (Params (drop_params (drop_tasks j))).
    unfold drop_params. change (Params (drop_tasks j)) with (Params j). destruct (Params j) as [p|] eqn:E.
    + destruct (IsToDelete _); [done|]. change (Params (drop_tasks j)) with (Params j). by rewrite E.
    + change (Params (drop_tasks j)) with (Params j). by rewrite E.
Qed.

Lemma saveJob_run (w : W) :
  writable (job w) -> inTxn (rest w) = false ->
  let j := job w in let d := others (tick w) (committed (rest w)) in
  match saveJob w with
  | (Ret _, w') => stored j d (committed (rest w')) /\ commits (rest w') = commits (rest w) ++ [(d, committed (rest w'))] /\
      job w' = finished j /\ inTxn (rest w') = false /\ (tick w < tick w')%nat
  | (Throw _, w') => committed (rest w') = d /\ commits (rest w') = commits (rest w) /\ inTxn (rest w') = false /\ (tick w < tick w')%nat
  | (Crash _, _) => False
  end.
Proof.
  intros Hj Hi j d. pose proof (unitOfWork_spec saveJobTx w (fun d' j' => stored j d d' /\ j' = finished j) Hi) as H.
  fold j d in H. cbv beta zeta in H. change saveJob with (unitOfWork saveJobTx). destruct (unitOfWork saveJobTx w) as [[[]|e|p] w'].
  all: lapply H; clear H; [intros H|by apply save_steps].
  - destruct H as (x & ([H1 H2 H3 H4 [????]] & HJ) & Ec & Hc & Hi' & Hn).
    rewrite Ec, H3, drop_app_length in Hc |- *. split; [|done]. split; [exact H1|exact H2|done|exact H4|by split].
  - done.
  - done.
Qed.

(** C21. Saving a job changes all tables or none, whatever fails on the way and whatever
    others did since the job was read: a job that is new, unchanged, changed or to be deleted,
    that has no task twice, and whose parameters are not marked as changed, which panics.
    If it succeeds, exactly one commit was made, and it changes the tables, as others left
    them, to those the job stands for. The row of the job is created, if there is none and no
    job of its name; or updated, with the state, the counters and the version of the job, if
    it still has the version the job was read with; or deleted, whatever its version, if none
    of its tasks is left. The rows of its tasks are created, updated and deleted; its new logs
    are added; its parameters are created or deleted; the datasets it gives back are unlocked
    and those it takes are locked, in the table of locks and in their rows, in which nothing
    else changes; and no other row changes. The job in memory can then be saved again, unless
    it was deleted. If it does not succeed, there was no commit. It never panics. *)
Theorem saveJob_atomic (w : W) :
  writable (job w) -> inTxn (rest w) = false ->
  let j := job w in let d := others (tick w) (committed (rest w)) in
  match saveJob w with
  | (Ret _, w') => stored j d (committed (rest w')) /\ commits (rest w') = commits (rest w) ++ [(d, committed (rest w'))] /\
      if IsToDelete (j_ps j) then j_ps (job w') = persistenceStateDELETED
      else savable (job w') /\ occTime (job w') = LastUpdateTime j
  | (Throw _, w') => committed (rest w') = d /\ commits (rest w') = commits (rest w)
  | (Crash _, _) => False
  end.
Proof.
  intros Hj Hi j d. pose proof (saveJob_run w Hj Hi) as H. cbv zeta in H. fold j d in H. destruct (saveJob w) as [[[]|e|p] w']; [| |done].
  - destruct H as (HS & Hc & -> & _). split; [done|]. split; [done|]. unfold finished. destruct (IsToDelete (j_ps j)) eqn:E; [done|].
    split; [|apply saved_fields]. apply saved_savable; [done|]. by apply bool_decide_eq_false in E.
  - by destruct H as (? & ? & _).
Qed.
End save.
