(* ===== verification/JobEvents.v ===== *)
(** * Events of tasks and jobs, from several processes at once ([raster/svc/operations.go])

    The handlers of events read a job, change it and save it; meanwhile other processes do the
    same. If each of them only commits steps of the kind defined here, so do these handlers,
    and the counters of every job stay those of its tasks. *)

From Stdlib Require Import Ascii String ZArith Lia Bool.
From stdpp Require Import base list strings option sets gmap.
From S2P Require Import Prelude GoStd Strconv Effects Enumer Job JobFacts JobStore JobSync JobSave.

Local Open Scope Z_scope.

(** ** The handlers *)

Section handlers.
Context {CK : Clock} {OUT : Outside}.
Abbreviation M := (eff gcError gcPanic W).

(** The event to publish when no task is active any more. *)
Definition completion : M (option (JobStatus * string)) :=
  j ← this id;
  if ActiveTasks j =? 0 then
    match State j with
    | JobStateCONSOLIDATIONCANCELLING => LogMsg INFO "Job has been canceled";; mret (Some (CancellationDone, ""))
    | JobStateCANCELLATIONFAILED | JobStateABORTED | JobStateROLLBACKFAILED | JobStateFAILED => mret None
    | _ =>
      if 0 <? FailedTasks j
      then mret (Some (ConsolidationFailed, "Job failed: " +:+ FormatInt (FailedTasks j) +:+ " tasks failed" +:+ String "010" ""))
      else mret (Some (ConsolidationDone, ""))
    end
  else mret None.

(** The part of [handleTaskEvt] up to the event it publishes, if any. *)
Definition handleTaskEvt (evt : TaskEvent) : M (option (JobStatus * string)) :=
  let ctx := Wrapped ("handleTaskEvt(" +:+ te_TaskID evt +:+ ").") in
  if decide (te_Status evt = TaskCancelled) then mret None
  else
    j ← wrap ctx (queryDb (Pg.ReadJobWithTask (te_JobID evt) (te_TaskID evt)));
    loadJob j;;
    if decide (State j = JobStateFAILED) then mret None
    else
      Clean true;;
      wrap ctx (UpdateTask evt);;
      s ← orCrash (TaskStatus_String (te_Status evt));
      LogMsg DEBUG ("TaskEvt received with status " +:+ s +:+ " (id:" +:+ te_TaskID evt +:+ ", err:" +:+ te_Error evt +:+ ")");;
      wrap ctx saveJob;;
      completion.

(** The part of [handleJobEvt] up to the commands of the new state. *)
Definition advanceJob (evt : JobEvent) : M unit :=
  wrap (Wrapped "handleJobEvt.") (GetJob (evt_JobID evt));;
  wrap (Wrapped "handleJobEvt.") (Trigger evt);;
  wrap (Wrapped "handleJobEvt.") saveJob.
End handlers.

(** ** Tables that agree with themselves *)

(** A job that is being rolled back, or was: its tasks are deleted and its counters are not
    kept. There is no way out of these states. *)
Definition aborted (s : JobState) : bool := match s with JobStateABORTED | JobStateROLLBACKFAILED | JobStateFAILED => true | _ => false end.

Definition row_ok (m : gmap string taskRow) (id : string) (r : jobRow) : Prop :=
  in_states (jr_type r) (jr_state r) = true /\ jr_type r <> JobTypeINGESTION /\
  (aborted (jr_state r) = false -> jr_active_tasks r = count is_active id m /\ jr_failed_tasks r = count is_failed id m).
Definition db_ok (d : db) : Prop := map_Forall (fun id r => row_ok (tasks d) id r) (jobs d).

(** The tasks of a job are the same. *)
Definition same_tasks (id : string) (m m' : gmap string taskRow) : Prop :=
  forall k t, tr_job t = id -> m !! k = Some t <-> m' !! k = Some t.
#[global] Instance same_tasks_equiv id : Equivalence (same_tasks id).
Proof. split; [done| |]; unfold same_tasks; [intros a b H k t Ht; by rewrite H|intros a b c H H' k t Ht; by rewrite H, H']. Qed.
Lemma same_count P id m m' : same_tasks id m m' -> count P id m = count P id m'.
Proof. intros H. apply count_ext. intros k r Hr. by apply H. Qed.

Section concurrent.
Context {CK : Clock} {OUT : Outside} (birth : string -> nat).

(** The tables at call [n]: ids were made before, and versions are readings of the clock
    before. *)
Record tables_ok (n : nat) (d : db) : Prop := {
  to_ok : db_ok d;
  to_born : forall id r, jobs d !! id = Some r -> (birth id < n)%nat;
  to_dated : forall id r k, jobs d !! id = Some r -> (n <= k)%nat -> jr_last_update_ts r < time_at k }.
(** What a process may commit: a row that changes, or has tasks that change, gets a later
    version; an id is never used again. *)
Definition step (n : nat) (d d' : db) : Prop :=
  forall id r', jobs d' !! id = Some r' ->
    match jobs d !! id with
    | Some r => (r' = r /\ same_tasks id (tasks d) (tasks d')) \/ jr_last_update_ts r < jr_last_update_ts r'
    | None => (n <= birth id)%nat
    end.
(** Other processes, and a clock that goes forward. *)
Class Peers : Prop := {
  clock_forward : forall a b, (a < b)%nat -> time_at a < time_at b;
  peers_ok : forall n d, tables_ok n d -> tables_ok (S n) (others n d);
  peers_step : forall n d, tables_ok n d -> step n d (others n d) }.
Context {PE : Peers}.

Lemma tables_later n n' d : (n <= n')%nat -> tables_ok n d -> tables_ok n' d.
Proof.
  intros Hn [H1 H2 H3]. split; [done| |].
  - intros id r H. specialize (H2 id r H). lia.
  - intros id r k H Hk. apply (H3 id r k H). lia.
Qed.

(** ** A job that was read *)

(** Its row has a later version, or else it is [r0], and the tasks are as in [m]. *)
Definition current (m : gmap string taskRow) (r0 : jobRow) (j : Job) (d : db) : Prop :=
  forall r, jobs d !! ID j = Some r ->
    occTime j <= jr_last_update_ts r /\ (jr_last_update_ts r = occTime j -> r = r0 /\ same_tasks (ID j) m (tasks d)).
Lemma current_step m r0 j n d d' : (birth (ID j) < n)%nat -> step n d d' -> current m r0 j d -> current m r0 j d'.
Proof.
  intros Hb Hs Hc r' Hr'. specialize (Hs _ _ Hr'). destruct (jobs d !! ID j) as [r|] eqn:E; [|lia]. destruct (Hc r E) as [H1 H2].
  destruct Hs as [[-> Hs]|Hs]; [|split; lia]. split; [done|]. intros Hv. destruct (H2 Hv) as [? H]. split; [done|]. by rewrite H.
Qed.

Definition has_row (id : string) (m : gmap string taskRow) (t : Task) : Prop := exists q, m !! t_ID t = Some q /\ tr_job q = id.
(** The job in memory: its tasks have rows in [m] and, unless it is being rolled back, its
    counters agree with them. *)
Record sound (m : gmap string taskRow) (j : Job) : Prop := {
  sd_savable : savable j;
  sd_states : in_states (Type_ j) (State j) = true;
  sd_type : Type_ j <> JobTypeINGESTION;
  sd_rows : Forall (has_row (ID j) m) (Tasks j);
  sd_tasks : Forall (task_ok (ID j) m) (Tasks j);
  sd_params : Params j = None;
  sd_locks : Forall (fun l => l_ps l = persistenceStateCLEAN) (LockedDatasets_ j);
  sd_counts : aborted (State j) = false -> agrees m j }.

(** What a task with a row makes of it is a row of the same job. *)
Lemma effect_own id m t r : has_row id m t -> effect id t (m !! t_ID t) = Some r -> tr_job r = id.
Proof.
  intros (q & -> & Hq). unfold effect. destruct (t_ps t); cbn; intros E; try done; by injection E as <-.
Qed.
Lemma same_has_row id m m' t : same_tasks id m m' -> has_row id m t -> has_row id m' t.
Proof. intros H (q & Hq & Hj). exists q. split; [by apply H|done]. Qed.
(** Saving a job changes the rows of its own tasks only. *)
Lemma target_others id id' ts m :
  id' <> id -> NoDup (t_ID <$> ts) -> Forall (has_row id m) ts -> same_tasks id' m (target id ts m).
Proof.
  intros Hne Hnd Hts k u Hu. destruct (decide (k ∈ t_ID <$> ts)) as [(t & -> & Ht)%list_elem_of_fmap|Hk]; [|by rewrite target_other].
  rewrite target_elem by done. rewrite Forall_forall in Hts. specialize (Hts t Ht). split; intros E; exfalso.
  - destruct Hts as (q & Hq & Hj). congruence.
  - pose proof (effect_own _ _ _ _ Hts E). congruence.
Qed.
Lemma target_same id ts m m' :
  same_tasks id m m' -> NoDup (t_ID <$> ts) -> Forall (has_row id m) ts ->
  same_tasks id (target id ts m) (target id ts m').
Proof.
  intros Hs Hnd Hts k u Hu. destruct (decide (k ∈ t_ID <$> ts)) as [(t & -> & Ht)%list_elem_of_fmap|Hk]; [|rewrite !target_other by done; by apply Hs].
  rewrite !target_elem by done. rewrite Forall_forall in Hts. destruct (Hts t Ht) as (q & Hq & Hj). rewrite Hq. by rewrite (proj1 (Hs _ q Hj) Hq).
Qed.

(** ** Committing *)

(** A commit that, but for logs of the job, leaves all tables other than jobs and tasks. *)
Record contained (id : string) (d d' : db) : Prop := {
  cn_logs : exists ls, job_logs d' = job_logs d ++ ((fun l => (id, l)) <$> ls);
  cn_params : consolidation_params d' = consolidation_params d;
  cn_locks : locked_datasets d' = locked_datasets d;
  cn_datasets : datasets d' = datasets d }.
Lemma sound_contained m j d d' : sound m j -> stored j d d' -> contained (ID j) d d'.
Proof.
  intros Hs [_ _ Hl Hp Hr]. pose proof (sd_locks _ _ Hs) as Hcl. rewrite Forall_forall in Hcl.
  assert (forall v, ~ gives j v) as Hg.
  { intros v [_ [E|(l & El & E)]]; [destruct (sv_ps _ (sd_savable _ _ Hs)); congruence|].
    rewrite (Hcl l) in E; [done|]. apply list_elem_of_lookup. eauto. }
  assert (forall k v, ~ takes j k v) as Ht.
  { intros k v [_ (l & El & E & _)]. rewrite (Hcl l) in E; [by destruct E|]. apply list_elem_of_lookup. eauto. }
  split; [by eexists| | |by apply Hr].
  - rewrite Hp. unfold params_saved. by rewrite (sd_params _ _ Hs).
  - apply map_eq. intros k. apply option_eq. intros v. rewrite (rl_locks _ _ _ _ Hr). specialize (Hg v). specialize (Ht k v). tauto.
Qed.

Section commit.
Context (n : nat) (d d' : db) (m : gmap string taskRow) (r0 : jobRow) (j : Job) (r : jobRow).
Hypotheses (Hd : tables_ok n d) (Hj : sound m j) (Hcur : current m r0 j d) (HT : jr_type r0 = Type_ j).
Hypotheses (Hr : jobs d !! ID j = Some r) (Hv : jr_last_update_ts r = occTime j).
Hypotheses (Hjs : jobs d' = <[ID j := new_row j r]> (jobs d)) (Hts : tasks d' = target (ID j) (Tasks j) (tasks d)).

Lemma commit_same : r = r0 /\ same_tasks (ID j) m (tasks d).
Proof. by apply (Hcur r Hr). Qed.
Lemma commit_rows : Forall (has_row (ID j) (tasks d)) (Tasks j).
Proof. eapply Forall_impl; [apply (sd_rows m j Hj)|]. intros t. by apply same_has_row, commit_same. Qed.
Lemma commit_row : row_ok (tasks d') (ID j) (new_row j r).
Proof.
  destruct (Hcur r Hr) as [_ Hc]. destruct (Hc Hv) as [-> Hs]. split; [|split].
  - cbn. rewrite HT. apply Hj.
  - cbn. rewrite HT. apply Hj.
  - cbn. intros Ha. destruct (sd_counts m j Hj Ha) as [_ _ HA HF]. rewrite Hts, HA, HF.
    split; apply same_count, target_same; try done; first [apply (sd_rows m j Hj)|apply (sd_savable m j Hj)].
Qed.
Lemma commit_other id q : id <> ID j -> jobs d !! id = Some q -> row_ok (tasks d') id q.
Proof.
  intros Hne Hq. destruct (to_ok _ _ Hd id q Hq) as (? & ? & Hc). split; [done|]. split; [done|]. intros Ha. destruct (Hc Ha) as [-> ->].
  rewrite Hts. split; apply same_count, target_others; try done; first [apply commit_rows|apply (sd_savable m j Hj)].
Qed.
Lemma commit_tables : (forall k, (n <= k)%nat -> LastUpdateTime j < time_at k) -> tables_ok n d'.
Proof.
  intros Hk. split.
  - intros id q. rewrite Hjs. destruct (decide (id = ID j)) as [->|Hne].
    + rewrite lookup_insert_eq. intros [= <-]. apply commit_row.
    + rewrite lookup_insert_ne by done. by apply commit_other.
  - intros id q. rewrite Hjs. destruct (decide (id = ID j)) as [->|Hne].
    + intros _. by eapply to_born.
    + rewrite lookup_insert_ne by done. by apply to_born.
  - intros id q k. rewrite Hjs. destruct (decide (id = ID j)) as [->|Hne].
    + rewrite lookup_insert_eq. intros [= <-] Hn. by apply Hk.
    + rewrite lookup_insert_ne by done. by apply to_dated.
Qed.
(** A commit is a step, as those of others are. *)
Lemma commit_step : occTime j < LastUpdateTime j -> step n d d'.
Proof.
  intros Hl id q. rewrite Hjs. destruct (decide (id = ID j)) as [->|Hne].
  - rewrite lookup_insert_eq, Hr. intros [= <-]. right. cbn. lia.
  - rewrite lookup_insert_ne by done. intros ->. left. split; [done|]. rewrite Hts. apply target_others; [done|apply (sd_savable m j Hj)|apply commit_rows].
Qed.
End commit.

(** ** Saving what was read *)

(** A process that is not in a transaction, with a job it has read. *)
Record held (m : gmap string taskRow) (r0 : jobRow) (w : W) : Prop := {
  hd_out : inTxn (rest w) = false;
  hd_tables : tables_ok (tick w) (committed (rest w));
  hd_born : (birth (ID (job w)) < tick w)%nat;
  hd_current : current m r0 (job w) (committed (rest w));
  hd_type : jr_type r0 = Type_ (job w);
  hd_sound : sound m (job w) }.
Definition idle (w : W) : Prop := inTxn (rest w) = false /\ tables_ok (tick w) (committed (rest w)).
(** The clock was read after the job was. *)
Definition touched (w : W) : Prop :=
  occTime (job w) < LastUpdateTime (job w) /\ forall k, (tick w <= k)%nat -> LastUpdateTime (job w) < time_at k.

Lemma saveJob_held m r0 (w : W) :
  held m r0 w -> touched w ->
  let j := job w in let d := others (tick w) (committed (rest w)) in
  match saveJob w with
  | (Ret _, w') => let d' := committed (rest w') in
      (idle w' /\ job w' = saved j /\ commits (rest w') = commits (rest w) ++ [(d, d')]) /\
      (tables_ok (S (tick w)) d /\ step (S (tick w)) d d' /\ contained (ID j) d d') /\
      jobs d !! ID j = Some r0 /\ jobs d' = <[ID j := new_row j r0]> (jobs d) /\ jr_last_update_ts r0 = occTime j /\
      row_ok (tasks d') (ID j) (new_row j r0) /\ tasks d' = target (ID j) (Tasks j) (tasks d) /\ same_tasks (ID j) m (tasks d)
  | (Throw _, w') => idle w' /\ commits (rest w') = commits (rest w)
  | (Crash _, _) => False
  end.
Proof.
  intros [Ho Ht Hb Hc HT Hs] [Ht1 Ht2] j d. pose proof (saveJob_run w (sv_writable _ (sd_savable _ _ Hs)) Ho) as H. cbv zeta in H. fold j d in H.
  pose proof (peers_ok (tick w) _ Ht) as Hd. pose proof (current_step _ _ _ _ _ _ Hb (peers_step _ _ Ht) Hc) as Hc'. fold d in Hd, Hc'. fold j in Hc', Hs, Ht1, Ht2, HT.
  destruct (saveJob w) as [[[]|e|p] w']; [| |done].
  - destruct H as (HS & Hcm & HJ & Hi & Hn). pose proof (sound_contained _ _ _ _ Hs HS) as Hcn. destruct HS as [Hrow Hts _ _ _].
    assert (exists r, jobs d !! ID j = Some r /\ jr_last_update_ts r = occTime j /\ jobs (committed (rest w')) = <[ID j := new_row j r]> (jobs d)) as (r & Hr & Hv & Hjs).
    { unfold row_saved in Hrow. by destruct (sv_ps _ (sd_savable _ _ Hs)) as [E|E]; rewrite E in Hrow. }
    assert (job w' = saved j) as HJ' by (rewrite HJ; unfold finished; by destruct (sv_ps _ (sd_savable _ _ Hs)) as [E|E]; rewrite E).
    assert (forall k, (S (tick w) <= k)%nat -> LastUpdateTime j < time_at k) as Hk by (intros k Hk; apply Ht2; lia).
    split; [split; [split; [done|]; eapply (tables_later (S (tick w))); [lia|]; by eapply commit_tables|by split]|].
    split; [split; [done|]; split; [by eapply commit_step|done]|]. destruct (Hc' r Hr) as [_ H]. destruct (H Hv) as [-> Hsame].
    do 3 (split; [done|]). split; [by eapply commit_row|]. by split.
  - destruct H as (HC & Hcm & Hi & Hn). split; [|done]. split; [done|]. rewrite HC. eapply (tables_later (S (tick w))); [lia|done].
Qed.

(** ** Reading a job *)

Lemma queryDb_run {A} (q : db -> result gcError A) (w : W) :
  idle w ->
  let d := others (tick w) (committed (rest w)) in let w1 := mkWorld (job w) (S (tick w)) (set_committed d (rest w)) in
  idle w1 /\ match queryDb q w with (Ret a, w') => w' = w1 /\ q d = Ok a | (Throw _, w') => w' = w1 | (Crash _, _) => False end.
Proof.
  intros [Hi Ht] d w1. split; [split; [done|by apply peers_ok]|]. unfold queryDb, mayFail, call, mbind, eff_bind. rewrite Hi.
  destruct (fails (tick w)); [done|]. cbn. fold d. destruct (q d) eqn:E; done.
Qed.

Lemma target_clean id ts m : Forall (fun t => t_ps t = persistenceStateCLEAN) ts -> target id ts m = m.
Proof.
  induction 1 as [|t ts Ht _ IH]; [done|]. rewrite target_cons, IH. apply map_eq. intros k. destruct (decide (k = t_ID t)) as [->|Hk].
  - rewrite lookup_partial_alter_eq. unfold effect. by rewrite Ht.
  - by rewrite lookup_partial_alter_ne.
Qed.
Lemma clean_agree id ts m a f :
  NoDup (t_ID <$> ts) -> Forall (fun t => t_ps t = persistenceStateCLEAN) ts -> Forall (task_ok id m) ts ->
  a = count is_active id m -> f = count is_failed id m -> agree m id ts a f.
Proof. intros ?? ? -> ->. split; [done|]. split; [done|]. by rewrite target_clean. Qed.

(** A task as it is read. *)
Definition read_task (id : string) (m : gmap string taskRow) (t : Task) : Prop :=
  t_ps t = persistenceStateUNKNOWN /\ exists q, m !! t_ID t = Some q /\ tr_state q = t_State t /\ tr_job q = id.
Lemma loaded n d id r ts :
  tables_ok n d -> jobs d !! id = Some r -> NoDup (t_ID <$> ts) -> Forall (read_task id (tasks d)) ts ->
  let j := cleaned (Pg.jobOfRow id r ts) in sound (tasks d) j /\ current (tasks d) r j d.
Proof.
  intros Ht Hr Hnd Hts j. destruct (to_ok _ _ Ht id r Hr) as (H1 & H2 & H3).
  assert (Forall (fun t => t_ps t = persistenceStateCLEAN) (Tasks j)) as Hcl.
  { apply Forall_fmap. eapply Forall_impl; [exact Hts|]. intros t [E _]. cbn. by rewrite E. }
  assert (NoDup (t_ID <$> Tasks j)) as Hnd' by (by cbn; rewrite <- list_fmap_compose).
  assert (Forall (task_ok id (tasks d)) (Tasks j)) as Hok.
  { apply Forall_fmap. eapply Forall_impl; [exact Hts|]. intros t [E Hq]. unfold task_ok. cbn. by rewrite E. }
  split; [split; try done|].
  - split; [by left|]. split; [done|done| |by repeat constructor|done]. eapply Forall_impl; [exact Hcl|]. by intros t ->.
  - apply Forall_fmap. eapply Forall_impl; [exact Hts|]. intros t (_ & q & ? & _ & ?). by exists q.
  - by repeat constructor.
  - intros Ha. destruct (H3 Ha) as [HA HF]. apply agrees_iff. by apply clean_agree.
  - intros q Hq. cbn in Hq. rewrite Hr in Hq. injection Hq as <-. split; [done|]. by intros _.
Qed.

(** ** Changing a job that was read *)

Lemma open_not_aborted s : open_state s = true -> aborted s = false.
Proof. by destruct s. Qed.
Lemma kept_savable j j' :
  kept j j' -> savable j -> NoDup (t_ID <$> Tasks j') -> Forall (fun t => t_ps t <> persistenceStateDELETED) (Tasks j') -> savable j'.
Proof.
  intros Hk [Hp [_ _ _ Hl Hpa]] Hnd Ht.
  assert (j_ps j' = persistenceStateCLEAN \/ j_ps j' = persistenceStateDIRTY) as Hp'.
  { destruct (kp_ps _ _ Hk) as [->|E]; [done|]. right. destruct Hp as [Hp|Hp]; rewrite Hp in E; by injection E. }
  split; [done|]. split; [by destruct Hp' as [->| ->]|done|done|by rewrite (kp_Locked _ _ Hk)|by rewrite (kp_Params _ _ Hk)].
Qed.
Lemma carry_held m r0 (w w' : W) :
  held m r0 w -> ID (job w') = ID (job w) -> occTime (job w') = occTime (job w) -> Type_ (job w') = Type_ (job w) ->
  rest w' = rest w -> (tick w <= tick w')%nat -> sound m (job w') -> held m r0 w'.
Proof.
  intros [Ho Ht Hb Hc HT _] Hid Hocc Hty Hr Hn Hs. split; rewrite ?Hr, ?Hid, ?Hty; try done; [by eapply tables_later|lia|].
  intros r. rewrite Hid, Hocc. apply Hc.
Qed.
Lemma worked_held m r0 (w w' : W) : held m r0 w -> worked w w' -> sound m (job w') -> held m r0 w'.
Proof. intros H [([] & Hr & _) Hn] Hs. by eapply carry_held. Qed.
Lemma quiet_sound m j j' : quiet j j' -> sound m j -> sound m j'.
Proof.
  intros Hq [Hsv Hst Hty Hro Hta Hpa Hlo Hco]. pose proof Hq as ([] & HS & _). split; try congruence.
  - eapply kept_savable; [by apply quiet_kept|done|..]; rewrite fr_Tasks; apply (sv_writable _ Hsv).
  - intros Ha. eapply agrees_quiet; [done|]. apply Hco. congruence.
Qed.
Lemma updated_sound m evt (w w' : W) :
  sound m (job w) -> updated m evt w (Ret tt, w') -> sound m (job w').
Proof.
  intros [Hsv Hst Hty Hro Hta Hpa Hlo Hco] ([(Hk & _) _] & (i & t & t' & Hi & _ & HT & Hid & _) & Ho).
  destruct (open_state (State (job w))) eqn:E; [|by subst]. destruct Ho as [Ha Hl].
  split; rewrite ?(kp_ID _ _ Hk), ?(kp_Type _ _ Hk), ?(kp_State _ _ Hk), ?(kp_Params _ _ Hk), ?(kp_Locked _ _ Hk); try done.
  - eapply kept_savable; [done|done|apply Ha|]. eapply Forall_impl; [exact Hl|]. by intros u [].
  - rewrite HT. apply Forall_insert; [done|]. unfold has_row. rewrite Hid. by eapply Forall_lookup_1 in Hro.
  - rewrite <- (kp_ID _ _ Hk). apply Ha.
Qed.
Lemma LogMsg_touched sev msg (w : W) :
  ps_alive (j_ps (job w)) -> timely w -> exists w', LogMsg sev msg w = (Ret tt, w') /\ within quiet w w' /\ touched w'.
Proof.
  intros Hp Ht. destruct (LogMsg_quiet sev msg w Hp) as (w' & E & Hq). exists w'. split; [done|]. split; [done|].
  unfold LogMsg, mbind, eff_bind, this, gets, time_Now, assign, put in E. cbn in E. set (w1 := on_job _ _) in E.
  destruct (dirty_run w1 Hp) as (p & _ & E'). rewrite E' in E. injection E as <-. split; cbn.
  - apply Ht. cbn. lia.
  - intros k Hk. apply clock_forward. cbn in *. lia.
Qed.

(** ** Counting to zero *)

(** Some task of a job is in a state; none is. *)
Definition some_task (P : TaskState -> bool) (id : string) (m : gmap string taskRow) : Prop :=
  exists k t, m !! k = Some t /\ tr_job t = id /\ P (tr_state t) = true.
Definition no_task (P : TaskState -> bool) (id : string) (m : gmap string taskRow) : Prop :=
  forall k t, m !! k = Some t -> tr_job t = id -> P (tr_state t) = false.
Lemma count_zero P id m : count P id m = 0 <-> no_task P id m.
Proof.
  split.
  - intros H k t Hk Hj. pose proof (count_ge P id m k t Hk) as Hge. unfold counts in Hge. rewrite bool_decide_eq_true_2 in Hge by done.
    destruct (P (tr_state t)); cbn in Hge; [lia|done].
  - intros H. unfold count. change 0 with (Z.of_nat 0). f_equal. apply map_size_empty_iff, map_empty. intros k. apply map_lookup_filter_None_2. right.
    intros t Hk. cbn. unfold counts. destruct (decide (tr_job t = id)) as [E|E]; [rewrite (H k t Hk E), andb_false_r|rewrite bool_decide_eq_false_2 by done]; done.
Qed.

(** ** Events of tasks *)

Lemma count_pos P id m : 0 < count P id m -> some_task P id m.
Proof.
  intros H. destruct (map_choose (filter (fun kv : string * taskRow => counts P id kv.2 = true) m)) as (k & t & Hk).
  { intros E. unfold count in H. rewrite E, map_size_empty in H. lia. }
  apply map_lookup_filter_Some in Hk as [Hk Hc]. unfold counts in Hc. cbn in Hc. apply andb_prop in Hc as [Hj%bool_decide_eq_true HP].
  by exists k, t.
Qed.
(** States in which nothing more is published. *)
Definition closing (s : JobState) : bool := match s with JobStateCANCELLATIONFAILED => true | _ => aborted s end.

(** What the tables [d] say about the event [o] to be published. *)
Definition verdict (id : string) (d : db) (r : jobRow) (o : option (JobStatus * string)) : Prop :=
  match o with
  | None => closing (jr_state r) = true \/ some_task is_active id (tasks d)
  | Some (s, _) => closing (jr_state r) = false /\ no_task is_active id (tasks d) /\
    ((s = CancellationDone /\ jr_state r = JobStateCONSOLIDATIONCANCELLING) \/
     (s = ConsolidationFailed /\ jr_state r <> JobStateCONSOLIDATIONCANCELLING /\ some_task is_failed id (tasks d)) \/
     (s = ConsolidationDone /\ jr_state r <> JobStateCONSOLIDATIONCANCELLING /\ no_task is_failed id (tasks d)))
  end.
(** A row with a later version and other counters. *)
Definition recounted (r r' : jobRow) : Prop :=
  jr_last_update_ts r < jr_last_update_ts r' /\
  r' = mkJobRow (jr_name r) (jr_type r) (jr_creation_ts r) (jr_last_update_ts r') (jr_state r) (jr_active_tasks r') (jr_failed_tasks r')
         (jr_payload r) (jr_execution_level r) (jr_waiting r).
(** The commit of a handler of the event of a task, and the event [o] to be published: the
    task has the state the event makes of the one it had, the job its counters, and nothing
    else has changed. *)
Definition task_commit (evt : TaskEvent) (d d' : db) (o : option (JobStatus * string)) : Prop :=
  exists r r' t, jobs d !! te_JobID evt = Some r /\ tasks d !! te_TaskID evt = Some t /\ tr_job t = te_JobID evt /\
    recounted r r' /\ jobs d' = <[te_JobID evt := r']> (jobs d) /\
    tasks d' = <[te_TaskID evt := mkTaskRow (task_next (tr_state t) (te_Status evt)) (tr_payload t) (tr_job t)]> (tasks d) /\
    contained (te_JobID evt) d d' /\ verdict (te_JobID evt) d' r' o.
(** What a handler of an event has done between [w] and [w'], when it did not fail: one commit. *)
Definition committed_once (R : db -> db -> Prop) (w w' : W) : Prop :=
  exists n d, commits (rest w') = commits (rest w) ++ [(d, committed (rest w'))] /\
    tables_ok n d /\ step n d (committed (rest w')) /\ R d (committed (rest w')).

(** The event is the one the tables call for. *)
Lemma completion_run (w : W) r :
  ps_alive (j_ps (job w)) -> row_ok (tasks (committed (rest w))) (ID (job w)) r ->
  jr_state r = State (job w) -> jr_active_tasks r = ActiveTasks (job w) -> jr_failed_tasks r = FailedTasks (job w) ->
  exists o w', completion w = (Ret o, w') /\ rest w' = rest w /\ (tick w <= tick w')%nat /\ verdict (ID (job w)) (committed (rest w)) r o.
Proof.
  intros Hp (_ & _ & Hc) HS HA HF. rewrite HS, HA, HF in Hc. unfold completion. unfold mbind at 1, eff_bind at 1, this, gets, id. unfold verdict. rewrite HS.
  set (m := tasks (committed (rest w))) in *. set (i := ID (job w)) in *.
  pose proof (count_nonneg is_active i m). pose proof (count_nonneg is_failed i m).
  assert (aborted (State (job w)) = false -> if ActiveTasks (job w) =? 0 then no_task is_active i m else some_task is_active i m) as HA'.
  { intros Ha. destruct (Hc Ha) as [E _]. destruct (Z.eqb_spec (ActiveTasks (job w)) 0); [apply count_zero; lia|apply count_pos; lia]. }
  assert (aborted (State (job w)) = false -> if 0 <? FailedTasks (job w) then some_task is_failed i m else no_task is_failed i m) as HF'.
  { intros Ha. destruct (Hc Ha) as [_ E]. destruct (Z.ltb_spec 0 (FailedTasks (job w))); [apply count_pos; lia|apply count_zero; lia]. }
  clear Hc HS HA HF. destruct (ActiveTasks (job w) =? 0).
  2:{ exists None, w. do 3 (split; [done|]). destruct (State (job w)); cbn; auto. }
  destruct (LogMsg_quiet INFO "Job has been canceled" w Hp) as (w2 & Hrun & Hq).
  assert (exists o w', (LogMsg INFO "Job has been canceled";; mret (Some (CancellationDone, ""))) w = (Ret o, w') /\ rest w' = rest w /\
    (tick w <= tick w')%nat /\ o = Some (CancellationDone, "")) as (o & w' & Hcan & Hr' & Ht' & Ho).
  { exists (Some (CancellationDone, "")), w2. unfold mbind, eff_bind. rewrite Hrun. split; [done|]. split; [apply Hq|]. split; [apply Hq|done]. }
  destruct (0 <? FailedTasks (job w)); destruct (State (job w)).
  all: first [by eexists None, w; do 3 (split; [done|]); left
    |eexists (Some _), w; do 3 (split; [done|]); cbn; split; [done|]; split; [by apply HA'|];
      first [by right; left; split; [done|]; split; [done|by apply HF']|by right; right; split; [done|]; split; [done|by apply HF']]
    |exists o, w'; split; [exact Hcan|]; do 2 (split; [done|]); rewrite Ho; cbn; split; [done|]; split; [by apply HA'|]; by left].
Qed.

(** Reading the job of an event. *)
Lemma ReadJobWithTask_ok id tid d j :
  Pg.ReadJobWithTask id tid d = Ok j ->
  exists r t, jobs d !! id = Some r /\ tasks d !! tid = Some t /\ tr_job t = id /\ j = Pg.jobOfRow id r [mkTask persistenceStateUNKNOWN tid (tr_state t) ""].
Proof.
  unfold Pg.ReadJobWithTask. destruct (jobs d !! id) as [r|]; [|done]. destruct (tasks d !! tid) as [t|]; [|done].
  destruct (decide _) as [E|]; [|done]. intros [= <-]. by exists r, t.
Qed.
Lemma held_loaded (w : W) id r ts :
  idle w -> jobs (committed (rest w)) !! id = Some r -> NoDup (t_ID <$> ts) ->
  Forall (read_task id (tasks (committed (rest w)))) ts -> job w = Pg.jobOfRow id r ts ->
  let w' := on_job cleaned w in
  Clean true w = (Ret tt, w') /\ held (tasks (committed (rest w))) r w' /\ timely w' /\ Forall live (Tasks (job w')).
Proof.
  intros [Hi Ht] Hr Hnd Hts HJ w'. destruct (loaded _ _ id r ts Ht Hr Hnd Hts) as [Hs Hc].
  split; [|split; [|split]].
  - apply Clean_run; rewrite HJ; [done| |by repeat constructor]. eapply Forall_impl; [exact Hts|]. by intros t [-> _].
  - split; cbn; rewrite ?HJ; try done. by eapply to_born.
  - intros k Hk. cbn. rewrite HJ. cbn. by eapply to_dated.
  - cbn. rewrite HJ. cbn. apply Forall_fmap. eapply Forall_impl; [exact Hts|]. intros t [E _]. unfold live. cbn. by rewrite E.
Qed.

(** The one task that was read, changed and saved. *)
Lemma target_one id m m' t q :
  same_tasks id m m' -> m !! t_ID t = Some q -> tr_job q = id -> task_ok id m t ->
  t_ps t = persistenceStateCLEAN \/ t_ps t = persistenceStateDIRTY ->
  m' !! t_ID t = Some q /\ target id [t] m' = <[t_ID t := mkTaskRow (t_State t) (tr_payload q) (tr_job q)]> m'.
Proof.
  intros Hs Hq Hj Hok Hps. assert (m' !! t_ID t = Some q) as Hq' by (by apply Hs). split; [done|]. cbn. apply map_eq. intros k.
  destruct (decide (k = t_ID t)) as [->|Hk]; [|by rewrite lookup_partial_alter_ne, lookup_insert_ne].
  rewrite lookup_partial_alter_eq, lookup_insert_eq, Hq'. unfold effect. destruct Hps as [E|E]; rewrite E; [|done].
  unfold task_ok in Hok. rewrite E in Hok. destruct Hok as (q' & Hq2 & <- & _). rewrite Hq in Hq2. injection Hq2 as <-. by destruct q.
Qed.

(** Saving the job and what is published, after the task was updated. *)
Lemma saved_report m r0 evt (f : gcError -> gcError) (w : W) t q :
  held m r0 w -> touched w -> ID (job w) = te_JobID evt -> Tasks (job w) = [t] -> t_ID t = te_TaskID evt ->
  t_ps t = persistenceStateCLEAN \/ t_ps t = persistenceStateDIRTY -> m !! t_ID t = Some q -> tr_job q = te_JobID evt ->
  t_State t = task_next (tr_state q) (te_Status evt) -> State (job w) = jr_state r0 -> Waiting (job w) = jr_waiting r0 ->
  match (wrap f saveJob;; completion) w with
  | (Ret o, w') => idle w' /\ committed_once (fun d d' => task_commit evt d d' o) w w'
  | (Throw _, w') => idle w' /\ commits (rest w') = commits (rest w)
  | (Crash _, _) => False
  end.
Proof.
  intros Hh Ht Hid HT Htid Hps Hq Hqj Hst HS0 HW0. pose proof (saveJob_held m r0 w Hh Ht) as H. cbv zeta in H. unfold wrap, mbind, eff_bind.
  destruct (saveJob w) as [[[]|e|p] w']; [|done|done].
  destruct H as (([Hi Htab] & HJ & Hcm) & (Hdok & Hstep & Hcn) & Hr0 & Hjs & Hv0 & Hrow & Hts & Hsame).
  destruct (saved_fields (job w)) as (Eid & _ & Est & _ & Ea & Ef & _). pose proof (sd_savable _ _ (hd_sound _ _ _ Hh)) as Hsv.
  destruct (completion_run w' (new_row (job w) r0)) as (o & w2 & -> & Hr & Htk & Hv); rewrite ?HJ, ?Eid, ?Est, ?Ea, ?Ef; try done.
  { assert (savable (saved (job w))) as Hss by (apply saved_savable; [apply Hsv|destruct (sv_ps _ Hsv) as [->| ->]; done]).
    intros E. destruct (sv_ps _ Hss) as [E'|E']; congruence. }
  rewrite HJ, Eid in Hv. rewrite Hid in *. split; [split; rewrite Hr; [done|by eapply tables_later]|].
  exists (S (tick w)), (others (tick w) (committed (rest w))). rewrite Hr. do 3 (split; [done|]).
  rewrite HT in Hts. assert (task_ok (te_JobID evt) m t) as Hok.
  { pose proof (sd_tasks _ _ (hd_sound _ _ _ Hh)) as Hall. rewrite HT, Hid in Hall. by inversion Hall. }
  destruct (target_one _ _ (tasks (others (tick w) (committed (rest w)))) t q Hsame Hq Hqj Hok Hps) as [Hq' Htg].
  exists r0, (new_row (job w) r0), q. rewrite <- Htid. do 3 (split; [done|]).
  split; [split; [cbn; rewrite Hv0; apply Ht|unfold new_row; cbn; by rewrite HS0, HW0]|]. split; [done|]. split; [by rewrite Hts, Htg, Hst|]. done.
Qed.

Lemma update_report m r0 evt (f : gcError -> gcError) (w : W) t q :
  held m r0 w -> timely w -> Tasks (job w) = [t] -> t_ps t = persistenceStateCLEAN -> m !! t_ID t = Some q -> tr_job q = te_JobID evt ->
  tr_state q = t_State t -> ID (job w) = te_JobID evt -> State (job w) = jr_state r0 -> Waiting (job w) = jr_waiting r0 ->
  match (wrap f (UpdateTask evt);;
         s ← orCrash (TaskStatus_String (te_Status evt));
         LogMsg DEBUG ("TaskEvt received with status " +:+ s +:+ " (id:" +:+ te_TaskID evt +:+ ", err:" +:+ te_Error evt +:+ ")");;
         wrap f saveJob;;
         completion) w with
  | (Ret o, w') => idle w' /\ committed_once (fun d d' => task_commit evt d d' o) w w'
  | (Throw _, w') => idle w' /\ commits (rest w') = commits (rest w)
  | (Crash p, _) => p = UndefinedTaskStatus /\ (te_Status evt = TaskSent \/ te_Status evt = TaskIgnored)
  end.
Proof.
  intros Hh Htm HT0 Hcl Hq Hqj Hqs Hid HS0 HW0. pose proof (hd_sound _ _ _ Hh) as Hs.
  assert (forall w, held m r0 w -> ps_alive (j_ps (job w))) as Halive.
  { intros w1 H1 E. destruct (sv_ps _ (sd_savable _ _ (hd_sound _ _ _ H1))) as [E'|E']; congruence. }
  assert (Forall live (Tasks (job w))) as Hl by (rewrite HT0; apply Forall_singleton; split; by rewrite Hcl).
  pose proof (UpdateTask_run m evt w (Halive w Hh) (fun H => sd_counts _ _ Hs (open_not_aborted _ H)) Hl) as Hup.
  unfold mbind at 1, eff_bind at 1, wrap at 1.
  destruct (UpdateTask evt w) as [[[]|e|p] w1]; [|cbn in Hup; subst; split; [by split; apply Hh|done]|done].
  pose proof (updated_sound m evt w w1 Hs Hup) as Hs1. destruct Hup as (Hw & (i & u & t' & Hi & Htid & HT & Hid' & Hst & Hps) & Ho).
  pose proof (worked_held m r0 w w1 Hh Hw Hs1) as Hh1. rewrite HT0 in Hi, HT. apply list_lookup_singleton_Some in Hi as [-> ->].
  cbn in HT. rewrite Hcl in Hps.
  destruct (TaskStatus_String (te_Status evt)) as [msg|p] eqn:E; unfold mbind at 1, eff_bind at 1; cbn [orCrash].
  2:{ cbn. destruct (te_Status evt); cbn in E; try done; injection E as <-; auto. }
  unfold mret, eff_ret. unfold mbind at 1, eff_bind at 1.
  assert (timely w1) as Htm1. { destruct Hw as [(Hk & _) Hn]. intros k Hle. rewrite (kp_occ _ _ Hk). apply Htm. lia. }
  destruct (LogMsg_touched DEBUG ("TaskEvt received with status " +:+ msg +:+ " (id:" +:+ te_TaskID evt +:+ ", err:" +:+ te_Error evt +:+ ")") w1 (Halive w1 Hh1) Htm1)
    as (w2 & -> & Hq2 & Htc).
  pose proof (worked_held m r0 w1 w2 Hh1 (quiet_worked _ _ Hq2) (quiet_sound _ _ _ (proj1 Hq2) Hs1)) as Hh2.
  assert (rest w2 = rest w) as Hrest by (destruct Hq2 as (_ & -> & _); apply Hw).
  assert (Tasks (job w2) = [t'] /\ ID (job w2) = te_JobID evt /\ State (job w2) = jr_state r0 /\ Waiting (job w2) = jr_waiting r0) as (HT2 & Hid2 & HS2 & HW2).
  { destruct Hq2 as (([] & ? & ?) & _). destruct Hw as [([] & _) _]. repeat split; congruence. }
  pose proof (saved_report m r0 evt f w2 t' q Hh2 Htc Hid2 HT2) as H. unfold committed_once in *. rewrite Hrest in H.
  destruct ((wrap f saveJob;; completion) w2) as [[o|e|p] w3]; [apply H..|exfalso; apply H]; try congruence.
  all: destruct Hps as [->|Hps]; [by left|right; by injection Hps].
Qed.

(** C20. An event of a task, while other processes handle events of the same job, up to the
    event it publishes. If what others commit are steps, the tables stay sound: the counters
    of every job that is not being aborted and did not fail are the numbers of its active and
    failed tasks. If the handler succeeds, it has made one commit, a step, in which the task
    has got the state the event makes of the one it had in the tables just before, the row of
    its job a later version and other counters, and nothing else has changed but logs; and the
    event it publishes is the one for done, failed or cancelled, as the rows of the tasks say,
    if no task of the job is active any more, and none while one is active or when the job is
    being closed. An event with the status cancelled does nothing, and one of a failed job
    commits nothing. If the handler fails, it has committed nothing. It panics only on an event
    whose status, ignored or sent, has no name. *)
Theorem handleTaskEvt_concurrent evt (w : W) :
  idle w ->
  match handleTaskEvt evt w with
  | (Ret o, w') => idle w' /\
      ((te_Status evt = TaskCancelled /\ o = None /\ w' = w) \/
       (o = None /\ commits (rest w') = commits (rest w) /\
        exists r, jobs (committed (rest w')) !! te_JobID evt = Some r /\ jr_state r = JobStateFAILED) \/
       committed_once (fun d d' => task_commit evt d d' o) w w')
  | (Throw _, w') => idle w' /\ commits (rest w') = commits (rest w)
  | (Crash p, _) => p = UndefinedTaskStatus /\ (te_Status evt = TaskSent \/ te_Status evt = TaskIgnored)
  end.
Proof.
  intros Hw. unfold handleTaskEvt. destruct (decide _) as [Hc|_]; [by split; [|left]|].
  set (f := Wrapped _). unfold mbind at 1, eff_bind at 1, wrap at 1.
  destruct (queryDb_run (Pg.ReadJobWithTask (te_JobID evt) (te_TaskID evt)) w Hw) as [H1 H]. set (w1 := mkWorld _ _ _) in *.
  destruct (queryDb _ w) as [[j|e|p] w']; [|by subst|done]. destruct H as [-> E].
  apply ReadJobWithTask_ok in E as (r & t & Hr & Ht & Hj & ->). unfold mbind at 1, eff_bind at 1, loadJob, assign, put.
  set (w2 := on_job _ w1). assert (idle w2) as H2 by exact H1. set (m := tasks (committed (rest w2))).
  destruct (decide _) as [HF|HF].
  { split; [done|]. right. left. split; [done|]. split; [done|]. exists r. split; [done|]. by cbn in HF. }
  destruct (held_loaded w2 (te_JobID evt) r [mkTask persistenceStateUNKNOWN (te_TaskID evt) (tr_state t) ""]) as (E & Hh & Htm & Hl); try done.
  { apply NoDup_singleton. }
  { apply Forall_singleton. split; [done|]. by exists t. }
  unfold mbind at 1, eff_bind at 1. rewrite E. set (w3 := on_job cleaned w2).
  pose proof (update_report m r evt f w3 (mkTask persistenceStateCLEAN (te_TaskID evt) (tr_state t) "") t
    Hh Htm eq_refl eq_refl Ht Hj eq_refl eq_refl eq_refl eq_refl) as H.
  revert H. match goal with |- _ -> match ?x with (_, _) => _ end => destruct x as [[o|e|p] w4] end; [|done|done].
  intros [? H]. split; [done|]. right. by right.
Qed.

(** ** Events of jobs *)

Lemma Trigger_touched evt (w w' : W) : job_ok (job w) -> timely w -> Trigger evt w = (Ret tt, w') -> touched w'.
Proof.
  intros Hok Ht. destruct (handle_spec evt w Hok) as (b & w1 & Hb & Hf & _). unfold Trigger, mbind, eff_bind, this, gets, id. rewrite Hb.
  destruct b; [|done]. assert (ps_alive (j_ps (job w1))) as Hp1 by (eapply frame_alive; [apply Hf|apply Hok]).
  assert (timely w1) as Ht1. { destruct Hf as (Hf & _ & Hn & _). intros k Hk. rewrite (fr_occ _ _ Hf). apply Ht. lia. }
  assert (forall msg, LogMsg INFO msg w1 = (Ret tt, w') -> touched w') as H.
  { intros msg. by destruct (LogMsg_touched INFO msg w1 Hp1 Ht1) as (w2 & -> & _ & ?); intros [= <-]. }
  destruct (Waiting (job w1)); apply H.
Qed.
Lemma aborted_closed t : closed t [JobStateABORTED; JobStateROLLBACKFAILED; JobStateFAILED] = true.
Proof. by destruct t. Qed.
Lemma next_aborted j status s wt : next j status = Some (s, wt) -> aborted s = false -> aborted (State j) = false.
Proof.
  intros Hn Hs. destruct (aborted (State j)) eqn:E; [|done]. exfalso.
  assert (s ∈ [JobStateABORTED; JobStateROLLBACKFAILED; JobStateFAILED]) as Hin.
  { eapply closed_next; [apply aborted_closed| |exact Hn]. destruct (State j); try done; set_solver. }
  rewrite !elem_of_cons in Hin. destruct Hin as [->|[->|[->|Hin]]]; try done. by apply not_elem_of_nil in Hin.
Qed.
Lemma trigger_sound m j j' status :
  sound m j -> frame j j' -> next j status = Some (State j', Waiting j') -> sound m j'.
Proof.
  intros [Hsv Hst Hty Hro Hta Hpa Hlo Hco] [] Hn. split; try congruence.
  - destruct Hsv as [Hp []].
    assert (j_ps j' = persistenceStateCLEAN \/ j_ps j' = persistenceStateDIRTY) as Hp'.
    { destruct fr_ps as [->|E]; [done|]. right. destruct Hp as [Hp|Hp]; rewrite Hp in E; by injection E. }
    split; [done|]. split; try congruence; [by destruct Hp' as [->| ->]|by rewrite fr_Params].
  - rewrite fr_Type. apply in_states_elem. eapply closed_next; [apply states_closed| |exact Hn]. by apply in_states_elem.
  - intros Ha. pose proof (Hco (next_aborted _ _ _ _ Hn Ha)) as [????]. split; congruence.
Qed.

Lemma GetJob_run id (w : W) :
  idle w ->
  match GetJob id w with
  | (Ret _, w') => exists r, jobs (committed (rest w')) !! id = Some r /\ job w' = cleaned (Pg.jobOfRow id r []) /\
      held (tasks (committed (rest w'))) r w' /\ timely w' /\ commits (rest w') = commits (rest w)
  | (Throw _, w') => idle w' /\ commits (rest w') = commits (rest w)
  | (Crash _, _) => False
  end.
Proof.
  intros Hw. unfold GetJob. unfold mbind at 1, eff_bind at 1, wrap. destruct (queryDb_run (Pg.ReadJob id) w Hw) as [H1 H]. set (w1 := mkWorld _ _ _) in *.
  destruct (queryDb _ w) as [[j|e|p] w']; [|by subst|done]. destruct H as [-> E]. unfold Pg.ReadJob in E.
  destruct (jobs _ !! id) as [r|] eqn:Hr; [|done]. injection E as <-. unfold mbind, eff_bind, loadJob, assign, put. set (w2 := on_job _ w1).
  destruct (held_loaded w2 id r []) as (-> & Hh & Ht & _); try done; [apply NoDup_nil_2|]. by exists r.
Qed.

(** The commit of a handler of the event of a job: the row of the job has a later version, and
    the state and the flag that follow from those it had; nothing else has changed. *)
Definition job_commit (evt : JobEvent) (d d' : db) : Prop :=
  exists r s wt v, jobs d !! evt_JobID evt = Some r /\ next (Pg.jobOfRow (evt_JobID evt) r []) (evt_Status evt) = Some (s, wt) /\
    jr_last_update_ts r < v /\ tasks d' = tasks d /\ contained (evt_JobID evt) d d' /\
    jobs d' = <[evt_JobID evt := mkJobRow (jr_name r) (jr_type r) (jr_creation_ts r) v s (jr_active_tasks r) (jr_failed_tasks r) (jr_payload r)
                                   (jr_execution_level r) wt]> (jobs d).

(** C23. An event of a job, while other processes handle events of the same job, up to where
    the job is saved in its new state, before the commands of that state are run. If what
    others commit are steps and the handler succeeds, it has made one commit, a step too: the
    row of the job moves from the state it has in the tables just before along an edge of the
    diagram, with a later version; but for logs of the job nothing else changes in any table;
    and the tables stay sound. If it fails, by a conflict or otherwise, it has committed
    nothing. It never panics. *)
Theorem advanceJob_concurrent evt (w : W) :
  idle w ->
  match advanceJob evt w with
  | (Ret _, w') => idle w' /\ committed_once (job_commit evt) w w'
  | (Throw _, w') => idle w' /\ commits (rest w') = commits (rest w)
  | (Crash _, _) => False
  end.
Proof.
  intros Hw. unfold advanceJob. unfold mbind at 1, eff_bind at 1, wrap at 1. pose proof (GetJob_run (evt_JobID evt) w Hw) as H.
  destruct (GetJob _ w) as [[[]|e|p] w1]; [|done|done]. destruct H as (r & Hr & HJ & Hh & Ht & Hcm1).
  set (m := tasks (committed (rest w1))) in *. pose proof (hd_sound _ _ _ Hh) as Hs.
  assert (job_ok (job w1)) as Hok. { split; [|by split; apply Hs]. intros E. destruct (sv_ps _ (sd_savable _ _ Hs)) as [E'|E']; congruence. }
  assert (next (job w1) (evt_Status evt) = next (Pg.jobOfRow (evt_JobID evt) r []) (evt_Status evt)) as En by (by rewrite HJ).
  pose proof (Trigger_spec evt w1 Hok) as HTr. unfold mbind, eff_bind, wrap. destruct (next (job w1) _) as [[s wt]|] eqn:Enx.
  2:{ destruct HTr as (e & w2 & -> & _ & Hq). pose proof (worked_held m r w1 w2 Hh (quiet_worked _ _ Hq) (quiet_sound _ _ _ (proj1 Hq) Hs)) as [? ? _ _ _ _].
      split; [by split|]. destruct Hq as (_ & -> & _). done. }
  destruct HTr as (w2 & Hrun & (Hf & Hr2 & Hn & _) & HS & HW). rewrite Hrun. pose proof (Trigger_touched evt w1 w2 Hok Ht Hrun) as Htc.
  assert (sound m (job w2)) as Hs2 by (eapply trigger_sound; [exact Hs|done|]; rewrite Enx, HS, HW; done).
  assert (held m r w2) as Hh2 by (eapply carry_held; [exact Hh|apply Hf|apply Hf|apply Hf|done..]).
  pose proof (saveJob_held m r w2 Hh2 Htc) as H. cbv zeta in H. unfold committed_once. rewrite <- Hcm1, <- Hr2.
  destruct (saveJob w2) as [[[]|e|p] w3]; [|done|done].
  destruct H as ((Hi & _ & Hcm) & (Hdok & Hst & Hcn) & Hd & Hjs & Hv & _ & Hts & _). split; [done|].
  assert (ID (job w2) = evt_JobID evt) as Hid by (rewrite (fr_ID _ _ Hf), HJ; done). rewrite Hid in *.
  exists (S (tick w2)), (others (tick w2) (committed (rest w2))). do 3 (split; [done|]).
  exists r, s, wt, (LastUpdateTime (job w2)). split; [done|]. split; [congruence|]. split; [rewrite Hv; apply Htc|].
  split; [rewrite Hts, (fr_Tasks _ _ Hf), HJ; done|]. split; [done|]. rewrite Hjs. unfold new_row.
  by rewrite HS, HW, (fr_active _ _ Hf), (fr_failed _ _ Hf), HJ.
Qed.
End concurrent.
