(* ===== verification/JobExamples.v ===== *)
(** * Jobs: examples

    Concrete jobs, tables and processes: they show that the hypotheses of the theorems about
    jobs can hold, and what some operations do in cases their authors did not mean. *)

From Stdlib Require Import Ascii String ZArith Lia Bool.
From stdpp Require Import base list strings option sets gmap.
From S2P Require Import Prelude GoStd Strconv Effects Enumer Job JobFacts JobStore JobSync JobSave JobEvents.

Local Open Scope Z_scope.
Local Open Scope string_scope.

Module JobExample.
#[local] Instance clock : Clock := fun n => 2 * Z.of_nat n.

(** ** A job in memory *)

Definition deletion : Job := NewDeletionJob "d" 1 1 1 "remove" ExecutionAsynchronous.
Definition alone : World unit := mkWorld deletion 0 tt.
Definition created : list JobEvent := [mkJobEvent "d" JobCreated ""; mkJobEvent "d" ConsolidationDone ""; mkJobEvent "d" DeletionReady ""].

Lemma deletion_ok : job_ok deletion.
Proof. split; [discriminate|]. split; [reflexivity|discriminate]. Defined.

Lemma job_lifecycle_witness :
  exists w', triggers created alone = (Ret tt, w') /\ State (job w') ∈ states JobTypeDELETION.
Proof.
  destruct (job_lifecycle created alone deletion_ok) as (w' & H & _ & Hs & _). exists w'. split; [exact H|exact Hs].
Defined.
Lemma job_can_finish_witness :
  exists evts w', triggers evts alone = (Ret tt, w') /\ (State (job w') = JobStateDONE \/ State (job w') = JobStateFAILED).
Proof.
  destruct (job_can_finish alone deletion_ok) as (evts & w' & _ & H & Hs). exists evts, w'. split; [exact H|exact Hs].
Defined.
(** A refused event leaves the job where it is. *)
Lemma created_state : State (job (triggers created alone).2) = JobStateDELETIONINPROGRESS.
Proof. reflexivity. Qed.

(** ** Two processes *)

Definition row (name : string) (active failed : Z) : jobRow :=
  mkJobRow name JobTypeCONSOLIDATION 0 1 JobStateCONSOLIDATIONINPROGRESS active failed (mkJobPayload "l" "i" name "") ExecutionAsynchronous false.
Definition tables : db :=
  mkDb {["c" := row "c" 1 0; "p" := row "p" 0 0]}
       {["t1" := mkTaskRow TaskStatePENDING "" "c"; "t2" := mkTaskRow TaskStateDONE "" "c"]} [] ∅ ∅ ∅.
(** The other process saves job p whenever it has a turn. *)
Definition touch (n : nat) (r : jobRow) : jobRow :=
  mkJobRow (jr_name r) (jr_type r) (jr_creation_ts r) (2 * Z.of_nat n) (jr_state r) (jr_active_tasks r) (jr_failed_tasks r) (jr_payload r)
    (jr_execution_level r) (jr_waiting r).
#[local] Instance outside : Outside := {|
  fails := fun _ => None;
  others := fun n d => set_jobs (alter (touch n) "p" (jobs d)) d |}.
Definition birth (id : string) : nat := 0.
Definition process : W := mkWorld (NewJob "") 1 (mkService tables tables 0 false []).

#[local] Instance peers : Peers birth.
Proof.
  split.
  - intros a b H. unfold time_at, clock. lia.
  - intros n d [H1 H2 H3].
    assert (forall id r, jobs (others n d) !! id = Some r -> exists q, jobs d !! id = Some q /\ (r = q \/ r = touch n q)) as Hlook.
    { intros id r. cbn. rewrite lookup_alter. destruct (decide ("p" = id)) as [<-|_]; [|intros ->; eauto].
      destruct (jobs d !! "p") as [q|]; [|done]. intros [= <-]. eauto. }
    split.
    + intros id r (q & Hq & [->| ->])%Hlook; by apply (H1 id q).
    + intros id r (q & Hq & _)%Hlook. specialize (H2 id q Hq). lia.
    + intros id r k (q & Hq & [->| ->])%Hlook Hk; [apply (H3 id q k Hq); lia|]. cbn. unfold time_at, clock. lia.
  - intros n d Hd id r'. cbn. rewrite lookup_alter. destruct (decide ("p" = id)) as [<-|_].
    + destruct (jobs d !! "p") as [q|] eqn:E; [|done]. intros [= <-]. right. cbn. pose proof (to_dated _ _ _ Hd _ q n E ltac:(lia)) as H.
      unfold time_at, clock in H. lia.
    + intros ->. by left.
Defined.

Lemma process_idle : idle birth process.
Proof.
  split; [reflexivity|]. split.
  - apply map_Forall_lookup_2. intros id r. cbn. intros H. apply lookup_insert_Some in H as [[<- <-]|[_ H%lookup_singleton_Some]].
    + split; [reflexivity|]. split; [discriminate|]. intros _. split; vm_compute; reflexivity.
    + destruct H as [<- <-]. split; [reflexivity|]. split; [discriminate|]. intros _. split; vm_compute; reflexivity.
  - intros id r _. cbn. unfold birth. lia.
  - intros id r k H Hk. cbn in H, Hk. unfold time_at, clock. apply lookup_insert_Some in H as [[<- <-]|[_ [<- <-]%lookup_singleton_Some]]; cbn; lia.
Defined.

Definition success : TaskEvent := mkTaskEvent "c" "t1" TaskSuccessful "".
Definition published : option (JobStatus * string) :=
  match handleTaskEvt success process with (Ret o, _) => o | _ => None end.
(** The last task is done: its job is. *)
Lemma success_publishes : published = Some (ConsolidationDone, "").
Proof. vm_compute. reflexivity. Qed.

Lemma success_commits :
  match handleTaskEvt success process with (Ret o, w') => bool_decide (o = published) && (length (commits (rest w')) =? 1)%nat | _ => false end = true.
Proof. vm_compute. reflexivity. Qed.

Lemma handleTaskEvt_concurrent_witness :
  exists w', handleTaskEvt success process = (Ret (Some (ConsolidationDone, "")), w') /\ idle birth w' /\
    committed_once birth (fun d d' => task_commit success d d' (Some (ConsolidationDone, ""))) process w'.
Proof.
  pose proof (handleTaskEvt_concurrent birth success process process_idle) as H. pose proof success_commits as E.
  rewrite success_publishes in E. destruct (handleTaskEvt success process) as [[o|e|p] w']; [|discriminate E|discriminate E].
  apply andb_prop in E as [Eo%bool_decide_eq_true El]. subst o. exists w'. split; [reflexivity|].
  destruct H as [Hi [(Hc & _)|[(Hc & _)|H]]]; [discriminate Hc|discriminate Hc|]. split; [exact Hi|exact H].
Defined.

Definition done_event : JobEvent := mkJobEvent "c" ConsolidationDone "".
Lemma done_moves : match advanceJob done_event process with (Ret _, w) => State (job w) = JobStateCONSOLIDATIONDONE | _ => False end.
Proof. vm_compute. reflexivity. Qed.
Lemma advanceJob_concurrent_witness :
  exists w', advanceJob done_event process = (Ret tt, w') /\ State (job w') = JobStateCONSOLIDATIONDONE /\
    idle birth w' /\ committed_once birth (job_commit done_event) process w'.
Proof.
  pose proof (advanceJob_concurrent birth done_event process process_idle) as H. pose proof done_moves as E.
  destruct (advanceJob done_event process) as [[[]|e|p] w']; [|destruct E|destruct E].
  exists w'. split; [reflexivity|]. split; [exact E|]. exact H.
Defined.

(** ** Saving *)

(** A new job with a new task that locks a dataset. *)
Definition parcel : datasetRow := mkDatasetRow "r" "i" "c" "" [] (mkMapping 0 0 0 0 0 0 0) DatasetStatusACTIVE "" false None.
Definition stocked : db := set_datasets {["s1" := parcel]} tables.
Definition newborn : Job :=
  set_Tasks [mkTask persistenceStateNEW "t9" TaskStateNEW ""]
    (set_Locked (<[0%nat := mkLocked persistenceStateNEW {["s1"]}]> (LockedDatasets_ deletion)) deletion).
Definition cradle : W := mkWorld newborn 1 (mkService stocked stocked 0 false []).
Lemma newborn_writable : writable newborn.
Proof. split; [by split|apply NoDup_singleton|by repeat constructor|by repeat constructor|done]. Defined.
Lemma newborn_saves : match saveJob cradle with (Ret _, _) => true | _ => false end = true.
Proof. vm_compute. reflexivity. Qed.
Lemma saveJob_atomic_witness :
  exists w', saveJob cradle = (Ret tt, w') /\ stored newborn (others 1 stocked) (committed (rest w')) /\ savable (job w').
Proof.
  pose proof (saveJob_atomic cradle newborn_writable eq_refl) as H. cbv zeta in H. pose proof newborn_saves as E.
  destruct (saveJob cradle) as [[[]|e|p] w']; [|discriminate E|discriminate E].
  exists w'. split; [reflexivity|]. destruct H as (H1 & _ & H2). split; [exact H1|exact (proj1 H2)].
Defined.
(** What it means: the row, the task and the lock are there. *)
Lemma newborn_rows :
  match saveJob cradle with
  | (Ret _, w) => let d := committed (rest w) in
    tasks d !! "t9" = Some (mkTaskRow TaskStateNEW "" "d") /\ locked_datasets d !! "s1" = Some ("d", 0%nat) /\
    (dr_locked_by <$> datasets d !! "s1") = Some (Some "d") /\ (jr_state <$> jobs d !! "d") = Some (State deletion)
  | _ => False
  end.
Proof. vm_compute. repeat split. Qed.

(** ** A conflict *)

(** Job p as it was before the other process saved it. *)
Definition stale : W := mkWorld (cleaned (Pg.jobOfRow "p" (row "p" 0 0) [])) 1 (mkService tables tables 0 false []).
(** It is refused, and the error says that it can be tried again. *)
Lemma stale_refused : match saveJob stale with (Throw e, _) => Temporary e = true | _ => False end.
Proof. vm_compute. reflexivity. Qed.

(** ** What was not meant *)

(** An event that a task is ignored always panics: its status has no name. *)
Lemma ignored_panics : match handleTaskEvt (mkTaskEvent "c" "t1" TaskIgnored "") process with (Crash UndefinedTaskStatus, _) => True | _ => False end.
Proof. vm_compute. exact I. Qed.
(** Tasks that were read and deleted without [Clean] are still counted. *)
Definition rolled : World unit :=
  mkWorld (Pg.jobOfRow "c" (row "c" 1 0) [mkTask persistenceStateUNKNOWN "t1" TaskStatePENDING ""]) 0 tt.
Lemma deleted_still_counted :
  match DeleteAllTasks rolled with
  | (Ret _, w) => t_ps <$> Tasks (job w) = [persistenceStateTODELETE] /\ ActiveTasks (job w) = 1
  | _ => False
  end.
Proof. vm_compute. split; reflexivity. Qed.
End JobExample.
